(** * Sidebar behaviour of the documentation site: search, keyboard
      navigation and drag-to-resize, embedded from the TypeScript sources.

    The scripts work on the live document tree.  The embedding keeps that
    shape: a document is a forest of nodes, an element is reached through
    the handle the script holds on it, and every operation of a script is a
    function from the state before to the state after. *)

From Stdlib Require Import List String Ascii ZArith Lia Bool Arith PeanoNat.
From Stdlib Require DecimalString DecimalPos.
Import ListNotations.


Local Open Scope string_scope.
Local Open Scope list_scope.
Local Open Scope nat_scope.

(* ================================================================== *)
(** * JavaScript strings *)
(* ================================================================== *)

(** A string is a sequence of code units.  The embedding covers the code
    units below 256 (Basic Latin and Latin-1, which holds the accented
    letters of Spanish); every such unit keeps its length under
    [toLowerCase]. *)
Module JsString.

Definition isUpper (n : nat) : bool :=
  ((65 <=? n) && (n <=? 90)) || ((192 <=? n) && (n <=? 222) && negb (n =? 215)).

Definition lowerChar (c : ascii) : ascii :=
  let n := nat_of_ascii c in
  if isUpper n then ascii_of_nat (n + 32) else c.

(** [String.prototype.toLowerCase] *)
Fixpoint toLowerCase (s : string) : string :=
  match s with
  | EmptyString => EmptyString
  | String c s' => String (lowerChar c) (toLowerCase s')
  end.

(** White space and line terminators that [trim] removes, below 256. *)
Definition isWhite (c : ascii) : bool :=
  let n := nat_of_ascii c in
  ((9 <=? n) && (n <=? 13)) || (n =? 32) || (n =? 160).

Fixpoint trimStart (s : string) : string :=
  match s with
  | EmptyString => EmptyString
  | String c s' => if isWhite c then trimStart s' else s
  end.

Fixpoint trimEnd (s : string) : string :=
  match s with
  | EmptyString => EmptyString
  | String c s' =>
      match trimEnd s' with
      | EmptyString => if isWhite c then EmptyString else String c EmptyString
      | t => String c t
      end
  end.

(** [String.prototype.trim] *)
Definition trim (s : string) : string := trimEnd (trimStart s).

Definition isEmpty (s : string) : bool :=
  match s with EmptyString => true | _ => false end.

Fixpoint strTake (n : nat) (s : string) : string :=
  match n, s with
  | S n', String c s' => String c (strTake n' s')
  | _, _ => EmptyString
  end.

Fixpoint strDrop (n : nat) (s : string) : string :=
  match n, s with
  | S n', String _ s' => strDrop n' s'
  | _, _ => s
  end.

(** [s.substring(a, b)] for [a <= b] *)
Definition substring (a b : nat) (s : string) : string :=
  strTake (b - a) (strDrop a s).

(** [s.substring(a)] *)
Definition substringFrom (a : nat) (s : string) : string := strDrop a s.

(** [s.startsWith(q)] *)
Fixpoint startsWith (q s : string) : bool :=
  match q, s with
  | EmptyString, _ => true
  | String a q', String b s' => Ascii.eqb a b && startsWith q' s'
  | String _ _, EmptyString => false
  end.

(** [s.indexOf(q)]; [None] stands for the result -1. *)
Fixpoint indexOf (q s : string) : option nat :=
  if startsWith q s then Some 0
  else match s with
       | EmptyString => None
       | String _ s' => option_map S (indexOf q s')
       end.

(** [s.includes(q)] *)
Definition includes (q s : string) : bool :=
  match indexOf q s with Some _ => true | None => false end.

(** Concatenation of a list of strings, in order. *)
Definition joinAll (l : list string) : string :=
  fold_right String.append EmptyString l.

End JsString.
Import JsString.

(* ================================================================== *)
(** * The document tree *)
(* ================================================================== *)

Module Dom.

(** What the scripts read and write on an element.  [ref] is the handle by
    which a script holds on to the element (an entry of a captured NodeList,
    [currentFocusedItem], an event target); the [<mark>] wrappers the search
    creates and never keeps carry none. *)
Record element : Type := mkElement {
  ref : option nat;
  tagName : string;
  classList : list string;
  attributes : list (string * string)
}.

Unset Elimination Schemes.
Inductive node : Type :=
| Text (data : string)
| Elem (e : element) (childNodes : list node).
Set Elimination Schemes.

Section node_induction.
Variable P : node -> Prop.
Hypothesis P_Text : forall s, P (Text s).
Hypothesis P_Elem : forall e ch, Forall P ch -> P (Elem e ch).

Fixpoint node_tree_ind (n : node) : P n :=
  match n with
  | Text s => P_Text s
  | Elem e ch =>
      P_Elem e ch
        ((fix children (l : list node) : Forall P l :=
            match l with
            | [] => Forall_nil P
            | c :: l' => Forall_cons c (node_tree_ind c) (children l')
            end) ch)
  end.
End node_induction.

(** The children of the document's root element, in document order. *)
Definition forest : Type := list node.

(** ** Reading *)

(** [node.textContent] *)
Fixpoint textContent (n : node) : string :=
  match n with
  | Text s => s
  | Elem _ ch => joinAll (map textContent ch)
  end.

(** The element itself followed by its descendant elements, in document
    order (text nodes left out). *)
Fixpoint selfAndDescendants (n : node) : list node :=
  match n with
  | Text _ => []
  | Elem _ ch => n :: flat_map selfAndDescendants ch
  end.

Definition elementsOf (f : forest) : list node := flat_map selfAndDescendants f.

Definition descendants (n : node) : list node :=
  match n with
  | Text _ => []
  | Elem _ ch => elementsOf ch
  end.

Definition hasClass (c : string) (e : element) : bool :=
  existsb (String.eqb c) (classList e).

Definition getAttribute (name : string) (e : element) : option string :=
  match find (fun kv => String.eqb name (fst kv)) (attributes e) with
  | Some kv => Some (snd kv)
  | None => None
  end.

Definition hasAttribute (name : string) (e : element) : bool :=
  match getAttribute name e with Some _ => true | None => false end.

(** The selectors the scripts use: compound selectors without
    combinators. *)
Inductive selector : Type :=
| SelTag (t : string)                       (* div *)
| SelClass (c : string)                     (* .c *)
| SelId (i : string)                        (* #i *)
| SelAttr (name : string)                   (* [name] *)
| SelAttrPrefix (name prefix : string)      (* [name^="prefix"] *)
| SelAttrContains (name part : string)      (* [name*="part"] *)
| SelNot (s : selector)                     (* :not(s) *)
| SelAnd (s1 s2 : selector).                (* s1s2 *)

Fixpoint matchesElement (s : selector) (e : element) : bool :=
  match s with
  | SelTag t => String.eqb t (tagName e)
  | SelClass c => hasClass c e
  | SelId i =>
      match getAttribute "id" e with Some v => String.eqb i v | None => false end
  | SelAttr name => hasAttribute name e
  | SelAttrPrefix name p =>
      match getAttribute name e with
      | Some v => negb (isEmpty p) && startsWith p v
      | None => false
      end
  | SelAttrContains name p =>
      match getAttribute name e with
      | Some v => negb (isEmpty p) && includes p v
      | None => false
      end
  | SelNot s' => negb (matchesElement s' e)
  | SelAnd s1 s2 => matchesElement s1 e && matchesElement s2 e
  end.

(** [element.matches(s)] lifted to nodes: a text node matches nothing. *)
Definition matches (s : selector) (n : node) : bool :=
  match n with
  | Text _ => false
  | Elem e _ => matchesElement s e
  end.

(** [container.querySelectorAll(s)]: the matching descendants, in document
    order. *)
Definition querySelectorAll (s : selector) (container : node) : list node :=
  filter (matches s) (descendants container).

(** [container.querySelector(s)] *)
Definition querySelector (s : selector) (container : node) : option node :=
  find (matches s) (descendants container).

(** [document.querySelectorAll(s)] and [document.querySelector(s)] *)
Definition docQuerySelectorAll (s : selector) (doc : forest) : list node :=
  filter (matches s) (elementsOf doc).

Definition docQuerySelector (s : selector) (doc : forest) : option node :=
  find (matches s) (elementsOf doc).

(** [document.getElementById(i)] *)
Definition getElementById (i : string) (doc : forest) : option node :=
  docQuerySelector (SelId i) doc.

Definition refOf (n : node) : option nat :=
  match n with
  | Text _ => None
  | Elem e _ => ref e
  end.

Definition isRef (r : nat) (n : node) : bool :=
  match refOf n with Some r' => Nat.eqb r r' | None => false end.

(** The handles of a list of elements. *)
Definition refsOf (l : list node) : list nat :=
  flat_map (fun n => match refOf n with Some r => [r] | None => [] end) l.

(** The element a handle denotes. *)
Definition getElem (r : nat) (doc : forest) : option node :=
  find (isRef r) (elementsOf doc).

(** The chain from the element with handle [r] up to the top of the tree:
    the element first, then its parent, and so on. *)
Fixpoint chainIn (r : nat) (n : node) : option (list node) :=
  match n with
  | Text _ => None
  | Elem e ch =>
      if isRef r n then Some [n]
      else
        match
          (fix first (l : list node) : option (list node) :=
             match l with
             | [] => None
             | c :: l' =>
                 match chainIn r c with
                 | Some p => Some p
                 | None => first l'
                 end
             end) ch
        with
        | Some p => Some (p ++ [n])
        | None => None
        end
  end.

Fixpoint chainOf (r : nat) (doc : forest) : option (list node) :=
  match doc with
  | [] => None
  | n :: doc' =>
      match chainIn r n with
      | Some p => Some p
      | None => chainOf r doc'
      end
  end.

(** [element.closest(s)]: the element itself or its nearest ancestor that
    matches. *)
Definition closest (s : selector) (r : nat) (doc : forest) : option node :=
  match chainOf r doc with
  | Some p => find (matches s) p
  | None => None
  end.

(** ** Writing *)

(** Apply [g] to every element of a tree. *)
Fixpoint mapElements (g : element -> element) (n : node) : node :=
  match n with
  | Text s => Text s
  | Elem e ch => Elem (g e) (map (mapElements g) ch)
  end.

Definition hasRef (r : nat) (e : element) : bool :=
  match ref e with Some r' => Nat.eqb r r' | None => false end.

Definition atRef (r : nat) (g : element -> element) (e : element) : element :=
  if hasRef r e then g e else e.

(** A write to the classes or attributes of the element with handle [r]:
    [g] is applied to that element, the tree keeps its shape. *)
Definition updateElement (r : nat) (g : element -> element) (doc : forest) : forest :=
  map (mapElements (atRef r g)) doc.

(** A write that rebuilds the subtree of the element with handle [r]. *)
Fixpoint updateNode (r : nat) (f : node -> node) (n : node) : node :=
  match n with
  | Text s => Text s
  | Elem e ch =>
      if isRef r n then f n else Elem e (map (updateNode r f) ch)
  end.

Definition update (r : nat) (f : node -> node) (doc : forest) : forest :=
  map (updateNode r f) doc.

Definition withClassList (l : list string) (e : element) : element :=
  mkElement (ref e) (tagName e) l (attributes e).

Definition withAttributes (l : list (string * string)) (e : element) : element :=
  mkElement (ref e) (tagName e) (classList e) l.

(** [classList.add(c)]: appended when absent. *)
Definition classAdd (c : string) (e : element) : element :=
  if hasClass c e then e else withClassList (classList e ++ [c]) e.

(** [classList.remove(c)] *)
Definition classRemove (c : string) (e : element) : element :=
  withClassList (filter (fun x => negb (String.eqb c x)) (classList e)) e.

(** [setAttribute(name, v)]: replaced in place when present, appended
    otherwise. *)
Fixpoint setAssoc (name v : string) (l : list (string * string)) : list (string * string) :=
  match l with
  | [] => [(name, v)]
  | (k, w) :: l' => if String.eqb name k then (k, v) :: l' else (k, w) :: setAssoc name v l'
  end.

Definition setAttribute (name v : string) (e : element) : element :=
  withAttributes (setAssoc name v (attributes e)) e.

(** [removeAttribute(name)] *)
Definition removeAttribute (name : string) (e : element) : element :=
  withAttributes (filter (fun kv => negb (String.eqb name (fst kv))) (attributes e)) e.

(** [parent.appendChild(child)] for a freshly created [child]. *)
Definition appendChild (child : node) (parent : node) : node :=
  match parent with
  | Text s => Text s
  | Elem e ch => Elem e (ch ++ [child])
  end.

End Dom.
Import Dom.

(* ================================================================== *)
(** * Search: filtering and highlighting (search.ts) *)
(* ================================================================== *)

Module Search.

(** The live document and the elements that exist without being attached
    to it.  A handle reaches an element wherever it is; queries on
    [document] see the attached ones only. *)
Record page : Type := mkPage {
  doc : forest;
  detached : forest
}.

Definition lookup (r : nat) (p : page) : option node :=
  getElem r (doc p ++ detached p).

Definition updatePage (r : nat) (f : node -> node) (p : page) : page :=
  mkPage (update r f (doc p)) (update r f (detached p)).

Definition updateClasses (r : nat) (g : element -> element) (p : page) : page :=
  mkPage (updateElement r g (doc p)) (updateElement r g (detached p)).

(** A handle no element of the page has. *)
Definition freshRef (p : page) : nat :=
  S (list_max (refsOf (elementsOf (doc p ++ detached p)))).

(** What one call of [initSearch] captures for its input listener. *)
Record instance : Type := mkInstance {
  navItems : list nat;
  sections : list nat;
  emptyState : nat
}.

(** The page together with the input listeners installed so far, each on
    the search input it was added to. *)
Record state : Type := mkState {
  pageOf : page;
  inputListeners : list (nat * instance)
}.

Definition navItemSel : selector := SelAttr "data-nav-item".
Definition sectionSel : selector := SelClass "nav-section".
Definition sidebarNavSel : selector := SelClass "sidebar-nav".
Definition highlightSel : selector := SelClass "search-highlight".
Definition visibleItemSel : selector :=
  SelAnd (SelAttr "data-nav-item") (SelNot (SelClass "hidden")).

(** The element built for the empty state: the [div] with its class name
    and the paragraph its [innerHTML] parses to. *)
Definition emptyStateNode (r : nat) : node :=
  Elem (mkElement (Some r) "div"
          ["search-empty-state"; "hidden"; "text-center"; "py-8"; "px-4"; "text-secondary"] [])
       [Elem (mkElement None "p" ["text-sm"] []) [Text "No matching lessons"]].

(** [initSearch(searchInputId, containerSelector)] up to the installation
    of the listener. *)
Definition initSearch (searchInputId : string) (containerSelector : selector)
    (st : state) : state :=
  let p := pageOf st in
  match getElementById searchInputId (doc p), docQuerySelector containerSelector (doc p) with
  | Some searchInput, Some container =>
      let items := refsOf (querySelectorAll navItemSel container) in
      let sects := refsOf (querySelectorAll sectionSel container) in
      let nav := querySelector sidebarNavSel container in
      let r := freshRef p in
      let p' :=
        match nav with
        | Some navEl =>
            match refOf navEl with
            | Some rn => mkPage (update rn (appendChild (emptyStateNode r)) (doc p)) (detached p)
            | None => mkPage (doc p) (detached p ++ [emptyStateNode r])
            end
        | None => mkPage (doc p) (detached p ++ [emptyStateNode r])
        end in
      match refOf searchInput with
      | Some ri => mkState p' (inputListeners st ++ [(ri, mkInstance items sects r)])
      | None => mkState p' (inputListeners st)
      end
  | _, _ => st
  end.

(** ** Clearing the highlights *)

Definition isHighlight (n : node) : bool := matches highlightSel n.

(** [parent.normalize()] on one list of children: empty text nodes go,
    neighbouring text nodes are joined. *)
Fixpoint normalizeList (l : list node) : list node :=
  match l with
  | [] => []
  | Text s :: l' =>
      match normalizeList l' with
      | Text u :: rest => Text (s ++ u)%string :: rest
      | rest => if isEmpty s then rest else Text s :: rest
      end
  | n :: l' => n :: normalizeList l'
  end.

(** The loop over [document.querySelectorAll('.search-highlight')], as one
    pass over the tree.  Each highlight element still attached is replaced
    by a text node of its text content and its parent is normalized, which
    normalizes the parent's whole subtree: [norm] says that an ancestor has
    been normalized.  A highlight inside another one is detached together
    with the outer one, so replacing it later leaves the document alone. *)
Definition clearList (rec : bool -> node -> node) (norm : bool) (ch : list node) : list node :=
  let norm' := norm || existsb isHighlight ch in
  let ch' := map (fun c => if isHighlight c then Text (textContent c) else rec norm' c) ch in
  if norm' then normalizeList ch' else ch'.

Fixpoint clearNode (norm : bool) (n : node) : node :=
  match n with
  | Text s => Text s
  | Elem e ch => Elem e (clearList clearNode norm ch)
  end.

Definition clearHighlights (d : forest) : forest := clearList clearNode false d.

(** ** Highlighting *)

(** [document.createElement('mark')] with its class name and text. *)
Definition markNode (matchText : string) : node :=
  Elem (mkElement None "mark" ["search-highlight"] [])
       (if isEmpty matchText then [] else [Text matchText]).

(** What one text node collected by the tree walker is replaced with. *)
Definition highlightTextNode (query text : string) : list node :=
  let lowerText := toLowerCase text in
  if includes query lowerText then
    match indexOf query lowerText with
    | None => [Text text]
    | Some index =>
        let beforeText := substring 0 index text in
        let matchText := substring index (index + String.length query) text in
        let afterText := substringFrom (index + String.length query) text in
        (if isEmpty beforeText then [] else [Text beforeText])
          ++ [markNode matchText]
          ++ (if isEmpty afterText then [] else [Text afterText])
    end
  else [Text text].

Fixpoint highlightNode (query : string) (n : node) : list node :=
  match n with
  | Text s => highlightTextNode query s
  | Elem e ch => [Elem e (flat_map (highlightNode query) ch)]
  end.

(** [highlightText(element, query)]: every text node below [element]. *)
Definition highlightText (query : string) (element : node) : node :=
  match element with
  | Text s => Text s
  | Elem e ch => Elem e (flat_map (highlightNode query) ch)
  end.

(** ** The input listener *)

(** [classList.remove('hidden')] and [classList.add('hidden')] *)
Definition show (r : nat) (p : page) : page := updateClasses r (classRemove "hidden") p.
Definition hide (r : nat) (p : page) : page := updateClasses r (classAdd "hidden") p.

(** The body of [navItems.forEach] for a non-empty query; the flag is
    [hasVisibleItems]. *)
Definition itemStep (query : string) (acc : page * bool) (r : nat) : page * bool :=
  match lookup r (fst acc) with
  | Some item =>
      if includes query (toLowerCase (textContent item))
      then (updatePage r (highlightText query) (show r (fst acc)), true)
      else (hide r (fst acc), snd acc)
  | None => acc
  end.

(** The body of [sections.forEach]. *)
Definition sectionStep (p : page) (r : nat) : page :=
  match lookup r p with
  | Some section =>
      let visibleItems := querySelectorAll visibleItemSel section in
      if (List.length visibleItems =? 0)%nat then hide r p else show r p
  | None => p
  end.

Definition showAll (rs : list nat) (p : page) : page :=
  fold_left (fun p r => show r p) rs p.

(** The listener of [initSearch], run on an input event whose target holds
    [value]. *)
Definition onInput (inst : instance) (value : string) (p : page) : page :=
  let query := trim (toLowerCase value) in
  let p1 := mkPage (clearHighlights (doc p)) (detached p) in
  if isEmpty query then
    hide (emptyState inst) (showAll (sections inst) (showAll (navItems inst) p1))
  else
    let r := fold_left (itemStep query) (navItems inst) (p1, false) in
    let p3 := fold_left sectionStep (sections inst) (fst r) in
    if snd r then hide (emptyState inst) p3
    else show (emptyState inst) p3.

(** An input event on the element [target]: every listener added to it
    runs, in the order of installation. *)
Definition dispatchInput (target : nat) (value : string) (st : state) : state :=
  mkState
    (fold_left (fun p l => if Nat.eqb (fst l) target then onInput (snd l) value p else p)
       (inputListeners st) (pageOf st))
    (inputListeners st).

End Search.


(* ================================================================== *)
(** * Keyboard navigation *)
(* ================================================================== *)

(** What both keyboard modules share: arrays of element handles, the
    keyboard event, and the visible-items query, which is the same function
    in the two files. *)
Module Nav.

Local Open Scope Z_scope.

(** [array.indexOf(x)], -1 when absent. *)
Fixpoint indexOf (x : nat) (l : list nat) : Z :=
  match l with
  | [] => -1
  | y :: l' =>
      if Nat.eqb x y then 0
      else let i := indexOf x l' in if i <? 0 then -1 else i + 1
  end.

(** [array[i]], [None] standing for [undefined]. *)
Definition at_ (l : list nat) (i : Z) : option nat :=
  if i <? 0 then None else nth_error l (Z.to_nat i).

Definition len (l : list nat) : Z := Z.of_nat (List.length l).

(** [array.includes(x)] *)
Definition includesRef (x : nat) (l : list nat) : bool := existsb (Nat.eqb x) l.

Definition orElse {A : Type} (a b : option A) : option A :=
  match a with Some _ => a | None => b end.

Record keyEvent : Type := mkKeyEvent {
  key : string;
  target : nat
}.

Definition isNavigationKey (k : string) : bool :=
  existsb (String.eqb k) ["ArrowUp"; "ArrowDown"; "ArrowLeft"; "ArrowRight"; "Home"; "End"]%string.

(** [e.target instanceof HTMLInputElement || e.target instanceof
    HTMLTextAreaElement] *)
Definition isTextEntry (n : node) : bool :=
  matches (SelTag "input") n || matches (SelTag "textarea") n.

Definition visibleItemSel : selector :=
  SelAnd (SelAttr "data-nav-item") (SelNot (SelClass "hidden")).

(** [getVisibleNavItems(container)] *)
Definition getVisibleNavItems (container : node) (doc : forest) : list nat :=
  let allItems := refsOf (querySelectorAll visibleItemSel container) in
  filter
    (fun item =>
       match closest (SelClass "nav-section") item doc with
       | None => true
       | Some section => matches (SelClass "expanded") section
       end)
    allItems.

(** The same set, read off the tree from the top: [inside] says that the
    walk is below the container [c], [enclosing] is the expanded flag of the
    nearest section at or above the node, if there is one. *)
Fixpoint visibleWalk (c : nat) (inside : bool) (enclosing : option bool) (n : node) : list nat :=
  match n with
  | Text _ => []
  | Elem e ch =>
      let enclosing' :=
        if hasClass "nav-section" e then Some (hasClass "expanded" e) else enclosing in
      (if inside && hasAttribute "data-nav-item" e && negb (hasClass "hidden" e)
          && match enclosing' with Some false => false | _ => true end
       then match ref e with Some r => [r] | None => [] end
       else [])
      ++ flat_map (visibleWalk c (inside || isRef c n) enclosing') ch
  end.

Definition visibleItemsSpec (c : nat) (doc : forest) : list nat :=
  flat_map (visibleWalk c false None) doc.

Definition tabindexOf (r : nat) (doc : forest) : option string :=
  match getElem r doc with
  | Some (Elem e _) => getAttribute "tabindex" e
  | _ => None
  end.

Definition isFocusedMarked (r : nat) (doc : forest) : bool :=
  match getElem r doc with
  | Some (Elem e _) => hasAttribute "data-focused" e
  | _ => false
  end.

End Nav.

(** ** The module with one global handler (keyboard.ts) *)

Module Keyboard.
Import Nav.
Local Open Scope Z_scope.

(** The closure [createKeydownHandler(nav, searchInput)] returns.  Its body
    reads [searchInput] only; [handlerId] tells the closures apart for
    [removeEventListener]. *)
Record handler : Type := mkHandler {
  handlerId : nat;
  searchInputOf : option nat
}.

Record state : Type := mkState {
  doc : forest;
  currentFocusedItem : option nat;          (* module variable *)
  globalKeydownHandler : option handler;    (* module variable *)
  keydownListeners : list handler;          (* keydown listeners on document *)
  activeElement : option nat                (* the element that has focus *)
}.

Definition withDoc (d : forest) (st : state) : state :=
  mkState d (currentFocusedItem st) (globalKeydownHandler st) (keydownListeners st)
    (activeElement st).

Definition withCurrent (c : option nat) (st : state) : state :=
  mkState (doc st) c (globalKeydownHandler st) (keydownListeners st) (activeElement st).

Definition withActive (a : option nat) (st : state) : state :=
  mkState (doc st) (currentFocusedItem st) (globalKeydownHandler st) (keydownListeners st) a.

Definition setAttr (r : nat) (name v : string) (st : state) : state :=
  withDoc (updateElement r (setAttribute name v) (doc st)) st.

Definition removeAttr (r : nat) (name : string) (st : state) : state :=
  withDoc (updateElement r (removeAttribute name) (doc st)) st.

(** The [focusout] listener the module adds to the document when it loads:
    the marker leaves a nav item unless focus moves to a nav item or to
    something inside the navigation. *)
Definition onFocusOut (target : nat) (relatedTarget : option nat) (st : state) : state :=
  match getElem target (doc st) with
  | Some t =>
      if matches (SelAttr "data-nav-item") t then
        let isMovingToNavItem :=
          match relatedTarget with
          | Some rt =>
              match getElem rt (doc st) with
              | Some rtn =>
                  matches (SelAttr "data-nav-item") rtn
                  || match closest (SelClass "sidebar-nav") rt (doc st) with
                     | Some _ => true
                     | None => false
                     end
              | None => false
              end
          | None => false
          end in
        if isMovingToNavItem then st else removeAttr target "data-focused" st
      else st
  | None => st
  end.

(** [element.focus()]: taken to succeed; the element that loses focus gets
    its [focusout] first. *)
Definition focus (r : nat) (st : state) : state :=
  match activeElement st with
  | Some old =>
      if Nat.eqb old r then st else withActive (Some r) (onFocusOut old (Some r) st)
  | None => withActive (Some r) st
  end.

(** [element.blur()] *)
Definition blur (r : nat) (st : state) : state :=
  match activeElement st with
  | Some old => if Nat.eqb old r then withActive None (onFocusOut old None st) else st
  | None => st
  end.

(** [setFocusedItem(item)]; scrolling the item into view changes nothing
    that is modelled. *)
Definition setFocusedItem (item : nat) (st : state) : state :=
  let st1 :=
    match currentFocusedItem st with
    | Some c =>
        if negb (Nat.eqb c item)
        then removeAttr c "data-focused" (setAttr c "tabindex" "-1" st)
        else st
    | None => st
    end in
  let st2 := setAttr item "tabindex" "0" st1 in
  let st3 := setAttr item "data-focused" "true" st2 in
  let st4 := focus item st3 in
  withCurrent (Some item) st4.

Definition activeItemSel : selector := SelAnd (SelClass "nav-item") (SelClass "active").

Definition optRef (n : option node) : option nat :=
  match n with Some x => refOf x | None => None end.

(** [initializeTabindex(nav)] *)
Definition initializeTabindex (nav : node) (st : state) : state :=
  let items := getVisibleNavItems nav (doc st) in
  let activeItem := optRef (querySelector activeItemSel nav) in
  let st1 := fold_left (fun s item => setAttr item "tabindex" "-1" s) items st in
  match activeItem with
  | Some a => withCurrent (Some a) (setAttr a "tabindex" "0" st1)
  | None =>
      match at_ items 0 with
      | Some first => withCurrent (Some first) (setAttr first "tabindex" "0" st1)
      | None => st1
      end
  end.

Section Handlers.

(** From collapsible.ts, which is not among the sources: what a click on an
    element does, and the two operations on the section around an item. *)
Variable click : nat -> state -> state.
Variable collapseCurrentSection : nat -> state -> state.
Variable expandCurrentSection : nat -> state -> state.

(** The static links: [nav.querySelectorAll(':scope > div:first-child
    [data-nav-item]')], the nav items below the first element child of
    [nav] when that child is a [div]. *)
Definition firstElementChild (n : node) : option node :=
  match n with
  | Text _ => None
  | Elem _ ch => find (fun c => match c with Elem _ _ => true | Text _ => false end) ch
  end.

Definition staticLinks (itemSel : selector) (nav : node) : list nat :=
  match firstElementChild nav with
  | Some d => if matches (SelTag "div") d then refsOf (querySelectorAll itemSel d) else []
  | None => []
  end.

Definition lastOf (l : list nat) : option nat := at_ l (len l - 1).

(** [handleSectionHeaderKeydown(e, target)]; the result carries whether the
    default action was prevented. *)
Definition handleSectionHeaderKeydown (e : keyEvent) (st : state) : state * bool :=
  let t := target e in
  match closest (SelClass "sidebar-nav") t (doc st) with
  | None => (st, false)
  | Some nav =>
      match closest (SelClass "nav-section") t (doc st) with
      | None => (st, false)
      | Some section =>
          let expanded := matches (SelClass "expanded") section in
          if String.eqb (key e) "ArrowRight" then
            if negb expanded then (click t st, true) else (st, false)
          else if String.eqb (key e) "ArrowLeft" then
            if expanded then (click t st, true) else (st, false)
          else if String.eqb (key e) "ArrowDown" then
            match (if expanded then optRef (querySelector (SelClass "nav-item") section) else None) with
            | Some firstItem => (setFocusedItem firstItem st, true)
            | None =>
                let allHeaders := refsOf (querySelectorAll (SelClass "nav-section-header") nav) in
                let currentIndex := indexOf t allHeaders in
                if currentIndex <? len allHeaders - 1 then
                  match at_ allHeaders (currentIndex + 1) with
                  | Some h => (focus h st, true)
                  | None => (st, true)
                  end
                else (st, true)
            end
          else if String.eqb (key e) "ArrowUp" then
            let headers := refsOf (querySelectorAll (SelClass "nav-section-header") nav) in
            let idx := indexOf t headers in
            if 0 <? idx then
              match at_ headers (idx - 1) with
              | Some h => (focus h st, true)
              | None => (st, true)
              end
            else
              match lastOf (staticLinks (SelAttr "data-nav-item") nav) with
              | Some lastStatic => (setFocusedItem lastStatic st, true)
              | None => (st, true)
              end
          else if String.eqb (key e) "Home" then
            match at_ (getVisibleNavItems nav (doc st)) 0 with
            | Some firstItem => (setFocusedItem firstItem st, true)
            | None => (st, true)
            end
          else if String.eqb (key e) "End" then
            match lastOf (getVisibleNavItems nav (doc st)) with
            | Some lastItem => (setFocusedItem lastItem st, true)
            | None => (st, true)
            end
          else (st, false)
      end
  end.

(** The header of the section around [t], for [header.focus()]. *)
Definition sectionHeaderOf (t : nat) (st : state) : option nat :=
  match closest (SelClass "nav-section") t (doc st) with
  | Some section => optRef (querySelector (SelClass "nav-section-header") section)
  | None => None
  end.

(** [handleNavItemKeydown(e, target)] *)
Definition handleNavItemKeydown (e : keyEvent) (st : state) : state * bool :=
  let t := target e in
  match closest (SelClass "sidebar-nav") t (doc st) with
  | None => (st, false)
  | Some nav =>
      let items := getVisibleNavItems nav (doc st) in
      let currentIndex := indexOf t items in
      if String.eqb (key e) "ArrowDown" then
        if (0 <=? currentIndex) && (currentIndex <? len items - 1) then
          match at_ items (currentIndex + 1) with
          | Some next => (setFocusedItem next st, true)
          | None => (st, true)
          end
        else
          match optRef (querySelector (SelClass "nav-section-header") nav) with
          | Some firstHeader => (focus firstHeader st, true)
          | None => (st, true)
          end
      else if String.eqb (key e) "ArrowUp" then
        if 0 <? currentIndex then
          match at_ items (currentIndex - 1) with
          | Some prev => (setFocusedItem prev st, true)
          | None => (st, true)
          end
        else if currentIndex =? 0 then
          match sectionHeaderOf t st with
          | Some header => (focus header st, true)
          | None => (st, true)
          end
        else
          match sectionHeaderOf t st with
          | Some header => (focus header st, true)
          | None => (st, true)
          end
      else if String.eqb (key e) "ArrowLeft" then
        match closest (SelClass "nav-section") t (doc st) with
        | Some _ =>
            (* the section is a live element: its header is looked for
               after the collapse *)
            let st1 := collapseCurrentSection t st in
            match sectionHeaderOf t st1 with
            | Some headerLeft => (focus headerLeft st1, true)
            | None => (st1, true)
            end
        | None => (st, true)
        end
      else if String.eqb (key e) "ArrowRight" then (expandCurrentSection t st, true)
      else if String.eqb (key e) "Home" then
        match at_ items 0 with
        | Some first => (setFocusedItem first st, true)
        | None => (st, true)
        end
      else if String.eqb (key e) "End" then
        match lastOf items with
        | Some last => (setFocusedItem last st, true)
        | None => (st, true)
        end
      else if String.eqb (key e) " " then (click t st, true)
      else (st, false)
  end.

Definition visibleSidebarSel : selector :=
  SelAnd (SelClass "app-sidebar-left") (SelNot (SelAttrContains "style" "display: none")).

(** The closure returned by [createKeydownHandler(nav, searchInput)], run
    on a keydown event. *)
Definition keydown (h : handler) (e : keyEvent) (st : state) : state * bool :=
  match getElem (target e) (doc st) with
  | None => (st, false)
  | Some t =>
      if isTextEntry t && negb (String.eqb (key e) "Escape") then (st, false)
      else if String.eqb (key e) "/" then
        (match searchInputOf h with Some s => focus s st | None => st end, true)
      else if String.eqb (key e) "Escape"
              && match searchInputOf h with Some s => Nat.eqb (target e) s | None => false end
      then
        let st1 := match searchInputOf h with Some s => blur s st | None => st end in
        (match currentFocusedItem st1 with Some c => focus c st1 | None => st1 end, true)
      else if negb (isNavigationKey (key e)) then (st, false)
      else if matches (SelClass "nav-section-header") t then handleSectionHeaderKeydown e st
      else if matches (SelAttr "data-nav-item") t then handleNavItemKeydown e st
      else
        let sidebar := docQuerySelector visibleSidebarSel (doc st) in
        let activeNav :=
          orElse
            (match sidebar with
             | Some s => querySelector (SelClass "sidebar-nav") s
             | None => None
             end)
            (docQuerySelector (SelClass "sidebar-nav") (doc st)) in
        match activeNav with
        | None => (st, true)
        | Some nav =>
            let items := getVisibleNavItems nav (doc st) in
            if len items =? 0 then (st, true)
            else
              let activeItem := optRef (querySelector activeItemSel nav) in
              let targetItem := orElse activeItem (orElse (currentFocusedItem st) (at_ items 0)) in
              match targetItem with
              | Some ti =>
                  if includesRef ti items then (setFocusedItem ti st, true)
                  else
                    match at_ items 0 with
                    | Some first => (setFocusedItem first st, true)
                    | None => (st, true)
                    end
              | None =>
                  match at_ items 0 with
                  | Some first => (setFocusedItem first st, true)
                  | None => (st, true)
                  end
              end
        end
  end.

End Handlers.

(** [initKeyboardNavigation(searchInputId)] *)
Definition navOfSearchInput (searchInput : option node) (d : forest) : option node :=
  match searchInput with
  | Some si =>
      match refOf si with
      | Some r =>
          match closest (SelClass "sidebar-content") r d with
          | Some content => querySelector (SelClass "sidebar-nav") content
          | None => None
          end
      | None => None
      end
  | None => None
  end.

Definition freshHandlerId (st : state) : nat :=
  S (list_max (map handlerId (keydownListeners st))).

Definition initKeyboardNavigation (searchInputId : string) (st : state) : state :=
  let searchInput := getElementById searchInputId (doc st) in
  match navOfSearchInput searchInput (doc st) with
  | None => st
  | Some nav =>
      let listeners1 :=
        match globalKeydownHandler st with
        | Some old =>
            filter (fun h => negb (Nat.eqb (handlerId h) (handlerId old))) (keydownListeners st)
        | None => keydownListeners st
        end in
      let st1 := initializeTabindex nav st in
      let h := mkHandler (freshHandlerId st) (optRef searchInput) in
      mkState (doc st1) (currentFocusedItem st1) (Some h) (listeners1 ++ [h]) (activeElement st1)
  end.

End Keyboard.

(** ** The module with a global and a per-navigation listener (the second
    keyboard file among the sources) *)

Module KeyboardSplit.
Import Nav.
Local Open Scope Z_scope.

(** [handleGlobalKeydown] and [handleNavKeydown] are named functions, so a
    listener is known by where it is installed. *)
Record state : Type := mkState {
  doc : forest;
  currentFocusedItem : option nat;      (* module variable *)
  globalKeydownHandler : bool;          (* module variable: set or null *)
  navKeydownHandler : bool;             (* module variable: set or null *)
  currentNav : option nat;              (* module variable *)
  documentListening : bool;             (* handleGlobalKeydown on document *)
  navListening : list nat;              (* elements with handleNavKeydown *)
  activeElement : option nat            (* the element that has focus *)
}.

Definition withDoc (d : forest) (st : state) : state :=
  mkState d (currentFocusedItem st) (globalKeydownHandler st) (navKeydownHandler st)
    (currentNav st) (documentListening st) (navListening st) (activeElement st).

Definition withCurrent (c : option nat) (st : state) : state :=
  mkState (doc st) c (globalKeydownHandler st) (navKeydownHandler st)
    (currentNav st) (documentListening st) (navListening st) (activeElement st).

Definition withActive (a : option nat) (st : state) : state :=
  mkState (doc st) (currentFocusedItem st) (globalKeydownHandler st) (navKeydownHandler st)
    (currentNav st) (documentListening st) (navListening st) a.

Definition setAttr (r : nat) (name v : string) (st : state) : state :=
  withDoc (updateElement r (setAttribute name v) (doc st)) st.

Definition removeAttr (r : nat) (name : string) (st : state) : state :=
  withDoc (updateElement r (removeAttribute name) (doc st)) st.

(** The [focusout] listener of this module: the marker leaves any nav item
    that loses focus. *)
Definition onFocusOut (target : nat) (st : state) : state :=
  match getElem target (doc st) with
  | Some t =>
      if matches (SelAttr "data-nav-item") t then removeAttr target "data-focused" st else st
  | None => st
  end.

Definition focus (r : nat) (st : state) : state :=
  match activeElement st with
  | Some old => if Nat.eqb old r then st else withActive (Some r) (onFocusOut old st)
  | None => withActive (Some r) st
  end.

(** [setFocusedItem(item)] *)
Definition setFocusedItem (item : nat) (st : state) : state :=
  let st1 :=
    match currentFocusedItem st with
    | Some c => removeAttr c "data-focused" (setAttr c "tabindex" "-1" st)
    | None => st
    end in
  let st2 := setAttr item "tabindex" "0" st1 in
  let st3 := setAttr item "data-focused" "true" st2 in
  let st4 := focus item st3 in
  withCurrent (Some item) st4.

Definition activeItemSel : selector := SelAnd (SelClass "nav-item") (SelClass "active").

Definition optRef (n : option node) : option nat :=
  match n with Some x => refOf x | None => None end.

Definition navOfSearchInput (searchInput : option node) (d : forest) : option node :=
  match searchInput with
  | Some si =>
      match refOf si with
      | Some r =>
          match closest (SelClass "sidebar-content") r d with
          | Some content => querySelector (SelClass "sidebar-nav") content
          | None => None
          end
      | None => None
      end
  | None => None
  end.

(** [initKeyboardNavigation(searchInputId)] *)
Definition initKeyboardNavigation (searchInputId : string) (st : state) : state :=
  let searchInput := getElementById searchInputId (doc st) in
  match navOfSearchInput searchInput (doc st) with
  | None => st
  | Some nav =>
      let documentListening1 :=
        if globalKeydownHandler st then false else documentListening st in
      let navListening1 :=
        match navKeydownHandler st, currentNav st with
        | true, Some old => filter (fun r => negb (Nat.eqb r old)) (navListening st)
        | _, _ => navListening st
        end in
      let items := getVisibleNavItems nav (doc st) in
      let activeItem := optRef (querySelector activeItemSel nav) in
      let st1 := fold_left (fun s item => setAttr item "tabindex" "-1" s) items st in
      let st2 :=
        match activeItem with
        | Some a => withCurrent (Some a) (setAttr a "tabindex" "0" st1)
        | None =>
            match at_ items 0 with
            | Some first => withCurrent (Some first) (setAttr first "tabindex" "0" st1)
            | None => st1
            end
        end in
      mkState (doc st2) (currentFocusedItem st2) true true (refOf nav)
        (documentListening1 || true)
        (match refOf nav with
         | Some rn => if includesRef rn navListening1 then navListening1 else navListening1 ++ [rn]
         | None => navListening1
         end)
        (activeElement st2)
  end.

(** [handleGlobalKeydown(e)] *)
Definition searchInputSel : selector := SelAttrPrefix "id" "sidebar-search-".

Definition handleGlobalKeydown (e : keyEvent) (st : state) : state * bool :=
  match getElem (target e) (doc st) with
  | None => (st, false)
  | Some t =>
      if isTextEntry t then (st, false)
      else if String.eqb (key e) "/" then
        (match optRef (docQuerySelector searchInputSel (doc st)) with
         | Some s => focus s st
         | None => st
         end, true)
      else (st, false)
  end.

Section Handlers.

(** From collapsible.ts, which is not among the sources. *)
Variable click : nat -> state -> state.
Variable collapseCurrentSection : nat -> state -> state.
Variable expandCurrentSection : nat -> state -> state.

Definition firstElementChild (n : node) : option node :=
  match n with
  | Text _ => None
  | Elem _ ch => find (fun c => match c with Elem _ _ => true | Text _ => false end) ch
  end.

Definition staticLinks (itemSel : selector) (nav : node) : list nat :=
  match firstElementChild nav with
  | Some d => if matches (SelTag "div") d then refsOf (querySelectorAll itemSel d) else []
  | None => []
  end.

Definition lastOf (l : list nat) : option nat := at_ l (len l - 1).

Definition sectionHeaderOf (t : nat) (st : state) : option nat :=
  match closest (SelClass "nav-section") t (doc st) with
  | Some section => optRef (querySelector (SelClass "nav-section-header") section)
  | None => None
  end.

(** [handleSectionHeaderKeydown(e, target)] *)
Definition handleSectionHeaderKeydown (e : keyEvent) (st : state) : state * bool :=
  let t := target e in
  let section := closest (SelClass "nav-section") t (doc st) in
  let expanded :=
    match section with Some s => matches (SelClass "expanded") s | None => false end in
  let isSection := match section with Some _ => true | None => false end in
  if String.eqb (key e) "ArrowRight" && isSection && negb expanded then (click t st, true)
  else if String.eqb (key e) "ArrowLeft" && isSection && expanded then (click t st, true)
  else if String.eqb (key e) "ArrowDown" then
    match
      (if expanded
       then match section with
            | Some s => optRef (querySelector (SelClass "nav-item") s)
            | None => None
            end
       else None)
    with
    | Some firstItem => (setFocusedItem firstItem st, true)
    | None =>
        let allHeaders := refsOf (docQuerySelectorAll (SelClass "nav-section-header") (doc st)) in
        let currentIndex := indexOf t allHeaders in
        if currentIndex <? len allHeaders - 1 then
          match at_ allHeaders (currentIndex + 1) with
          | Some h => (focus h st, true)
          | None => (st, true)
          end
        else (st, true)
    end
  else if String.eqb (key e) "ArrowUp" then
    let allHeaders := refsOf (docQuerySelectorAll (SelClass "nav-section-header") (doc st)) in
    let currentIndex := indexOf t allHeaders in
    if 0 <? currentIndex then
      match at_ allHeaders (currentIndex - 1) with
      | Some h => (focus h st, true)
      | None => (st, true)
      end
    else
      match closest (SelClass "sidebar-nav") t (doc st) with
      | Some nav =>
          match lastOf (staticLinks (SelClass "nav-item") nav) with
          | Some lastStatic => (setFocusedItem lastStatic st, true)
          | None => (st, true)
          end
      | None => (st, true)
      end
  else (st, false).

(** [handleNavKeydown(e)] *)
Definition handleNavKeydown (e : keyEvent) (st : state) : state * bool :=
  let t := target e in
  match getElem t (doc st) with
  | None => (st, false)
  | Some tn =>
      if matches (SelClass "nav-section-header") tn then handleSectionHeaderKeydown e st
      else if negb (matches (SelAttr "data-nav-item") tn) then (st, false)
      else
        match closest (SelClass "sidebar-nav") t (doc st) with
        | None => (st, false)
        | Some nav =>
            let items := getVisibleNavItems nav (doc st) in
            let currentIndex := indexOf t items in
            if String.eqb (key e) "ArrowDown" then
              if currentIndex <? len items - 1 then
                match at_ items (currentIndex + 1) with
                | Some next => (setFocusedItem next st, true)
                | None => (st, true)
                end
              else (st, true)
            else if String.eqb (key e) "ArrowUp" then
              if 0 <? currentIndex then
                match at_ items (currentIndex - 1) with
                | Some prev => (setFocusedItem prev st, true)
                | None => (st, true)
                end
              else
                match sectionHeaderOf t st with
                | Some header => (focus header st, true)
                | None => (st, true)
                end
            else if String.eqb (key e) "ArrowLeft" then
              let st1 := collapseCurrentSection t st in
              match sectionHeaderOf t st1 with
              | Some headerLeft => (focus headerLeft st1, true)
              | None => (st1, true)
              end
            else if String.eqb (key e) "ArrowRight" then (expandCurrentSection t st, true)
            else if String.eqb (key e) "Home" then
              match at_ items 0 with
              | Some first => (setFocusedItem first st, true)
              | None => (st, true)
              end
            else if String.eqb (key e) "End" then
              match lastOf items with
              | Some last => (setFocusedItem last st, true)
              | None => (st, true)
              end
            else (st, false)
        end
  end.

End Handlers.

End KeyboardSplit.

(* ================================================================== *)
(** * Resizable sidebar (resizable.ts) *)
(* ================================================================== *)

Module Resizable.
Local Open Scope Z_scope.

(** Pixel positions and widths are whole numbers here; [None] stands for
    [NaN]. *)
Definition digitValue (c : ascii) : option Z :=
  let n := nat_of_ascii c in
  if ((48 <=? n) && (n <=? 57))%nat then Some (Z.of_nat (n - 48)) else None.

Fixpoint digitsValue (acc : Z) (s : string) : Z :=
  match s with
  | EmptyString => acc
  | String c s' =>
      match digitValue c with
      | Some d => digitsValue (10 * acc + d) s'
      | None => acc
      end
  end.

Definition startsWithDigit (s : string) : bool :=
  match s with
  | String c _ => match digitValue c with Some _ => true | None => false end
  | EmptyString => false
  end.

(** [parseInt(s, 10)] *)
Definition parseInt (s : string) : option Z :=
  let s1 := trimStart s in
  match s1 with
  | String "-"%char r => if startsWithDigit r then Some (- digitsValue 0 r) else None
  | String "+"%char r => if startsWithDigit r then Some (digitsValue 0 r) else None
  | _ => if startsWithDigit s1 then Some (digitsValue 0 s1) else None
  end.

(** [a >= b] and [a <= b] on numbers that may be [NaN]. *)
Definition geNum (a b : option Z) : bool :=
  match a, b with Some x, Some y => y <=? x | _, _ => false end.

Definition leNum (a b : option Z) : bool :=
  match a, b with Some x, Some y => x <=? y | _, _ => false end.

(** [n.toString()] and [`${n}`] for a whole number. *)
Definition numberToString (n : Z) : string :=
  DecimalString.NilZero.string_of_int (Z.to_int n).

Definition px (n : Z) : string := (numberToString n ++ "px")%string.

(** Whose inline style is written. *)
Inductive styled : Type :=
| OfBody
| OfElement (r : nat).

Definition styledEqb (a b : styled) : bool :=
  match a, b with
  | OfBody, OfBody => true
  | OfElement x, OfElement y => Nat.eqb x y
  | _, _ => false
  end.

(** The closure of one call of [initResizable]: the elements it found and
    its three local variables. *)
Record panel : Type := mkPanel {
  handle : nat;
  sidebar : nat;
  gridContainer : nat;
  isResizing : bool;
  startX : Z;
  startWidth : Z
}.

Record state : Type := mkState {
  doc : forest;
  isInitialized : bool;                              (* module variable *)
  innerWidth : Z;                                    (* window.innerWidth *)
  rootStyle : list (string * string);                (* computed custom properties *)
  localStorage : list (string * string);
  inlineStyle : list (styled * string * string);     (* element.style *)
  frameRequests : list (nat * nat * bool);           (* requestAnimationFrame *)
  panels : list panel                                (* installed listeners *)
}.

Definition withStyle (l : list (styled * string * string)) (st : state) : state :=
  mkState (doc st) (isInitialized st) (innerWidth st) (rootStyle st) (localStorage st) l
    (frameRequests st) (panels st).

Definition withPanels (l : list panel) (st : state) : state :=
  mkState (doc st) (isInitialized st) (innerWidth st) (rootStyle st) (localStorage st)
    (inlineStyle st) (frameRequests st) l.

Definition withStorage (l : list (string * string)) (st : state) : state :=
  mkState (doc st) (isInitialized st) (innerWidth st) (rootStyle st) l
    (inlineStyle st) (frameRequests st) (panels st).

Definition sameSlot (t : styled) (prop : string) (d : styled * string * string) : bool :=
  styledEqb t (fst (fst d)) && String.eqb prop (snd (fst d)).

(** [t.style.prop] *)
Definition getStyle (t : styled) (prop : string) (st : state) : string :=
  match find (sameSlot t prop) (inlineStyle st) with
  | Some d => snd d
  | None => EmptyString
  end.

(** [t.style.prop = v]; the empty string removes the declaration. *)
Definition setStyle (t : styled) (prop v : string) (st : state) : state :=
  let others := filter (fun d => negb (sameSlot t prop d)) (inlineStyle st) in
  withStyle (if isEmpty v then others else others ++ [(t, prop, v)]) st.

(** [getComputedStyle(document.documentElement).getPropertyValue(name)] *)
Definition getPropertyValue (name : string) (st : state) : string :=
  match find (fun kv => String.eqb name (fst kv)) (rootStyle st) with
  | Some kv => snd kv
  | None => EmptyString
  end.

Definition getItem (k : string) (st : state) : option string :=
  match find (fun kv => String.eqb k (fst kv)) (localStorage st) with
  | Some kv => Some (snd kv)
  | None => None
  end.

Definition setItem (k v : string) (st : state) : state :=
  withStorage (filter (fun kv => negb (String.eqb k (fst kv))) (localStorage st) ++ [(k, v)]) st.

(** [updateGridColumns(gridContainer, sidebarWidth)] *)
Definition updateGridColumns (grid : nat) (sidebarWidth : Z) (st : state) : state :=
  if innerWidth st <? 1024 then setStyle (OfElement grid) "grid-template-columns" "" st
  else
    let tocWidth := trim (getPropertyValue "--toc-width" st) in
    setStyle (OfElement grid) "grid-template-columns"
      (numberToString sidebarWidth ++ "px 1fr " ++ tocWidth)%string st.

Definition optRef (n : option node) : option nat :=
  match n with Some x => refOf x | None => None end.

Section WithStorageKey.

(** [STORAGE_KEYS.width], from storage.ts, which is not among the
    sources. *)
Variable widthKey : string.

(** [initResizable()] *)
Definition initResizable (st : state) : state :=
  let container := getElementById "left-sidebar-container" (doc st) in
  if isInitialized st && match container with Some _ => true | None => false end then st
  else
    let handleEl :=
      match container with
      | Some c => querySelector (SelClass "resize-handle") c
      | None => None
      end in
    let sidebarEl := getElementById "left-sidebar" (doc st) in
    let gridEl := docQuerySelector (SelClass "app-body") (doc st) in
    match optRef container, optRef handleEl, optRef sidebarEl, optRef gridEl with
    | Some _, Some h, Some s, Some g =>
        let st1 := setStyle (OfElement s) "transition" "none" st in
        let st2 := setStyle (OfElement g) "transition" "none" st1 in
        let st3 :=
          if innerWidth st2 <? 1024
          then setStyle (OfElement g) "grid-template-columns" "" st2
          else st2 in
        let st4 :=
          match getItem widthKey st3 with
          | Some storedWidth =>
              if negb (isEmpty storedWidth) && (1024 <=? innerWidth st3) then
                let width := parseInt storedWidth in
                let minWidth := parseInt (getPropertyValue "--sidebar-width-min" st3) in
                let maxWidth := parseInt (getPropertyValue "--sidebar-width-max" st3) in
                if geNum width minWidth && leNum width maxWidth then
                  match width with
                  | Some w => updateGridColumns g w (setStyle (OfElement s) "width" (px w) st3)
                  | None => st3
                  end
                else st3
              else st3
          | None => st3
          end in
        mkState (doc st4) true (innerWidth st4) (rootStyle st4) (localStorage st4)
          (inlineStyle st4) (frameRequests st4 ++ [(s, g, false)])
          (panels st4 ++ [mkPanel h s g false 0 0])
    | _, _, _, _ => st
    end.

(** One rendered frame: a request of [initResizable] asks for one more
    frame, and on that one the two transitions are given back. *)
Definition animationFrame (st : state) : state :=
  fold_left
    (fun s rq =>
       match rq with
       | (sb, g, false) =>
           mkState (doc s) (isInitialized s) (innerWidth s) (rootStyle s) (localStorage s)
             (inlineStyle s) (frameRequests s ++ [(sb, g, true)]) (panels s)
       | (sb, g, true) =>
           setStyle (OfElement g) "transition" "" (setStyle (OfElement sb) "transition" "" s)
       end)
    (frameRequests st)
    (mkState (doc st) (isInitialized st) (innerWidth st) (rootStyle st) (localStorage st)
       (inlineStyle st) [] (panels st)).

(** The [mousedown] listener on a handle; [offsetWidth] is what the layout
    gives for the sidebar at that moment. *)
Definition panelMouseDown (clientX offsetWidth : Z) (p : panel) : panel :=
  mkPanel (handle p) (sidebar p) (gridContainer p) true clientX offsetWidth.

Definition mouseDown (h : nat) (clientX : Z) (offsetWidth : nat -> Z) (st : state) : state :=
  fold_left
    (fun s p =>
       if Nat.eqb (handle p) h then
         setStyle (OfElement (gridContainer p)) "transition" "grid-template-columns 0.05s ease-out"
           (setStyle OfBody "user-select" "none" (setStyle OfBody "cursor" "col-resize" s))
       else s)
    (panels st)
    (withPanels
       (map (fun p => if Nat.eqb (handle p) h
                      then panelMouseDown clientX (offsetWidth (sidebar p)) p else p)
          (panels st))
       st).

(** The [mousemove] listener one call of [initResizable] adds to the
    document. *)
Definition panelMouseMove (p : panel) (clientX : Z) (st : state) : state :=
  if negb (isResizing p) then st
  else
    let delta := clientX - startX p in
    let newWidth := startWidth p + delta in
    let minWidth := parseInt (getPropertyValue "--sidebar-width-min" st) in
    let maxWidth := parseInt (getPropertyValue "--sidebar-width-max" st) in
    if geNum (Some newWidth) minWidth && leNum (Some newWidth) maxWidth then
      let st1 := setStyle (OfElement (sidebar p)) "width" (px newWidth) st in
      if 1024 <=? innerWidth st1 then updateGridColumns (gridContainer p) newWidth st1
      else st1
    else st.

Definition mouseMove (clientX : Z) (st : state) : state :=
  fold_left (fun s p => panelMouseMove p clientX s) (panels st) st.

(** The [mouseup] listeners. *)
Definition mouseUp (offsetWidth : nat -> Z) (st : state) : state :=
  fold_left
    (fun s p =>
       if isResizing p then
         setItem widthKey (numberToString (offsetWidth (sidebar p)))
           (setStyle (OfElement (gridContainer p)) "transition" ""
              (setStyle OfBody "user-select" "" (setStyle OfBody "cursor" "" s)))
       else s)
    (panels st)
    (withPanels
       (map (fun p => mkPanel (handle p) (sidebar p) (gridContainer p) false (startX p) (startWidth p))
          (panels st))
       st).

(** The body of the debounced [resize] listener, run when its timeout
    fires. *)
Definition panelResized (p : panel) (offsetWidth : nat -> Z) (st : state) : state :=
  if innerWidth st <? 1024
  then setStyle (OfElement (gridContainer p)) "grid-template-columns" "" st
  else if negb (isEmpty (getStyle (OfElement (sidebar p)) "width" st)) then
    let sidebarWidth :=
      if offsetWidth (sidebar p) =? 0
      then parseInt (getStyle (OfElement (sidebar p)) "width" st)
      else Some (offsetWidth (sidebar p)) in
    match sidebarWidth with
    | Some w => if w =? 0 then st else updateGridColumns (gridContainer p) w st
    | None => st
    end
  else st.

End WithStorageKey.

(** The listener for [astro:before-swap]. *)
Definition beforeSwap (st : state) : state :=
  mkState (doc st) false (innerWidth st) (rootStyle st) (localStorage st)
    (inlineStyle st) (frameRequests st) (panels st).

End Resizable.

(* ================================================================== *)
(** * A page to run the scripts on *)
(* ================================================================== *)

Module Examples.

Definition el (r : nat) (tag : string) (cls : list string) (at_ : list (string * string))
    (ch : list node) : node :=
  Elem (mkElement (Some r) tag cls at_) ch.

Definition link (r : nat) (label : string) : node :=
  el r "a" ["nav-item"] [("data-nav-item", "")] [Text label].

(** A sidebar with one expanded section of three lessons. *)
Definition sidebar : forest :=
  [ el 1 "aside" [] [("id", "left-sidebar")]
      [ el 2 "div" ["sidebar-content"] []
          [ el 3 "input" [] [("id", "sidebar-search-desktop")] [];
            el 4 "nav" ["sidebar-nav"] []
              [ el 5 "div" ["nav-section"; "expanded"] []
                  [ el 6 "button" ["nav-section-header"] [] [Text "Basics"];
                    link 7 "Intro"; link 8 "Setup"; link 9 "Advanced Setup" ] ] ] ] ].

Definition searchStart : Search.state := Search.mkState (Search.mkPage sidebar []) [].
Definition searchReady : Search.state :=
  Search.initSearch "sidebar-search-desktop" (SelId "left-sidebar") searchStart.

Definition keyboardStart : Keyboard.state := Keyboard.mkState sidebar None None [] None.
Definition keyboardReady : Keyboard.state :=
  Keyboard.initKeyboardNavigation "sidebar-search-desktop" keyboardStart.

Definition splitStart : KeyboardSplit.state :=
  KeyboardSplit.mkState sidebar None false false None false [] None.
Definition splitReady : KeyboardSplit.state :=
  KeyboardSplit.initKeyboardNavigation "sidebar-search-desktop" splitStart.

(** The page [initSearch] leaves for the sidebar and what its listener
    captured. *)
Definition searchPage : Search.page := Search.pageOf searchReady.
Definition searchInstance : Search.instance :=
  match Search.inputListeners searchReady with
  | (_, inst) :: _ => inst
  | [] => Search.mkInstance [] [] 0
  end.

(** A sidebar where the label of the second lesson is split over two text
    nodes, the second one inside a [b] element. *)
Definition twoNodeSidebar : forest :=
  [ el 1 "aside" [] [("id", "left-sidebar")]
      [ el 2 "div" ["sidebar-content"] []
          [ el 3 "input" [] [("id", "sidebar-search-desktop")] [];
            el 4 "nav" ["sidebar-nav"] []
              [ link 7 "Intro";
                el 8 "a" ["nav-item"] [("data-nav-item", "")]
                  [Text "Set"; el 9 "b" [] [] [Text "up"]] ] ] ] ].

Definition twoNodeReady : Search.state :=
  Search.initSearch "sidebar-search-desktop" (SelId "left-sidebar")
    (Search.mkState (Search.mkPage twoNodeSidebar []) []).
Definition twoNodePage : Search.page := Search.pageOf twoNodeReady.
Definition twoNodeInstance : Search.instance :=
  match Search.inputListeners twoNodeReady with
  | (_, inst) :: _ => inst
  | [] => Search.mkInstance [] [] 0
  end.

(** The navigation element of a page, the one with handle 4 here. *)
Definition navOf (d : forest) : node :=
  match getElem 4 d with Some n => n | None => Text "" end.

(** A page without any of the elements the scripts look for. *)
Definition barePage : forest := [ el 1 "main" [] [] [Text "Hola"] ].

End Examples.

(* ================================================================== *)
(** * Facts about the resizable sidebar *)
(* ================================================================== *)

Module ResizableFacts.
Import Resizable.
Local Open Scope Z_scope.

Lemma append_nonempty_r : forall a b : string, isEmpty b = false -> isEmpty (a ++ b)%string = false.
Proof.
  intros a b Hb. destruct a as [|c a]; simpl; [exact Hb | reflexivity].
Qed.

Lemma px_nonempty : forall n, isEmpty (px n) = false.
Proof.
  intro n. unfold px. apply append_nonempty_r. reflexivity.
Qed.

Lemma sameSlot_refl : forall t prop v, sameSlot t prop (t, prop, v) = true.
Proof.
  intros t prop v. unfold sameSlot; simpl.
  rewrite String.eqb_refl, andb_true_r.
  destruct t; simpl; [reflexivity | apply Nat.eqb_refl].
Qed.

Lemma find_filter_negb : forall (A : Type) (f : A -> bool) (l : list A),
  find f (filter (fun d => negb (f d)) l) = None.
Proof.
  intros A f l. induction l as [|a l IH]; simpl; [reflexivity|].
  destruct (f a) eqn:E; simpl; [exact IH | rewrite E; exact IH].
Qed.

Lemma find_app_none : forall (A : Type) (f : A -> bool) (l1 l2 : list A),
  find f l1 = None -> find f (l1 ++ l2) = find f l2.
Proof.
  intros A f l1 l2. induction l1 as [|a l1 IH]; simpl; [reflexivity|].
  destruct (f a); [discriminate | exact IH].
Qed.

Lemma find_app_some : forall (A : Type) (f : A -> bool) (l1 l2 : list A) (d : A),
  find f l1 = Some d -> find f (l1 ++ l2) = Some d.
Proof.
  intros A f l1 l2 d. induction l1 as [|a l1 IH]; simpl; [discriminate|].
  destruct (f a); [auto | exact IH].
Qed.

(** Reading a style property just written gives the value written. *)
Lemma getStyle_setStyle_same : forall t prop v st,
  isEmpty v = false -> getStyle t prop (setStyle t prop v st) = v.
Proof.
  intros t prop v st Hv. unfold getStyle, setStyle; simpl. rewrite Hv.
  rewrite find_app_none by apply find_filter_negb.
  simpl. rewrite sameSlot_refl. reflexivity.
Qed.

Lemma find_filter_other : forall (A : Type) (f g : A -> bool) (l : list A),
  (forall a, f a = true -> g a = true) ->
  find f (filter g l) = find f l.
Proof.
  intros A f g l H. induction l as [|a l IH]; simpl; [reflexivity|].
  destruct (g a) eqn:Eg; simpl.
  - destruct (f a); [reflexivity | exact IH].
  - destruct (f a) eqn:Ef; [rewrite (H a Ef) in Eg; discriminate | exact IH].
Qed.

Lemma styledEqb_eq : forall a b, styledEqb a b = true -> a = b.
Proof.
  intros [|x] [|y]; simpl; try discriminate; auto.
  intro H. apply Nat.eqb_eq in H. congruence.
Qed.

Lemma sameSlot_exclusive : forall t prop t' prop' d,
  (t <> t' \/ prop <> prop') -> sameSlot t prop d = true -> sameSlot t' prop' d = false.
Proof.
  intros t prop t' prop' [[u q] w] Hne H. unfold sameSlot in *; simpl in *.
  apply andb_true_iff in H. destruct H as [H1 H2].
  apply styledEqb_eq in H1. apply String.eqb_eq in H2. subst u q.
  destruct (styledEqb t' t) eqn:E1; simpl; [|reflexivity].
  apply styledEqb_eq in E1. subst t'.
  destruct (String.eqb prop' prop) eqn:E2; [|reflexivity].
  apply String.eqb_eq in E2. subst prop'. destruct Hne; congruence.
Qed.

(** Writing one style property leaves the others as they were. *)
Lemma getStyle_setStyle_other : forall t prop t' prop' v st,
  (t <> t' \/ prop <> prop') ->
  getStyle t prop (setStyle t' prop' v st) = getStyle t prop st.
Proof.
  intros t prop t' prop' v st Hne. unfold getStyle, setStyle; simpl.
  assert (Hf : find (sameSlot t prop)
                 (filter (fun d => negb (sameSlot t' prop' d)) (inlineStyle st))
               = find (sameSlot t prop) (inlineStyle st)).
  { apply find_filter_other. intros a Ha.
    rewrite (sameSlot_exclusive t prop t' prop' a Hne Ha). reflexivity. }
  destruct (isEmpty v).
  - rewrite Hf. reflexivity.
  - destruct (find (sameSlot t prop) (inlineStyle st)) as [d|] eqn:E.
    + rewrite (find_app_some _ _ _ _ _ Hf). reflexivity.
    + rewrite find_app_none by exact Hf. simpl.
      assert (Hs : sameSlot t prop (t', prop', v) = false).
      { destruct (sameSlot t prop (t', prop', v)) eqn:Es; [|reflexivity].
        unfold sameSlot in Es; simpl in Es. apply andb_true_iff in Es.
        destruct Es as [E1 E2]. apply styledEqb_eq in E1. apply String.eqb_eq in E2.
        destruct Hne; congruence. }
      rewrite Hs. reflexivity.
Qed.

Lemma getStyle_updateGridColumns_width : forall g w sb st,
  getStyle (OfElement sb) "width" (updateGridColumns g w st) = getStyle (OfElement sb) "width" st.
Proof.
  intros g w sb st. unfold updateGridColumns.
  destruct (innerWidth st <? 1024); apply getStyle_setStyle_other; right; discriminate.
Qed.

Lemma geNum_some : forall a b, geNum (Some a) b = true -> exists lo, b = Some lo /\ lo <= a.
Proof.
  intros a [lo|] H; simpl in H; [|discriminate].
  exists lo. split; [reflexivity | apply Z.leb_le; exact H].
Qed.

Lemma leNum_some : forall a b, leNum (Some a) b = true -> exists hi, b = Some hi /\ a <= hi.
Proof.
  intros a [hi|] H; simpl in H; [|discriminate].
  exists hi. split; [reflexivity | apply Z.leb_le; exact H].
Qed.

(** C8.  On a mouse move, the listener either leaves the state as it is,
    or a drag is going on, both bounds parsed from the custom properties
    are numbers, the candidate width (start width plus horizontal pointer
    movement) lies between them, and that width is what the sidebar's
    inline width now holds.  When one of the bounds does not parse, the
    state is left as it is. *)
Theorem mousemove_width_within_bounds :
  forall (p : panel) (clientX : Z) (st : state),
    let newWidth := startWidth p + (clientX - startX p) in
    let minWidth := parseInt (getPropertyValue "--sidebar-width-min" st) in
    let maxWidth := parseInt (getPropertyValue "--sidebar-width-max" st) in
    let st' := panelMouseMove p clientX st in
    (st' = st \/
     (isResizing p = true /\
      exists lo hi,
        minWidth = Some lo /\ maxWidth = Some hi /\ lo <= newWidth <= hi /\
        getStyle (OfElement (sidebar p)) "width" st' = px newWidth))
    /\ match minWidth, maxWidth with
       | Some _, Some _ => True
       | _, _ => st' = st
       end.
Proof.
  intros p clientX st newWidth minWidth maxWidth st'.
  subst st'. unfold panelMouseMove.
  fold newWidth. fold minWidth. fold maxWidth.
  assert (Hnan : forall s : state,
             match minWidth, maxWidth with Some _, Some _ => True | _, _ => s = s end).
  { intro s. destruct minWidth, maxWidth; auto. }
  destruct (isResizing p) eqn:Hr; cbn [negb].
  2:{ split; [left; reflexivity | apply Hnan]. }
  destruct (geNum (Some newWidth) minWidth) eqn:Hge; cbn [andb].
  2:{ split; [left; reflexivity | apply Hnan]. }
  destruct (leNum (Some newWidth) maxWidth) eqn:Hle.
  2:{ split; [left; reflexivity | apply Hnan]. }
  destruct (geNum_some _ _ Hge) as [lo [Hlo Hlo']].
  destruct (leNum_some _ _ Hle) as [hi [Hhi Hhi']].
  split.
  - right. split; [reflexivity|]. exists lo, hi.
    repeat split; try assumption.
    destruct (1024 <=? innerWidth (setStyle (OfElement (sidebar p)) "width" (px newWidth) st)).
    + rewrite getStyle_updateGridColumns_width.
      apply getStyle_setStyle_same, px_nonempty.
    + apply getStyle_setStyle_same, px_nonempty.
  - rewrite Hlo, Hhi. exact I.
Qed.

End ResizableFacts.

(* ================================================================== *)
(** * Facts about the document tree *)
(* ================================================================== *)

Module DomFacts.

(** ** Elements in document order *)

Lemma selfAndDescendants_mapElements : forall g n,
  selfAndDescendants (mapElements g n) = map (mapElements g) (selfAndDescendants n).
Proof.
  intros g n. induction n as [s | e ch IH] using node_tree_ind; simpl; [reflexivity|].
  f_equal. induction ch as [|c ch IHch]; simpl; [reflexivity|].
  inversion IH as [|? ? Hc Hch]; subst.
  rewrite map_app, Hc, IHch by assumption. reflexivity.
Qed.

Lemma elementsOf_mapElements : forall g d,
  elementsOf (map (mapElements g) d) = map (mapElements g) (elementsOf d).
Proof.
  intros g d. unfold elementsOf. induction d as [|n d IH]; simpl; [reflexivity|].
  rewrite map_app, selfAndDescendants_mapElements, IH. reflexivity.
Qed.

Lemma descendants_mapElements : forall g n,
  descendants (mapElements g n) = map (mapElements g) (descendants n).
Proof.
  intros g [s | e ch]; simpl; [reflexivity | apply elementsOf_mapElements].
Qed.

Lemma selfAndDescendants_elements : forall n x,
  In x (selfAndDescendants n) -> exists e ch, x = Elem e ch.
Proof.
  intros n. induction n as [s | e ch IH] using node_tree_ind; simpl; intros x Hx; [contradiction|].
  destruct Hx as [Hx | Hx]; [subst; eauto|].
  apply in_flat_map in Hx. destruct Hx as [c [Hc Hx]].
  rewrite Forall_forall in IH. eauto.
Qed.

Lemma elementsOf_elements : forall d x,
  In x (elementsOf d) -> exists e ch, x = Elem e ch.
Proof.
  intros d x Hx. apply in_flat_map in Hx. destruct Hx as [n [_ Hx]].
  eapply selfAndDescendants_elements; eauto.
Qed.

(** The descendants of an element of a tree are elements of the tree. *)
Lemma selfAndDescendants_trans : forall n x y,
  In x (selfAndDescendants n) -> In y (selfAndDescendants x) -> In y (selfAndDescendants n).
Proof.
  intros n. induction n as [s | e ch IH] using node_tree_ind; simpl; intros x y Hx Hy; [contradiction|].
  destruct Hx as [Hx | Hx].
  - subst x. simpl in Hy. exact Hy.
  - right. apply in_flat_map in Hx. destruct Hx as [c [Hc Hx]].
    apply in_flat_map. exists c. split; [exact Hc|].
    rewrite Forall_forall in IH. eapply IH; eauto.
Qed.

Lemma descendants_in_self : forall x y,
  In y (descendants x) -> In y (selfAndDescendants x).
Proof.
  intros [s | e ch] y Hy; simpl in *; [contradiction | right; exact Hy].
Qed.

Lemma elementsOf_descendants : forall d x y,
  In x (elementsOf d) -> In y (descendants x) -> In y (elementsOf d).
Proof.
  intros d x y Hx Hy. apply in_flat_map in Hx. destruct Hx as [n [Hn Hx]].
  apply in_flat_map. exists n. split; [exact Hn|].
  eapply selfAndDescendants_trans; [exact Hx | apply descendants_in_self; exact Hy].
Qed.

(** ** Handles *)

Definition keepsRef (g : element -> element) : Prop := forall e, ref (g e) = ref e.

Lemma keepsRef_atRef : forall r g, keepsRef g -> keepsRef (atRef r g).
Proof.
  intros r g Hg e. unfold atRef. destruct (hasRef r e); [apply Hg | reflexivity].
Qed.

Lemma refOf_mapElements : forall g n, keepsRef g -> refOf (mapElements g n) = refOf n.
Proof.
  intros g [s | e ch] Hg; simpl; [reflexivity | apply Hg].
Qed.

Lemma isRef_mapElements : forall g r n, keepsRef g -> isRef r (mapElements g n) = isRef r n.
Proof.
  intros g r n Hg. unfold isRef. rewrite refOf_mapElements by exact Hg. reflexivity.
Qed.

Lemma refsOf_app : forall l1 l2, refsOf (l1 ++ l2) = refsOf l1 ++ refsOf l2.
Proof.
  intros l1 l2. unfold refsOf. apply flat_map_app.
Qed.

Lemma refsOf_map_mapElements : forall g l,
  keepsRef g -> refsOf (map (mapElements g) l) = refsOf l.
Proof.
  intros g l Hg. induction l as [|n l IH]; simpl; [reflexivity|].
  rewrite refOf_mapElements by exact Hg. rewrite IH. reflexivity.
Qed.

Lemma in_refsOf : forall l r,
  In r (refsOf l) <-> exists x, In x l /\ refOf x = Some r.
Proof.
  intros l r. unfold refsOf. rewrite in_flat_map. split.
  - intros [x [Hx Hr]]. exists x. split; [exact Hx|].
    destruct (refOf x) as [r'|]; simpl in Hr; [|contradiction].
    destruct Hr as [Hr|[]]. congruence.
  - intros [x [Hx Hr]]. exists x. split; [exact Hx|]. rewrite Hr. simpl. auto.
Qed.

Lemma isRef_true : forall r n, isRef r n = true <-> refOf n = Some r.
Proof.
  intros r n. unfold isRef. destruct (refOf n) as [r'|]; split; intro H; try discriminate.
  - apply Nat.eqb_eq in H. congruence.
  - inversion H. apply Nat.eqb_refl.
Qed.

Lemma find_map_inv : forall (A : Type) (f : A -> bool) (h : A -> A) (l : list A),
  (forall a, f (h a) = f a) -> find f (map h l) = option_map h (find f l).
Proof.
  intros A f h l H. induction l as [|a l IH]; simpl; [reflexivity|].
  rewrite H. destruct (f a); [reflexivity | exact IH].
Qed.

(** Looking an element up after a write to classes or attributes gives the
    same element, written to. *)
Lemma getElem_mapElements : forall g r d,
  keepsRef g ->
  getElem r (map (mapElements g) d) = option_map (mapElements g) (getElem r d).
Proof.
  intros g r d Hg. unfold getElem. rewrite elementsOf_mapElements.
  apply find_map_inv. intro a. apply isRef_mapElements. exact Hg.
Qed.

Lemma getElem_updateElement : forall r' g r d,
  keepsRef g ->
  getElem r (updateElement r' g d) = option_map (mapElements (atRef r' g)) (getElem r d).
Proof.
  intros r' g r d Hg. apply getElem_mapElements, keepsRef_atRef, Hg.
Qed.

Lemma getElem_some : forall r d x,
  getElem r d = Some x -> In x (elementsOf d) /\ refOf x = Some r.
Proof.
  intros r d x H. unfold getElem in H. apply find_some in H.
  destruct H as [H1 H2]. split; [exact H1 | apply isRef_true; exact H2].
Qed.

Lemma getElem_present : forall r d x,
  In x (elementsOf d) -> refOf x = Some r -> exists y, getElem r d = Some y.
Proof.
  intros r d x Hx Hr. unfold getElem.
  destruct (find (isRef r) (elementsOf d)) as [y|] eqn:E; [eauto|].
  exfalso. apply (find_none _ _ E) in Hx.
  apply isRef_true in Hr. congruence.
Qed.

(** When handles are unique, a handle denotes the one element that has
    it. *)
Definition uniqueRefs (d : forest) : Prop := NoDup (refsOf (elementsOf d)).

Fixpoint nodupb (l : list nat) : bool :=
  match l with
  | [] => true
  | x :: l' => negb (existsb (Nat.eqb x) l') && nodupb l'
  end.

Lemma nodupb_NoDup : forall l, nodupb l = true -> NoDup l.
Proof.
  induction l as [|x l IH]; simpl; intro H; [constructor|].
  apply andb_true_iff in H. destruct H as [H1 H2]. constructor; [|auto].
  intro Hin. apply negb_true_iff in H1.
  assert (Hex : existsb (Nat.eqb x) l = true).
  { apply existsb_exists. exists x. split; [exact Hin | apply Nat.eqb_refl]. }
  congruence.
Qed.

Definition uniqueRefsb (d : forest) : bool := nodupb (refsOf (elementsOf d)).

Lemma uniqueRefsb_true : forall d, uniqueRefsb d = true -> uniqueRefs d.
Proof. intros d H. apply nodupb_NoDup. exact H. Qed.

Lemma refsOf_unique : forall l x y r,
  NoDup (refsOf l) -> In x l -> In y l -> refOf x = Some r -> refOf y = Some r -> x = y.
Proof.
  intros l. induction l as [|a l IH]; intros x y r Hnd Hx Hy Hrx Hry; [contradiction|].
  simpl in Hnd.
  destruct Hx as [Hx | Hx]; destruct Hy as [Hy | Hy]; subst.
  - reflexivity.
  - rewrite Hrx in Hnd. simpl in Hnd. inversion Hnd as [|? ? Hnin _]; subst.
    exfalso. apply Hnin. apply in_refsOf. eauto.
  - rewrite Hry in Hnd. simpl in Hnd. inversion Hnd as [|? ? Hnin _]; subst.
    exfalso. apply Hnin. apply in_refsOf. eauto.
  - apply (IH x y r); auto.
    destruct (refOf a); simpl in Hnd; [inversion Hnd; assumption | exact Hnd].
Qed.

Lemma getElem_unique : forall r d x,
  uniqueRefs d -> In x (elementsOf d) -> refOf x = Some r -> getElem r d = Some x.
Proof.
  intros r d x Hu Hx Hr.
  destruct (getElem_present r d x Hx Hr) as [y Hy].
  destruct (getElem_some r d y Hy) as [Hy1 Hy2].
  rewrite Hy. f_equal. eapply refsOf_unique; eauto.
Qed.

Lemma uniqueRefs_updateElement : forall r g d,
  keepsRef g -> uniqueRefs d -> uniqueRefs (updateElement r g d).
Proof.
  intros r g d Hg Hu. unfold uniqueRefs, updateElement in *.
  rewrite elementsOf_mapElements, refsOf_map_mapElements; [exact Hu|].
  apply keepsRef_atRef, Hg.
Qed.

(** ** Attributes and classes *)

Lemma keepsRef_setAttribute : forall name v, keepsRef (setAttribute name v).
Proof. intros name v e. reflexivity. Qed.

Lemma keepsRef_removeAttribute : forall name, keepsRef (removeAttribute name).
Proof. intros name e. reflexivity. Qed.

Lemma keepsRef_classAdd : forall c, keepsRef (classAdd c).
Proof. intros c e. unfold classAdd. destruct (hasClass c e); reflexivity. Qed.

Lemma keepsRef_classRemove : forall c, keepsRef (classRemove c).
Proof. intros c e. reflexivity. Qed.

Lemma find_setAssoc_same : forall name v l,
  find (fun kv : string * string => String.eqb name (fst kv)) (setAssoc name v l)
  = Some (match find (fun kv : string * string => String.eqb name (fst kv)) l with
          | Some kv => (fst kv, v)
          | None => (name, v)
          end).
Proof.
  intros name v l. induction l as [|[k w] l IH]; simpl.
  - rewrite String.eqb_refl. reflexivity.
  - destruct (String.eqb name k) eqn:E; simpl; rewrite E; [reflexivity | exact IH].
Qed.

Lemma find_setAssoc_other : forall name name' v l,
  name' <> name ->
  find (fun kv : string * string => String.eqb name' (fst kv)) (setAssoc name v l)
  = find (fun kv : string * string => String.eqb name' (fst kv)) l.
Proof.
  intros name name' v l Hne. induction l as [|[k w] l IH]; simpl.
  - destruct (String.eqb name' name) eqn:E; [|reflexivity].
    apply String.eqb_eq in E. contradiction.
  - destruct (String.eqb name k) eqn:E; simpl.
    + apply String.eqb_eq in E. subst k.
      destruct (String.eqb name' name) eqn:E'; [|reflexivity].
      apply String.eqb_eq in E'. contradiction.
    + destruct (String.eqb name' k); [reflexivity | exact IH].
Qed.

Lemma getAttribute_setAttribute_same : forall name v e,
  getAttribute name (setAttribute name v e) = Some v.
Proof.
  intros name v e. unfold getAttribute, setAttribute; simpl.
  rewrite find_setAssoc_same.
  destruct (find _ (attributes e)); reflexivity.
Qed.

Lemma getAttribute_setAttribute_other : forall name name' v e,
  name' <> name -> getAttribute name' (setAttribute name v e) = getAttribute name' e.
Proof.
  intros name name' v e Hne. unfold getAttribute, setAttribute; simpl.
  rewrite find_setAssoc_other by exact Hne. reflexivity.
Qed.

Lemma getAttribute_removeAttribute_same : forall name e,
  getAttribute name (removeAttribute name e) = None.
Proof.
  intros name e. unfold getAttribute, removeAttribute; simpl.
  rewrite (ResizableFacts.find_filter_negb _ (fun kv : string * string => String.eqb name (fst kv))).
  reflexivity.
Qed.

Lemma getAttribute_removeAttribute_other : forall name name' e,
  name' <> name -> getAttribute name' (removeAttribute name e) = getAttribute name' e.
Proof.
  intros name name' e Hne. unfold getAttribute, removeAttribute; simpl.
  rewrite ResizableFacts.find_filter_other; [reflexivity|].
  intros [k w] Hk; simpl in *. apply String.eqb_eq in Hk. subst k.
  destruct (String.eqb name name') eqn:E; [|reflexivity].
  apply String.eqb_eq in E. congruence.
Qed.

(** The element a handle denotes, without its children. *)
Definition headOf (r : nat) (d : forest) : option element :=
  match getElem r d with
  | Some (Elem e _) => Some e
  | _ => None
  end.

Lemma headOf_ref : forall r d e, headOf r d = Some e -> ref e = Some r.
Proof.
  intros r d e H. unfold headOf in H.
  destruct (getElem r d) as [[s | e' ch]|] eqn:E; try discriminate.
  inversion H; subst. apply getElem_some in E. destruct E as [_ E]. exact E.
Qed.

(** A write to the element [r'] is seen on [r] exactly when [r = r']. *)
Lemma headOf_updateElement : forall r' g r d,
  keepsRef g ->
  headOf r (updateElement r' g d)
  = option_map (fun e => if Nat.eqb r' r then g e else e) (headOf r d).
Proof.
  intros r' g r d Hg. unfold headOf. rewrite getElem_updateElement by exact Hg.
  destruct (getElem r d) as [[s | e ch]|] eqn:E; simpl; try reflexivity.
  apply getElem_some in E. destruct E as [_ E]. simpl in E.
  unfold atRef, hasRef. rewrite E. reflexivity.
Qed.

Lemma headOf_getElem : forall r d x,
  getElem r d = Some x -> exists e ch, x = Elem e ch /\ headOf r d = Some e.
Proof.
  intros r d x H. destruct (getElem_some r d x H) as [H1 _].
  destruct (elementsOf_elements d x H1) as [e [ch Hx]]. subst x.
  exists e, ch. split; [reflexivity|]. unfold headOf. rewrite H. reflexivity.
Qed.

(** ** Chains of ancestors *)

Lemma chainIn_elements : forall r n p,
  chainIn r n = Some p -> forall x, In x p -> In x (selfAndDescendants n).
Proof.
  intros r n. induction n as [s | e ch IH] using node_tree_ind; simpl; intros p Hp x Hx;
    [discriminate|].
  destruct (isRef r (Elem e ch)).
  - inversion Hp; subst. destruct Hx as [Hx | []]. left. exact Hx.
  - match type of Hp with
    | match ?f ch with _ => _ end = _ => destruct (f ch) as [q|] eqn:Eq; [|discriminate]
    end.
    inversion Hp; subst. apply in_app_or in Hx. destruct Hx as [Hx | [Hx | []]]; [|left; exact Hx].
    right. clear Hp. induction ch as [|c ch IHch]; [discriminate|].
    inversion IH as [|? ? Hc Hch]; subst. simpl.
    destruct (chainIn r c) as [q'|] eqn:Ec.
    + inversion Eq; subst. apply in_or_app. left. eapply Hc; eauto.
    + apply in_or_app. right. apply IHch; assumption.
Qed.

Lemma chainOf_elements : forall r d p,
  chainOf r d = Some p -> forall x, In x p -> In x (elementsOf d).
Proof.
  intros r d. induction d as [|n d IH]; simpl; intros p Hp x Hx; [discriminate|].
  apply in_or_app. destruct (chainIn r n) as [q|] eqn:E.
  - inversion Hp; subst. left. eapply chainIn_elements; eauto.
  - right. eapply IH; eauto.
Qed.

Lemma closest_In : forall s r d n, closest s r d = Some n -> In n (elementsOf d).
Proof.
  intros s r d n H. unfold closest in H.
  destruct (chainOf r d) as [p|] eqn:E; [|discriminate].
  apply find_some in H. destruct H as [H _]. eapply chainOf_elements; eauto.
Qed.

(** ** Subtrees as segments of the document order *)

Lemma selfAndDescendants_segment : forall n x,
  In x (selfAndDescendants n) ->
  exists l1 l2, selfAndDescendants n = l1 ++ selfAndDescendants x ++ l2.
Proof.
  intros n. induction n as [s | e ch IH] using node_tree_ind; simpl; intros x Hx; [contradiction|].
  destruct Hx as [Hx | Hx].
  - subst x. exists [], []. simpl. rewrite app_nil_r. reflexivity.
  - apply in_flat_map in Hx. destruct Hx as [c [Hc Hx]].
    rewrite Forall_forall in IH. destruct (IH c Hc x Hx) as [l1 [l2 Hseg]].
    destruct (in_split c ch Hc) as [ch1 [ch2 Hch]]. subst ch.
    exists (Elem e (ch1 ++ c :: ch2) :: flat_map selfAndDescendants ch1 ++ l1),
           (l2 ++ flat_map selfAndDescendants ch2).
    rewrite flat_map_app. simpl. rewrite Hseg.
    repeat rewrite <- app_assoc. reflexivity.
Qed.

Lemma elementsOf_segment : forall d x,
  In x (elementsOf d) ->
  exists l1 l2, elementsOf d = l1 ++ selfAndDescendants x ++ l2.
Proof.
  intros d x Hx. apply in_flat_map in Hx. destruct Hx as [n [Hn Hx]].
  destruct (selfAndDescendants_segment n x Hx) as [l1 [l2 Hseg]].
  destruct (in_split n d Hn) as [d1 [d2 Hd]]. subst d.
  exists (elementsOf d1 ++ l1), (l2 ++ elementsOf d2).
  unfold elementsOf. rewrite flat_map_app. simpl. rewrite Hseg.
  repeat rewrite <- app_assoc. reflexivity.
Qed.

Lemma NoDup_app_l : forall (A : Type) (l1 l2 : list A), NoDup (l1 ++ l2) -> NoDup l1.
Proof.
  intros A l1 l2 H. induction l1 as [|a l1 IH]; [constructor|].
  simpl in H. inversion H as [|? ? Hn Hd]; subst. constructor.
  - intro Hin. apply Hn. apply in_or_app. left. exact Hin.
  - apply IH. exact Hd.
Qed.

Lemma NoDup_app_r : forall (A : Type) (l1 l2 : list A), NoDup (l1 ++ l2) -> NoDup l2.
Proof.
  intros A l1 l2 H. induction l1 as [|a l1 IH]; [exact H|].
  simpl in H. inversion H; subst. auto.
Qed.

Lemma NoDup_refsOf_filter : forall f l, NoDup (refsOf l) -> NoDup (refsOf (filter f l)).
Proof.
  intros f l. induction l as [|a l IH]; simpl; intro H; [constructor|].
  assert (Hl : NoDup (refsOf l)) by (eapply NoDup_app_r; exact H).
  destruct (f a); simpl; [|auto].
  destruct (refOf a) as [r|]; simpl in *; [|auto].
  inversion H as [|? ? Hn Hd]; subst. constructor; [|auto].
  intro Hin. apply Hn. apply in_refsOf in Hin. destruct Hin as [x [Hx Hr]].
  apply filter_In in Hx. apply in_refsOf. exists x. tauto.
Qed.

Lemma uniqueRefs_subtree : forall d x,
  uniqueRefs d -> In x (elementsOf d) -> NoDup (refsOf (selfAndDescendants x)).
Proof.
  intros d x Hu Hx. destruct (elementsOf_segment d x Hx) as [l1 [l2 Hseg]].
  unfold uniqueRefs in Hu. rewrite Hseg in Hu. rewrite !refsOf_app in Hu.
  eapply NoDup_app_l, NoDup_app_r. exact Hu.
Qed.

Lemma uniqueRefs_descendants : forall d x,
  uniqueRefs d -> In x (elementsOf d) -> NoDup (refsOf (descendants x)).
Proof.
  intros d x Hu Hx. pose proof (uniqueRefs_subtree d x Hu Hx) as H.
  destruct x as [s | e ch]; simpl in *; [constructor|].
  destruct (ref e); simpl in H; [inversion H; assumption | exact H].
Qed.

End DomFacts.

(* ================================================================== *)
(** * Facts about keyboard navigation *)
(* ================================================================== *)

Module NavFacts.
Import Nav DomFacts.

Ltac attr_simpl :=
  repeat first
    [ rewrite getAttribute_setAttribute_same
    | rewrite getAttribute_removeAttribute_same
    | rewrite getAttribute_setAttribute_other by discriminate
    | rewrite getAttribute_removeAttribute_other by discriminate ].

Lemma tabindexOf_headOf : forall r d,
  tabindexOf r d = match headOf r d with Some e => getAttribute "tabindex" e | None => None end.
Proof.
  intros r d. unfold tabindexOf, headOf. destruct (getElem r d) as [[s | e ch]|]; reflexivity.
Qed.

Lemma isFocusedMarked_headOf : forall r d,
  isFocusedMarked r d
  = match headOf r d with Some e => hasAttribute "data-focused" e | None => false end.
Proof.
  intros r d. unfold isFocusedMarked, headOf. destruct (getElem r d) as [[s | e ch]|]; reflexivity.
Qed.

(** The two writes of [setFocusedItem] on the new item, and the two on the
    previous one. *)
Definition setCursor (item : nat) (d : forest) : forest :=
  updateElement item (setAttribute "data-focused" "true")
    (updateElement item (setAttribute "tabindex" "0") d).

Definition clearCursor (c : nat) (d : forest) : forest :=
  updateElement c (removeAttribute "data-focused")
    (updateElement c (setAttribute "tabindex" "-1") d).

Lemma headOf_setCursor : forall item r d,
  headOf r (setCursor item d)
  = option_map
      (fun e => if Nat.eqb item r
                then setAttribute "data-focused" "true" (setAttribute "tabindex" "0" e)
                else e)
      (headOf r d).
Proof.
  intros item r d. unfold setCursor.
  rewrite !headOf_updateElement by apply keepsRef_setAttribute.
  destruct (headOf r d); simpl; [|reflexivity].
  destruct (Nat.eqb item r); reflexivity.
Qed.

Lemma headOf_clearCursor : forall c r d,
  headOf r (clearCursor c d)
  = option_map
      (fun e => if Nat.eqb c r
                then removeAttribute "data-focused" (setAttribute "tabindex" "-1" e)
                else e)
      (headOf r d).
Proof.
  intros c r d. unfold clearCursor.
  rewrite headOf_updateElement by apply keepsRef_removeAttribute.
  rewrite headOf_updateElement by apply keepsRef_setAttribute.
  destruct (headOf r d); simpl; [|reflexivity].
  destruct (Nat.eqb c r); reflexivity.
Qed.

(** An element is a nav item. *)
Definition isNavItemAt (r : nat) (d : forest) : Prop :=
  exists e, headOf r d = Some e /\ hasAttribute "data-nav-item" e = true.

Lemma isNavItemAt_setCursor : forall item r d,
  isNavItemAt r d -> isNavItemAt r (setCursor item d).
Proof.
  intros item r d [e [He Hn]]. unfold isNavItemAt. rewrite headOf_setCursor, He. simpl.
  eexists; split; [reflexivity|].
  destruct (Nat.eqb item r); [|exact Hn].
  unfold hasAttribute in *. attr_simpl. exact Hn.
Qed.

Lemma isNavItemAt_clearCursor : forall c r d,
  isNavItemAt r d -> isNavItemAt r (clearCursor c d).
Proof.
  intros c r d [e [He Hn]]. unfold isNavItemAt. rewrite headOf_clearCursor, He. simpl.
  eexists; split; [reflexivity|].
  destruct (Nat.eqb c r); [|exact Hn].
  unfold hasAttribute in *. attr_simpl. exact Hn.
Qed.


Lemma isNavItemAt_getElem : forall r d,
  isNavItemAt r d -> exists x, getElem r d = Some x /\ matches (SelAttr "data-nav-item") x = true.
Proof.
  intros r d [e [He Hn]]. unfold headOf in He.
  destruct (getElem r d) as [[s | e' ch]|] eqn:E; try discriminate.
  inversion He; subst. exists (Elem e ch). split; [reflexivity | exact Hn].
Qed.

(** ** The visible items *)

Lemma matches_visible_navItem : forall x,
  matches visibleItemSel x = true -> matches (SelAttr "data-nav-item") x = true.
Proof.
  intros [s | e ch] H; simpl in *; [discriminate|].
  apply andb_true_iff in H. tauto.
Qed.

Lemma visible_item_element : forall nav d r,
  In r (getVisibleNavItems nav d) ->
  exists x, In x (descendants nav) /\ refOf x = Some r /\ matches visibleItemSel x = true.
Proof.
  intros nav d r H. unfold getVisibleNavItems in H.
  apply filter_In in H. destruct H as [H _].
  apply in_refsOf in H. destruct H as [x [Hx Hr]].
  unfold querySelectorAll in Hx. apply filter_In in Hx. destruct Hx as [Hx Hm].
  eauto.
Qed.

(** With unique handles, every visible item of a container of the document
    is a nav item of the document. *)
Lemma visible_item_isNavItem : forall nav d r,
  uniqueRefs d -> In nav (elementsOf d) -> In r (getVisibleNavItems nav d) -> isNavItemAt r d.
Proof.
  intros nav d r Hu Hnav Hr.
  destruct (visible_item_element nav d r Hr) as [x [Hx [Hrx Hm]]].
  assert (Hin : In x (elementsOf d)) by (eapply elementsOf_descendants; eauto).
  pose proof (getElem_unique r d x Hu Hin Hrx) as Hg.
  destruct (headOf_getElem r d x Hg) as [e [ch [Hxe He]]]. subst x.
  exists e. split; [exact He|]. apply matches_visible_navItem in Hm. exact Hm.
Qed.

Lemma visible_items_NoDup : forall nav d,
  uniqueRefs d -> In nav (elementsOf d) -> NoDup (getVisibleNavItems nav d).
Proof.
  intros nav d Hu Hnav. unfold getVisibleNavItems.
  apply NoDup_filter. unfold querySelectorAll. apply NoDup_refsOf_filter.
  eapply uniqueRefs_descendants; eauto.
Qed.

Lemma indexOf_range : forall x l, (-1 <= indexOf x l < len l)%Z.
Proof.
  intros x l. unfold len. induction l as [|y l IH]; simpl; [lia|].
  destruct (Nat.eqb x y); [lia|].
  destruct (indexOf x l <? 0)%Z eqn:E; [lia|]. apply Z.ltb_ge in E. lia.
Qed.

Lemma indexOf_nth : forall x l,
  (0 <= indexOf x l)%Z -> nth_error l (Z.to_nat (indexOf x l)) = Some x.
Proof.
  intros x l. induction l as [|y l IH]; simpl; [lia|].
  destruct (Nat.eqb x y) eqn:Exy.
  - intros _. apply Nat.eqb_eq in Exy. subst. reflexivity.
  - destruct (indexOf x l <? 0)%Z eqn:E; [lia|]. apply Z.ltb_ge in E.
    intros _. replace (Z.to_nat (indexOf x l + 1)) with (S (Z.to_nat (indexOf x l))) by lia.
    simpl. apply IH. exact E.
Qed.

Lemma at_next : forall l i,
  (0 <= i)%Z -> (i < len l - 1)%Z -> exists y, at_ l (i + 1) = Some y.
Proof.
  intros l i H0 H1. unfold at_, len in *.
  destruct (i + 1 <? 0)%Z eqn:E; [apply Z.ltb_lt in E; lia|].
  destruct (nth_error l (Z.to_nat (i + 1))) as [y|] eqn:En; [eauto|].
  apply nth_error_None in En. lia.
Qed.

Lemma at_next_differs : forall l i x y,
  NoDup l -> (0 <= i)%Z -> nth_error l (Z.to_nat i) = Some x -> at_ l (i + 1) = Some y -> x <> y.
Proof.
  intros l i x y Hnd H0 Hx Hy Heq. subst y. unfold at_ in Hy.
  destruct (i + 1 <? 0)%Z; [discriminate|].
  assert (Hlt : (Z.to_nat i < List.length l)%nat) by (apply nth_error_Some; congruence).
  pose proof (proj1 (NoDup_nth_error l) Hnd (Z.to_nat i) (Z.to_nat (i + 1)) Hlt) as H.
  rewrite Hx, Hy in H. specialize (H eq_refl). lia.
Qed.

Lemma at_In : forall l i r, at_ l i = Some r -> In r l.
Proof.
  intros l i r H. unfold at_ in H. destruct (i <? 0)%Z; [discriminate|].
  eapply nth_error_In; eauto.
Qed.

End NavFacts.

Module KeyboardFacts.
Import Nav DomFacts NavFacts Keyboard.

Lemma activeElement_focus : forall r st, activeElement (focus r st) = Some r.
Proof.
  intros r st. unfold focus. destruct (activeElement st) as [old|] eqn:E; [|reflexivity].
  destruct (Nat.eqb old r) eqn:Er; [|reflexivity].
  apply Nat.eqb_eq in Er. subst. exact E.
Qed.

Lemma currentFocusedItem_focus : forall r st,
  currentFocusedItem (focus r st) = currentFocusedItem st.
Proof.
  intros r st. unfold focus, onFocusOut.
  destruct (activeElement st) as [old|]; [|reflexivity].
  destruct (Nat.eqb old r); [reflexivity|]. simpl.
  destruct (getElem old (doc st)); [|reflexivity].
  destruct (matches (SelAttr "data-nav-item") n); [|reflexivity].
  match goal with |- context [if ?b then st else _] => destruct b end; reflexivity.
Qed.

(** Focus moving to a nav item leaves the document as it is. *)
Lemma doc_focus_navItem : forall r st, isNavItemAt r (doc st) -> doc (focus r st) = doc st.
Proof.
  intros r st Hr. unfold focus.
  destruct (activeElement st) as [old|]; [|reflexivity].
  destruct (Nat.eqb old r); [reflexivity|]. simpl.
  unfold onFocusOut.
  destruct (getElem old (doc st)); [|reflexivity].
  destruct (matches (SelAttr "data-nav-item") n); [|reflexivity].
  destruct (isNavItemAt_getElem r (doc st) Hr) as [x [Hx Hm]].
  rewrite Hx, Hm. reflexivity.
Qed.

Definition clearPrevious (c : option nat) (item : nat) (d : forest) : forest :=
  match c with
  | Some c' => if negb (Nat.eqb c' item) then clearCursor c' d else d
  | None => d
  end.

Lemma isNavItemAt_clearPrevious : forall c item r d,
  isNavItemAt r d -> isNavItemAt r (clearPrevious c item d).
Proof.
  intros [c|] item r d H; simpl; [|exact H].
  destruct (negb (Nat.eqb c item)); [apply isNavItemAt_clearCursor|]; exact H.
Qed.

(** What [setFocusedItem] does when its argument is a nav item. *)
Lemma setFocusedItem_navItem : forall item st,
  isNavItemAt item (doc st) ->
  doc (setFocusedItem item st) = setCursor item (clearPrevious (currentFocusedItem st) item (doc st))
  /\ currentFocusedItem (setFocusedItem item st) = Some item
  /\ activeElement (setFocusedItem item st) = Some item.
Proof.
  intros item st Hitem. unfold setFocusedItem.
  set (st1 := match currentFocusedItem st with
              | Some c => if negb (Nat.eqb c item)
                          then removeAttr c "data-focused" (setAttr c "tabindex" "-1" st)
                          else st
              | None => st
              end).
  assert (H1 : doc st1 = clearPrevious (currentFocusedItem st) item (doc st)).
  { subst st1. unfold clearPrevious. destruct (currentFocusedItem st) as [c|]; [|reflexivity].
    destruct (negb (Nat.eqb c item)); reflexivity. }
  set (st3 := setAttr item "data-focused" "true" (setAttr item "tabindex" "0" st1)).
  assert (H3 : doc st3 = setCursor item (clearPrevious (currentFocusedItem st) item (doc st))).
  { subst st3. simpl. rewrite H1. reflexivity. }
  assert (Hn : isNavItemAt item (doc st3)).
  { rewrite H3. apply isNavItemAt_setCursor, isNavItemAt_clearPrevious, Hitem. }
  simpl. split; [|split].
  - rewrite doc_focus_navItem by exact Hn. exact H3.
  - reflexivity.
  - apply activeElement_focus.
Qed.

(** ** The roving tabindex *)


Definition allNavItems (V : list nat) (d : forest) : Prop :=
  forall r, In r V -> isNavItemAt r d.




Lemma at_zero_In : forall l, l <> [] -> exists x, at_ l 0 = Some x /\ In x l.
Proof.
  intros [|x l] H; [contradiction|]. exists x. split; [reflexivity | left; reflexivity].
Qed.

Lemma includesRef_In : forall r l, In r l -> includesRef r l = true.
Proof.
  intros r l H. unfold includesRef. apply existsb_exists. exists r.
  split; [exact H | apply Nat.eqb_refl].
Qed.








End KeyboardFacts.

Module KeyboardSplitFacts.
Import Nav DomFacts NavFacts KeyboardSplit.

Lemma activeElement_focus_split : forall r st, activeElement (focus r st) = Some r.
Proof.
  intros r st. unfold focus. destruct (activeElement st) as [old|] eqn:E; [|reflexivity].
  destruct (Nat.eqb old r) eqn:Er; [|reflexivity].
  apply Nat.eqb_eq in Er. subst. exact E.
Qed.

Definition clearPrevious (c : option nat) (d : forest) : forest :=
  match c with
  | Some c' => clearCursor c' d
  | None => d
  end.

(** In this module the element that loses focus may lose its marker as
    well; that element is never the one [setFocusedItem] moves to. *)
Lemma setFocusedItem_split_doc : forall item st,
  let D := setCursor item (clearPrevious (currentFocusedItem st) (doc st)) in
  (doc (setFocusedItem item st) = D
   \/ exists old, old <> item
        /\ doc (setFocusedItem item st) = updateElement old (removeAttribute "data-focused") D)
  /\ currentFocusedItem (setFocusedItem item st) = Some item
  /\ activeElement (setFocusedItem item st) = Some item.
Proof.
  intros item st D. unfold setFocusedItem. cbv zeta.
  set (st1 := match currentFocusedItem st with
              | Some c => removeAttr c "data-focused" (setAttr c "tabindex" "-1" st)
              | None => st
              end).
  assert (H1 : doc st1 = clearPrevious (currentFocusedItem st) (doc st)).
  { subst st1. unfold clearPrevious. destruct (currentFocusedItem st); reflexivity. }
  set (st3 := setAttr item "data-focused" "true" (setAttr item "tabindex" "0" st1)).
  assert (H3 : doc st3 = D).
  { subst st3 D. cbn [setAttr doc withDoc]. rewrite H1. reflexivity. }
  split; [|split; [reflexivity | apply activeElement_focus_split]].
  change (doc (withCurrent (Some item) (focus item st3))) with (doc (focus item st3)).
  unfold focus. destruct (activeElement st3) as [old|]; [|left; exact H3].
  destruct (Nat.eqb old item) eqn:Eo; [left; exact H3|].
  apply Nat.eqb_neq in Eo.
  change (doc (withActive (Some item) (onFocusOut old st3))) with (doc (onFocusOut old st3)).
  unfold onFocusOut.
  destruct (getElem old (doc st3)); [|left; exact H3].
  destruct (matches (SelAttr "data-nav-item") n); [|left; exact H3].
  right. exists old. split; [exact Eo|].
  cbn [removeAttr doc withDoc]. rewrite H3. reflexivity.
Qed.

End KeyboardSplitFacts.

Module KeyboardClaims.
Import Nav DomFacts NavFacts.

(** What a move of the cursor from [t] to [next] leaves on the two
    elements. *)
Definition cursorMoved (t next : nat) (d : forest) : Prop :=
  tabindexOf next d = Some "0"%string /\ isFocusedMarked next d = true
  /\ tabindexOf t d = Some "-1"%string /\ isFocusedMarked t d = false.

Lemma cursorMoved_base : forall t next d,
  isNavItemAt t d -> isNavItemAt next d -> t <> next ->
  cursorMoved t next (setCursor next (clearCursor t d)).
Proof.
  intros t next d [et [Het _]] [en [Hen _]] Hne.
  unfold cursorMoved. rewrite !tabindexOf_headOf, !isFocusedMarked_headOf.
  rewrite !headOf_setCursor, !headOf_clearCursor, Het, Hen. simpl.
  rewrite !Nat.eqb_refl.
  assert (E1 : Nat.eqb t next = false) by (apply Nat.eqb_neq; exact Hne).
  assert (E2 : Nat.eqb next t = false) by (apply Nat.eqb_neq; auto).
  rewrite E1, E2. unfold hasAttribute. attr_simpl. auto.
Qed.

Lemma cursorMoved_focusout : forall t next old d,
  old <> next -> cursorMoved t next d ->
  cursorMoved t next (updateElement old (removeAttribute "data-focused") d).
Proof.
  intros t next old d Hne [H1 [H2 [H3 H4]]].
  assert (E : Nat.eqb old next = false) by (apply Nat.eqb_neq; exact Hne).
  unfold cursorMoved.
  rewrite !tabindexOf_headOf, !isFocusedMarked_headOf in *.
  rewrite !headOf_updateElement by apply keepsRef_removeAttribute.
  destruct (headOf next d) as [en|]; [|discriminate].
  destruct (headOf t d) as [et|]; [|discriminate].
  simpl. rewrite E.
  destruct (Nat.eqb old t); unfold hasAttribute in *; attr_simpl; auto.
Qed.

Lemma closest_nav_items : forall t nav d,
  uniqueRefs d ->
  closest (SelClass "sidebar-nav") t d = Some nav ->
  NoDup (getVisibleNavItems nav d)
  /\ forall r, In r (getVisibleNavItems nav d) -> isNavItemAt r d.
Proof.
  intros t nav d Hu Hc. pose proof (closest_In _ _ _ _ Hc) as Hin. split.
  - apply visible_items_NoDup; assumption.
  - intros r Hr. eapply visible_item_isNavItem; eauto.
Qed.

(** C6, as amended.  The target [t] of an ArrowDown is a visible item of
    its navigation, at index [i], and the cursor is on it.  In both
    keyboard modules the default is prevented and, when [t] is not the last
    visible item, the cursor moves to the next one: that one gets tabindex
    0, the marker and the focus, and [t] gets tabindex -1 and loses the
    marker.  When [t] is the last visible item, the module with one global
    handler gives the focus to the first section header of the navigation
    if there is one, leaving the cursor and every tabindex where they were,
    and does nothing otherwise; the module with two listeners does
    nothing. *)
Theorem arrow_down_on_nav_item :
  (forall click collapse expand (e : keyEvent) (st : Keyboard.state) (nav : node),
     key e = "ArrowDown"%string ->
     uniqueRefs (Keyboard.doc st) ->
     closest (SelClass "sidebar-nav") (target e) (Keyboard.doc st) = Some nav ->
     Keyboard.currentFocusedItem st = Some (target e) ->
     let items := getVisibleNavItems nav (Keyboard.doc st) in
     let i := indexOf (target e) items in
     (0 <= i)%Z ->
     let r := Keyboard.handleNavItemKeydown click collapse expand e st in
     snd r = true
     /\ ((i < len items - 1)%Z ->
         exists next,
           at_ items (i + 1) = Some next
           /\ Keyboard.currentFocusedItem (fst r) = Some next
           /\ Keyboard.activeElement (fst r) = Some next
           /\ cursorMoved (target e) next (Keyboard.doc (fst r)))
     /\ (i = (len items - 1)%Z ->
         match Keyboard.optRef (querySelector (SelClass "nav-section-header") nav) with
         | Some h =>
             Keyboard.activeElement (fst r) = Some h
             /\ Keyboard.currentFocusedItem (fst r) = Some (target e)
             /\ forall x, tabindexOf x (Keyboard.doc (fst r)) = tabindexOf x (Keyboard.doc st)
         | None => fst r = st
         end))
  /\
  (forall click collapse expand (e : keyEvent) (st : KeyboardSplit.state) (nav : node),
     key e = "ArrowDown"%string ->
     uniqueRefs (KeyboardSplit.doc st) ->
     closest (SelClass "sidebar-nav") (target e) (KeyboardSplit.doc st) = Some nav ->
     KeyboardSplit.currentFocusedItem st = Some (target e) ->
     (forall tn, getElem (target e) (KeyboardSplit.doc st) = Some tn ->
                 matches (SelClass "nav-section-header") tn = false) ->
     let items := getVisibleNavItems nav (KeyboardSplit.doc st) in
     let i := indexOf (target e) items in
     (0 <= i)%Z ->
     let r := KeyboardSplit.handleNavKeydown click collapse expand e st in
     snd r = true
     /\ ((i < len items - 1)%Z ->
         exists next,
           at_ items (i + 1) = Some next
           /\ KeyboardSplit.currentFocusedItem (fst r) = Some next
           /\ KeyboardSplit.activeElement (fst r) = Some next
           /\ cursorMoved (target e) next (KeyboardSplit.doc (fst r)))
     /\ (i = (len items - 1)%Z -> fst r = st)).
Proof.
  split.
  - intros click collapse expand e st nav Hkey Hu Hnav Hcur items i Hi r.
    destruct (closest_nav_items _ _ _ Hu Hnav) as [Hnd Hitems]. fold items in Hnd, Hitems.
    pose proof (indexOf_nth (target e) items Hi) as Hnth. fold i in Hnth.
    assert (Ht : isNavItemAt (target e) (Keyboard.doc st)).
    { apply Hitems. eapply nth_error_In; eauto. }
    subst r. unfold Keyboard.handleNavItemKeydown. rewrite Hnav, Hkey.
    fold items. fold i. cbn [String.eqb Ascii.eqb Bool.eqb].
    destruct (i <? len items - 1)%Z eqn:Elt.
    + apply Z.ltb_lt in Elt.
      assert (Hge : (0 <=? i)%Z = true) by (apply Z.leb_le; exact Hi).
      rewrite Hge. cbn [andb].
      destruct (at_next items i Hi Elt) as [next Hnext]. rewrite Hnext.
      cbn [fst snd]. split; [reflexivity|]. split; [|intro; lia].
      intros _. exists next. split; [reflexivity|].
      assert (Hn : isNavItemAt next (Keyboard.doc st)).
      { apply Hitems. eapply at_In; eauto. }
      assert (Hne : target e <> next) by (eapply at_next_differs; eauto).
      destruct (KeyboardFacts.setFocusedItem_navItem next st Hn) as [Hd [Hc Ha]].
      split; [exact Hc|]. split; [exact Ha|].
      rewrite Hd, Hcur. unfold KeyboardFacts.clearPrevious.
      assert (E : Nat.eqb (target e) next = false) by (apply Nat.eqb_neq; exact Hne).
      rewrite E. cbn [negb]. apply cursorMoved_base; assumption.
    + apply Z.ltb_ge in Elt. rewrite andb_false_r.
      destruct (Keyboard.optRef (querySelector (SelClass "nav-section-header") nav)) as [h|];
        cbn [fst snd]; (split; [reflexivity|]); (split; [intro; lia|]); intros _; [|reflexivity].
      split; [apply KeyboardFacts.activeElement_focus|].
      split; [rewrite KeyboardFacts.currentFocusedItem_focus; exact Hcur|].
      intro x. unfold Keyboard.focus.
      destruct (Keyboard.activeElement st) as [old|]; [|reflexivity].
      destruct (Nat.eqb old h); [reflexivity|]. cbn [Keyboard.doc Keyboard.withActive].
      unfold Keyboard.onFocusOut.
      destruct (getElem old (Keyboard.doc st)); [|reflexivity].
      destruct (matches (SelAttr "data-nav-item") n); [|reflexivity].
      match goal with |- context [if ?b then st else _] => destruct b end; [reflexivity|].
      cbn [Keyboard.removeAttr Keyboard.doc Keyboard.withDoc].
      rewrite !tabindexOf_headOf, headOf_updateElement by apply keepsRef_removeAttribute.
      destruct (headOf x (Keyboard.doc st)); [|reflexivity]. simpl.
      destruct (Nat.eqb old x); attr_simpl; reflexivity.
  - intros click collapse expand e st nav Hkey Hu Hnav Hcur Hhead items i Hi r.
    destruct (closest_nav_items _ _ _ Hu Hnav) as [Hnd Hitems]. fold items in Hnd, Hitems.
    pose proof (indexOf_nth (target e) items Hi) as Hnth. fold i in Hnth.
    assert (Ht : isNavItemAt (target e) (KeyboardSplit.doc st)).
    { apply Hitems. eapply nth_error_In; eauto. }
    destruct (isNavItemAt_getElem _ _ Ht) as [tn [Htn Hm]].
    subst r. unfold KeyboardSplit.handleNavKeydown.
    rewrite Htn, (Hhead tn Htn), Hm, Hnav, Hkey. cbn [negb].
    fold items. fold i. cbn [String.eqb Ascii.eqb Bool.eqb].
    destruct (i <? len items - 1)%Z eqn:Elt.
    + apply Z.ltb_lt in Elt.
      destruct (at_next items i Hi Elt) as [next Hnext]. rewrite Hnext.
      cbn [fst snd]. split; [reflexivity|]. split; [|intro; lia].
      intros _. exists next. split; [reflexivity|].
      assert (Hn : isNavItemAt next (KeyboardSplit.doc st)).
      { apply Hitems. eapply at_In; eauto. }
      assert (Hne : target e <> next) by (eapply at_next_differs; eauto).
      destruct (KeyboardSplitFacts.setFocusedItem_split_doc next st) as [Hd [Hc Ha]].
      split; [exact Hc|]. split; [exact Ha|].
      rewrite Hcur in Hd. cbn [KeyboardSplitFacts.clearPrevious] in Hd.
      destruct Hd as [Hd | [old [Hold Hd]]]; rewrite Hd.
      * apply cursorMoved_base; assumption.
      * apply cursorMoved_focusout; [exact Hold|]. apply cursorMoved_base; assumption.
    + apply Z.ltb_ge in Elt. cbn [fst snd].
      split; [reflexivity|]. split; [intro; lia | reflexivity].
Qed.

(** The handlers of the example page: nothing from collapsible.ts is
    involved in what is computed with them. *)
Definition noopA : nat -> Keyboard.state -> Keyboard.state := fun _ st => st.
Definition noopB : nat -> KeyboardSplit.state -> KeyboardSplit.state := fun _ st => st.

Lemma arrow_down_witness :
  (let st := Keyboard.setFocusedItem 8 Examples.keyboardReady in
   let r := Keyboard.handleNavItemKeydown noopA noopA noopA (mkKeyEvent "ArrowDown" 8) st in
   snd r = true
   /\ Keyboard.currentFocusedItem (fst r) = Some 9
   /\ Keyboard.activeElement (fst r) = Some 9
   /\ cursorMoved 8 9 (Keyboard.doc (fst r)))
  /\
  (let st := KeyboardSplit.setFocusedItem 8 Examples.splitReady in
   let r := KeyboardSplit.handleNavKeydown noopB noopB noopB (mkKeyEvent "ArrowDown" 8) st in
   snd r = true
   /\ KeyboardSplit.currentFocusedItem (fst r) = Some 9
   /\ KeyboardSplit.activeElement (fst r) = Some 9
   /\ cursorMoved 8 9 (KeyboardSplit.doc (fst r))).
Proof.
  split.
  - intros st r.
    assert (Hu : uniqueRefs (Keyboard.doc st)) by (apply uniqueRefsb_true; vm_compute; reflexivity).
    destruct (proj1 arrow_down_on_nav_item noopA noopA noopA (mkKeyEvent "ArrowDown" 8) st
                (Examples.navOf (Keyboard.doc st)) eq_refl Hu eq_refl eq_refl)
      as [H1 [H2 _]].
    + vm_compute. discriminate.
    + split; [exact H1|].
      destruct H2 as [next [Hn [Hc [Ha Hm]]]]; [vm_compute; reflexivity|].
      vm_compute in Hn. inversion Hn; subst next. auto.
  - intros st r.
    assert (Hu : uniqueRefs (KeyboardSplit.doc st))
      by (apply uniqueRefsb_true; vm_compute; reflexivity).
    destruct (proj2 arrow_down_on_nav_item noopB noopB noopB (mkKeyEvent "ArrowDown" 8) st
                (Examples.navOf (KeyboardSplit.doc st)) eq_refl Hu eq_refl eq_refl)
      as [H1 [H2 _]].
    + intros tn Htn. vm_compute in Htn. inversion Htn; subst tn. reflexivity.
    + vm_compute. discriminate.
    + split; [exact H1|].
      destruct H2 as [next [Hn [Hc [Ha Hm]]]]; [vm_compute; reflexivity|].
      vm_compute in Hn. inversion Hn; subst next. auto.
Defined.

(** C6 as the specification words its second half: after ArrowDown on the
    last visible item the focus is on the first section header. *)
Definition focusOnFirstHeader (nav : node) (activeAfter : option nat) : Prop :=
  exists h,
    KeyboardSplit.optRef (querySelector (SelClass "nav-section-header") nav) = Some h
    /\ activeAfter = Some h.

(** In the module with two listeners the cursor is on the last of the three
    visible items of the example page, the navigation has a section header,
    and ArrowDown leaves the focus on the item. *)
Lemma arrow_down_on_last_item_keeps_focus :
  let st := KeyboardSplit.setFocusedItem 9 Examples.splitReady in
  let nav := Examples.navOf (KeyboardSplit.doc st) in
  let r := KeyboardSplit.handleNavKeydown noopB noopB noopB (mkKeyEvent "ArrowDown" 9) st in
  closest (SelClass "sidebar-nav") 9 (KeyboardSplit.doc st) = Some nav
  /\ indexOf 9 (getVisibleNavItems nav (KeyboardSplit.doc st))
     = (len (getVisibleNavItems nav (KeyboardSplit.doc st)) - 1)%Z
  /\ KeyboardSplit.optRef (querySelector (SelClass "nav-section-header") nav) = Some 6
  /\ ~ focusOnFirstHeader nav (KeyboardSplit.activeElement (fst r)).
Proof.
  intros st nav r. split; [vm_compute; reflexivity|].
  split; [vm_compute; reflexivity|]. split; [vm_compute; reflexivity|].
  intros [h [Hh Ha]]. vm_compute in Hh, Ha. congruence.
Qed.

(** C7.  A keydown of "/" on a target of the document: in the module with
    one global handler, whose handler holds the search input [s], and in
    the module with two listeners, where [s] is the first element whose id
    starts with [sidebar-search-]: when the target is an input or a
    textarea the handler leaves the state alone and does not prevent the
    default; otherwise it prevents the default and [s] has the focus. *)
Theorem slash_focuses_search :
  (forall click collapse expand (h : Keyboard.handler) (e : keyEvent) (st : Keyboard.state)
          (t : node) (s : nat),
     key e = "/"%string ->
     getElem (target e) (Keyboard.doc st) = Some t ->
     Keyboard.searchInputOf h = Some s ->
     let r := Keyboard.keydown click collapse expand h e st in
     if isTextEntry t then r = (st, false)
     else Keyboard.activeElement (fst r) = Some s /\ snd r = true)
  /\
  (forall (e : keyEvent) (st : KeyboardSplit.state) (t input : node) (s : nat),
     key e = "/"%string ->
     getElem (target e) (KeyboardSplit.doc st) = Some t ->
     docQuerySelector KeyboardSplit.searchInputSel (KeyboardSplit.doc st) = Some input ->
     refOf input = Some s ->
     let r := KeyboardSplit.handleGlobalKeydown e st in
     if isTextEntry t then r = (st, false)
     else KeyboardSplit.activeElement (fst r) = Some s /\ snd r = true).
Proof.
  split.
  - intros click collapse expand h e st t s Hkey Ht Hs r. subst r.
    unfold Keyboard.keydown. rewrite Ht, Hkey, Hs.
    destruct (isTextEntry t); cbn [andb negb String.eqb Ascii.eqb Bool.eqb fst snd].
    + reflexivity.
    + split; [apply KeyboardFacts.activeElement_focus | reflexivity].
  - intros e st t input s Hkey Ht Hq Hs r. subst r.
    unfold KeyboardSplit.handleGlobalKeydown. rewrite Ht, Hkey, Hq.
    destruct (isTextEntry t); cbn [String.eqb Ascii.eqb Bool.eqb fst snd KeyboardSplit.optRef].
    + reflexivity.
    + rewrite Hs. split; [apply KeyboardSplitFacts.activeElement_focus_split | reflexivity].
Qed.

Lemma slash_focuses_search_witness :
  (let r := Keyboard.keydown noopA noopA noopA (Keyboard.mkHandler 1 (Some 3))
              (mkKeyEvent "/" 6) Examples.keyboardReady in
   Keyboard.activeElement (fst r) = Some 3 /\ snd r = true)
  /\
  (let r := KeyboardSplit.handleGlobalKeydown (mkKeyEvent "/" 3) Examples.splitReady in
   r = (Examples.splitReady, false)).
Proof.
  split.
  - exact (proj1 slash_focuses_search noopA noopA noopA (Keyboard.mkHandler 1 (Some 3))
             (mkKeyEvent "/" 6) Examples.keyboardReady
             (Examples.el 6 "button" ["nav-section-header"] [] [Text "Basics"]) 3
             eq_refl eq_refl eq_refl).
  - exact (proj2 slash_focuses_search (mkKeyEvent "/" 3) Examples.splitReady
             (Examples.el 3 "input" [] [("id", "sidebar-search-desktop")] [])
             (Examples.el 3 "input" [] [("id", "sidebar-search-desktop")] []) 3
             eq_refl eq_refl eq_refl eq_refl).
Defined.

End KeyboardClaims.

(* ================================================================== *)
(** * The three initialisations on a page that lacks an element *)
(* ================================================================== *)

Module InitClaims.

(** C9.  Each initialisation gives back the state it was given (document,
    detached elements, module variables, listeners, inline styles, storage)
    when an element it requires is not there: for [initSearch] the search
    input or the container; for [initKeyboardNavigation], in both keyboard
    modules, the search input, its [.sidebar-content] ancestor or the
    [.sidebar-nav] inside that; for [initResizable] the container, the
    handle inside it, the sidebar or the grid container. *)
Theorem init_without_required_element :
  (forall (searchInputId : string) (containerSelector : selector) (st : Search.state),
     getElementById searchInputId (Search.doc (Search.pageOf st)) = None
     \/ docQuerySelector containerSelector (Search.doc (Search.pageOf st)) = None ->
     Search.initSearch searchInputId containerSelector st = st)
  /\
  (forall (searchInputId : string) (st : Keyboard.state),
     let d := Keyboard.doc st in
     getElementById searchInputId d = None
     \/ (exists si r, getElementById searchInputId d = Some si /\ refOf si = Some r
           /\ closest (SelClass "sidebar-content") r d = None)
     \/ (exists si r content, getElementById searchInputId d = Some si /\ refOf si = Some r
           /\ closest (SelClass "sidebar-content") r d = Some content
           /\ querySelector (SelClass "sidebar-nav") content = None) ->
     Keyboard.initKeyboardNavigation searchInputId st = st)
  /\
  (forall (searchInputId : string) (st : KeyboardSplit.state),
     let d := KeyboardSplit.doc st in
     getElementById searchInputId d = None
     \/ (exists si r, getElementById searchInputId d = Some si /\ refOf si = Some r
           /\ closest (SelClass "sidebar-content") r d = None)
     \/ (exists si r content, getElementById searchInputId d = Some si /\ refOf si = Some r
           /\ closest (SelClass "sidebar-content") r d = Some content
           /\ querySelector (SelClass "sidebar-nav") content = None) ->
     KeyboardSplit.initKeyboardNavigation searchInputId st = st)
  /\
  (forall (widthKey : string) (st : Resizable.state),
     let d := Resizable.doc st in
     getElementById "left-sidebar-container" d = None
     \/ (exists c, getElementById "left-sidebar-container" d = Some c
           /\ querySelector (SelClass "resize-handle") c = None)
     \/ getElementById "left-sidebar" d = None
     \/ docQuerySelector (SelClass "app-body") d = None ->
     Resizable.initResizable widthKey st = st).
Proof.
  repeat split.
  - intros id sel st H. unfold Search.initSearch.
    destruct H as [H | H]; rewrite H; [reflexivity|].
    destruct (getElementById id (Search.doc (Search.pageOf st))); reflexivity.
  - intros id st d H. unfold Keyboard.initKeyboardNavigation. fold d.
    assert (Hn : Keyboard.navOfSearchInput (getElementById id d) d = None).
    { destruct H as [H | [[si [r [H1 [H2 H3]]]] | [si [r [c [H1 [H2 [H3 H4]]]]]]]];
        rewrite H1 || rewrite H; simpl; try reflexivity;
        rewrite H2, H3; [reflexivity | exact H4]. }
    rewrite Hn. reflexivity.
  - intros id st d H. unfold KeyboardSplit.initKeyboardNavigation. fold d.
    assert (Hn : KeyboardSplit.navOfSearchInput (getElementById id d) d = None).
    { destruct H as [H | [[si [r [H1 [H2 H3]]]] | [si [r [c [H1 [H2 [H3 H4]]]]]]]];
        rewrite H1 || rewrite H; simpl; try reflexivity;
        rewrite H2, H3; [reflexivity | exact H4]. }
    rewrite Hn. reflexivity.
  - intros key st d H. unfold Resizable.initResizable. fold d.
    destruct (Resizable.isInitialized st
              && match getElementById "left-sidebar-container" d with
                 | Some _ => true
                 | None => false
                 end); [reflexivity|].
    destruct H as [H | [[c [H1 H2]] | [H | H]]].
    + rewrite H. reflexivity.
    + rewrite H1, H2. simpl. destruct (refOf c); reflexivity.
    + rewrite H. simpl.
      destruct (Resizable.optRef (getElementById "left-sidebar-container" d)); [|reflexivity].
      destruct (Resizable.optRef _); reflexivity.
    + rewrite H. simpl.
      destruct (Resizable.optRef (getElementById "left-sidebar-container" d)); [|reflexivity].
      destruct (Resizable.optRef _); [|reflexivity].
      destruct (Resizable.optRef _); reflexivity.
Qed.

Definition bareSearch : Search.state :=
  Search.mkState (Search.mkPage Examples.barePage []) [].
Definition bareKeyboard : Keyboard.state :=
  Keyboard.mkState Examples.barePage None None [] None.
Definition bareSplit : KeyboardSplit.state :=
  KeyboardSplit.mkState Examples.barePage None false false None false [] None.
Definition bareResizable : Resizable.state :=
  Resizable.mkState Examples.barePage false 1280
    [("--sidebar-width-min", "200px"); ("--sidebar-width-max", "480px")]%string
    [("sidebar-width", "300")]%string [] [] [].

Lemma init_without_required_element_witness :
  Search.initSearch "sidebar-search-desktop" (SelId "left-sidebar") bareSearch = bareSearch
  /\ Keyboard.initKeyboardNavigation "sidebar-search-mobile" bareKeyboard = bareKeyboard
  /\ KeyboardSplit.initKeyboardNavigation "sidebar-search-mobile" bareSplit = bareSplit
  /\ Resizable.initResizable "sidebar-width" bareResizable = bareResizable.
Proof.
  destruct init_without_required_element as [H1 [H2 [H3 H4]]].
  split; [|split; [|split]].
  - apply H1. left. reflexivity.
  - apply H2. left. reflexivity.
  - apply H3. left. reflexivity.
  - apply H4. left. reflexivity.
Defined.

End InitClaims.

(* ================================================================== *)
(** * The visible items, bottom-up and top-down *)
(* ================================================================== *)

Module VisibleItemsFacts.
Import Nav DomFacts NavFacts.

(** Every element of a subtree with the chain from it up to the root of
    the subtree, in document order. *)
Fixpoint chains (n : node) : list (list node) :=
  match n with
  | Text _ => []
  | Elem e ch => [n] :: map (fun p => p ++ [n]) (flat_map chains ch)
  end.

Definition chainsOf (d : forest) : list (list node) := flat_map chains d.

Definition headIs (r : nat) (p : list node) : bool :=
  match p with
  | x :: _ => isRef r x
  | [] => false
  end.

Definition headOfChain (p : list node) : node := hd (Text EmptyString) p.

Lemma chains_nonempty : forall n p, In p (chains n) -> p <> [].
Proof.
  intros [s | e ch] p H; simpl in H; [contradiction|].
  destruct H as [H | H]; [subst; discriminate|].
  apply in_map_iff in H. destruct H as [q [Hq _]]. subst p.
  destruct q; discriminate.
Qed.

Lemma find_flat_map_first : forall (A B : Type) (f : B -> bool) (g : A -> list B)
    (h : A -> option B) (l : list A),
  (forall a, In a l -> h a = find f (g a)) ->
  (fix first (l : list A) : option B :=
     match l with
     | [] => None
     | c :: l' => match h c with Some p => Some p | None => first l' end
     end) l
  = find f (flat_map g l).
Proof.
  intros A B f g h l H. induction l as [|a l IH]; simpl; [reflexivity|].
  rewrite (H a (or_introl eq_refl)).
  rewrite IH by (intros b Hb; apply H; right; exact Hb).
  clear. induction (g a) as [|x xs IHx]; simpl; [reflexivity|].
  destruct (f x); [reflexivity | exact IHx].
Qed.

Lemma find_map_ext : forall (A : Type) (f : A -> bool) (h : A -> A) (l : list A),
  (forall a, In a l -> f (h a) = f a) -> find f (map h l) = option_map h (find f l).
Proof.
  intros A f h l H. induction l as [|a l IH]; simpl; [reflexivity|].
  rewrite (H a (or_introl eq_refl)).
  destruct (f a); [reflexivity|]. apply IH. intros b Hb. apply H. right. exact Hb.
Qed.

(** [chainIn] returns the first chain, in document order, whose head has
    the handle. *)
Lemma chainIn_find : forall r n, chainIn r n = find (headIs r) (chains n).
Proof.
  intros r n. induction n as [s | e ch IH] using node_tree_ind; [reflexivity|].
  cbn [chainIn chains find headIs].
  destruct (isRef r (Elem e ch)); [reflexivity|].
  rewrite (find_flat_map_first _ _ (headIs r) chains (chainIn r) ch).
  2:{ intros a Ha. rewrite Forall_forall in IH. apply IH. exact Ha. }
  rewrite find_map_ext.
  - destruct (find (headIs r) (flat_map chains ch)); reflexivity.
  - intros p Hp. apply in_flat_map in Hp. destruct Hp as [c [_ Hp]].
    apply chains_nonempty in Hp. destruct p; [contradiction | reflexivity].
Qed.

Lemma chainOf_find : forall r d, chainOf r d = find (headIs r) (chainsOf d).
Proof.
  intros r d. unfold chainsOf. induction d as [|n d IH]; simpl; [reflexivity|].
  rewrite chainIn_find, IH.
  induction (chains n) as [|x xs IHx]; simpl; [reflexivity|].
  destruct (headIs r x); [reflexivity | exact IHx].
Qed.

Lemma heads_of_chains : forall n, map headOfChain (chains n) = selfAndDescendants n.
Proof.
  intro n. induction n as [s | e ch IH] using node_tree_ind; [reflexivity|].
  simpl. f_equal. rewrite map_map.
  rewrite (map_ext_in _ headOfChain).
  - induction ch as [|c ch' IHch]; simpl; [reflexivity|].
    inversion IH as [|? ? Hc Hch]; subst.
    rewrite map_app, Hc, IHch by assumption. reflexivity.
  - intros p Hp. apply in_flat_map in Hp. destruct Hp as [c [_ Hp]].
    apply chains_nonempty in Hp. destruct p; [contradiction | reflexivity].
Qed.

Lemma heads_of_chainsOf : forall d, map headOfChain (chainsOf d) = elementsOf d.
Proof.
  intro d. unfold chainsOf, elementsOf. induction d as [|n d IH]; simpl; [reflexivity|].
  rewrite map_app, heads_of_chains, IH. reflexivity.
Qed.

Lemma find_unique_head : forall r (L : list (list node)) p,
  NoDup (refsOf (map headOfChain L)) ->
  In p L -> headIs r p = true -> find (headIs r) L = Some p.
Proof.
  intros r L. induction L as [|q L IH]; intros p Hnd Hin Hp; [contradiction|].
  simpl. destruct Hin as [Hin | Hin].
  - subst q. rewrite Hp. reflexivity.
  - destruct (headIs r q) eqn:Eq.
    + exfalso. simpl in Hnd.
      assert (Hq : refOf (headOfChain q) = Some r).
      { destruct q; [discriminate|]. apply isRef_true. exact Eq. }
      rewrite Hq in Hnd. simpl in Hnd. inversion Hnd as [|? ? Hnin _]; subst.
      apply Hnin. apply in_refsOf. exists (headOfChain p). split.
      * apply in_map. exact Hin.
      * destruct p; [discriminate|]. apply isRef_true. exact Hp.
    + apply IH; try assumption. simpl in Hnd.
      destruct (refOf (headOfChain q)); simpl in Hnd; [inversion Hnd; assumption | exact Hnd].
Qed.

(** The subtree [n] sits in the document below the chain [A]. *)
Definition sits (d : forest) (A : list node) (n : node) : Prop :=
  forall p, In p (chains n) -> In (p ++ A) (chainsOf d).

Lemma sits_top : forall d n, In n d -> sits d [] n.
Proof.
  intros d n Hn p Hp. rewrite app_nil_r. apply in_flat_map. eauto.
Qed.

Lemma sits_child : forall d A e ch c,
  sits d A (Elem e ch) -> In c ch -> sits d (Elem e ch :: A) c.
Proof.
  intros d A e ch c Hs Hc p Hp.
  replace (p ++ Elem e ch :: A) with ((p ++ [Elem e ch]) ++ A)
    by (rewrite <- app_assoc; reflexivity).
  apply Hs. simpl. right. apply in_map_iff. exists p. split; [reflexivity|].
  apply in_flat_map. eauto.
Qed.

Lemma sits_element : forall d A e ch, sits d A (Elem e ch) -> In (Elem e ch) (elementsOf d).
Proof.
  intros d A e ch Hs. rewrite <- heads_of_chainsOf.
  change (Elem e ch) with (headOfChain ([Elem e ch] ++ A)).
  apply in_map. apply Hs. simpl. left. reflexivity.
Qed.

Lemma sits_chainOf : forall d A e ch r,
  uniqueRefs d -> sits d A (Elem e ch) -> ref e = Some r ->
  chainOf r d = Some (Elem e ch :: A).
Proof.
  intros d A e ch r Hu Hs Hr. rewrite chainOf_find.
  apply find_unique_head.
  - rewrite heads_of_chainsOf. exact Hu.
  - apply (Hs [Elem e ch]). simpl. left. reflexivity.
  - simpl. apply isRef_true. exact Hr.
Qed.

(** The expanded flag of the nearest section in a chain. *)
Definition enclosingOf (A : list node) : option bool :=
  match find (matches (SelClass "nav-section")) A with
  | Some s => Some (matches (SelClass "expanded") s)
  | None => None
  end.

(** The test [getVisibleNavItems] applies to the handle of an item. *)
Definition sectionAllows (d : forest) (r : nat) : bool :=
  match closest (SelClass "nav-section") r d with
  | None => true
  | Some section => matches (SelClass "expanded") section
  end.

Lemma refsOf_filter_flat_map : forall (f : node -> bool) (g : node -> list node) (l : list node),
  refsOf (filter f (flat_map g l)) = flat_map (fun c => refsOf (filter f (g c))) l.
Proof.
  intros f g l. induction l as [|a l IH]; simpl; [reflexivity|].
  rewrite filter_app, refsOf_app, IH. reflexivity.
Qed.

Lemma filter_flat_map : forall (A B : Type) (f : B -> bool) (g : A -> list B) (l : list A),
  filter f (flat_map g l) = flat_map (fun c => filter f (g c)) l.
Proof.
  intros A B f g l. induction l as [|a l IH]; simpl; [reflexivity|].
  rewrite filter_app, IH. reflexivity.
Qed.

Lemma flat_map_ext_in : forall (A B : Type) (f g : A -> list B) (l : list A),
  (forall a, In a l -> f a = g a) -> flat_map f l = flat_map g l.
Proof.
  intros A B f g l H. induction l as [|a l IH]; simpl; [reflexivity|].
  rewrite (H a (or_introl eq_refl)), IH; [reflexivity|].
  intros b Hb. apply H. right. exact Hb.
Qed.

(** Below the container, the walk from the top collects what the query and
    its filter collect. *)
Lemma walk_inside : forall d c n A,
  uniqueRefs d -> sits d A n ->
  visibleWalk c true (enclosingOf A) n
  = filter (sectionAllows d) (refsOf (filter (matches visibleItemSel) (selfAndDescendants n))).
Proof.
  intros d c n. induction n as [s | e ch IH] using node_tree_ind; intros A Hu Hs; [reflexivity|].
  cbn [visibleWalk selfAndDescendants filter].
  assert (Henc : (if hasClass "nav-section" e then Some (hasClass "expanded" e) else enclosingOf A)
                 = enclosingOf (Elem e ch :: A)).
  { unfold enclosingOf. simpl. destruct (hasClass "nav-section" e); reflexivity. }
  rewrite Henc. cbn [orb andb].
  assert (Hch : flat_map (visibleWalk c true (enclosingOf (Elem e ch :: A))) ch
                = filter (sectionAllows d)
                    (refsOf (filter (matches visibleItemSel) (flat_map selfAndDescendants ch)))).
  { rewrite refsOf_filter_flat_map, filter_flat_map. apply flat_map_ext_in.
    intros a Ha. rewrite Forall_forall in IH. apply IH; [exact Ha | exact Hu|].
    eapply sits_child; eauto. }
  rewrite Hch.
  change (matches visibleItemSel (Elem e ch))
    with (hasAttribute "data-nav-item" e && negb (hasClass "hidden" e)).
  destruct (hasAttribute "data-nav-item" e && negb (hasClass "hidden" e)) eqn:Esel;
    cbn [andb]; [|reflexivity].
  destruct (ref e) as [r|] eqn:Er.
  - cbn [refsOf flat_map refOf]. rewrite Er. cbn [app filter].
    assert (Hallow : sectionAllows d r
                     = match enclosingOf (Elem e ch :: A) with Some false => false | _ => true end).
    { unfold sectionAllows, closest. rewrite (sits_chainOf d A e ch r Hu Hs Er).
      unfold enclosingOf.
      destruct (find (matches (SelClass "nav-section")) (Elem e ch :: A)) as [sct|];
        [|reflexivity].
      destruct (matches (SelClass "expanded") sct); reflexivity. }
    rewrite Hallow.
    destruct (enclosingOf (Elem e ch :: A)) as [[|]|]; reflexivity.
  - cbn [refsOf flat_map refOf]. rewrite Er. cbn [app].
    destruct (enclosingOf (Elem e ch :: A)) as [[|]|]; reflexivity.
Qed.

Definition holds (c : nat) (n : node) : bool := existsb (isRef c) (selfAndDescendants n).

Lemma holds_false_refs : forall c l,
  ~ In c (refsOf (flat_map selfAndDescendants l)) -> forall n, In n l -> holds c n = false.
Proof.
  intros c l Hnin n Hn. unfold holds.
  destruct (existsb (isRef c) (selfAndDescendants n)) eqn:E; [|reflexivity].
  exfalso. apply Hnin. apply existsb_exists in E. destruct E as [x [Hx Hr]].
  apply in_refsOf. exists x. split; [|apply isRef_true; exact Hr].
  apply in_flat_map. eauto.
Qed.

Lemma holds_true_ref : forall c n, holds c n = true -> In c (refsOf (selfAndDescendants n)).
Proof.
  intros c n H. unfold holds in H. apply existsb_exists in H. destruct H as [x [Hx Hr]].
  apply in_refsOf. exists x. split; [exact Hx | apply isRef_true; exact Hr].
Qed.

Lemma NoDup_app_disjoint : forall (A : Type) (l1 l2 : list A) (x : A),
  NoDup (l1 ++ l2) -> In x l1 -> ~ In x l2.
Proof.
  intros A l1 l2 x Hnd. induction l1 as [|a l1 IH]; intros H1 H2; [contradiction|].
  simpl in Hnd. inversion Hnd as [|? ? Hn Hd]; subst.
  destruct H1 as [H1 | H1].
  - subst a. apply Hn. apply in_or_app. right. exact H2.
  - apply IH; assumption.
Qed.

Lemma flat_map_no_holder : forall c (G : list nat) (l : list node),
  (forall n, In n l -> holds c n = false) ->
  flat_map (fun n => if holds c n then G else []) l = [].
Proof.
  intros c G l H. induction l as [|m l IH]; [reflexivity|].
  simpl. rewrite (H m (or_introl eq_refl)). simpl.
  apply IH. intros x Hx. apply H. right. exact Hx.
Qed.

(** Among subtrees with unique handles at most one holds [c]. *)
Lemma flat_map_one_holder : forall c (G : list nat) (l : list node),
  NoDup (refsOf (flat_map selfAndDescendants l)) ->
  flat_map (fun n => if holds c n then G else []) l
  = if existsb (holds c) l then G else [].
Proof.
  intros c G l. induction l as [|n l IH]; intro Hnd; [reflexivity|].
  simpl in Hnd. rewrite refsOf_app in Hnd. simpl.
  destruct (holds c n) eqn:En; simpl.
  - rewrite flat_map_no_holder; [apply app_nil_r|].
    apply holds_false_refs.
    eapply NoDup_app_disjoint; [exact Hnd | apply holds_true_ref; exact En].
  - apply IH. eapply NoDup_app_r. exact Hnd.
Qed.

(** From the top, the walk finds nothing until it passes the container,
    and below it collects the visible items of the container. *)
Lemma walk_outside : forall d c container n A,
  uniqueRefs d -> getElem c d = Some container -> sits d A n ->
  visibleWalk c false (enclosingOf A) n
  = if holds c n then getVisibleNavItems container d else [].
Proof.
  intros d c container n.
  induction n as [s | e ch IH] using node_tree_ind; intros A Hu Hc Hs; [reflexivity|].
  cbn [visibleWalk andb app].
  assert (Henc : (if hasClass "nav-section" e then Some (hasClass "expanded" e) else enclosingOf A)
                 = enclosingOf (Elem e ch :: A)).
  { unfold enclosingOf. simpl. destruct (hasClass "nav-section" e); reflexivity. }
  rewrite Henc. cbn [orb].
  pose proof (sits_element d A e ch Hs) as Hin.
  destruct (isRef c (Elem e ch)) eqn:Eref.
  - assert (Hcn : container = Elem e ch).
    { apply isRef_true in Eref. rewrite (getElem_unique c d _ Hu Hin Eref) in Hc. congruence. }
    subst container. unfold holds. cbn [selfAndDescendants existsb]. rewrite Eref. cbn [orb].
    unfold getVisibleNavItems, querySelectorAll. cbn [descendants]. unfold elementsOf.
    rewrite refsOf_filter_flat_map, filter_flat_map. apply flat_map_ext_in.
    intros a Ha. apply walk_inside; [exact Hu|]. eapply sits_child; eauto.
  - unfold holds at 1. cbn [selfAndDescendants existsb]. rewrite Eref. cbn [orb].
    rewrite (flat_map_ext_in _ _ (visibleWalk c false (enclosingOf (Elem e ch :: A)))
               (fun n => if holds c n then getVisibleNavItems container d else [])).
    2:{ intros a Ha. rewrite Forall_forall in IH. apply IH; auto. eapply sits_child; eauto. }
    rewrite flat_map_one_holder.
    2:{ pose proof (uniqueRefs_subtree d _ Hu Hin) as Hnd. simpl in Hnd.
        destruct (ref e); simpl in Hnd; [inversion Hnd; assumption | exact Hnd]. }
    assert (Hex : existsb (holds c) ch = existsb (isRef c) (flat_map selfAndDescendants ch)).
    { clear. induction ch as [|a ch IHch]; simpl; [reflexivity|].
      rewrite existsb_app, IHch. reflexivity. }
    rewrite Hex. reflexivity.
Qed.

(** C2.  On a document with unique handles, for the container with handle
    [c], [getVisibleNavItems] returns, in document order, the handles of
    the elements below the container that are nav items, do not have the
    class [hidden], and whose nearest section at or above them, if there is
    one, is expanded: the list the top-down walk [visibleItemsSpec]
    collects.  So a handle is in one list exactly when it is in the
    other. *)
Theorem getVisibleNavItems_is_visible_walk :
  forall (d : forest) (c : nat) (container : node),
    uniqueRefs d ->
    getElem c d = Some container ->
    getVisibleNavItems container d = visibleItemsSpec c d
    /\ forall r, In r (getVisibleNavItems container d) <-> In r (visibleItemsSpec c d).
Proof.
  intros d c container Hu Hc.
  assert (Heq : getVisibleNavItems container d = visibleItemsSpec c d).
  { unfold visibleItemsSpec.
    rewrite (flat_map_ext_in _ _ (visibleWalk c false None)
               (fun n => if holds c n then getVisibleNavItems container d else [])).
    2:{ intros n Hn. change None with (enclosingOf []).
        apply walk_outside; auto. apply sits_top. exact Hn. }
    rewrite flat_map_one_holder by exact Hu.
    assert (Hex : existsb (holds c) d = true).
    { destruct (getElem_some c d container Hc) as [Hin Hr].
      apply in_flat_map in Hin. destruct Hin as [n [Hn Hx]].
      apply existsb_exists. exists n. split; [exact Hn|].
      unfold holds. apply existsb_exists. exists container.
      split; [exact Hx | apply isRef_true; exact Hr]. }
    rewrite Hex. reflexivity. }
  split; [exact Heq|]. intro r. rewrite Heq. tauto.
Qed.

Lemma getVisibleNavItems_witness :
  getVisibleNavItems (Examples.navOf Examples.sidebar) Examples.sidebar
  = visibleItemsSpec 4 Examples.sidebar.
Proof.
  apply (getVisibleNavItems_is_visible_walk Examples.sidebar 4).
  - apply uniqueRefsb_true. vm_compute. reflexivity.
  - vm_compute. reflexivity.
Defined.

End VisibleItemsFacts.

(* ================================================================== *)
(** * Facts about strings *)
(* ================================================================== *)

Module StringFacts.

Lemma append_nil_r : forall s : string, (s ++ "")%string = s.
Proof.
  induction s as [|c s IH]; simpl; [reflexivity | rewrite IH; reflexivity].
Qed.

Lemma append_assoc : forall a b c : string, ((a ++ b) ++ c)%string = (a ++ (b ++ c))%string.
Proof.
  induction a as [|x a IH]; intros b c; simpl; [reflexivity | rewrite IH; reflexivity].
Qed.

Lemma isEmpty_true : forall s, isEmpty s = true -> s = EmptyString.
Proof. intros [|c s] H; [reflexivity | discriminate]. Qed.

Lemma take_drop : forall n s, (strTake n s ++ strDrop n s)%string = s.
Proof.
  induction n as [|n IH]; intros [|c s]; simpl; try reflexivity.
  rewrite IH. reflexivity.
Qed.

Lemma drop_drop : forall n m s, strDrop m (strDrop n s) = strDrop (n + m) s.
Proof.
  induction n as [|n IH]; intros m s; simpl; [reflexivity|].
  destruct s as [|c s]; simpl; [destruct m; reflexivity | apply IH].
Qed.

Lemma length_toLowerCase : forall s, String.length (toLowerCase s) = String.length s.
Proof.
  induction s as [|c s IH]; simpl; [reflexivity | rewrite IH; reflexivity].
Qed.

Lemma toLowerCase_append : forall a b,
  toLowerCase (a ++ b) = (toLowerCase a ++ toLowerCase b)%string.
Proof.
  induction a as [|c a IH]; intro b; simpl; [reflexivity | rewrite IH; reflexivity].
Qed.



Lemma joinAll_app : forall l1 l2, joinAll (l1 ++ l2) = (joinAll l1 ++ joinAll l2)%string.
Proof.
  induction l1 as [|a l1 IH]; intro l2; simpl; [reflexivity|].
  rewrite IH, append_assoc. reflexivity.
Qed.

(** The three parts a text is cut into around a match make up the text. *)
Lemma substring_parts : forall i n s,
  (substring 0 i s ++ substring i (i + n) s ++ substringFrom (i + n) s)%string = s.
Proof.
  intros i n s. unfold substring, substringFrom. simpl.
  replace (i - 0) with i by lia. replace (i + n - i) with n by lia.
  rewrite <- (drop_drop i n s).
  rewrite (take_drop n (strDrop i s)). apply take_drop.
Qed.

(** ** [indexOf] finds the first occurrence *)




Lemma indexOf_none : forall q s j, indexOf q s = None -> startsWith q (strDrop j s) = false.
Proof.
  intros q s. induction s as [|c s IH]; intros j H; simpl in H.
  - destruct (startsWith q "") eqn:E; [discriminate|]. destruct j; exact E.
  - destruct (startsWith q (String c s)) eqn:E; [discriminate|].
    destruct (indexOf q s) eqn:Ek; [discriminate|].
    destruct j as [|j]; [exact E | simpl; apply IH; reflexivity].
Qed.

Lemma indexOf_bound : forall q s i,
  indexOf q s = Some i -> i + String.length q <= String.length s.
Proof.
  intros q s. induction s as [|c s IH]; intros i H; simpl in H.
  - destruct q; simpl in H; [inversion H; subst; simpl; lia | discriminate].
  - destruct (startsWith q (String c s)) eqn:E.
    + inversion H; subst. clear H IH. revert E. generalize (String c s). clear.
      induction q as [|a q IHq]; intros s E; simpl; [lia|].
      destruct s as [|b s]; simpl in E; [discriminate|].
      apply andb_true_iff in E. destruct E as [_ E]. apply IHq in E. simpl. lia.
    + destruct (indexOf q s) as [k|] eqn:Ek; [|discriminate].
      inversion H; subst. specialize (IH k eq_refl). simpl. lia.
Qed.


Lemma includes_indexOf : forall q s,
  includes q s = match indexOf q s with Some _ => true | None => false end.
Proof. reflexivity. Qed.

End StringFacts.

(* ================================================================== *)
(** * Facts about the search *)
(* ================================================================== *)

Module SearchFacts.
Import Search DomFacts StringFacts.

(** ** Text content is never changed *)

Lemma textContent_markNode : forall m, textContent (markNode m) = m.
Proof.
  intro m. unfold markNode. destruct m as [|c m]; simpl; [reflexivity|].
  rewrite append_nil_r. reflexivity.
Qed.

Lemma textContent_highlightTextNode : forall q t,
  joinAll (map textContent (highlightTextNode q t)) = t.
Proof.
  intros q t. unfold highlightTextNode.
  destruct (includes q (toLowerCase t)); [|simpl; apply append_nil_r].
  destruct (indexOf q (toLowerCase t)) as [i|]; [|simpl; apply append_nil_r].
  rewrite !map_app, !joinAll_app.
  change (joinAll (map textContent [markNode (substring i (i + String.length q) t)]))
    with (textContent (markNode (substring i (i + String.length q) t)) ++ "")%string.
  rewrite textContent_markNode.
  set (b := substring 0 i t). set (a := substringFrom (i + String.length q) t).
  assert (Hb : joinAll (map textContent (if isEmpty b then [] else [Text b])) = b).
  { destruct b; simpl; [reflexivity | rewrite append_nil_r; reflexivity]. }
  assert (Ha : joinAll (map textContent (if isEmpty a then [] else [Text a])) = a).
  { destruct a; simpl; [reflexivity | rewrite append_nil_r; reflexivity]. }
  rewrite Hb, Ha, append_nil_r. apply substring_parts.
Qed.

Lemma textContent_flat_map : forall (f : node -> list node) (ch : list node),
  Forall (fun c => joinAll (map textContent (f c)) = textContent c) ch ->
  joinAll (map textContent (flat_map f ch)) = joinAll (map textContent ch).
Proof.
  intros f ch H. induction H as [|c ch Hc Hch IH]; simpl; [reflexivity|].
  rewrite map_app, joinAll_app, Hc, IH. reflexivity.
Qed.

Lemma textContent_highlightNode : forall q n,
  joinAll (map textContent (highlightNode q n)) = textContent n.
Proof.
  intros q n. induction n as [s | e ch IH] using node_tree_ind.
  - apply textContent_highlightTextNode.
  - simpl. rewrite append_nil_r. apply textContent_flat_map. exact IH.
Qed.

Lemma textContent_highlightText : forall q n, textContent (highlightText q n) = textContent n.
Proof.
  intros q [s | e ch]; simpl; [reflexivity|].
  apply textContent_flat_map. apply Forall_forall. intros c _. apply textContent_highlightNode.
Qed.

Lemma textContent_map : forall (f : node -> node) (ch : list node),
  Forall (fun c => textContent (f c) = textContent c) ch ->
  joinAll (map textContent (map f ch)) = joinAll (map textContent ch).
Proof.
  intros f ch H. induction H as [|c ch Hc Hch IH]; simpl; [reflexivity|].
  rewrite Hc, IH. reflexivity.
Qed.

Lemma textContent_mapElements : forall g n, textContent (mapElements g n) = textContent n.
Proof.
  intros g n. induction n as [s | e ch IH] using node_tree_ind; simpl; [reflexivity|].
  apply textContent_map. exact IH.
Qed.

Lemma textContent_updateNode : forall q r n,
  textContent (updateNode r (highlightText q) n) = textContent n.
Proof.
  intros q r n. induction n as [s | e ch IH] using node_tree_ind; [reflexivity|].
  cbn [updateNode]. destruct (isRef r (Elem e ch)).
  - apply textContent_highlightText.
  - simpl. apply textContent_map. exact IH.
Qed.

Lemma textContent_normalizeList : forall l,
  joinAll (map textContent (normalizeList l)) = joinAll (map textContent l).
Proof.
  induction l as [|[s | e ch] l IH]; simpl; [reflexivity| |].
  - rewrite <- IH. destruct (normalizeList l) as [|[u | e' ch'] rest]; simpl.
    + destruct s; reflexivity.
    + rewrite append_assoc. reflexivity.
    + destruct s; reflexivity.
  - rewrite IH. reflexivity.
Qed.

Definition clearChild (b : bool) (c : node) : node :=
  if isHighlight c then Text (textContent c) else clearNode b c.

Lemma clearList_unfold : forall b ch,
  clearList clearNode b ch
  = let b' := b || existsb isHighlight ch in
    if b' then normalizeList (map (clearChild b') ch) else map (clearChild b') ch.
Proof. reflexivity. Qed.

Lemma textContent_clearNode : forall b n, textContent (clearNode b n) = textContent n.
Proof.
  intros b n. revert b. induction n as [s | e ch IH] using node_tree_ind; intro b; [reflexivity|].
  cbn [clearNode textContent]. rewrite clearList_unfold. cbv zeta.
  assert (H : joinAll (map textContent (map (clearChild (b || existsb isHighlight ch)) ch))
              = joinAll (map textContent ch)).
  { apply textContent_map. apply Forall_forall. intros c Hc. unfold clearChild.
    destruct (isHighlight c); [reflexivity|].
    rewrite Forall_forall in IH. apply IH. exact Hc. }
  destruct (b || existsb isHighlight ch); [rewrite textContent_normalizeList|]; exact H.
Qed.

(** ** Writes to classes pass through highlighting *)

Definition markElement : element := mkElement None "mark" ["search-highlight"] [].

Lemma atRef_markElement : forall r g, atRef r g markElement = markElement.
Proof. reflexivity. Qed.

Lemma highlightNode_mapElements : forall q r g n,
  keepsRef g ->
  highlightNode q (mapElements (atRef r g) n) = map (mapElements (atRef r g)) (highlightNode q n).
Proof.
  intros q r g n Hg. induction n as [s | e ch IH] using node_tree_ind.
  - cbn [mapElements highlightNode]. unfold highlightTextNode.
    destruct (includes q (toLowerCase s)); [|reflexivity].
    destruct (indexOf q (toLowerCase s)); [|reflexivity].
    rewrite !map_app.
    assert (Hm : forall m, map (mapElements (atRef r g)) [markNode m] = [markNode m]).
    { intro m. unfold markNode. destruct (isEmpty m); reflexivity. }
    rewrite Hm. f_equal; [|f_equal].
    + destruct (isEmpty _); reflexivity.
    + destruct (isEmpty _); reflexivity.
  - cbn [mapElements highlightNode map]. f_equal. f_equal.
    induction ch as [|c ch' IHch]; [reflexivity|].
    inversion IH as [|? ? Hc Hch]; subst. simpl.
    rewrite map_app, Hc, IHch by assumption. reflexivity.
Qed.

Lemma highlightText_mapElements : forall q r g n,
  keepsRef g ->
  highlightText q (mapElements (atRef r g) n) = mapElements (atRef r g) (highlightText q n).
Proof.
  intros q r g [s | e ch] Hg; [reflexivity|].
  cbn [mapElements highlightText]. f_equal.
  induction ch as [|c ch' IHch]; [reflexivity|]. simpl.
  rewrite map_app, highlightNode_mapElements, IHch by exact Hg. reflexivity.
Qed.

(** A write to the classes of [r'] and the highlighting of [r] can be
    done in either order. *)
Lemma updateNode_mapElements : forall q r r' g n,
  keepsRef g ->
  updateNode r (highlightText q) (mapElements (atRef r' g) n)
  = mapElements (atRef r' g) (updateNode r (highlightText q) n).
Proof.
  intros q r r' g n Hg. induction n as [s | e ch IH] using node_tree_ind; [reflexivity|].
  change (mapElements (atRef r' g) (Elem e ch))
    with (Elem (atRef r' g e) (map (mapElements (atRef r' g)) ch)).
  cbn [updateNode].
  assert (Hr : isRef r (Elem (atRef r' g e) (map (mapElements (atRef r' g)) ch))
               = isRef r (Elem e ch)).
  { unfold isRef. simpl. rewrite (keepsRef_atRef r' g Hg). reflexivity. }
  rewrite Hr. destruct (isRef r (Elem e ch)).
  - apply (highlightText_mapElements q r' g (Elem e ch) Hg).
  - cbn [mapElements]. f_equal. rewrite !map_map.
    apply map_ext_in. intros c Hc. rewrite Forall_forall in IH. apply IH. exact Hc.
Qed.

Lemma update_updateElement : forall q r r' g d,
  keepsRef g ->
  update r (highlightText q) (updateElement r' g d)
  = updateElement r' g (update r (highlightText q) d).
Proof.
  intros q r r' g d Hg. unfold update, updateElement. rewrite !map_map.
  apply map_ext. intro n. apply updateNode_mapElements. exact Hg.
Qed.

(** ** Normal form of the text nodes *)

(** No empty text node and no two text nodes side by side. *)
Fixpoint normalList (l : list node) : bool :=
  match l with
  | [] => true
  | Text s :: rest =>
      negb (isEmpty s)
      && match rest with Text _ :: _ => false | _ => true end
      && normalList rest
  | Elem _ _ :: rest => normalList rest
  end.

Fixpoint normalNode (n : node) : bool :=
  match n with
  | Text _ => true
  | Elem _ ch => normalList ch && forallb normalNode ch
  end.

Definition normalForest (d : forest) : bool := normalList d && forallb normalNode d.

(** No element with the class [search-highlight]. *)
Definition noHighlights (d : forest) : bool :=
  negb (existsb isHighlight (elementsOf d)).

Lemma normalizeList_normal : forall l, normalList l = true -> normalizeList l = l.
Proof.
  induction l as [|[s | e ch] l IH]; simpl; intro H; [reflexivity| |].
  - apply andb_true_iff in H. destruct H as [H H3].
    apply andb_true_iff in H. destruct H as [H1 H2].
    rewrite (IH H3). destruct l as [|[u | e' ch'] rest]; try discriminate;
      destruct (isEmpty s); try discriminate; reflexivity.
  - rewrite (IH H). reflexivity.
Qed.

Lemma normalizeList_text_text : forall a b l,
  normalizeList (Text a :: Text b :: l) = normalizeList (Text (a ++ b) :: l).
Proof.
  intros a b l. simpl. destruct (normalizeList l) as [|[u | e ch] rest].
  - destruct b as [|c b]; simpl.
    + rewrite append_nil_r. reflexivity.
    + destruct a; reflexivity.
  - rewrite append_assoc. reflexivity.
  - destruct b as [|c b]; simpl.
    + rewrite append_nil_r. reflexivity.
    + destruct a; reflexivity.
Qed.

Lemma normalizeList_empty_text : forall l, normalizeList (Text "" :: l) = normalizeList l.
Proof.
  intro l. simpl. destruct (normalizeList l) as [|[u | e ch] rest]; reflexivity.
Qed.

Lemma normalizeList_app_right : forall l1 l2 l2',
  normalizeList l2 = normalizeList l2' -> normalizeList (l1 ++ l2) = normalizeList (l1 ++ l2').
Proof.
  induction l1 as [|[s | e ch] l1 IH]; intros l2 l2' H; simpl; [exact H| |].
  - rewrite (IH l2 l2' H). reflexivity.
  - rewrite (IH l2 l2' H). reflexivity.
Qed.

Lemma normalizeList_cons : forall x l l',
  normalizeList l = normalizeList l' -> normalizeList (x :: l) = normalizeList (x :: l').
Proof. intros x l l' H. apply (normalizeList_app_right [x] l l' H). Qed.

(** Pieces of a text side by side normalize to the whole text. *)
Lemma normalizeList_texts : forall ps l,
  normalizeList (map Text ps ++ l) = normalizeList (Text (joinAll ps) :: l).
Proof.
  induction ps as [|p ps IH]; intro l.
  - simpl joinAll. rewrite normalizeList_empty_text. reflexivity.
  - change (map Text (p :: ps) ++ l) with (Text p :: (map Text ps ++ l)).
    rewrite (normalizeList_cons (Text p) _ _ (IH l)).
    rewrite normalizeList_text_text. reflexivity.
Qed.

Lemma forallb_normalNode_normalizeList : forall l,
  forallb normalNode (normalizeList l) = forallb normalNode l.
Proof.
  induction l as [|[s | e ch] l IH]; simpl; [reflexivity| |].
  - rewrite <- IH. destruct (normalizeList l) as [|[u | e' ch'] rest]; simpl;
      destruct (isEmpty s); reflexivity.
  - rewrite IH. reflexivity.
Qed.

Lemma normalizeList_map_mapElements : forall g l,
  normalizeList (map (mapElements g) l) = map (mapElements g) (normalizeList l).
Proof.
  intros g l. induction l as [|[s | e ch] l IH]; simpl; [reflexivity| |].
  - rewrite IH. destruct (normalizeList l) as [|[u | e' ch'] rest]; simpl;
      destruct (isEmpty s); reflexivity.
  - rewrite IH. reflexivity.
Qed.

(** ** Clearing and writes to classes *)

Definition keepsHighlight (g : element -> element) : Prop :=
  forall e, hasClass "search-highlight" (g e) = hasClass "search-highlight" e.

Lemma isHighlight_mapElements : forall g n,
  keepsHighlight g -> isHighlight (mapElements g n) = isHighlight n.
Proof. intros g [s | e ch] Hg; [reflexivity | apply Hg]. Qed.

Lemma keepsHighlight_atRef : forall r g, keepsHighlight g -> keepsHighlight (atRef r g).
Proof.
  intros r g Hg e. unfold atRef. destruct (hasRef r e); [apply Hg | reflexivity].
Qed.

Lemma existsb_map_inv : forall (A : Type) (f : A -> bool) (h : A -> A) (l : list A),
  (forall a, f (h a) = f a) -> existsb f (map h l) = existsb f l.
Proof.
  intros A f h l H. induction l as [|a l IH]; simpl; [reflexivity|].
  rewrite H, IH. reflexivity.
Qed.

Lemma clearNode_mapElements : forall g b n,
  keepsHighlight g ->
  clearNode b (mapElements g n) = mapElements g (clearNode b n).
Proof.
  intros g b n Hg. revert b.
  induction n as [s | e ch IH] using node_tree_ind; intro b; [reflexivity|].
  cbn [mapElements clearNode]. f_equal. rewrite !clearList_unfold. cbv zeta.
  rewrite (existsb_map_inv _ isHighlight (mapElements g)) by (intro a; apply isHighlight_mapElements, Hg).
  set (b' := b || existsb isHighlight ch).
  assert (Hmap : map (clearChild b') (map (mapElements g) ch)
                 = map (mapElements g) (map (clearChild b') ch)).
  { rewrite !map_map. apply map_ext_in. intros c Hc. unfold clearChild.
    rewrite isHighlight_mapElements by exact Hg.
    destruct (isHighlight c).
    - rewrite textContent_mapElements. reflexivity.
    - rewrite Forall_forall in IH. apply IH. exact Hc. }
  rewrite Hmap. destruct b'; [apply normalizeList_map_mapElements | reflexivity].
Qed.

Lemma clearHighlights_updateElement : forall r g d,
  keepsHighlight g ->
  clearHighlights (updateElement r g d) = updateElement r g (clearHighlights d).
Proof.
  intros r g d Hg. unfold clearHighlights, updateElement.
  pose proof (keepsHighlight_atRef r g Hg) as Hh.
  rewrite !clearList_unfold. cbv zeta.
  rewrite (existsb_map_inv _ isHighlight (mapElements (atRef r g)))
    by (intro a; apply isHighlight_mapElements, Hh).
  set (b' := false || existsb isHighlight d).
  assert (Hmap : map (clearChild b') (map (mapElements (atRef r g)) d)
                 = map (mapElements (atRef r g)) (map (clearChild b') d)).
  { rewrite !map_map. apply map_ext. intro c. unfold clearChild.
    rewrite isHighlight_mapElements by exact Hh.
    destruct (isHighlight c).
    - rewrite textContent_mapElements. reflexivity.
    - apply clearNode_mapElements. exact Hh. }
  rewrite Hmap. destruct b'; [apply normalizeList_map_mapElements | reflexivity].
Qed.

Lemma keepsHighlight_classAdd_hidden : keepsHighlight (classAdd "hidden").
Proof.
  intro e. unfold classAdd. destruct (hasClass "hidden" e); [reflexivity|].
  unfold hasClass. simpl. rewrite existsb_app. simpl. rewrite !orb_false_r. reflexivity.
Qed.

Lemma existsb_filter_other : forall (c x : string) (l : list string),
  String.eqb c x = false ->
  existsb (String.eqb c) (filter (fun y => negb (String.eqb x y)) l) = existsb (String.eqb c) l.
Proof.
  intros c x l H. induction l as [|y l IH]; simpl; [reflexivity|].
  destruct (String.eqb x y) eqn:E; simpl.
  - apply String.eqb_eq in E. subst y. rewrite H. exact IH.
  - rewrite IH. reflexivity.
Qed.

Lemma keepsHighlight_classRemove_hidden : keepsHighlight (classRemove "hidden").
Proof.
  intro e. unfold classRemove, hasClass. cbn [classList withClassList].
  apply existsb_filter_other. reflexivity.
Qed.

(** ** Clearing undoes highlighting *)

Lemma normal_children : forall b ch,
  forallb normalNode (clearList clearNode b ch) = true ->
  forall c, In c ch -> isHighlight c = false ->
  normalNode (clearNode (b || existsb isHighlight ch) c) = true.
Proof.
  intros b ch H c Hc Hh. rewrite clearList_unfold in H. cbv zeta in H.
  set (b' := b || existsb isHighlight ch) in *.
  assert (H' : forallb normalNode (map (clearChild b') ch) = true).
  { destruct b'; [rewrite forallb_normalNode_normalizeList in H|]; exact H. }
  rewrite forallb_forall in H'.
  specialize (H' (clearChild b' c) (in_map _ _ _ Hc)).
  unfold clearChild in H'. rewrite Hh in H'. exact H'.
Qed.

Lemma clearChild_not_highlight : forall b c,
  isHighlight c = false -> clearChild b c = clearNode b c.
Proof. intros b c H. unfold clearChild. rewrite H. reflexivity. Qed.

Lemma existsb_false_In : forall (A : Type) (f : A -> bool) (l : list A) (a : A),
  existsb f l = false -> In a l -> f a = false.
Proof.
  intros A f l a H Ha. destruct (f a) eqn:E; [|reflexivity].
  assert (Hex : existsb f l = true) by (apply existsb_exists; eauto). congruence.
Qed.

(** Where the cleared tree is in normal form, normalizing it once more
    changes nothing. *)
Lemma clearNode_normal_flag : forall n,
  normalNode (clearNode false n) = true -> clearNode true n = clearNode false n.
Proof.
  intro n. induction n as [s | e ch IH] using node_tree_ind; intro H; [reflexivity|].
  cbn [clearNode normalNode] in *. f_equal.
  apply andb_true_iff in H. destruct H as [Hl Hn].
  pose proof (normal_children false ch Hn) as Hch.
  rewrite !clearList_unfold in *. cbv zeta in *.
  destruct (existsb isHighlight ch) eqn:Eex; cbn [orb] in *; [reflexivity|].
  assert (Hmap : map (clearChild true) ch = map (clearChild false) ch).
  { apply map_ext_in. intros c Hc.
    pose proof (existsb_false_In _ _ _ c Eex Hc) as Hh.
    rewrite !clearChild_not_highlight by exact Hh.
    rewrite Forall_forall in IH. apply IH; [exact Hc|]. apply Hch; assumption. }
  rewrite Hmap. apply normalizeList_normal. exact Hl.
Qed.

Lemma isHighlight_highlightText : forall q n, isHighlight (highlightText q n) = isHighlight n.
Proof. intros q [s | e ch]; reflexivity. Qed.

Lemma highlightNode_Elem : forall q e ch,
  highlightNode q (Elem e ch) = [highlightText q (Elem e ch)].
Proof. reflexivity. Qed.

Lemma isHighlight_markNode : forall m, isHighlight (markNode m) = true.
Proof. reflexivity. Qed.

(** The pieces a text node is cut into are text nodes and one mark. *)
Lemma highlightTextNode_cases : forall q t,
  highlightTextNode q t = [Text t]
  \/ exists b m a,
       highlightTextNode q t
       = (if isEmpty b then [] else [Text b]) ++ [markNode m]
           ++ (if isEmpty a then [] else [Text a])
       /\ (b ++ m ++ a)%string = t.
Proof.
  intros q t. unfold highlightTextNode.
  destruct (includes q (toLowerCase t)); [|left; reflexivity].
  destruct (indexOf q (toLowerCase t)) as [i|]; [|left; reflexivity].
  right. exists (substring 0 i t), (substring i (i + String.length q) t),
    (substringFrom (i + String.length q) t).
  split; [reflexivity | apply substring_parts].
Qed.

Lemma highlightTextNode_no_mark : forall q t,
  existsb isHighlight (highlightTextNode q t) = false -> highlightTextNode q t = [Text t].
Proof.
  intros q t H. destruct (highlightTextNode_cases q t) as [E | [b [m [a [E _]]]]]; [exact E|].
  rewrite E in H. rewrite !existsb_app in H. simpl in H.
  rewrite orb_true_r in H. discriminate.
Qed.

Lemma clearChild_markNode : forall b m, clearChild b (markNode m) = Text m.
Proof.
  intros b m. unfold clearChild. rewrite isHighlight_markNode, textContent_markNode.
  reflexivity.
Qed.

(** Cleared and normalized, the pieces are the text node again. *)
Lemma pieces_normalize : forall q t l,
  normalizeList (map (clearChild true) (highlightTextNode q t) ++ l)
  = normalizeList (Text t :: l).
Proof.
  intros q t l. destruct (highlightTextNode_cases q t) as [E | [b [m [a [E Ht]]]]];
    rewrite E; [reflexivity|].
  assert (Hmap : map (clearChild true)
                   ((if isEmpty b then [] else [Text b]) ++ [markNode m]
                      ++ (if isEmpty a then [] else [Text a]))
                 = map Text ((if isEmpty b then [] else [b]) ++ [m]
                               ++ (if isEmpty a then [] else [a]))).
  { rewrite !map_app. cbn [map]. rewrite clearChild_markNode.
    destruct (isEmpty b), (isEmpty a); reflexivity. }
  rewrite Hmap, normalizeList_texts. f_equal. f_equal. f_equal.
  rewrite !joinAll_app. rewrite <- Ht.
  assert (Hb : joinAll (if isEmpty b then [] else [b]) = b).
  { destruct b; simpl; [reflexivity | rewrite append_nil_r; reflexivity]. }
  assert (Ha : joinAll (if isEmpty a then [] else [a]) = a).
  { destruct a; simpl; [reflexivity | rewrite append_nil_r; reflexivity]. }
  rewrite Hb, Ha. simpl. rewrite append_nil_r. reflexivity.
Qed.

Lemma existsb_isHighlight_highlighted : forall q ch,
  existsb isHighlight ch = true -> existsb isHighlight (flat_map (highlightNode q) ch) = true.
Proof.
  intros q ch H. apply existsb_exists in H. destruct H as [c [Hc Hh]].
  apply existsb_exists. destruct c as [s | e ch']; [discriminate|].
  exists (highlightText q (Elem e ch')). split.
  - apply in_flat_map. exists (Elem e ch'). split; [exact Hc | left; reflexivity].
  - exact Hh.
Qed.

Lemma map_flat_map : forall (A B C : Type) (f : B -> C) (g : A -> list B) (l : list A),
  map f (flat_map g l) = flat_map (fun a => map f (g a)) l.
Proof.
  intros A B C f g l. induction l as [|a l IH]; simpl; [reflexivity|].
  rewrite map_app, IH. reflexivity.
Qed.

Lemma flat_map_singleton : forall (A B : Type) (f : A -> B) (l : list A),
  flat_map (fun a => [f a]) l = map f l.
Proof.
  intros A B f l. induction l as [|a l IH]; simpl; [reflexivity | rewrite IH; reflexivity].
Qed.

Lemma highlighted_list_normalizes : forall q ch,
  (forall c, In c ch -> isHighlight c = false ->
             clearNode true (highlightText q c) = clearNode true c) ->
  normalizeList (map (clearChild true) (flat_map (highlightNode q) ch))
  = normalizeList (map (clearChild true) ch).
Proof.
  intros q ch. induction ch as [|c ch' IHch]; intro H; [reflexivity|].
  cbn [flat_map map]. rewrite map_app.
  assert (Hrest : normalizeList (map (clearChild true) (flat_map (highlightNode q) ch'))
                  = normalizeList (map (clearChild true) ch')).
  { apply IHch. intros x Hx Hh. apply H; [right; exact Hx | exact Hh]. }
  rewrite (normalizeList_app_right _ _ _ Hrest).
  destruct c as [t | e' ch''].
  - apply pieces_normalize.
  - rewrite highlightNode_Elem. cbn [map app]. f_equal. f_equal.
    unfold clearChild. rewrite isHighlight_highlightText.
    destruct (isHighlight (Elem e' ch'')) eqn:Eh.
    + rewrite textContent_highlightText. reflexivity.
    + apply H; [left; reflexivity | exact Eh].
Qed.

(** Highlighting a subtree whose cleared form is normal does not change
    the cleared form. *)
Lemma clearNode_highlightText : forall q n b,
  normalNode (clearNode b n) = true ->
  clearNode b (highlightText q n) = clearNode b n.
Proof.
  intros q n. induction n as [s | e ch IH] using node_tree_ind; intros b H; [reflexivity|].
  cbn [highlightText clearNode normalNode] in *. f_equal.
  apply andb_true_iff in H. destruct H as [Hl Hn].
  pose proof (normal_children b ch Hn) as Hch.
  rewrite Forall_forall in IH.
  rewrite !clearList_unfold in *. cbv zeta in *.
  set (b1 := b || existsb isHighlight ch) in *.
  set (b2 := b || existsb isHighlight (flat_map (highlightNode q) ch)).
  (* every child that is not a highlight is normal under the flag [true] too *)
  assert (Htrue : forall c, In c ch -> isHighlight c = false ->
                    normalNode (clearNode true c) = true
                    /\ clearNode true c = clearNode b1 c).
  { intros c Hc Hh. specialize (Hch c Hc Hh). destruct b1; [auto|].
    rewrite (clearNode_normal_flag c Hch). auto. }
  destruct b2 eqn:Eb2.
  - (* the highlighted list is normalized *)
    assert (Hnew : normalizeList (map (clearChild true) (flat_map (highlightNode q) ch))
                   = normalizeList (map (clearChild true) ch)).
    { apply highlighted_list_normalizes. intros c Hc Hh.
      apply IH; [exact Hc|]. apply (Htrue c Hc Hh). }
    rewrite Hnew. destruct b1 eqn:Eb1; [reflexivity|].
    assert (Hex : existsb isHighlight ch = false).
    { subst b1. destruct b; [discriminate|]. exact Eb1. }
    assert (Hmap : map (clearChild true) ch = map (clearChild false) ch).
    { apply map_ext_in. intros c Hc.
      pose proof (existsb_false_In _ _ _ c Hex Hc) as Hh.
      rewrite !clearChild_not_highlight by exact Hh.
      apply (Htrue c Hc Hh). }
    rewrite Hmap. apply normalizeList_normal. exact Hl.
  - (* nothing was highlighted in this list *)
    assert (Hb : b = false) by (subst b2; destruct b; [discriminate | reflexivity]).
    assert (Hex2 : existsb isHighlight (flat_map (highlightNode q) ch) = false).
    { subst b2. rewrite Hb in Eb2. exact Eb2. }
    assert (Hex : existsb isHighlight ch = false).
    { destruct (existsb isHighlight ch) eqn:E; [|reflexivity].
      rewrite (existsb_isHighlight_highlighted q ch E) in Hex2. discriminate. }
    assert (Hb1 : b1 = false) by (subst b1; rewrite Hb, Hex; reflexivity).
    rewrite Hb1 in *.
    rewrite map_flat_map. rewrite <- (flat_map_singleton _ _ (clearChild false) ch).
    apply VisibleItemsFacts.flat_map_ext_in. intros c Hc.
    assert (Hc2 : existsb isHighlight (highlightNode q c) = false).
    { destruct (existsb isHighlight (highlightNode q c)) eqn:E; [|reflexivity].
      apply existsb_exists in E. destruct E as [x [Hx Hxh]].
      assert (Hin : existsb isHighlight (flat_map (highlightNode q) ch) = true).
      { apply existsb_exists. exists x. split; [|exact Hxh]. apply in_flat_map. eauto. }
      congruence. }
    destruct c as [t | e' ch''].
    + cbn [highlightNode] in *. rewrite (highlightTextNode_no_mark q t Hc2). reflexivity.
    + rewrite highlightNode_Elem. cbn [map]. f_equal.
      pose proof (existsb_false_In _ _ _ _ Hex Hc) as Hh.
      unfold clearChild. rewrite isHighlight_highlightText, Hh.
      apply IH; [exact Hc|]. apply Hch; assumption.
Qed.

Lemma isHighlight_updateNode : forall q r n,
  isHighlight (updateNode r (highlightText q) n) = isHighlight n.
Proof.
  intros q r [s | e ch]; [reflexivity|]. cbn [updateNode].
  destruct (isRef r (Elem e ch)); reflexivity.
Qed.

Lemma clearList_map_pointwise : forall (u : node -> node) b ch,
  (forall c, isHighlight (u c) = isHighlight c) ->
  (forall c, textContent (u c) = textContent c) ->
  (forall c, In c ch -> isHighlight c = false ->
             clearNode (b || existsb isHighlight ch) (u c)
             = clearNode (b || existsb isHighlight ch) c) ->
  clearList clearNode b (map u ch) = clearList clearNode b ch.
Proof.
  intros u b ch Hh Ht Hc. rewrite !clearList_unfold. cbv zeta.
  rewrite (existsb_map_inv _ isHighlight u ch Hh).
  assert (Hmap : map (clearChild (b || existsb isHighlight ch)) (map u ch)
                 = map (clearChild (b || existsb isHighlight ch)) ch).
  { rewrite map_map. apply map_ext_in. intros c Hin. unfold clearChild.
    rewrite Hh. destruct (isHighlight c) eqn:E; [rewrite Ht; reflexivity|].
    apply Hc; assumption. }
  rewrite Hmap. reflexivity.
Qed.

Lemma clearNode_updateNode : forall q r n b,
  normalNode (clearNode b n) = true ->
  clearNode b (updateNode r (highlightText q) n) = clearNode b n.
Proof.
  intros q r n. induction n as [s | e ch IH] using node_tree_ind; intros b H; [reflexivity|].
  cbn [updateNode]. destruct (isRef r (Elem e ch)).
  - apply clearNode_highlightText. exact H.
  - cbn [clearNode normalNode] in *. f_equal.
    apply andb_true_iff in H. destruct H as [_ Hn].
    apply clearList_map_pointwise.
    + intro c. apply isHighlight_updateNode.
    + intro c. apply textContent_updateNode.
    + intros c Hc Hh. rewrite Forall_forall in IH. apply IH; [exact Hc|].
      apply (normal_children b ch Hn c Hc Hh).
Qed.

(** Highlighting an element of a document whose cleared form is normal
    does not change the cleared form. *)
Lemma clearHighlights_update : forall q r d,
  normalForest (clearHighlights d) = true ->
  clearHighlights (update r (highlightText q) d) = clearHighlights d.
Proof.
  intros q r d H. unfold clearHighlights, update, normalForest in *.
  apply andb_true_iff in H. destruct H as [_ Hn].
  apply clearList_map_pointwise.
  - intro c. apply isHighlight_updateNode.
  - intro c. apply textContent_updateNode.
  - intros c Hc Hh. apply clearNode_updateNode.
    apply (normal_children false d Hn c Hc Hh).
Qed.

(** ** What clearing leaves *)

Lemma elements_normalizeList : forall l,
  flat_map selfAndDescendants (normalizeList l) = flat_map selfAndDescendants l.
Proof.
  induction l as [|[s | e ch] l IH]; simpl; [reflexivity| |].
  - rewrite <- IH. destruct (normalizeList l) as [|[u | e' ch'] rest]; simpl;
      destruct (isEmpty s); reflexivity.
  - rewrite IH. reflexivity.
Qed.

Lemma clearList_elements_not_highlight : forall b ch,
  Forall (fun n => forall b', forall x, In x (selfAndDescendants (clearNode b' n)) ->
                     x = clearNode b' n \/ isHighlight x = false) ch ->
  forall x, In x (flat_map selfAndDescendants (clearList clearNode b ch)) ->
  isHighlight x = false.
Proof.
  intros b ch IH x Hx. rewrite clearList_unfold in Hx. cbv zeta in Hx.
  set (b' := b || existsb isHighlight ch) in *.
  assert (Hx' : In x (flat_map selfAndDescendants (map (clearChild b') ch))).
  { destruct b'; [rewrite elements_normalizeList in Hx|]; exact Hx. }
  apply in_flat_map in Hx'. destruct Hx' as [y [Hy Hxy]].
  apply in_map_iff in Hy. destruct Hy as [c [Hcy Hc]]. subst y.
  unfold clearChild in Hxy. destruct (isHighlight c) eqn:Eh; [contradiction|].
  rewrite Forall_forall in IH. destruct (IH c Hc b' x Hxy) as [Heq | Hh]; [|exact Hh].
  subst x. destruct c as [s | e ch']; [reflexivity | exact Eh].
Qed.

Lemma clearNode_elements : forall n b x,
  In x (selfAndDescendants (clearNode b n)) -> x = clearNode b n \/ isHighlight x = false.
Proof.
  intro n. induction n as [s | e ch IH] using node_tree_ind; intros b x Hx; [contradiction|].
  cbn [clearNode selfAndDescendants] in Hx. destruct Hx as [Hx | Hx]; [left; auto|].
  right. eapply clearList_elements_not_highlight; eauto.
Qed.

(** After clearing, no highlight is left in the document. *)
Lemma noHighlights_clearHighlights : forall d, noHighlights (clearHighlights d) = true.
Proof.
  intro d. unfold noHighlights. apply negb_true_iff.
  destruct (existsb isHighlight (elementsOf (clearHighlights d))) eqn:E; [|reflexivity].
  apply existsb_exists in E. destruct E as [x [Hx Hh]].
  assert (isHighlight x = false); [|congruence].
  apply (clearList_elements_not_highlight false d); [|exact Hx].
  apply Forall_forall. intros n _ b' y Hy. apply clearNode_elements. exact Hy.
Qed.

Lemma noHighlights_children : forall e ch x,
  existsb isHighlight (selfAndDescendants (Elem e ch)) = false ->
  In x ch -> existsb isHighlight (selfAndDescendants x) = false.
Proof.
  intros e ch x H Hx. destruct (existsb isHighlight (selfAndDescendants x)) eqn:E; [|reflexivity].
  apply existsb_exists in E. destruct E as [y [Hy Hh]].
  assert (Hex : existsb isHighlight (selfAndDescendants (Elem e ch)) = true).
  { apply existsb_exists. exists y. split; [|exact Hh].
    simpl. right. apply in_flat_map. eauto. }
  congruence.
Qed.

Lemma clearNode_no_highlight : forall n b,
  b = false -> existsb isHighlight (selfAndDescendants n) = false -> clearNode b n = n.
Proof.
  intro n. induction n as [s | e ch IH] using node_tree_ind; intros b Hb H; [reflexivity|].
  subst b. cbn [clearNode]. f_equal. rewrite clearList_unfold. cbv zeta.
  assert (Hex : existsb isHighlight ch = false).
  { destruct (existsb isHighlight ch) eqn:E; [|reflexivity].
    apply existsb_exists in E. destruct E as [c [Hc Hh]].
    pose proof (noHighlights_children e ch c H Hc) as Hc'.
    destruct c as [s | e' ch']; [discriminate|]. simpl in Hc'. simpl in Hh.
    unfold isHighlight in Hh. simpl in Hh. rewrite Hh in Hc'. discriminate. }
  rewrite Hex. cbn [orb].
  rewrite <- (map_id ch) at 2. apply map_ext_in. intros c Hc.
  rewrite clearChild_not_highlight by (eapply existsb_false_In; eauto).
  rewrite Forall_forall in IH. apply IH; [exact Hc | reflexivity|].
  eapply noHighlights_children; eauto.
Qed.

(** Clearing a document without highlights leaves it as it is. *)
Lemma clearHighlights_none : forall d, noHighlights d = true -> clearHighlights d = d.
Proof.
  intros d H. unfold noHighlights in H. apply negb_true_iff in H.
  unfold clearHighlights. rewrite clearList_unfold. cbv zeta.
  assert (Hsub : forall c, In c d -> existsb isHighlight (selfAndDescendants c) = false).
  { intros c Hc. destruct (existsb isHighlight (selfAndDescendants c)) eqn:E; [|reflexivity].
    apply existsb_exists in E. destruct E as [y [Hy Hh]].
    assert (Hex : existsb isHighlight (elementsOf d) = true).
    { apply existsb_exists. exists y. split; [|exact Hh]. apply in_flat_map. eauto. }
    congruence. }
  assert (Hex : existsb isHighlight d = false).
  { destruct (existsb isHighlight d) eqn:E; [|reflexivity].
    apply existsb_exists in E. destruct E as [c [Hc Hh]].
    specialize (Hsub c Hc). destruct c as [s | e ch]; [discriminate|].
    simpl in Hsub. unfold isHighlight in Hh. simpl in Hh. rewrite Hh in Hsub. discriminate. }
  rewrite Hex. cbn [orb].
  rewrite <- (map_id d) at 2. apply map_ext_in. intros c Hc.
  rewrite clearChild_not_highlight by (eapply existsb_false_In; eauto).
  apply clearNode_no_highlight; [reflexivity | apply Hsub; exact Hc].
Qed.

Lemma clearHighlights_idempotent : forall d,
  clearHighlights (clearHighlights d) = clearHighlights d.
Proof. intro d. apply clearHighlights_none, noHighlights_clearHighlights. Qed.

(** ** Looking an element up in a highlighted document *)

Inductive optionRel {A B : Type} (R : A -> B -> Prop) : option A -> option B -> Prop :=
| optionRel_none : optionRel R None None
| optionRel_some : forall x y, R x y -> optionRel R (Some x) (Some y).

(** What the element found under a handle has become after the element
    [r'] was highlighted: highlighted as a whole when it lies at or below
    [r'], highlighted at [r'] otherwise. *)
Definition via (q : string) (r' : nat) (x y : node) : Prop :=
  y = highlightText q x \/ y = updateNode r' (highlightText q) x.

Lemma find_app_split : forall (A : Type) (f : A -> bool) (l1 l2 : list A),
  find f (l1 ++ l2) = match find f l1 with Some x => Some x | None => find f l2 end.
Proof.
  intros A f l1 l2. induction l1 as [|a l1 IH]; simpl; [reflexivity|].
  destruct (f a); [reflexivity | exact IH].
Qed.

Lemma find_flat_map_pointwise : forall (A B : Type) (f : B -> bool) (h : B -> B)
    (g1 g2 : A -> list B) (l : list A),
  (forall c, In c l -> find f (g1 c) = option_map h (find f (g2 c))) ->
  find f (flat_map g1 l) = option_map h (find f (flat_map g2 l)).
Proof.
  intros A B f h g1 g2 l H. induction l as [|a l IH]; simpl; [reflexivity|].
  rewrite !find_app_split, (H a (or_introl eq_refl)).
  destruct (find f (g2 a)); simpl; [reflexivity|].
  apply IH. intros c Hc. apply H. right. exact Hc.
Qed.

Lemma find_flat_map_rel : forall (A B : Type) (R : B -> B -> Prop) (f : B -> bool)
    (g1 g2 : A -> list B) (l : list A),
  (forall c, In c l -> optionRel R (find f (g1 c)) (find f (g2 c))) ->
  optionRel R (find f (flat_map g1 l)) (find f (flat_map g2 l)).
Proof.
  intros A B R f g1 g2 l H. induction l as [|a l IH]; simpl; [constructor|].
  rewrite !find_app_split.
  pose proof (H a (or_introl eq_refl)) as Ha. inversion Ha as [E1 E2 | x y Hxy E1 E2].
  - apply IH. intros c Hc. apply H. right. exact Hc.
  - constructor. exact Hxy.
Qed.

Lemma isRef_highlightText : forall q r n, isRef r (highlightText q n) = isRef r n.
Proof. intros q r [s | e ch]; reflexivity. Qed.

Lemma flat_map_flat_map : forall (A B C : Type) (f : B -> list C) (g : A -> list B) (l : list A),
  flat_map f (flat_map g l) = flat_map (fun a => flat_map f (g a)) l.
Proof.
  intros A B C f g l. induction l as [|a l IH]; simpl; [reflexivity|].
  rewrite flat_map_app, IH. reflexivity.
Qed.

Lemma flat_map_of_map : forall (A B C : Type) (f : B -> list C) (g : A -> B) (l : list A),
  flat_map f (map g l) = flat_map (fun a => f (g a)) l.
Proof.
  intros A B C f g l. induction l as [|a l IH]; simpl; [reflexivity|].
  rewrite IH. reflexivity.
Qed.

Lemma elements_highlightTextNode : forall q t x,
  In x (flat_map selfAndDescendants (highlightTextNode q t)) -> exists m, x = markNode m.
Proof.
  intros q t x Hx. destruct (highlightTextNode_cases q t) as [E | [b [m [a [E _]]]]];
    rewrite E in Hx.
  - simpl in Hx. contradiction.
  - rewrite !flat_map_app in Hx. apply in_app_or in Hx. destruct Hx as [Hx | Hx].
    + destruct (isEmpty b); simpl in Hx; contradiction.
    + apply in_app_or in Hx. destruct Hx as [Hx | Hx].
      * exists m. unfold markNode in *. destruct (isEmpty m); simpl in Hx;
          destruct Hx as [Hx | []]; auto.
      * destruct (isEmpty a); simpl in Hx; contradiction.
Qed.

Lemma isRef_markNode : forall r m, isRef r (markNode m) = false.
Proof. reflexivity. Qed.

Lemma find_none_all : forall (A : Type) (f : A -> bool) (l : list A),
  (forall x, In x l -> f x = false) -> find f l = None.
Proof.
  intros A f l H. induction l as [|a l IH]; simpl; [reflexivity|].
  rewrite (H a (or_introl eq_refl)). apply IH. intros x Hx. apply H. right. exact Hx.
Qed.

Lemma find_highlightNode : forall q r n,
  find (isRef r) (flat_map selfAndDescendants (highlightNode q n))
  = option_map (highlightText q) (find (isRef r) (selfAndDescendants n)).
Proof.
  intros q r n. induction n as [t | e ch IH] using node_tree_ind.
  - cbn [highlightNode selfAndDescendants find option_map].
    apply find_none_all. intros x Hx.
    destruct (elements_highlightTextNode q t x Hx) as [m Hm]. subst x. reflexivity.
  - rewrite highlightNode_Elem.
    cbn [flat_map highlightText selfAndDescendants app find]. rewrite app_nil_r.
    cbn [find].
    change (isRef r (Elem e (flat_map (highlightNode q) ch))) with (isRef r (Elem e ch)).
    destruct (isRef r (Elem e ch)); [reflexivity|].
    rewrite flat_map_flat_map. apply find_flat_map_pointwise.
    rewrite Forall_forall in IH. exact IH.
Qed.

Lemma find_updateNode : forall q r' r n,
  optionRel (via q r')
    (find (isRef r) (selfAndDescendants n))
    (find (isRef r) (selfAndDescendants (updateNode r' (highlightText q) n))).
Proof.
  intros q r' r n. induction n as [t | e ch IH] using node_tree_ind; [constructor|].
  cbn [updateNode]. destruct (isRef r' (Elem e ch)) eqn:Er'.
  - pose proof (find_highlightNode q r (Elem e ch)) as H.
    rewrite highlightNode_Elem in H. cbn [flat_map] in H. rewrite app_nil_r in H.
    rewrite H. destruct (find (isRef r) (selfAndDescendants (Elem e ch))); simpl;
      constructor. left. reflexivity.
  - cbn [selfAndDescendants find].
    change (isRef r (Elem e (map (updateNode r' (highlightText q)) ch)))
      with (isRef r (Elem e ch)).
    destruct (isRef r (Elem e ch)).
    + constructor. right. cbn [updateNode]. rewrite Er'. reflexivity.
    + rewrite flat_map_of_map.
      apply find_flat_map_rel. rewrite Forall_forall in IH. exact IH.
Qed.

(** The element a handle denotes after element [r'] was highlighted. *)
Lemma getElem_update : forall q r' r d,
  optionRel (via q r') (getElem r d) (getElem r (update r' (highlightText q) d)).
Proof.
  intros q r' r d. unfold getElem, update, elementsOf.
  rewrite flat_map_of_map.
  apply find_flat_map_rel. intros c _. apply find_updateNode.
Qed.

Definition elementOf (n : node) : option element :=
  match n with
  | Text _ => None
  | Elem e _ => Some e
  end.

Lemma elementOf_highlightText : forall q n, elementOf (highlightText q n) = elementOf n.
Proof. intros q [s | e ch]; reflexivity. Qed.

Lemma elementOf_updateNode : forall q r n,
  elementOf (updateNode r (highlightText q) n) = elementOf n.
Proof.
  intros q r [s | e ch]; [reflexivity|]. cbn [updateNode].
  destruct (isRef r (Elem e ch)); reflexivity.
Qed.

Lemma via_elementOf : forall q r' x y, via q r' x y -> elementOf y = elementOf x.
Proof.
  intros q r' x y [H | H]; subst y; [apply elementOf_highlightText | apply elementOf_updateNode].
Qed.

Lemma via_textContent : forall q r' x y, via q r' x y -> textContent y = textContent x.
Proof.
  intros q r' x y [H | H]; subst y; [apply textContent_highlightText | apply textContent_updateNode].
Qed.

(** ** Counting matches of a selector that no mark matches *)

Definition countIn (sel : selector) (l : list node) : nat :=
  List.length (filter (matches sel) (flat_map selfAndDescendants l)).

Lemma countIn_app : forall sel l1 l2, countIn sel (l1 ++ l2) = countIn sel l1 + countIn sel l2.
Proof.
  intros sel l1 l2. unfold countIn. rewrite flat_map_app, filter_app, length_app. reflexivity.
Qed.

Lemma countIn_flat_map_pointwise : forall sel (g1 g2 : node -> list node) (l : list node),
  (forall c, In c l -> countIn sel (g1 c) = countIn sel (g2 c)) ->
  countIn sel (flat_map g1 l) = countIn sel (flat_map g2 l).
Proof.
  intros sel g1 g2 l H. induction l as [|a l IH]; simpl; [reflexivity|].
  rewrite !countIn_app, (H a (or_introl eq_refl)), IH; [reflexivity|].
  intros c Hc. apply H. right. exact Hc.
Qed.

Lemma countIn_cons_Elem : forall sel e ch,
  countIn sel [Elem e ch] = (if matchesElement sel e then 1 else 0) + countIn sel ch.
Proof.
  intros sel e ch. unfold countIn. cbn [flat_map selfAndDescendants]. rewrite app_nil_r.
  cbn [filter matches]. destruct (matchesElement sel e); reflexivity.
Qed.

Lemma countIn_highlightNode : forall sel q n,
  matchesElement sel markElement = false ->
  countIn sel (highlightNode q n) = countIn sel [n].
Proof.
  intros sel q n Hm. induction n as [t | e ch IH] using node_tree_ind.
  - cbn [highlightNode]. unfold countIn at 2. cbn.
    unfold countIn.
    assert (H : filter (matches sel) (flat_map selfAndDescendants (highlightTextNode q t)) = []).
    { assert (Hall : forall x, In x (flat_map selfAndDescendants (highlightTextNode q t)) ->
                               matches sel x = false).
      { intros x Hx. destruct (elements_highlightTextNode q t x Hx) as [m Hx']. subst x.
        exact Hm. }
      induction (flat_map selfAndDescendants (highlightTextNode q t)) as [|a l IHl];
        [reflexivity|].
      simpl. rewrite (Hall a (or_introl eq_refl)). apply IHl.
      intros x Hx. apply Hall. right. exact Hx. }
    rewrite H. reflexivity.
  - rewrite highlightNode_Elem. cbn [highlightText]. rewrite !countIn_cons_Elem. f_equal.
    replace (countIn sel ch) with (countIn sel (flat_map (fun c => [c]) ch))
      by (rewrite flat_map_singleton, map_id; reflexivity).
    apply countIn_flat_map_pointwise. rewrite Forall_forall in IH. exact IH.
Qed.

Lemma countIn_highlighted : forall sel q ch,
  matchesElement sel markElement = false ->
  countIn sel (flat_map (highlightNode q) ch) = countIn sel ch.
Proof.
  intros sel q ch Hm.
  replace (countIn sel ch) with (countIn sel (flat_map (fun c => [c]) ch))
    by (rewrite flat_map_singleton, map_id; reflexivity).
  apply countIn_flat_map_pointwise. intros c _. apply countIn_highlightNode. exact Hm.
Qed.

Lemma countIn_updateNode : forall sel q r n,
  matchesElement sel markElement = false ->
  countIn sel [updateNode r (highlightText q) n] = countIn sel [n].
Proof.
  intros sel q r n Hm. induction n as [t | e ch IH] using node_tree_ind; [reflexivity|].
  cbn [updateNode]. destruct (isRef r (Elem e ch)).
  - cbn [highlightText]. rewrite !countIn_cons_Elem. f_equal.
    apply countIn_highlighted. exact Hm.
  - rewrite !countIn_cons_Elem. f_equal.
    rewrite <- (flat_map_singleton _ _ (updateNode r (highlightText q)) ch).
    replace (countIn sel ch) with (countIn sel (flat_map (fun c => [c]) ch))
      by (rewrite flat_map_singleton, map_id; reflexivity).
    apply countIn_flat_map_pointwise. rewrite Forall_forall in IH. exact IH.
Qed.

Definition countBelow (sel : selector) (n : node) : nat :=
  List.length (querySelectorAll sel n).

Lemma countBelow_children : forall sel e ch, countBelow sel (Elem e ch) = countIn sel ch.
Proof. reflexivity. Qed.

Lemma via_countBelow : forall sel q r' x y,
  matchesElement sel markElement = false ->
  via q r' x y -> countBelow sel y = countBelow sel x.
Proof.
  intros sel q r' x y Hm [H | H]; subst y.
  - destruct x as [t | e ch]; [reflexivity|]. cbn [highlightText].
    rewrite !countBelow_children. apply countIn_highlighted. exact Hm.
  - destruct x as [t | e ch]; [reflexivity|].
    pose proof (countIn_updateNode sel q r' (Elem e ch) Hm) as Hc.
    cbn [updateNode] in *. destruct (isRef r' (Elem e ch)).
    + cbn [highlightText] in *. rewrite !countIn_cons_Elem in Hc.
      rewrite !countBelow_children. lia.
    + rewrite !countIn_cons_Elem in Hc. rewrite !countBelow_children. lia.
Qed.

(** ** The listener as writes to classes followed by highlighting *)

Definition clearPage (p : page) : page := mkPage (clearHighlights (doc p)) (detached p).

(** [highlightText(item, query)] for the item [r], and for a list of
    items in order. *)
Definition highlightAt (q : string) (r : nat) (p : page) : page :=
  updatePage r (highlightText q) p.

Definition highlightAll (q : string) (L : list nat) (p : page) : page :=
  fold_left (fun p r => highlightAt q r p) L p.

(** The text content of the item [r] contains the query. *)
Definition isMatch (q : string) (p : page) (r : nat) : bool :=
  match lookup r p with
  | Some item => includes q (toLowerCase (textContent item))
  | None => false
  end.

(** The loop over the items and the whole listener for a non-empty query,
    without the call of [highlightText]. *)
Definition itemFlag (q : string) (acc : page * bool) (r : nat) : page * bool :=
  match lookup r (fst acc) with
  | Some item =>
      if includes q (toLowerCase (textContent item))
      then (show r (fst acc), true)
      else (hide r (fst acc), snd acc)
  | None => acc
  end.

Definition flagsOnly (q : string) (inst : instance) (p1 : page) : page :=
  let r := fold_left (itemFlag q) (navItems inst) (p1, false) in
  let p3 := fold_left sectionStep (sections inst) (fst r) in
  if snd r then hide (emptyState inst) p3 else show (emptyState inst) p3.

(** Two elements with the same header, the same text content and the same
    number of visible nav items below them. *)
Definition sameShape (x y : node) : Prop :=
  elementOf y = elementOf x
  /\ textContent y = textContent x
  /\ countBelow visibleItemSel y = countBelow visibleItemSel x.

Lemma sameShape_refl : forall x, sameShape x x.
Proof. intro x. repeat split. Qed.

Lemma sameShape_trans : forall x y z, sameShape x y -> sameShape y z -> sameShape x z.
Proof.
  intros x y z [H1 [H2 H3]] [H4 [H5 H6]]. repeat split; congruence.
Qed.

Lemma via_sameShape : forall q r' x y, via q r' x y -> sameShape x y.
Proof.
  intros q r' x y H. split; [|split].
  - eapply via_elementOf; eauto.
  - eapply via_textContent; eauto.
  - eapply via_countBelow; [reflexivity | exact H].
Qed.

Lemma update_app : forall r f d1 d2, update r f (d1 ++ d2) = update r f d1 ++ update r f d2.
Proof. intros. unfold update. apply map_app. Qed.

Lemma updateElement_app : forall r g d1 d2,
  updateElement r g (d1 ++ d2) = updateElement r g d1 ++ updateElement r g d2.
Proof. intros. unfold updateElement. apply map_app. Qed.

Lemma lookup_highlightAt : forall q r' r p,
  optionRel (via q r') (lookup r p) (lookup r (highlightAt q r' p)).
Proof.
  intros q r' r p. unfold lookup, highlightAt, updatePage. cbn [doc detached].
  rewrite <- update_app. apply getElem_update.
Qed.

Lemma optionRel_trans : forall (A : Type) (R S T : A -> A -> Prop) a b c,
  (forall x y z, R x y -> S y z -> T x z) ->
  optionRel R a b -> optionRel S b c -> optionRel T a c.
Proof.
  intros A R S T a b c H H1 H2. inversion H1; subst; inversion H2; subst; constructor.
  eapply H; eauto.
Qed.

Lemma lookup_highlightAll : forall q L r p,
  optionRel sameShape (lookup r p) (lookup r (highlightAll q L p)).
Proof.
  intros q L. induction L as [|r' L IH]; intros r p; simpl.
  - destruct (lookup r p); constructor. apply sameShape_refl.
  - apply (optionRel_trans node (via q r') sameShape sameShape
             (lookup r p) (lookup r (highlightAt q r' p))
             (lookup r (highlightAll q L (highlightAt q r' p)))).
    + intros x y z Hxy Hyz. eapply sameShape_trans; [|exact Hyz].
      eapply via_sameShape; exact Hxy.
    + apply lookup_highlightAt.
    + apply IH.
Qed.

Lemma lookup_updateClasses : forall r' g r p,
  keepsRef g ->
  lookup r (updateClasses r' g p) = option_map (mapElements (atRef r' g)) (lookup r p).
Proof.
  intros r' g r p Hg. unfold lookup, updateClasses. cbn [doc detached].
  rewrite <- updateElement_app. apply getElem_updateElement. exact Hg.
Qed.

Lemma highlightAt_updateClasses : forall q r r' g p,
  keepsRef g ->
  highlightAt q r (updateClasses r' g p) = updateClasses r' g (highlightAt q r p).
Proof.
  intros q r r' g p Hg. unfold highlightAt, updateClasses, updatePage. cbn [doc detached].
  rewrite !update_updateElement by exact Hg. reflexivity.
Qed.

Lemma highlightAll_updateClasses : forall q L r' g p,
  keepsRef g ->
  highlightAll q L (updateClasses r' g p) = updateClasses r' g (highlightAll q L p).
Proof.
  intros q L r' g p Hg. revert p. induction L as [|r L IH]; intro p; simpl; [reflexivity|].
  rewrite highlightAt_updateClasses by exact Hg. apply IH.
Qed.

Lemma highlightAll_app : forall q L1 L2 p,
  highlightAll q (L1 ++ L2) p = highlightAll q L2 (highlightAll q L1 p).
Proof. intros. unfold highlightAll. apply fold_left_app. Qed.

Lemma highlightAll_snoc : forall q L r p,
  updatePage r (highlightText q) (highlightAll q L p) = highlightAll q (L ++ [r]) p.
Proof. intros. rewrite highlightAll_app. reflexivity. Qed.

Lemma isMatch_updateClasses : forall q r' g p r,
  keepsRef g -> isMatch q (updateClasses r' g p) r = isMatch q p r.
Proof.
  intros q r' g p r Hg. unfold isMatch. rewrite lookup_updateClasses by exact Hg.
  destruct (lookup r p); simpl; [rewrite textContent_mapElements|]; reflexivity.
Qed.

Lemma filter_ext_all : forall (A : Type) (f g : A -> bool) (l : list A),
  (forall a, f a = g a) -> filter f l = filter g l.
Proof. intros A f g l H. apply filter_ext. exact H. Qed.

(** The loop over the items: the highlighting of the matching items can be
    done after all the writes to classes. *)
Lemma items_loop_split : forall q items s b L,
  fold_left (itemStep q) items (highlightAll q L s, b)
  = (highlightAll q (L ++ filter (isMatch q s) items) (fst (fold_left (itemFlag q) items (s, b))),
     snd (fold_left (itemFlag q) items (s, b))).
Proof.
  intros q items. induction items as [|r items IH]; intros s b L.
  - simpl. rewrite app_nil_r. reflexivity.
  - cbn [fold_left filter].
    pose proof (lookup_highlightAll q L r s) as Hl.
    unfold itemStep at 2, itemFlag at 2 4. cbn [fst snd]. unfold isMatch at 1.
    inversion Hl as [E1 E2 | x y [_ [Ht _]] E1 E2].
    + apply IH.
    + rewrite Ht. destruct (includes q (toLowerCase (textContent x))).
      * unfold show. rewrite <- highlightAll_updateClasses by apply keepsRef_classRemove.
        rewrite highlightAll_snoc. rewrite IH.
        rewrite (filter_ext_all _ (isMatch q (updateClasses r (classRemove "hidden") s))
                   (isMatch q s))
          by (intro a; apply isMatch_updateClasses, keepsRef_classRemove).
        rewrite <- app_assoc. reflexivity.
      * unfold hide. rewrite <- highlightAll_updateClasses by apply keepsRef_classAdd.
        rewrite IH.
        rewrite (filter_ext_all _ (isMatch q (updateClasses r (classAdd "hidden") s))
                   (isMatch q s))
          by (intro a; apply isMatch_updateClasses, keepsRef_classAdd).
        reflexivity.
Qed.

Lemma sectionStep_highlightAll : forall q L s r,
  sectionStep (highlightAll q L s) r = highlightAll q L (sectionStep s r).
Proof.
  intros q L s r. unfold sectionStep.
  pose proof (lookup_highlightAll q L r s) as Hl.
  destruct (lookup r s) as [x|]; inversion Hl as [| x' y [_ [_ Hc]] E1 E2]; subst;
    [|reflexivity].
  unfold countBelow in Hc. rewrite Hc.
  destruct (List.length (querySelectorAll visibleItemSel x) =? 0).
  - unfold hide. rewrite <- highlightAll_updateClasses by apply keepsRef_classAdd. reflexivity.
  - unfold show. rewrite <- highlightAll_updateClasses by apply keepsRef_classRemove.
    reflexivity.
Qed.

Lemma sections_loop_split : forall q L sects s,
  fold_left sectionStep sects (highlightAll q L s)
  = highlightAll q L (fold_left sectionStep sects s).
Proof.
  intros q L sects. induction sects as [|r sects IH]; intro s; [reflexivity|].
  cbn [fold_left]. rewrite sectionStep_highlightAll. apply IH.
Qed.

(** The listener on a non-empty query: clear, write the classes, then
    highlight the matching items in order. *)
Lemma onInput_split : forall inst value p,
  let q := trim (toLowerCase value) in
  isEmpty q = false ->
  onInput inst value p
  = highlightAll q (filter (isMatch q (clearPage p)) (navItems inst))
      (flagsOnly q inst (clearPage p)).
Proof.
  intros inst value p q Hq. unfold onInput. fold q. rewrite Hq.
  fold (clearPage p). unfold flagsOnly. cbv zeta.
  pose proof (items_loop_split q (navItems inst) (clearPage p) false []) as Hi.
  change (highlightAll q [] (clearPage p)) with (clearPage p) in Hi.
  rewrite app_nil_l in Hi. rewrite Hi. cbn [fst snd].
  rewrite sections_loop_split.
  destruct (snd (fold_left (itemFlag q) (navItems inst) (clearPage p, false))).
  - unfold hide. rewrite <- highlightAll_updateClasses by apply keepsRef_classAdd. reflexivity.
  - unfold show. rewrite <- highlightAll_updateClasses by apply keepsRef_classRemove.
    reflexivity.
Qed.

(** ** Writes to classes as one map over the page *)

Definition mapPage (g : element -> element) (p : page) : page :=
  mkPage (map (mapElements g) (doc p)) (map (mapElements g) (detached p)).

Lemma updateClasses_mapPage : forall r g p, updateClasses r g p = mapPage (atRef r g) p.
Proof. reflexivity. Qed.

Lemma mapElements_ext : forall g h n,
  (forall e, g e = h e) -> mapElements g n = mapElements h n.
Proof.
  intros g h n H. induction n as [s | e ch IH] using node_tree_ind; simpl; [reflexivity|].
  rewrite H. f_equal. apply map_ext_in. rewrite Forall_forall in IH. exact IH.
Qed.

Lemma mapElements_compose : forall g h n,
  mapElements g (mapElements h n) = mapElements (fun e => g (h e)) n.
Proof.
  intros g h n. induction n as [s | e ch IH] using node_tree_ind; simpl; [reflexivity|].
  f_equal. rewrite map_map. apply map_ext_in. rewrite Forall_forall in IH. exact IH.
Qed.

Lemma mapElements_id : forall n, mapElements (fun e => e) n = n.
Proof.
  intro n. induction n as [s | e ch IH] using node_tree_ind; simpl; [reflexivity|].
  f_equal. rewrite <- (map_id ch) at 2. apply map_ext_in.
  rewrite Forall_forall in IH. exact IH.
Qed.

Lemma mapPage_ext : forall g h p, (forall e, g e = h e) -> mapPage g p = mapPage h p.
Proof.
  intros g h p H. unfold mapPage. f_equal; apply map_ext; intro n; apply mapElements_ext, H.
Qed.

Lemma mapPage_compose : forall g h p, mapPage g (mapPage h p) = mapPage (fun e => g (h e)) p.
Proof.
  intros g h p. unfold mapPage. cbn [doc detached]. rewrite !map_map.
  f_equal; apply map_ext; intro n; apply mapElements_compose.
Qed.

Lemma mapPage_id : forall p, mapPage (fun e => e) p = p.
Proof.
  intros [d t]. unfold mapPage. cbn [doc detached].
  f_equal; rewrite <- map_id; apply map_ext; intro n; apply mapElements_id.
Qed.

Lemma lookup_mapPage : forall g r p,
  keepsRef g -> lookup r (mapPage g p) = option_map (mapElements g) (lookup r p).
Proof.
  intros g r p Hg. unfold lookup, mapPage. cbn [doc detached].
  rewrite <- map_app. apply getElem_mapElements. exact Hg.
Qed.

(** One write per handle of [rs], the write for [r] being [o r]. *)
Definition applyTo (rs : list nat) (o : nat -> element -> element) (e : element) : element :=
  match ref e with
  | Some r => if existsb (Nat.eqb r) rs then o r e else e
  | None => e
  end.

Definition goodOp (g : element -> element) : Prop :=
  keepsRef g /\ forall e, g (g e) = g e.

Lemma keepsRef_applyTo : forall rs o, (forall r, keepsRef (o r)) -> keepsRef (applyTo rs o).
Proof.
  intros rs o H e. unfold applyTo. destruct (ref e) as [r|] eqn:E; [|exact E].
  destruct (existsb (Nat.eqb r) rs); [rewrite H|]; exact E.
Qed.

Lemma atRef_applyTo : forall r rs o e,
  (forall r', goodOp (o r')) ->
  atRef r (o r) (applyTo rs o e) = applyTo (rs ++ [r]) o e.
Proof.
  intros r rs o e Ho. unfold atRef, applyTo, hasRef.
  destruct (ref e) as [r0|] eqn:E.
  - rewrite existsb_app. cbn [existsb]. rewrite orb_false_r.
    destruct (existsb (Nat.eqb r0) rs) eqn:Ers.
    + rewrite (proj1 (Ho r0)), E. cbn [orb].
      destruct (Nat.eqb r r0) eqn:Er; [|reflexivity].
      apply Nat.eqb_eq in Er. subst r0. apply (proj2 (Ho r)).
    + rewrite E. cbn [orb]. rewrite (Nat.eqb_sym r0 r).
      destruct (Nat.eqb r r0) eqn:Er; [|reflexivity].
      apply Nat.eqb_eq in Er. subst r0. reflexivity.
  - rewrite E. reflexivity.
Qed.

(** A run of writes, the one for each handle fixed in advance, is one map
    over the page. *)
Lemma fold_updateClasses : forall o rs done p,
  (forall r, goodOp (o r)) ->
  fold_left (fun p r => updateClasses r (o r) p) rs (mapPage (applyTo done o) p)
  = mapPage (applyTo (done ++ rs) o) p.
Proof.
  intros o rs. induction rs as [|r rs IH]; intros done p Ho.
  - rewrite app_nil_r. reflexivity.
  - cbn [fold_left]. rewrite updateClasses_mapPage, mapPage_compose.
    rewrite (mapPage_ext _ (applyTo (done ++ [r]) o))
      by (intro e; apply atRef_applyTo; exact Ho).
    rewrite IH by exact Ho. rewrite <- app_assoc. reflexivity.
Qed.

Lemma applyTo_nil : forall o e, applyTo [] o e = e.
Proof. intros o e. unfold applyTo. destruct (ref e); reflexivity. Qed.

Lemma fold_updateClasses_start : forall o rs p,
  (forall r, goodOp (o r)) ->
  fold_left (fun p r => updateClasses r (o r) p) rs p = mapPage (applyTo rs o) p.
Proof.
  intros o rs p Ho.
  rewrite <- (mapPage_id p) at 1.
  rewrite (mapPage_ext (fun e => e) (applyTo [] o)) by (intro e; rewrite applyTo_nil; reflexivity).
  apply (fold_updateClasses o rs [] p Ho).
Qed.

Lemma classAdd_idempotent : forall c e, classAdd c (classAdd c e) = classAdd c e.
Proof.
  intros c e. destruct (hasClass c e) eqn:E.
  - unfold classAdd. rewrite E, E. reflexivity.
  - assert (H : hasClass c (withClassList (classList e ++ [c]) e) = true).
    { unfold hasClass. cbn [classList withClassList]. rewrite existsb_app. cbn [existsb].
      rewrite String.eqb_refl. rewrite orb_true_r. reflexivity. }
    unfold classAdd. rewrite E, H. reflexivity.
Qed.

Lemma filter_idempotent : forall (A : Type) (f : A -> bool) (l : list A),
  filter f (filter f l) = filter f l.
Proof.
  intros A f l. induction l as [|a l IH]; simpl; [reflexivity|].
  destruct (f a) eqn:E; simpl; [rewrite E, IH|]; auto.
Qed.

Lemma classRemove_idempotent : forall c e, classRemove c (classRemove c e) = classRemove c e.
Proof.
  intros c e. unfold classRemove, withClassList. cbn [classList ref tagName attributes].
  rewrite filter_idempotent. reflexivity.
Qed.

Lemma goodOp_classAdd : forall c, goodOp (classAdd c).
Proof. intro c. split; [apply keepsRef_classAdd | apply classAdd_idempotent]. Qed.

Lemma goodOp_classRemove : forall c, goodOp (classRemove c).
Proof. intro c. split; [apply keepsRef_classRemove | apply classRemove_idempotent]. Qed.

Lemma goodOp_id : goodOp (fun e => e).
Proof. split; [intro e|intro e]; reflexivity. Qed.

(** ** The writes to classes in closed form *)

Definition hiddenOp (g : element -> element) : Prop :=
  g = classAdd "hidden" \/ g = classRemove "hidden" \/ g = (fun e => e).

Lemma hiddenOp_good : forall g, hiddenOp g -> goodOp g.
Proof.
  intros g [H | [H | H]]; subst g;
    [apply goodOp_classAdd | apply goodOp_classRemove | apply goodOp_id].
Qed.

Lemma hiddenOp_attributes : forall g e, hiddenOp g -> attributes (g e) = attributes e.
Proof.
  intros g e [H | [H | H]]; subst g; try reflexivity.
  unfold classAdd. destruct (hasClass "hidden" e); reflexivity.
Qed.

(** The write the loop over the items makes on the item [r]. *)
Definition itemOp (q : string) (s : page) (r : nat) : element -> element :=
  match lookup r s with
  | Some item =>
      if includes q (toLowerCase (textContent item))
      then classRemove "hidden" else classAdd "hidden"
  | None => fun e => e
  end.

(** The write the loop over the sections makes on the section [r]. *)
Definition secOp (Y : page) (r : nat) : element -> element :=
  match lookup r Y with
  | Some section =>
      if List.length (querySelectorAll visibleItemSel section) =? 0
      then classAdd "hidden" else classRemove "hidden"
  | None => fun e => e
  end.

Definition emptyOp (b : bool) : element -> element :=
  if b then classAdd "hidden" else classRemove "hidden".

Lemma hiddenOp_itemOp : forall q s r, hiddenOp (itemOp q s r).
Proof.
  intros q s r. unfold itemOp, hiddenOp. destruct (lookup r s); [|auto].
  destruct (includes q (toLowerCase (textContent n))); auto.
Qed.

Lemma hiddenOp_secOp : forall Y r, hiddenOp (secOp Y r).
Proof.
  intros Y r. unfold secOp, hiddenOp. destruct (lookup r Y); [|auto].
  destruct (List.length (querySelectorAll visibleItemSel n) =? 0); auto.
Qed.

Lemma hiddenOp_emptyOp : forall b, hiddenOp (emptyOp b).
Proof. intros [|]; unfold emptyOp, hiddenOp; auto. Qed.

Lemma itemOp_mapPage : forall q g s r, keepsRef g -> itemOp q (mapPage g s) r = itemOp q s r.
Proof.
  intros q g s r Hg. unfold itemOp. rewrite lookup_mapPage by exact Hg.
  destruct (lookup r s); simpl; [rewrite textContent_mapElements|]; reflexivity.
Qed.

Lemma isMatch_mapPage : forall q g s r, keepsRef g -> isMatch q (mapPage g s) r = isMatch q s r.
Proof.
  intros q g s r Hg. unfold isMatch. rewrite lookup_mapPage by exact Hg.
  destruct (lookup r s); simpl; [rewrite textContent_mapElements|]; reflexivity.
Qed.

Lemma updateClasses_id : forall r p, updateClasses r (fun e => e) p = p.
Proof.
  intros r p. rewrite updateClasses_mapPage.
  rewrite (mapPage_ext _ (fun e => e)); [apply mapPage_id|].
  intro e. unfold atRef. destruct (hasRef r e); reflexivity.
Qed.

Lemma itemFlag_itemOp : forall q s b r,
  itemFlag q (s, b) r = (updateClasses r (itemOp q s r) s, b || isMatch q s r).
Proof.
  intros q s b r. unfold itemFlag, itemOp, isMatch. cbn [fst snd].
  destruct (lookup r s) as [item|].
  - destruct (includes q (toLowerCase (textContent item)));
      [rewrite orb_true_r | rewrite orb_false_r]; reflexivity.
  - rewrite updateClasses_id, orb_false_r. reflexivity.
Qed.

Lemma items_flags_closed_gen : forall q s0 items g b,
  keepsRef g ->
  fold_left (itemFlag q) items (mapPage g s0, b)
  = (fold_left (fun p r => updateClasses r (itemOp q s0 r) p) items (mapPage g s0),
     b || existsb (isMatch q s0) items).
Proof.
  intros q s0 items. induction items as [|r items IH]; intros g b Hg.
  - cbn [fold_left existsb]. rewrite orb_false_r. reflexivity.
  - cbn [fold_left existsb]. rewrite itemFlag_itemOp.
    rewrite itemOp_mapPage, isMatch_mapPage by exact Hg.
    rewrite updateClasses_mapPage, mapPage_compose.
    rewrite IH.
    + rewrite orb_assoc. reflexivity.
    + intro e. rewrite (keepsRef_atRef r _ (proj1 (hiddenOp_good _ (hiddenOp_itemOp q s0 r)))).
      apply Hg.
Qed.

(** The loop over the items, writes only. *)
Lemma items_flags_closed : forall q s items,
  fold_left (itemFlag q) items (s, false)
  = (mapPage (applyTo items (itemOp q s)) s, existsb (isMatch q s) items).
Proof.
  intros q s items.
  rewrite <- (mapPage_id s) at 1.
  rewrite items_flags_closed_gen by (intro e; reflexivity).
  rewrite mapPage_id.
  rewrite fold_updateClasses_start by (intro r; apply hiddenOp_good, hiddenOp_itemOp).
  reflexivity.
Qed.

(** No element whose handle is in [rs] is a nav item. *)
Definition noItemsAt (rs : list nat) (p : page) : Prop :=
  forall e ch r,
    In (Elem e ch) (elementsOf (doc p ++ detached p)) ->
    ref e = Some r -> In r rs -> hasAttribute "data-nav-item" e = false.

Lemma matches_map_filter : forall sel g (l : list node),
  (forall c, In c l -> matches sel (mapElements g c) = matches sel c) ->
  filter (matches sel) (map (mapElements g) l) = map (mapElements g) (filter (matches sel) l).
Proof.
  intros sel g l H. induction l as [|a l IH]; simpl; [reflexivity|].
  rewrite (H a (or_introl eq_refl)).
  rewrite IH by (intros c Hc; apply H; right; exact Hc).
  destruct (matches sel a); reflexivity.
Qed.

Lemma countBelow_mapElements : forall sel g x,
  (forall c, In c (descendants x) -> matches sel (mapElements g c) = matches sel c) ->
  countBelow sel (mapElements g x) = countBelow sel x.
Proof.
  intros sel g x H. unfold countBelow, querySelectorAll.
  rewrite descendants_mapElements, matches_map_filter by exact H.
  apply length_map.
Qed.

Lemma countBelow_agree : forall sel g1 g2 x,
  (forall c, In c (descendants x) ->
             matches sel (mapElements g1 c) = matches sel (mapElements g2 c)) ->
  countBelow sel (mapElements g1 x) = countBelow sel (mapElements g2 x).
Proof.
  intros sel g1 g2 x H. unfold countBelow, querySelectorAll.
  rewrite !descendants_mapElements.
  induction (descendants x) as [|a l IH]; [reflexivity|].
  cbn [map filter]. rewrite (H a (or_introl eq_refl)).
  assert (IH' : List.length (filter (matches sel) (map (mapElements g1) l))
                = List.length (filter (matches sel) (map (mapElements g2) l))).
  { apply IH. intros c Hc. apply H. right. exact Hc. }
  destruct (matches sel (mapElements g2 a)); cbn [List.length]; rewrite IH'; reflexivity.
Qed.

Lemma lookup_In : forall r p x, lookup r p = Some x -> In x (elementsOf (doc p ++ detached p)).
Proof. intros r p x H. unfold lookup in H. apply getElem_some in H. tauto. Qed.

(** Two ways of writing the classes of a page that agree on which element
    is a visible nav item give the same write for every section. *)
Lemma secOp_agree : forall g1 g2 Y r,
  keepsRef g1 -> keepsRef g2 ->
  (forall e ch, In (Elem e ch) (elementsOf (doc Y ++ detached Y)) ->
                matchesElement visibleItemSel (g1 e) = matchesElement visibleItemSel (g2 e)) ->
  secOp (mapPage g1 Y) r = secOp (mapPage g2 Y) r.
Proof.
  intros g1 g2 Y r H1 H2 H. unfold secOp. rewrite !lookup_mapPage by assumption.
  destruct (lookup r Y) as [x|] eqn:E; simpl; [|reflexivity].
  assert (Hc : countBelow visibleItemSel (mapElements g1 x)
               = countBelow visibleItemSel (mapElements g2 x)).
  { apply countBelow_agree. intros c Hc.
    assert (Hin : In c (elementsOf (doc Y ++ detached Y))).
    { eapply elementsOf_descendants; [eapply lookup_In; exact E | exact Hc]. }
    destruct (elementsOf_elements _ _ Hin) as [e [ch Hce]]. subst c.
    apply (H e ch Hin). }
  unfold countBelow in Hc. rewrite Hc. reflexivity.
Qed.

Lemma visible_hiddenOp_not_item : forall g e,
  hiddenOp g -> hasAttribute "data-nav-item" e = false ->
  matchesElement visibleItemSel (g e) = false.
Proof.
  intros g e Hg He. cbn [matchesElement visibleItemSel].
  unfold hasAttribute, getAttribute in *. rewrite (hiddenOp_attributes g e Hg).
  destruct (find _ (attributes e)); [discriminate | reflexivity].
Qed.

Lemma visible_applyTo_not_item : forall rs o e,
  (forall r, hiddenOp (o r)) -> hasAttribute "data-nav-item" e = false ->
  matchesElement visibleItemSel (applyTo rs o e) = false.
Proof.
  intros rs o e Ho He. unfold applyTo.
  destruct (ref e) as [r|]; [destruct (existsb (Nat.eqb r) rs)|];
    try (apply (visible_hiddenOp_not_item _ e (Ho r) He));
    apply (visible_hiddenOp_not_item (fun x => x) e); unfold hiddenOp; auto.
Qed.

Lemma applyTo_outside : forall rs o e r,
  ref e = Some r -> ~ In r rs -> applyTo rs o e = e.
Proof.
  intros rs o e r He Hr. unfold applyTo. rewrite He.
  destruct (existsb (Nat.eqb r) rs) eqn:E; [|reflexivity].
  exfalso. apply Hr. apply existsb_exists in E. destruct E as [x [Hx Hrx]].
  apply Nat.eqb_eq in Hrx. subst x. exact Hx.
Qed.

Lemma applyTo_inside : forall rs o e r,
  ref e = Some r -> In r rs -> applyTo rs o e = o r e.
Proof.
  intros rs o e r He Hr. unfold applyTo. rewrite He.
  assert (E : existsb (Nat.eqb r) rs = true).
  { apply existsb_exists. exists r. split; [exact Hr | apply Nat.eqb_refl]. }
  rewrite E. reflexivity.
Qed.

Lemma applyTo_no_ref : forall rs o e, ref e = None -> applyTo rs o e = e.
Proof. intros rs o e He. unfold applyTo. rewrite He. reflexivity. Qed.

(** Writes to elements that are not nav items do not change the write of
    any section. *)
Lemma secOp_applyTo : forall rs o Y r,
  (forall r', hiddenOp (o r')) -> noItemsAt rs Y ->
  secOp (mapPage (applyTo rs o) Y) r = secOp Y r.
Proof.
  intros rs o Y r Ho Hno.
  rewrite <- (mapPage_id Y) at 2.
  apply secOp_agree.
  - apply keepsRef_applyTo. intro r'. apply (proj1 (hiddenOp_good _ (Ho r'))).
  - intro e. reflexivity.
  - intros e ch Hin. destruct (ref e) as [r0|] eqn:Er.
    + destruct (in_dec Nat.eq_dec r0 rs) as [Hr | Hr].
      * pose proof (Hno e ch r0 Hin Er Hr) as Hna.
        rewrite (visible_applyTo_not_item rs o e Ho Hna).
        symmetry. apply (visible_hiddenOp_not_item (fun x => x) e); [|exact Hna].
        unfold hiddenOp. auto.
      * rewrite (applyTo_outside rs o e r0 Er Hr). reflexivity.
    + rewrite (applyTo_no_ref rs o e Er). reflexivity.
Qed.

Lemma sectionStep_secOp : forall p r, sectionStep p r = updateClasses r (secOp p r) p.
Proof.
  intros p r. unfold sectionStep, secOp. destruct (lookup r p) as [x|].
  - destruct (List.length (querySelectorAll visibleItemSel x) =? 0); reflexivity.
  - rewrite updateClasses_id. reflexivity.
Qed.

Lemma noItemsAt_incl : forall rs rs' p,
  (forall r, In r rs' -> In r rs) -> noItemsAt rs p -> noItemsAt rs' p.
Proof.
  intros rs rs' p H Hno e ch r Hin Hr Hr'. eapply Hno; eauto.
Qed.

Lemma sections_closed_gen : forall Y sects done,
  noItemsAt (done ++ sects) Y ->
  fold_left sectionStep sects (mapPage (applyTo done (secOp Y)) Y)
  = mapPage (applyTo (done ++ sects) (secOp Y)) Y.
Proof.
  intros Y sects. induction sects as [|r sects IH]; intros done Hno.
  - rewrite app_nil_r. reflexivity.
  - cbn [fold_left]. rewrite sectionStep_secOp.
    rewrite secOp_applyTo.
    2:{ intro r'. apply hiddenOp_secOp. }
    2:{ eapply noItemsAt_incl; [|exact Hno]. intros x Hx. apply in_or_app. left. exact Hx. }
    rewrite updateClasses_mapPage, mapPage_compose.
    rewrite (mapPage_ext _ (applyTo (done ++ [r]) (secOp Y)))
      by (intro e; apply atRef_applyTo; intro r'; apply hiddenOp_good, hiddenOp_secOp).
    rewrite IH.
    + rewrite <- app_assoc. reflexivity.
    + rewrite <- app_assoc. exact Hno.
Qed.

(** The loop over the sections, when no section is a nav item. *)
Lemma sections_closed : forall Y sects,
  noItemsAt sects Y ->
  fold_left sectionStep sects Y = mapPage (applyTo sects (secOp Y)) Y.
Proof.
  intros Y sects Hno.
  rewrite <- (mapPage_id Y) at 1.
  rewrite (mapPage_ext (fun e => e) (applyTo [] (secOp Y)))
    by (intro e; rewrite applyTo_nil; reflexivity).
  apply (sections_closed_gen Y sects [] Hno).
Qed.

(** ** Writes of the class [hidden], composed *)

Lemma classRemove_classAdd : forall c e, classRemove c (classAdd c e) = classRemove c e.
Proof.
  intros c e. unfold classAdd. destruct (hasClass c e); [reflexivity|].
  unfold classRemove, withClassList. cbn [classList ref tagName attributes].
  rewrite filter_app. cbn [filter]. rewrite String.eqb_refl. cbn [negb].
  rewrite app_nil_r. reflexivity.
Qed.

Ltac hidden_cases :=
  repeat match goal with
         | H : hiddenOp _ |- _ => destruct H as [H | [H | H]]; subst
         end;
  cbv beta.

Ltac hidden_norm :=
  repeat (rewrite classRemove_classAdd || rewrite classAdd_idempotent
          || rewrite classRemove_idempotent).

Lemma hiddenOp_twice : forall h1 h2 h3 e,
  hiddenOp h1 -> hiddenOp h2 -> hiddenOp h3 ->
  h3 (h2 (h1 (h3 (h2 (h1 e))))) = h3 (h2 (h1 e)).
Proof. intros h1 h2 h3 e H1 H2 H3. hidden_cases; hidden_norm; reflexivity. Qed.

Lemma hiddenOp_unhide : forall h e,
  hiddenOp h -> classRemove "hidden" (h e) = classRemove "hidden" e.
Proof. intros h e H. hidden_cases; hidden_norm; reflexivity. Qed.

Lemma hiddenOp_keepsHighlight : forall h, hiddenOp h -> keepsHighlight h.
Proof.
  intros h H e. hidden_cases; try reflexivity.
  - apply keepsHighlight_classAdd_hidden.
  - apply keepsHighlight_classRemove_hidden.
Qed.

(** A map over the elements that, on the elements of one handle, is up to
    three writes of the class [hidden], and leaves the elements without a
    handle alone. *)
Definition flagWrite (g : element -> element) : Prop :=
  (forall e, ref e = None -> g e = e)
  /\ forall e, exists h1 h2 h3,
       hiddenOp h1 /\ hiddenOp h2 /\ hiddenOp h3
       /\ forall e', ref e' = ref e -> g e' = h3 (h2 (h1 e')).

Lemma hiddenOp_keepsRef : forall h, hiddenOp h -> keepsRef h.
Proof. intros h H. apply (proj1 (hiddenOp_good h H)). Qed.

Lemma flagWrite_keepsRef : forall g, flagWrite g -> keepsRef g.
Proof.
  intros g [_ H] e. destruct (H e) as [h1 [h2 [h3 [H1 [H2 [H3 Hg]]]]]].
  rewrite (Hg e eq_refl).
  rewrite (hiddenOp_keepsRef h3 H3), (hiddenOp_keepsRef h2 H2), (hiddenOp_keepsRef h1 H1).
  reflexivity.
Qed.

Lemma flagWrite_attributes : forall g e, flagWrite g -> attributes (g e) = attributes e.
Proof.
  intros g e [_ H]. destruct (H e) as [h1 [h2 [h3 [H1 [H2 [H3 Hg]]]]]].
  rewrite (Hg e eq_refl).
  rewrite (hiddenOp_attributes h3 _ H3), (hiddenOp_attributes h2 _ H2),
    (hiddenOp_attributes h1 _ H1).
  reflexivity.
Qed.

Lemma flagWrite_keepsHighlight : forall g, flagWrite g -> keepsHighlight g.
Proof.
  intros g [_ H] e. destruct (H e) as [h1 [h2 [h3 [H1 [H2 [H3 Hg]]]]]].
  rewrite (Hg e eq_refl).
  rewrite (hiddenOp_keepsHighlight h3 H3), (hiddenOp_keepsHighlight h2 H2),
    (hiddenOp_keepsHighlight h1 H1).
  reflexivity.
Qed.

Lemma flagWrite_idempotent : forall g e, flagWrite g -> g (g e) = g e.
Proof.
  intros g e Hg. pose proof (flagWrite_keepsRef g Hg e) as Hr.
  destruct Hg as [_ H]. destruct (H e) as [h1 [h2 [h3 [H1 [H2 [H3 Hg]]]]]].
  rewrite (Hg (g e) Hr), (Hg e eq_refl). apply hiddenOp_twice; assumption.
Qed.

Lemma flagWrite_unhide : forall g e,
  flagWrite g -> classRemove "hidden" (g e) = classRemove "hidden" e.
Proof.
  intros g e [_ H]. destruct (H e) as [h1 [h2 [h3 [H1 [H2 [H3 Hg]]]]]].
  rewrite (Hg e eq_refl).
  rewrite (hiddenOp_unhide h3 _ H3), (hiddenOp_unhide h2 _ H2), (hiddenOp_unhide h1 _ H1).
  reflexivity.
Qed.

Lemma hiddenOp_id : hiddenOp (fun e => e).
Proof. unfold hiddenOp. auto. Qed.

Lemma applyTo_acts : forall rs o e,
  (forall r, hiddenOp (o r)) ->
  exists h, hiddenOp h /\ forall e', ref e' = ref e -> applyTo rs o e' = h e'.
Proof.
  intros rs o e Ho. unfold applyTo. destruct (ref e) as [r|].
  - destruct (existsb (Nat.eqb r) rs) eqn:E.
    + exists (o r). split; [apply Ho|]. intros e' He'. rewrite He', E. reflexivity.
    + exists (fun x => x). split; [apply hiddenOp_id|]. intros e' He'. rewrite He', E.
      reflexivity.
  - exists (fun x => x). split; [apply hiddenOp_id|]. intros e' He'. rewrite He'. reflexivity.
Qed.

Lemma atRef_acts : forall r g e,
  hiddenOp g ->
  exists h, hiddenOp h /\ forall e', ref e' = ref e -> atRef r g e' = h e'.
Proof.
  intros r g e Hg. unfold atRef, hasRef. destruct (ref e) as [r0|].
  - destruct (Nat.eqb r r0) eqn:E.
    + exists g. split; [exact Hg|]. intros e' He'. rewrite He', E. reflexivity.
    + exists (fun x => x). split; [apply hiddenOp_id|]. intros e' He'. rewrite He', E.
      reflexivity.
  - exists (fun x => x). split; [apply hiddenOp_id|]. intros e' He'. rewrite He'. reflexivity.
Qed.

(** Writes to the items, then to the sections, then to the empty state. *)
Definition threeWrites (items sects : list nat) (es : nat)
    (oi os : nat -> element -> element) (oe : element -> element) (e : element) : element :=
  atRef es oe (applyTo sects os (applyTo items oi e)).

Lemma flagWrite_threeWrites : forall items sects es oi os oe,
  (forall r, hiddenOp (oi r)) -> (forall r, hiddenOp (os r)) -> hiddenOp oe ->
  flagWrite (threeWrites items sects es oi os oe).
Proof.
  intros items sects es oi os oe Hi Hs He. split.
  - intros e Hr. unfold threeWrites. rewrite (applyTo_no_ref items oi e Hr).
    rewrite (applyTo_no_ref sects os e Hr). unfold atRef, hasRef. rewrite Hr. reflexivity.
  - intro e.
    destruct (applyTo_acts items oi e Hi) as [h1 [H1 A1]].
    destruct (applyTo_acts sects os e Hs) as [h2 [H2 A2]].
    destruct (atRef_acts es oe e He) as [h3 [H3 A3]].
    exists h1, h2, h3. repeat split; try assumption.
    intros e' He'. unfold threeWrites.
    rewrite (A1 e' He').
    rewrite (A2 (h1 e')) by (rewrite (hiddenOp_keepsRef h1 H1); exact He').
    rewrite (A3 (h2 (h1 e')))
      by (rewrite (hiddenOp_keepsRef h2 H2), (hiddenOp_keepsRef h1 H1); exact He').
    reflexivity.
Qed.

Lemma noItemsAt_mapPage : forall g rs p,
  keepsRef g -> (forall e, attributes (g e) = attributes e) ->
  noItemsAt rs p -> noItemsAt rs (mapPage g p).
Proof.
  intros g rs p Hg Ha Hno e ch r Hin Hr Hrs.
  unfold mapPage in Hin. cbn [doc detached] in Hin.
  rewrite <- map_app, elementsOf_mapElements in Hin.
  apply in_map_iff in Hin. destruct Hin as [x [Hx Hin]].
  destruct x as [t | e0 ch0]; [discriminate|].
  cbn [mapElements] in Hx. inversion Hx; subst.
  rewrite Hg in Hr. pose proof (Hno e0 ch0 r Hin Hr Hrs) as H.
  unfold hasAttribute, getAttribute in *. rewrite Ha. exact H.
Qed.

(** The writes of the listener for the query [q] on the cleared page [X]. *)
Definition writes (q : string) (inst : instance) (X : page) : element -> element :=
  threeWrites (navItems inst) (sections inst) (emptyState inst)
    (itemOp q X)
    (secOp (mapPage (applyTo (navItems inst) (itemOp q X)) X))
    (emptyOp (existsb (isMatch q X) (navItems inst))).

Lemma flagWrite_writes : forall q inst X, flagWrite (writes q inst X).
Proof.
  intros q inst X. apply flagWrite_threeWrites.
  - intro r. apply hiddenOp_itemOp.
  - intro r. apply hiddenOp_secOp.
  - apply hiddenOp_emptyOp.
Qed.

Lemma applyTo_attributes : forall rs o e,
  (forall r, hiddenOp (o r)) -> attributes (applyTo rs o e) = attributes e.
Proof.
  intros rs o e Ho. destruct (applyTo_acts rs o e Ho) as [h [Hh Ha]].
  rewrite (Ha e eq_refl). apply hiddenOp_attributes. exact Hh.
Qed.

(** The listener without the highlighting, in closed form. *)
Lemma flagsOnly_closed : forall q inst X,
  noItemsAt (sections inst) X ->
  flagsOnly q inst X = mapPage (writes q inst X) X.
Proof.
  intros q inst X Hno. unfold flagsOnly. cbv zeta.
  rewrite items_flags_closed. cbn [fst snd].
  set (Gi := applyTo (navItems inst) (itemOp q X)).
  rewrite sections_closed.
  2:{ apply noItemsAt_mapPage; [| |exact Hno].
      - apply keepsRef_applyTo. intro r. apply hiddenOp_keepsRef, hiddenOp_itemOp.
      - intro e. apply applyTo_attributes. intro r. apply hiddenOp_itemOp. }
  assert (He : forall (b : bool) (p3 : page),
             (if b then hide (emptyState inst) p3 else show (emptyState inst) p3)
             = updateClasses (emptyState inst) (emptyOp b) p3).
  { intros [|] p3; reflexivity. }
  rewrite He, updateClasses_mapPage, !mapPage_compose. reflexivity.
Qed.

Lemma applyTo_ext : forall rs o o' e,
  (forall r, o r = o' r) -> applyTo rs o e = applyTo rs o' e.
Proof.
  intros rs o o' e H. unfold applyTo. destruct (ref e) as [r|]; [|reflexivity].
  rewrite H. reflexivity.
Qed.

Lemma applyTo_idempotent : forall rs o e,
  (forall r, goodOp (o r)) -> applyTo rs o (applyTo rs o e) = applyTo rs o e.
Proof.
  intros rs o e Ho. unfold applyTo at 2. destruct (ref e) as [r|] eqn:Er.
  - destruct (existsb (Nat.eqb r) rs) eqn:E.
    + unfold applyTo. rewrite (proj1 (Ho r)), Er, E. apply (proj2 (Ho r)).
    + unfold applyTo. rewrite Er, E. reflexivity.
  - unfold applyTo. rewrite Er. reflexivity.
Qed.

Lemma existsb_pointwise : forall (A : Type) (f g : A -> bool) (l : list A),
  (forall a, f a = g a) -> existsb f l = existsb g l.
Proof.
  intros A f g l H. induction l as [|a l IH]; simpl; [reflexivity|].
  rewrite H, IH. reflexivity.
Qed.

Lemma threeWrites_ext : forall items sects es oi oi' os os' oe e,
  (forall r, oi r = oi' r) -> (forall r, os r = os' r) ->
  threeWrites items sects es oi os oe e = threeWrites items sects es oi' os' oe e.
Proof.
  intros items sects es oi oi' os os' oe e Hi Hs. unfold threeWrites.
  rewrite (applyTo_ext items oi oi' e Hi).
  rewrite (applyTo_ext sects os os' _ Hs). reflexivity.
Qed.

Lemma atRef_outside : forall r g e, ref e <> Some r -> atRef r g e = e.
Proof.
  intros r g e H. unfold atRef, hasRef. destruct (ref e) as [r0|]; [|reflexivity].
  destruct (Nat.eqb r r0) eqn:E; [|reflexivity].
  apply Nat.eqb_eq in E. subst r0. congruence.
Qed.

(** On a nav item the writes to the sections and to the empty state do
    nothing, when neither a section nor the empty state is a nav item. *)
Lemma threeWrites_on_item : forall inst X oi os oe e ch,
  noItemsAt (sections inst ++ [emptyState inst]) X ->
  (forall r, hiddenOp (oi r)) ->
  In (Elem e ch) (elementsOf (doc X ++ detached X)) ->
  hasAttribute "data-nav-item" e = true ->
  threeWrites (navItems inst) (sections inst) (emptyState inst) oi os oe e
  = applyTo (navItems inst) oi e.
Proof.
  intros inst X oi os oe e ch Hno Hi Hin Hnav. unfold threeWrites.
  set (e1 := applyTo (navItems inst) oi e).
  assert (Hr1 : ref e1 = ref e).
  { apply keepsRef_applyTo. intro r. apply hiddenOp_keepsRef, Hi. }
  assert (Hout : forall r, ref e = Some r -> ~ In r (sections inst ++ [emptyState inst])).
  { intros r Hr Hrin. pose proof (Hno e ch r Hin Hr Hrin). congruence. }
  assert (H2 : applyTo (sections inst) os e1 = e1).
  { destruct (ref e) as [r|] eqn:Er.
    - apply (applyTo_outside _ _ _ r); [congruence|].
      intro Hs. apply (Hout r eq_refl). apply in_or_app. left. exact Hs.
    - apply applyTo_no_ref. congruence. }
  rewrite H2. apply atRef_outside. rewrite Hr1. intro Hr.
  apply (Hout _ Hr). apply in_or_app. right. left. reflexivity.
Qed.

Lemma writes_stable : forall q inst X e,
  noItemsAt (sections inst ++ [emptyState inst]) X ->
  writes q inst (mapPage (writes q inst X) X) e = writes q inst X e.
Proof.
  intros q inst X e Hno. unfold writes at 1 3.
  pose proof (flagWrite_writes q inst X) as HW.
  pose proof (flagWrite_keepsRef _ HW) as HWr.
  rewrite (existsb_pointwise _ (isMatch q (mapPage (writes q inst X) X)) (isMatch q X))
    by (intro r; apply isMatch_mapPage; exact HWr).
  apply threeWrites_ext.
  - intro r. apply itemOp_mapPage. exact HWr.
  - intro r.
    assert (HGi : forall r0, hiddenOp (itemOp q X r0)) by (intro r0; apply hiddenOp_itemOp).
    rewrite (mapPage_ext (applyTo (navItems inst) (itemOp q (mapPage (writes q inst X) X)))
               (applyTo (navItems inst) (itemOp q X)))
      by (intro e0; apply applyTo_ext; intro r0; apply itemOp_mapPage; exact HWr).
    rewrite mapPage_compose.
    apply secOp_agree.
    + intro e0. rewrite (keepsRef_applyTo _ _ (fun r0 => hiddenOp_keepsRef _ (HGi r0))).
      apply HWr.
    + apply keepsRef_applyTo. intro r0. apply hiddenOp_keepsRef, HGi.
    + intros e0 ch0 Hin. destruct (hasAttribute "data-nav-item" e0) eqn:Hnav.
      * unfold writes. rewrite (threeWrites_on_item inst X _ _ _ e0 ch0 Hno HGi Hin Hnav).
        rewrite applyTo_idempotent by (intro r0; apply hiddenOp_good, HGi). reflexivity.
      * rewrite (visible_applyTo_not_item _ _ e0 HGi Hnav).
        apply visible_applyTo_not_item; [exact HGi|].
        unfold hasAttribute, getAttribute in *. rewrite (flagWrite_attributes _ e0 HW).
        exact Hnav.
Qed.

Lemma noItemsAt_sections : forall inst X,
  noItemsAt (sections inst ++ [emptyState inst]) X -> noItemsAt (sections inst) X.
Proof.
  intros inst X H. eapply noItemsAt_incl; [|exact H].
  intros r Hr. apply in_or_app. left. exact Hr.
Qed.

(** Writing the classes a second time changes nothing. *)
Lemma flagsOnly_idempotent : forall q inst X,
  noItemsAt (sections inst ++ [emptyState inst]) X ->
  flagsOnly q inst (flagsOnly q inst X) = flagsOnly q inst X.
Proof.
  intros q inst X Hno.
  pose proof (flagWrite_writes q inst X) as HW.
  rewrite (flagsOnly_closed q inst X (noItemsAt_sections inst X Hno)).
  rewrite flagsOnly_closed.
  2:{ apply noItemsAt_mapPage;
        [apply flagWrite_keepsRef, HW | intro e; apply flagWrite_attributes, HW
        | apply noItemsAt_sections, Hno]. }
  rewrite mapPage_compose. apply mapPage_ext. intro e.
  rewrite writes_stable by exact Hno.
  apply flagWrite_idempotent. exact HW.
Qed.

(** ** Text nodes in normal form, and clearing, under writes to classes *)

Lemma normalList_map_mapElements : forall g l,
  normalList (map (mapElements g) l) = normalList l.
Proof.
  intros g l. induction l as [|[s | e ch] l IH]; [reflexivity| |].
  - cbn [map mapElements normalList]. rewrite IH.
    destruct l as [|[u | e' ch'] rest]; reflexivity.
  - cbn [map mapElements normalList]. exact IH.
Qed.

Lemma forallb_map_inv : forall (A : Type) (f : A -> bool) (h : A -> A) (l : list A),
  (forall a, In a l -> f (h a) = f a) -> forallb f (map h l) = forallb f l.
Proof.
  intros A f h l H. induction l as [|a l IH]; simpl; [reflexivity|].
  rewrite (H a (or_introl eq_refl)), IH; [reflexivity|].
  intros b Hb. apply H. right. exact Hb.
Qed.

Lemma normalNode_mapElements : forall g n, normalNode (mapElements g n) = normalNode n.
Proof.
  intros g n. induction n as [s | e ch IH] using node_tree_ind; [reflexivity|].
  cbn [mapElements normalNode]. rewrite normalList_map_mapElements. f_equal.
  apply forallb_map_inv. rewrite Forall_forall in IH. exact IH.
Qed.

Lemma normalForest_map_mapElements : forall g d,
  normalForest (map (mapElements g) d) = normalForest d.
Proof.
  intros g d. unfold normalForest. rewrite normalList_map_mapElements. f_equal.
  apply forallb_map_inv. intros n _. apply normalNode_mapElements.
Qed.

Lemma clearHighlights_map_mapElements : forall g d,
  keepsHighlight g ->
  clearHighlights (map (mapElements g) d) = map (mapElements g) (clearHighlights d).
Proof.
  intros g d Hg.
  pose proof (clearNode_mapElements g false (Elem markElement d) Hg) as H.
  cbn [mapElements clearNode] in H. inversion H as [H1]. exact H1.
Qed.

Lemma noHighlights_map_mapElements : forall g d,
  keepsHighlight g -> noHighlights (map (mapElements g) d) = noHighlights d.
Proof.
  intros g d Hg. unfold noHighlights. rewrite elementsOf_mapElements.
  rewrite (existsb_map_inv _ isHighlight (mapElements g))
    by (intro a; apply isHighlight_mapElements, Hg).
  reflexivity.
Qed.

(** ** The page after the listener, cleared *)

(** The text nodes of the document are in normal form once the highlights
    are cleared. *)
Definition settled (p : page) : bool := normalForest (clearHighlights (doc p)).

Lemma doc_highlightAt : forall q r p,
  doc (highlightAt q r p) = update r (highlightText q) (doc p).
Proof. reflexivity. Qed.

Lemma clear_highlightAll : forall q L p,
  settled p = true ->
  clearHighlights (doc (highlightAll q L p)) = clearHighlights (doc p).
Proof.
  intros q L. induction L as [|r L IH]; intros p Hp; [reflexivity|].
  cbn [highlightAll fold_left]. fold (highlightAll q L (highlightAt q r p)).
  assert (Hc : clearHighlights (doc (highlightAt q r p)) = clearHighlights (doc p)).
  { rewrite doc_highlightAt. apply clearHighlights_update. exact Hp. }
  rewrite IH; [exact Hc|]. unfold settled. rewrite Hc. exact Hp.
Qed.

Lemma updateNode_absent : forall r f n,
  existsb (isRef r) (selfAndDescendants n) = false -> updateNode r f n = n.
Proof.
  intros r f n. induction n as [s | e ch IH] using node_tree_ind; intro H; [reflexivity|].
  cbn [selfAndDescendants existsb] in H. apply orb_false_iff in H. destruct H as [H1 H2].
  cbn [updateNode]. rewrite H1. f_equal.
  rewrite <- (map_id ch) at 2. apply map_ext_in. intros c Hc.
  rewrite Forall_forall in IH. apply IH; [exact Hc|].
  destruct (existsb (isRef r) (selfAndDescendants c)) eqn:E; [|reflexivity].
  apply existsb_exists in E. destruct E as [y [Hy Hr]].
  assert (Hex : existsb (isRef r) (flat_map selfAndDescendants ch) = true).
  { apply existsb_exists. exists y. split; [|exact Hr]. apply in_flat_map. eauto. }
  congruence.
Qed.

Lemma update_absent : forall r f d,
  existsb (isRef r) (elementsOf d) = false -> update r f d = d.
Proof.
  intros r f d H. unfold update. rewrite <- (map_id d) at 2. apply map_ext_in.
  intros c Hc. apply updateNode_absent.
  destruct (existsb (isRef r) (selfAndDescendants c)) eqn:E; [|reflexivity].
  apply existsb_exists in E. destruct E as [y [Hy Hr]].
  assert (Hex : existsb (isRef r) (elementsOf d) = true).
  { apply existsb_exists. exists y. split; [|exact Hr]. apply in_flat_map. eauto. }
  congruence.
Qed.

(** Every item of the list is attached to the document. *)
Definition attached (items : list nat) (p : page) : bool :=
  forallb (fun r => negb (existsb (isRef r) (elementsOf (detached p)))) items.

Lemma detached_highlightAll : forall q L p,
  (forall r, In r L -> existsb (isRef r) (elementsOf (detached p)) = false) ->
  detached (highlightAll q L p) = detached p.
Proof.
  intros q L. induction L as [|r L IH]; intros p H; [reflexivity|].
  cbn [highlightAll fold_left]. fold (highlightAll q L (highlightAt q r p)).
  assert (Hd : detached (highlightAt q r p) = detached p).
  { unfold highlightAt, updatePage. cbn [detached]. apply update_absent.
    apply H. left. reflexivity. }
  rewrite IH; [exact Hd|]. intros r' Hr'. rewrite Hd. apply H. right. exact Hr'.
Qed.

(** ** Where the elements of a cleared document come from *)

Lemma clearList_sources : forall b ch x,
  In x (flat_map selfAndDescendants (clearList clearNode b ch)) ->
  exists c b', In c ch /\ In x (selfAndDescendants (clearNode b' c)).
Proof.
  intros b ch x Hx. rewrite clearList_unfold in Hx. cbv zeta in Hx.
  set (b' := b || existsb isHighlight ch) in *.
  assert (Hx' : In x (flat_map selfAndDescendants (map (clearChild b') ch))).
  { destruct b'; [rewrite elements_normalizeList in Hx|]; exact Hx. }
  apply in_flat_map in Hx'. destruct Hx' as [y [Hy Hxy]].
  apply in_map_iff in Hy. destruct Hy as [c [Hcy Hc]]. subst y.
  unfold clearChild in Hxy. destruct (isHighlight c); [contradiction|].
  exists c, b'. split; assumption.
Qed.

Lemma clearNode_sources : forall n b x,
  In x (selfAndDescendants (clearNode b n)) ->
  exists x0 b0, In x0 (selfAndDescendants n) /\ x = clearNode b0 x0.
Proof.
  intro n. induction n as [s | e ch IH] using node_tree_ind; intros b x Hx; [contradiction|].
  cbn [clearNode selfAndDescendants] in Hx. destruct Hx as [Hx | Hx].
  - exists (Elem e ch), b. split; [left; reflexivity | symmetry; exact Hx].
  - destruct (clearList_sources b ch x Hx) as [c [b' [Hc Hxc]]].
    rewrite Forall_forall in IH. destruct (IH c Hc b' x Hxc) as [x0 [b0 [Hx0 Hxe]]].
    exists x0, b0. split; [|exact Hxe].
    cbn [selfAndDescendants]. right. apply in_flat_map. eauto.
Qed.

Lemma clearHighlights_sources : forall d x,
  In x (elementsOf (clearHighlights d)) ->
  exists x0 b0, In x0 (elementsOf d) /\ x = clearNode b0 x0.
Proof.
  intros d x Hx. unfold clearHighlights, elementsOf in Hx.
  destruct (clearList_sources false d x Hx) as [c [b' [Hc Hxc]]].
  destruct (clearNode_sources c b' x Hxc) as [x0 [b0 [Hx0 Hxe]]].
  exists x0, b0. split; [|exact Hxe]. apply in_flat_map. eauto.
Qed.

Lemma elementsOf_app : forall d1 d2, elementsOf (d1 ++ d2) = elementsOf d1 ++ elementsOf d2.
Proof. intros. unfold elementsOf. apply flat_map_app. Qed.

Lemma noItemsAt_clearPage : forall rs p, noItemsAt rs p -> noItemsAt rs (clearPage p).
Proof.
  intros rs p Hno e ch r Hin Hr Hrs. unfold clearPage in Hin. cbn [doc detached] in Hin.
  rewrite elementsOf_app in Hin. apply in_app_or in Hin. destruct Hin as [Hin | Hin].
  - destruct (clearHighlights_sources _ _ Hin) as [x0 [b0 [Hx0 Hxe]]].
    destruct x0 as [t | e0 ch0]; [discriminate|].
    cbn [clearNode] in Hxe. inversion Hxe; subst.
    apply (Hno e0 ch0 r); [|exact Hr | exact Hrs].
    rewrite elementsOf_app. apply in_or_app. left. exact Hx0.
  - apply (Hno e ch r); [|exact Hr | exact Hrs].
    rewrite elementsOf_app. apply in_or_app. right. exact Hin.
Qed.

(** The decidable form of [noItemsAt]. *)
Definition notItems (rs : list nat) (p : page) : bool :=
  forallb (fun x => match x with
                    | Elem e _ =>
                        negb (hasAttribute "data-nav-item" e
                              && match ref e with
                                 | Some r => existsb (Nat.eqb r) rs
                                 | None => false
                                 end)
                    | Text _ => true
                    end)
          (elementsOf (doc p ++ detached p)).

Lemma notItems_noItemsAt : forall rs p, notItems rs p = true -> noItemsAt rs p.
Proof.
  intros rs p H e ch r Hin Hr Hrs. unfold notItems in H.
  rewrite forallb_forall in H. specialize (H _ Hin). cbn beta iota in H.
  rewrite Hr in H.
  assert (E : existsb (Nat.eqb r) rs = true).
  { apply existsb_exists. exists r. split; [exact Hrs | apply Nat.eqb_refl]. }
  rewrite E, andb_true_r in H. apply negb_true_iff in H. exact H.
Qed.

Lemma page_eta : forall p, mkPage (doc p) (detached p) = p.
Proof. intros [d t]. reflexivity. Qed.

Lemma existsb_isRef_map : forall g r l,
  keepsRef g ->
  existsb (isRef r) (elementsOf (map (mapElements g) l)) = existsb (isRef r) (elementsOf l).
Proof.
  intros g r l Hg. rewrite elementsOf_mapElements.
  apply existsb_map_inv. intro a. apply isRef_mapElements. exact Hg.
Qed.

(** Clearing the page the listener leaves gives back the page with its
    classes written and nothing highlighted. *)
Lemma clearPage_highlightAll : forall q L g X,
  flagWrite g ->
  normalForest (doc X) = true -> noHighlights (doc X) = true ->
  (forall r, In r L -> existsb (isRef r) (elementsOf (detached X)) = false) ->
  clearPage (highlightAll q L (mapPage g X)) = mapPage g X.
Proof.
  intros q L g X Hg Hn Hh Hat.
  pose proof (flagWrite_keepsHighlight g Hg) as Hk.
  assert (Hc : clearHighlights (doc (mapPage g X)) = doc (mapPage g X)).
  { apply clearHighlights_none. unfold mapPage. cbn [doc].
    rewrite noHighlights_map_mapElements by exact Hk. exact Hh. }
  unfold clearPage. rewrite clear_highlightAll.
  - rewrite Hc. rewrite detached_highlightAll; [apply page_eta|].
    intros r Hr. unfold mapPage. cbn [detached].
    rewrite existsb_isRef_map by (apply flagWrite_keepsRef; exact Hg).
    apply Hat. exact Hr.
  - unfold settled. rewrite Hc. unfold mapPage. cbn [doc].
    rewrite normalForest_map_mapElements. exact Hn.
Qed.

Lemma attached_In : forall items p r,
  attached items p = true -> In r items ->
  existsb (isRef r) (elementsOf (detached p)) = false.
Proof.
  intros items p r H Hr. unfold attached in H. rewrite forallb_forall in H.
  apply negb_true_iff. apply H. exact Hr.
Qed.

Lemma filter_In_source : forall (A : Type) (f : A -> bool) (l : list A) (a : A),
  In a (filter f l) -> In a l.
Proof. intros A f l a H. apply filter_In in H. tauto. Qed.

(** The listener run twice on the same non-empty query. *)
Lemma onInput_twice : forall inst value p,
  isEmpty (trim (toLowerCase value)) = false ->
  settled p = true ->
  noItemsAt (sections inst ++ [emptyState inst]) p ->
  attached (navItems inst) p = true ->
  onInput inst value (onInput inst value p) = onInput inst value p.
Proof.
  intros inst value p Hq Hs Hno Hat.
  set (q := trim (toLowerCase value)) in *.
  pose proof (noItemsAt_clearPage _ _ Hno) as HnoX.
  set (X := clearPage p) in *.
  pose proof (flagWrite_writes q inst X) as HW.
  assert (HF : flagsOnly q inst X = mapPage (writes q inst X) X).
  { apply flagsOnly_closed. apply noItemsAt_sections. exact HnoX. }
  assert (Hclear : clearPage (onInput inst value p) = flagsOnly q inst X).
  { rewrite (onInput_split inst value p Hq). fold q. fold X. rewrite HF.
    apply clearPage_highlightAll.
    - exact HW.
    - exact Hs.
    - apply noHighlights_clearHighlights.
    - intros r Hr. apply (attached_In (navItems inst) p r Hat).
      eapply filter_In_source. exact Hr. }
  rewrite (onInput_split inst value (onInput inst value p) Hq). fold q.
  rewrite Hclear. rewrite flagsOnly_idempotent by exact HnoX.
  rewrite (onInput_split inst value p Hq). fold q. fold X.
  f_equal. apply filter_ext. intro r. rewrite HF.
  apply isMatch_mapPage. apply flagWrite_keepsRef. exact HW.
Qed.

(** ** Runs of the listener from a page without highlights *)

(** A map over the elements that only touches the class [hidden]. *)
Definition classOnly (g : element -> element) : Prop :=
  keepsHighlight g /\ forall e, classRemove "hidden" (g e) = classRemove "hidden" e.

Lemma classOnly_id : classOnly (fun e => e).
Proof. split; intro e; reflexivity. Qed.

Lemma classOnly_compose : forall g h,
  classOnly g -> classOnly h -> classOnly (fun e => g (h e)).
Proof.
  intros g h [G1 G2] [H1 H2]. split; intro e.
  - rewrite G1. apply H1.
  - rewrite G2. apply H2.
Qed.

Lemma classOnly_atRef : forall r h, hiddenOp h -> classOnly (atRef r h).
Proof.
  intros r h H. split.
  - apply keepsHighlight_atRef, hiddenOp_keepsHighlight, H.
  - intro e. unfold atRef. destruct (hasRef r e); [apply hiddenOp_unhide, H | reflexivity].
Qed.

Lemma classOnly_flagWrite : forall g, flagWrite g -> classOnly g.
Proof.
  intros g H. split; [apply flagWrite_keepsHighlight, H | intro e; apply flagWrite_unhide, H].
Qed.

Lemma fold_classOnly : forall (step : page -> nat -> page),
  (forall p r, exists g, classOnly g /\ step p r = mapPage g p) ->
  forall rs p, exists g, classOnly g /\ fold_left step rs p = mapPage g p.
Proof.
  intros step Hstep rs. induction rs as [|r rs IH]; intro p.
  - exists (fun e => e). split; [apply classOnly_id | symmetry; apply mapPage_id].
  - cbn [fold_left]. destruct (Hstep p r) as [g [Hg Hs]].
    destruct (IH (step p r)) as [g' [Hg' Hf]].
    exists (fun e => g' (g e)). split; [apply classOnly_compose; assumption|].
    rewrite Hf, Hs. apply mapPage_compose.
Qed.

Lemma items_flags_fst : forall q items acc,
  fst (fold_left (itemFlag q) items acc)
  = fold_left (fun s r => updateClasses r (itemOp q s r) s) items (fst acc).
Proof.
  intros q items. induction items as [|r items IH]; intro acc; [reflexivity|].
  cbn [fold_left]. rewrite IH. destruct acc as [s b]. rewrite itemFlag_itemOp. reflexivity.
Qed.

(** Whatever the instance, the writes of the listener only touch the
    class [hidden]. *)
Lemma flagsOnly_classOnly : forall q inst X,
  exists g, classOnly g /\ flagsOnly q inst X = mapPage g X.
Proof.
  intros q inst X. unfold flagsOnly. cbv zeta. rewrite items_flags_fst. cbn [fst].
  destruct (fold_classOnly (fun s r => updateClasses r (itemOp q s r) s)) with
    (rs := navItems inst) (p := X) as [g1 [G1 E1]].
  { intros p r. exists (atRef r (itemOp q p r)). split; [|apply updateClasses_mapPage].
    apply classOnly_atRef, hiddenOp_itemOp. }
  rewrite E1.
  destruct (fold_classOnly sectionStep) with (rs := sections inst) (p := mapPage g1 X)
    as [g2 [G2 E2]].
  { intros p r. exists (atRef r (secOp p r)). split.
    - apply classOnly_atRef, hiddenOp_secOp.
    - rewrite sectionStep_secOp. apply updateClasses_mapPage. }
  rewrite E2, mapPage_compose.
  set (b := snd (fold_left (itemFlag q) (navItems inst) (X, false))).
  exists (fun e => atRef (emptyState inst) (emptyOp b) (g2 (g1 e))). split.
  - apply (classOnly_compose (atRef (emptyState inst) (emptyOp b)) (fun e => g2 (g1 e))).
    + apply classOnly_atRef, hiddenOp_emptyOp.
    + apply classOnly_compose; assumption.
  - destruct b; unfold hide, show, emptyOp;
      rewrite updateClasses_mapPage, mapPage_compose; reflexivity.
Qed.

(** The writes of the listener for the empty query. *)
Definition resetWrites (inst : instance) : element -> element :=
  threeWrites (navItems inst) (sections inst) (emptyState inst)
    (fun _ => classRemove "hidden") (fun _ => classRemove "hidden") (classAdd "hidden").

Lemma hiddenOp_classRemove : hiddenOp (classRemove "hidden").
Proof. unfold hiddenOp. auto. Qed.

Lemma hiddenOp_classAdd : hiddenOp (classAdd "hidden").
Proof. unfold hiddenOp. auto. Qed.

Lemma flagWrite_resetWrites : forall inst, flagWrite (resetWrites inst).
Proof.
  intro inst. apply flagWrite_threeWrites;
    [intro r; apply hiddenOp_classRemove | intro r; apply hiddenOp_classRemove
    | apply hiddenOp_classAdd].
Qed.

Lemma showAll_closed : forall rs p,
  showAll rs p = mapPage (applyTo rs (fun _ => classRemove "hidden")) p.
Proof.
  intros rs p. unfold showAll, show.
  apply (fold_updateClasses_start (fun _ => classRemove "hidden")).
  intro r. apply goodOp_classRemove.
Qed.

(** The listener on the empty query: clear, then unhide. *)
Lemma onInput_empty : forall inst value p,
  isEmpty (trim (toLowerCase value)) = true ->
  onInput inst value p = mapPage (resetWrites inst) (clearPage p).
Proof.
  intros inst value p Hq. unfold onInput. rewrite Hq. fold (clearPage p).
  rewrite !showAll_closed. unfold hide. rewrite updateClasses_mapPage, !mapPage_compose.
  reflexivity.
Qed.

(** The document of [p] with its highlights cleared is the document of
    [p0] up to the class [hidden]. *)
Definition restores (p0 p : page) : Prop :=
  exists g, classOnly g /\ clearHighlights (doc p) = map (mapElements g) (doc p0).

Lemma restores_start : forall p0, noHighlights (doc p0) = true -> restores p0 p0.
Proof.
  intros p0 H. exists (fun e => e). split; [apply classOnly_id|].
  rewrite (clearHighlights_none _ H). rewrite <- (map_id (doc p0)) at 1.
  apply map_ext. intro n. symmetry. apply mapElements_id.
Qed.

Lemma clear_written : forall g g' p0,
  classOnly g -> classOnly g' -> noHighlights (doc p0) = true ->
  clearHighlights (map (mapElements g') (map (mapElements g) (doc p0)))
  = map (mapElements (fun e => g' (g e))) (doc p0).
Proof.
  intros g g' p0 Hg Hg' H0.
  rewrite map_map.
  rewrite (map_ext _ (mapElements (fun e => g' (g e))))
    by (intro n; apply mapElements_compose).
  rewrite clearHighlights_map_mapElements
    by (apply (proj1 (classOnly_compose g' g Hg' Hg))).
  rewrite (clearHighlights_none _ H0). reflexivity.
Qed.

Lemma restores_onInput : forall inst value p0 p,
  normalForest (doc p0) = true -> noHighlights (doc p0) = true ->
  restores p0 p -> restores p0 (onInput inst value p).
Proof.
  intros inst value p0 p Hn H0 [g [Hg Hp]].
  destruct (isEmpty (trim (toLowerCase value))) eqn:Hq.
  - rewrite (onInput_empty inst value p Hq).
    pose proof (classOnly_flagWrite _ (flagWrite_resetWrites inst)) as HW.
    exists (fun e => resetWrites inst (g e)). split; [apply classOnly_compose; assumption|].
    unfold mapPage, clearPage. cbn [doc]. rewrite Hp.
    apply clear_written; assumption.
  - rewrite (onInput_split inst value p Hq).
    set (q := trim (toLowerCase value)).
    destruct (flagsOnly_classOnly q inst (clearPage p)) as [g' [Hg' HF]].
    rewrite HF.
    assert (Hc : clearHighlights (doc (mapPage g' (clearPage p)))
                 = map (mapElements (fun e => g' (g e))) (doc p0)).
    { unfold mapPage, clearPage. cbn [doc]. rewrite Hp. apply clear_written; assumption. }
    exists (fun e => g' (g e)). split; [apply classOnly_compose; assumption|].
    rewrite clear_highlightAll; [exact Hc|].
    unfold settled. rewrite Hc, normalForest_map_mapElements. exact Hn.
Qed.

(** A run of input events, each for some instance. *)
Definition runInputs (events : list (instance * string)) (p : page) : page :=
  fold_left (fun s ev => onInput (fst ev) (snd ev) s) events p.

Lemma restores_run : forall events p0 p,
  normalForest (doc p0) = true -> noHighlights (doc p0) = true ->
  restores p0 p -> restores p0 (runInputs events p).
Proof.
  intros events p0. induction events as [|[inst v] events IH]; intros p Hn H0 Hp; [exact Hp|].
  cbn [runInputs fold_left fst snd]. apply IH; [exact Hn | exact H0|].
  apply restores_onInput; assumption.
Qed.

(** The element carries the class [hidden]. *)
Definition isHidden (n : node) : bool :=
  match n with
  | Elem e _ => hasClass "hidden" e
  | Text _ => false
  end.

Lemma hasClass_classRemove : forall c e, hasClass c (classRemove c e) = false.
Proof.
  intros c e. unfold hasClass, classRemove, withClassList. cbn [classList].
  induction (classList e) as [|x l IH]; [reflexivity|].
  cbn [filter]. destruct (String.eqb c x) eqn:E; cbn [negb]; [exact IH|].
  cbn [existsb]. rewrite E, IH. reflexivity.
Qed.

Lemma hasClass_classAdd : forall c e, hasClass c (classAdd c e) = true.
Proof.
  intros c e. unfold classAdd. destruct (hasClass c e) eqn:E; [exact E|].
  unfold hasClass, withClassList. cbn [classList]. rewrite existsb_app. cbn [existsb].
  rewrite String.eqb_refl, orb_true_r. reflexivity.
Qed.

Lemma noHighlights_query : forall d,
  noHighlights d = true -> docQuerySelectorAll highlightSel d = [].
Proof.
  intros d H. unfold noHighlights in H. apply negb_true_iff in H.
  unfold docQuerySelectorAll.
  assert (Hall : forall x, In x (elementsOf d) -> matches highlightSel x = false).
  { intros x Hx. destruct (matches highlightSel x) eqn:E; [|reflexivity].
    assert (Hex : existsb isHighlight (elementsOf d) = true).
    { apply existsb_exists. exists x. split; [exact Hx | exact E]. }
    congruence. }
  clear H. induction (elementsOf d) as [|a l IH]; [reflexivity|].
  cbn [filter]. rewrite (Hall a (or_introl eq_refl)). apply IH.
  intros x Hx. apply Hall. right. exact Hx.
Qed.

(** What a handle denotes after a map over the elements. *)
Lemma lookup_mapPage_some : forall g r p x,
  keepsRef g -> lookup r (mapPage g p) = Some x ->
  exists e ch, lookup r p = Some (Elem e ch) /\ ref e = Some r
               /\ x = Elem (g e) (map (mapElements g) ch).
Proof.
  intros g r p x Hg H. rewrite lookup_mapPage in H by exact Hg.
  destruct (lookup r p) as [x0|] eqn:E; [|discriminate].
  cbn [option_map] in H. inversion H; subst x.
  unfold lookup in E. destruct (getElem_some _ _ _ E) as [Hin Hr].
  destruct (elementsOf_elements _ _ Hin) as [e [ch Hx0]]. subst x0.
  exists e, ch. repeat split. exact Hr.
Qed.

Lemma resetWrites_shown : forall inst e r,
  ref e = Some r -> In r (navItems inst ++ sections inst) -> r <> emptyState inst ->
  hasClass "hidden" (resetWrites inst e) = false.
Proof.
  intros inst e r Hr Hin Hne. unfold resetWrites, threeWrites.
  set (o := fun _ : nat => classRemove "hidden").
  assert (Ho : forall r0, keepsRef (o r0)) by (intro r0; apply keepsRef_classRemove).
  pose proof (keepsRef_applyTo (navItems inst) o Ho e) as H1.
  pose proof (keepsRef_applyTo (sections inst) o Ho (applyTo (navItems inst) o e)) as H2.
  rewrite atRef_outside by (rewrite H2, H1, Hr; congruence).
  destruct (in_dec Nat.eq_dec r (sections inst)) as [Hs | Hs].
  - rewrite (applyTo_inside (sections inst) o _ r) by (rewrite ?H1; assumption).
    apply hasClass_classRemove.
  - rewrite (applyTo_outside (sections inst) o _ r) by (rewrite ?H1; assumption).
    apply in_app_or in Hin. destruct Hin as [Hi | Hi]; [|contradiction].
    rewrite (applyTo_inside (navItems inst) o e r Hr Hi). apply hasClass_classRemove.
Qed.

Lemma resetWrites_hidden : forall inst e,
  ref e = Some (emptyState inst) -> hasClass "hidden" (resetWrites inst e) = true.
Proof.
  intros inst e Hr. unfold resetWrites, threeWrites.
  set (o := fun _ : nat => classRemove "hidden").
  assert (Ho : forall r0, keepsRef (o r0)) by (intro r0; apply keepsRef_classRemove).
  pose proof (keepsRef_applyTo (navItems inst) o Ho e) as H1.
  pose proof (keepsRef_applyTo (sections inst) o Ho (applyTo (navItems inst) o e)) as H2.
  unfold atRef, hasRef. rewrite H2, H1, Hr, Nat.eqb_refl. apply hasClass_classAdd.
Qed.

Lemma restores_unhide : forall p0 p,
  restores p0 p ->
  map (mapElements (classRemove "hidden")) (clearHighlights (doc p))
  = map (mapElements (classRemove "hidden")) (doc p0).
Proof.
  intros p0 p [g [[_ Hg] Hp]]. rewrite Hp, map_map. apply map_ext. intro n.
  rewrite mapElements_compose. apply mapElements_ext. exact Hg.
Qed.

(** ** Items none of whose text nodes holds the query *)

(** The text nodes below a node, in document order: what the tree walker
    of [highlightText] visits. *)
Fixpoint textNodes (n : node) : list string :=
  match n with
  | Text s => [s]
  | Elem _ ch => flat_map textNodes ch
  end.

(** No text node below [n] contains the query. *)
Definition quiet (q : string) (n : node) : bool :=
  forallb (fun t => negb (includes q (toLowerCase t))) (textNodes n).

Lemma forallb_flat_map : forall (A B : Type) (f : B -> bool) (g : A -> list B) (l : list A),
  forallb f (flat_map g l) = forallb (fun a => forallb f (g a)) l.
Proof.
  intros A B f g l. induction l as [|a l IH]; simpl; [reflexivity|].
  rewrite forallb_app, IH. reflexivity.
Qed.

Lemma quiet_children : forall q e ch c,
  quiet q (Elem e ch) = true -> In c ch -> quiet q c = true.
Proof.
  intros q e ch c H Hc. unfold quiet in H. cbn [textNodes] in H.
  rewrite forallb_flat_map in H. rewrite forallb_forall in H. apply (H c Hc).
Qed.

Lemma highlightNode_quiet : forall q n, quiet q n = true -> highlightNode q n = [n].
Proof.
  intros q n. induction n as [t | e ch IH] using node_tree_ind; intro H.
  - unfold quiet in H. cbn [textNodes forallb] in H. rewrite andb_true_r in H.
    apply negb_true_iff in H. cbn [highlightNode]. unfold highlightTextNode.
    rewrite H. reflexivity.
  - rewrite highlightNode_Elem. cbn [highlightText]. do 2 f_equal.
    assert (Hall : forall c, In c ch -> highlightNode q c = [c]).
    { intros c Hc. rewrite Forall_forall in IH. apply IH; [exact Hc|].
      eapply quiet_children; eauto. }
    clear IH H. induction ch as [|c ch IHch]; [reflexivity|].
    cbn [flat_map]. rewrite (Hall c (or_introl eq_refl)). cbn [app]. f_equal.
    apply IHch. intros c' Hc'. apply Hall. right. exact Hc'.
Qed.

Lemma highlightText_quiet : forall q n, quiet q n = true -> highlightText q n = n.
Proof.
  intros q [t | e ch] H; [reflexivity|].
  pose proof (highlightNode_quiet q (Elem e ch) H) as E.
  rewrite highlightNode_Elem in E. inversion E as [E']. cbn [highlightText].
  rewrite E'. rewrite E'. reflexivity.
Qed.

Lemma updateNode_quiet : forall q r n,
  quiet q n = true -> updateNode r (highlightText q) n = n.
Proof.
  intros q r n. induction n as [t | e ch IH] using node_tree_ind; intro H; [reflexivity|].
  cbn [updateNode]. destruct (isRef r (Elem e ch)); [apply highlightText_quiet; exact H|].
  f_equal. rewrite <- (map_id ch) at 2. apply map_ext_in. intros c Hc.
  rewrite Forall_forall in IH. apply IH; [exact Hc|]. eapply quiet_children; eauto.
Qed.

Lemma via_quiet : forall q r x y, quiet q x = true -> via q r x y -> y = x.
Proof.
  intros q r x y H [E | E]; subst y; [apply highlightText_quiet | apply updateNode_quiet];
    exact H.
Qed.

Lemma lookup_highlightAll_quiet : forall q L r p x,
  lookup r p = Some x -> quiet q x = true -> lookup r (highlightAll q L p) = Some x.
Proof.
  intros q L. induction L as [|r' L IH]; intros r p x Hx Hq; [exact Hx|].
  cbn [highlightAll fold_left]. fold (highlightAll q L (highlightAt q r' p)).
  apply IH; [|exact Hq].
  pose proof (lookup_highlightAt q r' r p) as H. rewrite Hx in H.
  inversion H as [|x' y Hv E1 E2]; subst. f_equal. eapply via_quiet; eauto.
Qed.

Lemma textNodes_mapElements : forall g n, textNodes (mapElements g n) = textNodes n.
Proof.
  intros g n. induction n as [t | e ch IH] using node_tree_ind; [reflexivity|].
  cbn [mapElements textNodes]. rewrite flat_map_of_map.
  apply VisibleItemsFacts.flat_map_ext_in. rewrite Forall_forall in IH. exact IH.
Qed.

Lemma quiet_mapElements : forall q g n, quiet q (mapElements g n) = quiet q n.
Proof. intros q g n. unfold quiet. rewrite textNodes_mapElements. reflexivity. Qed.

Lemma lookup_in_doc : forall r p x, getElem r (doc p) = Some x -> lookup r p = Some x.
Proof.
  intros r p x H. unfold lookup, getElem in *. rewrite elementsOf_app, find_app_split, H.
  reflexivity.
Qed.

Lemma no_highlight_below : forall d x,
  noHighlights d = true -> In x (elementsOf d) -> querySelectorAll highlightSel x = [].
Proof.
  intros d x H Hx. unfold noHighlights in H. apply negb_true_iff in H.
  unfold querySelectorAll.
  assert (Hall : forall y, In y (descendants x) -> matches highlightSel y = false).
  { intros y Hy. destruct (matches highlightSel y) eqn:E; [|reflexivity].
    assert (Hex : existsb isHighlight (elementsOf d) = true).
    { apply existsb_exists. exists y. split; [|exact E].
      eapply elementsOf_descendants; eauto. }
    congruence. }
  clear H Hx. induction (descendants x) as [|a l IH]; [reflexivity|].
  cbn [filter]. rewrite (Hall a (or_introl eq_refl)). apply IH.
  intros y Hy. apply Hall. right. exact Hy.
Qed.

(** The item [r] of the cleared page [X], a nav item, after the writes
    of the listener. *)
Lemma writes_on_item : forall q inst X r e ch,
  noItemsAt (sections inst ++ [emptyState inst]) X ->
  In r (navItems inst) ->
  lookup r X = Some (Elem e ch) ->
  hasAttribute "data-nav-item" e = true ->
  writes q inst X e
  = if includes q (toLowerCase (textContent (Elem e ch)))
    then classRemove "hidden" e else classAdd "hidden" e.
Proof.
  intros q inst X r e ch Hno Hr Hl Hnav.
  destruct (getElem_some _ _ _ Hl) as [Hin Href]. cbn [refOf] in Href.
  unfold writes.
  rewrite (threeWrites_on_item inst X (itemOp q X) _ _ e ch Hno
             (fun r0 => hiddenOp_itemOp q X r0) Hin Hnav).
  rewrite (applyTo_inside _ _ e r Href Hr). unfold itemOp. rewrite Hl.
  destruct (includes q (toLowerCase (textContent (Elem e ch)))); reflexivity.
Qed.

(** An item whose text content holds the query while none of its text
    nodes does: shown, and left as it was. *)
Lemma onInput_quiet_item : forall inst value p r item,
  let q := trim (toLowerCase value) in
  isEmpty q = false ->
  noItemsAt (sections inst ++ [emptyState inst]) p ->
  In r (navItems inst) ->
  getElem r (doc (clearPage p)) = Some item ->
  matches navItemSel item = true ->
  includes q (toLowerCase (textContent item)) = true ->
  quiet q item = true ->
  exists item',
    lookup r (onInput inst value p) = Some item'
    /\ isHidden item' = false
    /\ querySelectorAll highlightSel item' = []
    /\ textNodes item' = textNodes item.
Proof.
  intros inst value p r item q Hq Hno Hr Hg Hnav Hinc Hquiet.
  pose proof (noItemsAt_clearPage _ _ Hno) as HnoX.
  set (X := clearPage p) in *.
  pose proof (flagWrite_writes q inst X) as HW.
  pose proof (lookup_in_doc r X item Hg) as Hl.
  destruct (getElem_some _ _ _ Hg) as [Hin Href].
  destruct item as [t | e ch]; [discriminate|].
  exists (mapElements (writes q inst X) (Elem e ch)).
  rewrite (onInput_split inst value p Hq). fold q. fold X.
  rewrite (flagsOnly_closed q inst X (noItemsAt_sections inst X HnoX)).
  repeat split.
  - apply lookup_highlightAll_quiet; [|rewrite quiet_mapElements; exact Hquiet].
    rewrite lookup_mapPage by (apply flagWrite_keepsRef; exact HW).
    rewrite Hl. reflexivity.
  - cbn [mapElements isHidden].
    rewrite (writes_on_item q inst X r e ch HnoX Hr Hl Hnav), Hinc.
    apply hasClass_classRemove.
  - apply (no_highlight_below (map (mapElements (writes q inst X)) (doc X))).
    + rewrite noHighlights_map_mapElements by (apply flagWrite_keepsHighlight; exact HW).
      apply noHighlights_clearHighlights.
    + rewrite elementsOf_mapElements. apply in_map. exact Hin.
  - apply textNodes_mapElements.
Qed.

(** ** Highlighting several items that do not contain one another *)

(** The element has one of the handles of [M]. *)
Definition inList (M : list nat) (n : node) : bool :=
  match refOf n with
  | Some r => existsb (Nat.eqb r) M
  | None => false
  end.





Lemma find_none_existsb : forall (A : Type) (f : A -> bool) (l : list A),
  existsb f l = false -> find f l = None.
Proof.
  intros A f l H. apply find_none_all. intros x Hx.
  destruct (f x) eqn:E; [|reflexivity].
  assert (Hex : existsb f l = true) by (apply existsb_exists; eauto). congruence.
Qed.

Lemma existsb_find_none : forall (A : Type) (f : A -> bool) (l : list A),
  find f l = None -> existsb f l = false.
Proof.
  intros A f l H. destruct (existsb f l) eqn:E; [|reflexivity].
  apply existsb_exists in E. destruct E as [x [Hx Hf]].
  pose proof (find_none _ _ H x Hx). congruence.
Qed.



Lemma inList_highlightText : forall q M n, inList M (highlightText q n) = inList M n.
Proof. intros q M [t | e ch]; reflexivity. Qed.






















(** ** What the listener leaves for a non-empty query *)


Lemma existsb_eqb_In : forall l r, In r l -> existsb (Nat.eqb r) l = true.
Proof.
  intros l r H. apply existsb_exists. exists r. split; [exact H | apply Nat.eqb_refl].
Qed.




Lemma elementOf_some : forall n e, elementOf n = Some e -> exists ch, n = Elem e ch.
Proof. intros [t | e' ch] e H; [discriminate|]. inversion H; subst. eauto. Qed.





Lemma textContent_unhide : forall x y,
  mapElements (classRemove "hidden") x = mapElements (classRemove "hidden") y ->
  textContent x = textContent y.
Proof.
  intros x y H.
  rewrite <- (textContent_mapElements (classRemove "hidden") x), H.
  apply textContent_mapElements.
Qed.

(** ** The conditions on the page are kept by the listener *)

Lemma classOnly_keepsRef : forall g, classOnly g -> keepsRef g.
Proof.
  intros g [_ H] e. pose proof (f_equal ref (H e)) as E. exact E.
Qed.

Lemma classOnly_attributes : forall g e, classOnly g -> attributes (g e) = attributes e.
Proof.
  intros g e [_ H]. pose proof (f_equal attributes (H e)) as E. exact E.
Qed.

(** The listener as a map over the elements followed by highlighting. *)
Lemma onInput_shape : forall inst value p,
  exists g L, classOnly g
              /\ onInput inst value p
                 = highlightAll (trim (toLowerCase value)) L (mapPage g (clearPage p)).
Proof.
  intros inst value p. destruct (isEmpty (trim (toLowerCase value))) eqn:Hq.
  - exists (resetWrites inst), []. split.
    + apply classOnly_flagWrite, flagWrite_resetWrites.
    + apply onInput_empty. exact Hq.
  - destruct (flagsOnly_classOnly (trim (toLowerCase value)) inst (clearPage p))
      as [g [Hg HF]].
    exists g, (filter (isMatch (trim (toLowerCase value)) (clearPage p)) (navItems inst)).
    split; [exact Hg|]. rewrite (onInput_split inst value p Hq), HF. reflexivity.
Qed.

Lemma settled_onInput : forall inst value p,
  settled p = true -> settled (onInput inst value p) = true.
Proof.
  intros inst value p Hs. destruct (onInput_shape inst value p) as [g [L [Hg E]]].
  rewrite E.
  assert (Hc : clearHighlights (doc (mapPage g (clearPage p)))
               = map (mapElements g) (clearHighlights (doc p))).
  { unfold mapPage, clearPage. cbn [doc].
    rewrite clearHighlights_map_mapElements by (apply (proj1 Hg)).
    rewrite clearHighlights_idempotent. reflexivity. }
  assert (Hs' : settled (mapPage g (clearPage p)) = true).
  { unfold settled. rewrite Hc, normalForest_map_mapElements. exact Hs. }
  unfold settled. rewrite (clear_highlightAll _ L _ Hs'). exact Hs'.
Qed.

Lemma settled_start : forall p,
  noHighlights (doc p) = true -> normalForest (doc p) = true -> settled p = true.
Proof.
  intros p H0 Hn. unfold settled. rewrite (clearHighlights_none _ H0). exact Hn.
Qed.

Lemma settled_run : forall events p,
  settled p = true -> settled (runInputs events p) = true.
Proof.
  intros events. induction events as [|[inst v] events IH]; intros p Hs; [exact Hs|].
  cbn [runInputs fold_left fst snd]. apply IH. apply settled_onInput. exact Hs.
Qed.

Lemma highlightNode_sources : forall q n x,
  In x (flat_map selfAndDescendants (highlightNode q n)) ->
  (exists m, x = markNode m)
  \/ exists x0, In x0 (selfAndDescendants n) /\ x = highlightText q x0.
Proof.
  intros q n. induction n as [t | e ch IH] using node_tree_ind; intros x Hx.
  - left. eapply elements_highlightTextNode. exact Hx.
  - rewrite highlightNode_Elem in Hx. cbn [flat_map] in Hx. rewrite app_nil_r in Hx.
    cbn [highlightText selfAndDescendants] in Hx. destruct Hx as [Hx | Hx].
    + right. exists (Elem e ch). split; [left; reflexivity | symmetry; exact Hx].
    + rewrite flat_map_flat_map in Hx. apply in_flat_map in Hx.
      destruct Hx as [c [Hc Hx]]. rewrite Forall_forall in IH.
      destruct (IH c Hc x Hx) as [Hm | [x0 [Hx0 Hxe]]]; [left; exact Hm|].
      right. exists x0. split; [|exact Hxe].
      cbn [selfAndDescendants]. right. apply in_flat_map. eauto.
Qed.

Lemma updateNode_sources : forall q r n x,
  In x (selfAndDescendants (updateNode r (highlightText q) n)) ->
  (exists m, x = markNode m)
  \/ exists x0, In x0 (selfAndDescendants n) /\ elementOf x = elementOf x0.
Proof.
  intros q r n. induction n as [t | e ch IH] using node_tree_ind; intros x Hx;
    [contradiction|].
  cbn [updateNode] in Hx. destruct (isRef r (Elem e ch)).
  - assert (Hx' : In x (flat_map selfAndDescendants (highlightNode q (Elem e ch)))).
    { rewrite highlightNode_Elem. cbn [flat_map]. rewrite app_nil_r. exact Hx. }
    destruct (highlightNode_sources q _ x Hx') as [Hm | [x0 [Hx0 Hxe]]]; [left; exact Hm|].
    right. exists x0. split; [exact Hx0|]. subst x. apply elementOf_highlightText.
  - cbn [selfAndDescendants] in Hx. destruct Hx as [Hx | Hx].
    + right. exists (Elem e ch). split; [left; reflexivity|]. subst x. reflexivity.
    + rewrite flat_map_of_map in Hx. apply in_flat_map in Hx.
      destruct Hx as [c [Hc Hx]]. rewrite Forall_forall in IH.
      destruct (IH c Hc x Hx) as [Hm | [x0 [Hx0 Hxe]]]; [left; exact Hm|].
      right. exists x0. split; [|exact Hxe].
      cbn [selfAndDescendants]. right. apply in_flat_map. eauto.
Qed.

Lemma update_sources : forall q r d x,
  In x (elementsOf (update r (highlightText q) d)) ->
  (exists m, x = markNode m)
  \/ exists x0, In x0 (elementsOf d) /\ elementOf x = elementOf x0.
Proof.
  intros q r d x Hx. unfold update, elementsOf in Hx. rewrite flat_map_of_map in Hx.
  apply in_flat_map in Hx. destruct Hx as [n [Hn Hx]].
  destruct (updateNode_sources q r n x Hx) as [Hm | [x0 [Hx0 Hxe]]]; [left; exact Hm|].
  right. exists x0. split; [|exact Hxe]. apply in_flat_map. eauto.
Qed.

Lemma noItemsAt_highlightAt : forall q b rs p,
  noItemsAt rs p -> noItemsAt rs (highlightAt q b p).
Proof.
  intros q b rs p Hno e ch r Hin Hr Hrs.
  unfold highlightAt, updatePage in Hin. cbn [doc detached] in Hin.
  rewrite <- update_app in Hin.
  destruct (update_sources q b _ _ Hin) as [[m Hm] | [x0 [Hx0 Hxe]]].
  - unfold markNode in Hm. inversion Hm; subst. discriminate.
  - cbn [elementOf] in Hxe. symmetry in Hxe.
    destruct (elementOf_some _ _ Hxe) as [ch0 Hx0e]. subst x0.
    apply (Hno e ch0 r Hx0 Hr Hrs).
Qed.

Lemma noItemsAt_highlightAll : forall q L rs p,
  noItemsAt rs p -> noItemsAt rs (highlightAll q L p).
Proof.
  intros q L rs. induction L as [|b L IH]; intros p H; [exact H|].
  cbn [highlightAll fold_left]. fold (highlightAll q L (highlightAt q b p)).
  apply IH. apply noItemsAt_highlightAt. exact H.
Qed.

(** Whatever instance an input event is for, no element becomes a nav
    item or stops being one. *)
Lemma noItemsAt_onInput : forall inst value rs p,
  noItemsAt rs p -> noItemsAt rs (onInput inst value p).
Proof.
  intros inst value rs p H. destruct (onInput_shape inst value p) as [g [L [Hg E]]].
  rewrite E. apply noItemsAt_highlightAll. apply noItemsAt_mapPage.
  - apply classOnly_keepsRef. exact Hg.
  - intro e. apply classOnly_attributes. exact Hg.
  - apply noItemsAt_clearPage. exact H.
Qed.

Lemma existsb_isRef_update : forall q b r d,
  existsb (isRef r) (elementsOf (update b (highlightText q) d))
  = existsb (isRef r) (elementsOf d).
Proof.
  intros q b r d. pose proof (getElem_update q b r d) as H. unfold getElem in H.
  inversion H as [E1 E2 | x y _ E1 E2].
  - symmetry in E1, E2.
    rewrite (existsb_find_none _ _ _ E1), (existsb_find_none _ _ _ E2). reflexivity.
  - symmetry in E1, E2.
    apply find_some in E1. apply find_some in E2.
    assert (H1 : existsb (isRef r) (elementsOf d) = true)
      by (apply existsb_exists; exists x; exact E1).
    assert (H2 : existsb (isRef r) (elementsOf (update b (highlightText q) d)) = true)
      by (apply existsb_exists; exists y; exact E2).
    rewrite H1, H2. reflexivity.
Qed.

Lemma attached_onInput : forall inst value items p,
  attached items p = true -> attached items (onInput inst value p) = true.
Proof.
  intros inst value items p H. destruct (onInput_shape inst value p) as [g [L [Hg E]]].
  rewrite E. unfold attached in *. rewrite forallb_forall in *. intros r Hr.
  specialize (H r Hr).
  assert (Hd : forall L' s,
             existsb (isRef r) (elementsOf (detached (highlightAll (trim (toLowerCase value)) L' s)))
             = existsb (isRef r) (elementsOf (detached s))).
  { intro L'. induction L' as [|b L' IH]; intro s; [reflexivity|].
    cbn [highlightAll fold_left].
    fold (highlightAll (trim (toLowerCase value)) L' (highlightAt (trim (toLowerCase value)) b s)).
    rewrite IH. unfold highlightAt, updatePage. cbn [detached].
    apply existsb_isRef_update. }
  rewrite Hd. unfold mapPage, clearPage. cbn [detached].
  rewrite existsb_isRef_map by (apply classOnly_keepsRef; exact Hg). exact H.
Qed.

Lemma noItemsAt_run : forall events rs p,
  noItemsAt rs p -> noItemsAt rs (runInputs events p).
Proof.
  intros events rs. induction events as [|[inst v] events IH]; intros p H; [exact H|].
  cbn [runInputs fold_left fst snd]. apply IH. apply noItemsAt_onInput. exact H.
Qed.

Lemma attached_run : forall events items p,
  attached items p = true -> attached items (runInputs events p) = true.
Proof.
  intros events items. induction events as [|[inst v] events IH]; intros p H; [exact H|].
  cbn [runInputs fold_left fst snd]. apply IH. apply attached_onInput. exact H.
Qed.

(** The conditions under which the listener is idempotent hold after
    every run of input events once they hold at the start. *)
Lemma onInput_twice_after_run : forall events inst value p0,
  isEmpty (trim (toLowerCase value)) = false ->
  settled p0 = true ->
  noItemsAt (sections inst ++ [emptyState inst]) p0 ->
  attached (navItems inst) p0 = true ->
  onInput inst value (onInput inst value (runInputs events p0))
  = onInput inst value (runInputs events p0).
Proof.
  intros events inst value p0 Hq Hs Hno Hat. apply onInput_twice.
  - exact Hq.
  - apply settled_run. exact Hs.
  - apply noItemsAt_run. exact Hno.
  - apply attached_run. exact Hat.
Qed.


(** ** The text of the document *)

(** The text of the whole document, in order. *)
Definition docText (d : forest) : string := joinAll (map textContent d).

Lemma docText_clearHighlights : forall d, docText (clearHighlights d) = docText d.
Proof.
  intro d. apply (textContent_clearNode false (Elem markElement d)).
Qed.

Lemma docText_update : forall q r d, docText (update r (highlightText q) d) = docText d.
Proof.
  intros q r d. unfold docText, update. rewrite map_map. f_equal.
  apply map_ext. intro n. apply textContent_updateNode.
Qed.

Lemma docText_map_mapElements : forall g d, docText (map (mapElements g) d) = docText d.
Proof.
  intros g d. unfold docText. rewrite map_map. f_equal.
  apply map_ext. intro n. apply textContent_mapElements.
Qed.

Lemma docText_highlightAll : forall q L p,
  docText (doc (highlightAll q L p)) = docText (doc p).
Proof.
  intros q L. induction L as [|r L IH]; intro p; [reflexivity|].
  cbn [highlightAll fold_left]. fold (highlightAll q L (highlightAt q r p)).
  rewrite IH. apply docText_update.
Qed.

Lemma docText_onInput : forall inst value p,
  docText (doc (onInput inst value p)) = docText (doc p).
Proof.
  intros inst value p. destruct (onInput_shape inst value p) as [g [L [_ E]]].
  rewrite E, docText_highlightAll. unfold mapPage, clearPage. cbn [doc].
  rewrite docText_map_mapElements. apply docText_clearHighlights.
Qed.

Lemma docText_run : forall events p, docText (doc (runInputs events p)) = docText (doc p).
Proof.
  intros events. induction events as [|[inst v] events IH]; intro p; [reflexivity|].
  cbn [runInputs fold_left fst snd].
  change (docText (doc (runInputs events (onInput inst v p))) = docText (doc p)).
  rewrite IH. apply docText_onInput.
Qed.

End SearchFacts.

(* ================================================================== *)
(** * The search listener: round trip and idempotence *)
(* ================================================================== *)

Module SearchClaims.
Import JsString Dom Search DomFacts SearchFacts.

(** C4.  Run any sequence of input events on a page (each for any
    instance), and then an input event of the instance [inst] whose value
    trims to the empty string.  Then every nav item and every section of
    [inst] is without the class [hidden], the empty-state element of
    [inst] has it, no element of the document matches
    [.search-highlight], and the text of the document is the text it had
    at the start.  When the document at the start has no highlight and its
    text nodes are in normal form, the document at the end is the one of
    the start up to the class [hidden]: the same elements and the same
    text nodes in the same places.  The empty-state element is neither a
    nav item nor a section of the instance, as [initSearch] creates it. *)
Theorem empty_query_round_trip :
  forall (events : list (instance * string)) (inst : instance) (value : string) (p0 : page),
    isEmpty (trim (toLowerCase value)) = true ->
    existsb (Nat.eqb (emptyState inst)) (navItems inst ++ sections inst) = false ->
    let p' := onInput inst value (runInputs events p0) in
    (forall r x, In r (navItems inst ++ sections inst) ->
                 lookup r p' = Some x -> isHidden x = false)
    /\ (forall x, lookup (emptyState inst) p' = Some x -> isHidden x = true)
    /\ docQuerySelectorAll highlightSel (doc p') = []
    /\ docText (doc p') = docText (doc p0)
    /\ (noHighlights (doc p0) = true -> normalForest (doc p0) = true ->
        map (mapElements (classRemove "hidden")) (doc p')
        = map (mapElements (classRemove "hidden")) (doc p0)).
Proof.
  intros events inst value p0 Hq Hes p'.
  set (p := runInputs events p0) in *.
  assert (Hp' : p' = mapPage (resetWrites inst) (clearPage p)).
  { apply onInput_empty. exact Hq. }
  pose proof (flagWrite_resetWrites inst) as HW.
  pose proof (flagWrite_keepsRef _ HW) as HWr.
  split; [|split; [|split; [|split]]].
  - intros r x Hr Hx. rewrite Hp' in Hx.
    destruct (lookup_mapPage_some _ _ _ _ HWr Hx) as [e [ch [_ [He Hxe]]]]. subst x.
    cbn [isHidden]. apply (resetWrites_shown inst e r He Hr).
    intro Heq. subst r. rewrite (existsb_eqb_In _ _ Hr) in Hes. discriminate.
  - intros x Hx. rewrite Hp' in Hx.
    destruct (lookup_mapPage_some _ _ _ _ HWr Hx) as [e [ch [_ [He Hxe]]]]. subst x.
    cbn [isHidden]. apply resetWrites_hidden. exact He.
  - rewrite Hp'. apply noHighlights_query. unfold mapPage, clearPage. cbn [doc].
    rewrite noHighlights_map_mapElements by (apply flagWrite_keepsHighlight; exact HW).
    apply noHighlights_clearHighlights.
  - unfold p'. rewrite docText_onInput. apply docText_run.
  - intros H0 Hn.
    pose proof (restores_run events p0 p0 Hn H0 (restores_start p0 H0)) as Hrun.
    fold p in Hrun. rewrite Hp'. unfold mapPage, clearPage. cbn [doc].
    rewrite <- (restores_unhide p0 p Hrun). rewrite map_map. apply map_ext. intro n.
    rewrite mapElements_compose. apply mapElements_ext. intro e.
    apply flagWrite_unhide. exact HW.
Qed.

Lemma empty_query_round_trip_witness :
  let p' := onInput Examples.searchInstance ""
              (runInputs [(Examples.searchInstance, " Setup"); (Examples.searchInstance, "zzz")]
                 Examples.searchPage) in
  (forall r x, In r (navItems Examples.searchInstance ++ sections Examples.searchInstance) ->
               lookup r p' = Some x -> isHidden x = false)
  /\ (forall x, lookup (emptyState Examples.searchInstance) p' = Some x -> isHidden x = true)
  /\ docQuerySelectorAll highlightSel (doc p') = []
  /\ docText (doc p') = docText (doc Examples.searchPage)
  /\ map (mapElements (classRemove "hidden")) (doc p')
     = map (mapElements (classRemove "hidden")) (doc Examples.searchPage).
Proof.
  intro p'.
  destruct (empty_query_round_trip
              [(Examples.searchInstance, " Setup"); (Examples.searchInstance, "zzz")]
              Examples.searchInstance "" Examples.searchPage)
    as [H1 [H2 [H3 [H4 H5]]]]; try (vm_compute; reflexivity).
  split; [exact H1 | split; [exact H2 | split; [exact H3 | split; [exact H4|]]]].
  apply H5; vm_compute; reflexivity.
Defined.





(** C10.  A nav item of the instance, in the document once the old
    highlights are cleared, whose lower-cased text content contains the
    non-empty query [q] while none of its text nodes does: after the
    listener it is without the class [hidden], no element below it matches
    [.search-highlight], and its text nodes are the ones it had.  The
    sections and the empty state of the instance are taken not to be nav
    items. *)
Theorem match_across_text_nodes :
  forall (inst : instance) (value : string) (p : page) (r : nat) (item : node),
    let q := trim (toLowerCase value) in
    isEmpty q = false ->
    notItems (sections inst ++ [emptyState inst]) p = true ->
    In r (navItems inst) ->
    getElem r (doc (clearPage p)) = Some item ->
    matches navItemSel item = true ->
    includes q (toLowerCase (textContent item)) = true ->
    quiet q item = true ->
    exists item',
      lookup r (onInput inst value p) = Some item'
      /\ isHidden item' = false
      /\ querySelectorAll highlightSel item' = []
      /\ textNodes item' = textNodes item.
Proof.
  intros inst value p r item q Hq Hno Hr Hg Hnav Hinc Hquiet.
  apply (onInput_quiet_item inst value p r item Hq (notItems_noItemsAt _ _ Hno)
           Hr Hg Hnav Hinc Hquiet).
Qed.

Lemma match_across_text_nodes_witness :
  exists item',
    lookup 8 (onInput Examples.twoNodeInstance "setup" Examples.twoNodePage) = Some item'
    /\ isHidden item' = false
    /\ querySelectorAll highlightSel item' = []
    /\ textNodes item' = ["Set"; "up"].
Proof.
  apply (match_across_text_nodes Examples.twoNodeInstance "setup" Examples.twoNodePage 8
           (Examples.el 8 "a" ["nav-item"] [("data-nav-item", "")]
              [Text "Set"; Examples.el 9 "b" [] [] [Text "up"]]));
    try (vm_compute; reflexivity).
  vm_compute. tauto.
Defined.

End SearchClaims.

(* ================================================================== *)
(** * The search: what the listener and the highlighting keep *)
(* ================================================================== *)

Module SearchProperties.
Import JsString Dom Search DomFacts StringFacts SearchFacts.

(** X1.  An input event on any element, whatever listeners are installed
    and whatever the value, leaves the text of the document as it was:
    highlighting and clearing move text between text nodes and marks
    without changing it. *)
Theorem input_event_keeps_document_text :
  forall (target : nat) (value : string) (st : state),
    docText (doc (pageOf (dispatchInput target value st))) = docText (doc (pageOf st)).
Proof.
  intros target value st. unfold dispatchInput. cbn [pageOf].
  generalize (pageOf st) as p. induction (inputListeners st) as [|l ls IH]; intro p;
    [reflexivity|].
  cbn [fold_left]. rewrite IH. destruct (Nat.eqb (fst l) target); [|reflexivity].
  apply docText_onInput.
Qed.

(** X2.  Highlighting an element and then clearing the highlights gives
    the document back, when it had no highlight and its text nodes were in
    normal form. *)
Theorem highlight_then_clear_round_trip :
  forall (q : string) (r : nat) (d : forest),
    noHighlights d = true -> normalForest d = true ->
    clearHighlights (update r (highlightText q) d) = d.
Proof.
  intros q r d H0 Hn.
  rewrite clearHighlights_update by (rewrite (clearHighlights_none _ H0); exact Hn).
  apply clearHighlights_none. exact H0.
Qed.

Lemma highlight_then_clear_witness :
  clearHighlights (update 9 (highlightText "setup") Examples.sidebar) = Examples.sidebar.
Proof.
  apply (highlight_then_clear_round_trip "setup" 9 Examples.sidebar);
    vm_compute; reflexivity.
Defined.

(** The text nodes below [n] whose lower-cased text contains the query. *)
Definition qualifying (q : string) (n : node) : nat :=
  List.length (filter (fun t => includes q (toLowerCase t)) (textNodes n)).

Lemma countIn_nil : forall sel, countIn sel [] = 0.
Proof. reflexivity. Qed.

Lemma countIn_text : forall sel t l, countIn sel (Text t :: l) = countIn sel l.
Proof. reflexivity. Qed.

Lemma countIn_markNode : forall m, countIn highlightSel [markNode m] = 1.
Proof. intro m. unfold markNode. destruct (isEmpty m); reflexivity. Qed.

Lemma countIn_highlightTextNode : forall q t,
  countIn highlightSel (highlightTextNode q t)
  = if includes q (toLowerCase t) then 1 else 0.
Proof.
  intros q t. unfold highlightTextNode. rewrite includes_indexOf.
  destruct (indexOf q (toLowerCase t)) as [i|]; [|reflexivity].
  rewrite !countIn_app, countIn_markNode.
  destruct (isEmpty (substring 0 i t)), (isEmpty (substringFrom (i + String.length q) t));
    reflexivity.
Qed.

Lemma countIn_highlightNode_marks : forall q n,
  countIn highlightSel (highlightNode q n) = countIn highlightSel [n] + qualifying q n.
Proof.
  intros q n. induction n as [t | e ch IH] using node_tree_ind.
  - cbn [highlightNode]. rewrite countIn_highlightTextNode. unfold qualifying.
    cbn [textNodes filter]. destruct (includes q (toLowerCase t)); reflexivity.
  - rewrite highlightNode_Elem. cbn [highlightText]. rewrite !countIn_cons_Elem.
    rewrite <- Nat.add_assoc. f_equal.
    unfold qualifying. cbn [textNodes]. rewrite Forall_forall in IH.
    clear e. induction ch as [|c ch IHch]; [reflexivity|].
    cbn [flat_map]. rewrite filter_app, length_app, countIn_app.
    rewrite (IH c (or_introl eq_refl)).
    rewrite IHch by (intros x Hx; apply IH; right; exact Hx).
    change (c :: ch) with ([c] ++ ch). rewrite (countIn_app highlightSel [c] ch).
    unfold qualifying. lia.
Qed.

(** X3.  [highlightText] adds one mark for each text node below the
    element whose lower-cased text contains the query, however often the
    query occurs in it, and none for the other text nodes. *)
Theorem one_mark_per_qualifying_text_node :
  forall (q : string) (e : element) (ch : list node),
    List.length (querySelectorAll highlightSel (highlightText q (Elem e ch)))
    = List.length (querySelectorAll highlightSel (Elem e ch)) + qualifying q (Elem e ch).
Proof.
  intros q e ch.
  pose proof (countIn_highlightNode_marks q (Elem e ch)) as H.
  rewrite highlightNode_Elem in H. cbn [highlightText] in H.
  rewrite !countIn_cons_Elem in H.
  change (List.length (querySelectorAll highlightSel (highlightText q (Elem e ch))))
    with (countIn highlightSel (flat_map (highlightNode q) ch)).
  change (List.length (querySelectorAll highlightSel (Elem e ch)))
    with (countIn highlightSel ch).
  lia.
Qed.

(** X4.  An input event whose value trims to the empty string, run a
    second time, changes nothing more: the page after two runs is the page
    after one. *)
Theorem empty_query_twice :
  forall (inst : instance) (value : string) (p : page),
    isEmpty (trim (toLowerCase value)) = true ->
    onInput inst value (onInput inst value p) = onInput inst value p.
Proof.
  intros inst value p Hq.
  pose proof (flagWrite_resetWrites inst) as HW.
  rewrite (onInput_empty inst value (onInput inst value p) Hq).
  rewrite (onInput_empty inst value p Hq).
  assert (Hc : clearPage (mapPage (resetWrites inst) (clearPage p))
               = mapPage (resetWrites inst) (clearPage p)).
  { unfold clearPage, mapPage. cbn [doc detached]. f_equal.
    rewrite clearHighlights_map_mapElements by (apply flagWrite_keepsHighlight; exact HW).
    rewrite clearHighlights_idempotent. reflexivity. }
  rewrite Hc, mapPage_compose. apply mapPage_ext. intro e.
  apply flagWrite_idempotent. exact HW.
Qed.

Lemma empty_query_twice_witness :
  let p := onInput Examples.searchInstance "Setup" Examples.searchPage in
  onInput Examples.searchInstance "  " (onInput Examples.searchInstance "  " p)
  = onInput Examples.searchInstance "  " p.
Proof.
  intro p. apply (empty_query_twice Examples.searchInstance "  " p). reflexivity.
Defined.

Lemma clear_onInput : forall inst value p,
  settled p = true ->
  exists g, classOnly g
            /\ clearHighlights (doc (onInput inst value p))
               = map (mapElements g) (clearHighlights (doc p)).
Proof.
  intros inst value p Hs. destruct (onInput_shape inst value p) as [g [L [Hg E]]].
  exists g. split; [exact Hg|]. rewrite E.
  assert (Hc : clearHighlights (doc (mapPage g (clearPage p)))
               = map (mapElements g) (clearHighlights (doc p))).
  { unfold mapPage, clearPage. cbn [doc].
    rewrite clearHighlights_map_mapElements by (apply (proj1 Hg)).
    rewrite clearHighlights_idempotent. reflexivity. }
  rewrite clear_highlightAll; [exact Hc|].
  unfold settled. rewrite Hc, normalForest_map_mapElements. exact Hs.
Qed.

(** X5.  On a page whose text nodes are in normal form once its highlights
    are cleared, the listener of any instance, for any value, changes
    nothing but the class [hidden] and the highlight elements: with the
    highlights cleared and the class [hidden] dropped, the document after
    is the document before; and the page after is again in that normal
    form. *)
Theorem listener_changes_hidden_and_marks_only :
  forall (inst : instance) (value : string) (p : page),
    settled p = true ->
    settled (onInput inst value p) = true
    /\ map (mapElements (classRemove "hidden")) (clearHighlights (doc (onInput inst value p)))
       = map (mapElements (classRemove "hidden")) (clearHighlights (doc p)).
Proof.
  intros inst value p Hs. split; [apply settled_onInput; exact Hs|].
  destruct (clear_onInput inst value p Hs) as [g [[_ Hg] E]].
  rewrite E, map_map. apply map_ext. intro n.
  rewrite mapElements_compose. apply mapElements_ext. exact Hg.
Qed.

Lemma listener_changes_witness :
  let p := onInput Examples.searchInstance "Intro" Examples.searchPage in
  settled (onInput Examples.searchInstance " Setup" p) = true
  /\ map (mapElements (classRemove "hidden"))
       (clearHighlights (doc (onInput Examples.searchInstance " Setup" p)))
     = map (mapElements (classRemove "hidden")) (clearHighlights (doc p)).
Proof.
  intro p. apply (listener_changes_hidden_and_marks_only Examples.searchInstance " Setup" p).
  vm_compute. reflexivity.
Defined.

(** X6.  When the text content of no nav item of the instance contains the
    non-empty query, the listener leaves no highlight element anywhere in
    the document, also none of those an earlier query or another instance
    had put there. *)
Theorem no_match_leaves_no_highlight :
  forall (inst : instance) (value : string) (p : page),
    let q := trim (toLowerCase value) in
    isEmpty q = false ->
    existsb (isMatch q (clearPage p)) (navItems inst) = false ->
    docQuerySelectorAll highlightSel (doc (onInput inst value p)) = [].
Proof.
  intros inst value p q Hq Hnone.
  rewrite (onInput_split inst value p Hq). fold q.
  assert (HM : filter (isMatch q (clearPage p)) (navItems inst) = []).
  { induction (navItems inst) as [|r l IH]; [reflexivity|].
    cbn [existsb] in Hnone. apply orb_false_iff in Hnone. destruct Hnone as [H1 H2].
    cbn [filter]. rewrite H1. apply IH. exact H2. }
  rewrite HM. cbn [highlightAll fold_left].
  destruct (flagsOnly_classOnly q inst (clearPage p)) as [g [Hg E]]. rewrite E.
  apply noHighlights_query. unfold mapPage, clearPage. cbn [doc].
  rewrite noHighlights_map_mapElements by (apply (proj1 Hg)).
  apply noHighlights_clearHighlights.
Qed.

Lemma no_match_witness :
  let p := onInput Examples.searchInstance " Setup" Examples.searchPage in
  docQuerySelectorAll highlightSel (doc (onInput Examples.searchInstance "zzz" p)) = [].
Proof.
  intro p. apply (no_match_leaves_no_highlight Examples.searchInstance "zzz" p);
    vm_compute; reflexivity.
Defined.

(** ** The empty state [initSearch] creates *)

Lemma freshRef_absent : forall p x,
  In x (elementsOf (doc p ++ detached p)) -> refOf x <> Some (freshRef p).
Proof.
  intros p x Hx Hr. unfold freshRef in Hr.
  assert (Hin : In (S (list_max (refsOf (elementsOf (doc p ++ detached p)))))
                   (refsOf (elementsOf (doc p ++ detached p)))).
  { apply in_refsOf. exists x. split; assumption. }
  pose proof (proj1 (list_max_le (refsOf (elementsOf (doc p ++ detached p))) _)
                (le_n _)) as Hall.
  rewrite Forall_forall in Hall. specialize (Hall _ Hin). lia.
Qed.

Lemma freshRef_not_present : forall p,
  existsb (isRef (freshRef p)) (elementsOf (doc p ++ detached p)) = false.
Proof.
  intro p. destruct (existsb _ _) eqn:E; [|reflexivity].
  apply existsb_exists in E. destruct E as [x [Hx Hr]]. apply isRef_true in Hr.
  exfalso. eapply freshRef_absent; eauto.
Qed.

Lemma queried_refs_present : forall sel container d r,
  In container (elementsOf d) ->
  In r (refsOf (querySelectorAll sel container)) ->
  existsb (isRef r) (elementsOf d) = true.
Proof.
  intros sel container d r Hc Hr. apply in_refsOf in Hr. destruct Hr as [x [Hx Hrx]].
  apply filter_In in Hx. destruct Hx as [Hx _].
  apply existsb_exists. exists x. split; [|apply isRef_true; exact Hrx].
  eapply elementsOf_descendants; eauto.
Qed.

Lemma find_append_child : forall r' rn x n,
  existsb (isRef r') (selfAndDescendants n) = false ->
  isRef r' x = true ->
  find (isRef r') (selfAndDescendants (updateNode rn (appendChild x) n))
  = if existsb (isRef rn) (selfAndDescendants n) then Some x else None.
Proof.
  intros r' rn x n. induction n as [t | e ch IH] using node_tree_ind; intros Habs Hx;
    [reflexivity|].
  assert (Hxe : exists ex chx, x = Elem ex chx).
  { destruct x as [t | ex chx]; [discriminate | eauto]. }
  destruct Hxe as [ex [chx Hxeq]].
  cbn [selfAndDescendants existsb] in Habs. apply orb_false_iff in Habs.
  destruct Habs as [Hself Hch].
  cbn [updateNode]. destruct (isRef rn (Elem e ch)) eqn:Ern.
  - cbn [appendChild selfAndDescendants find existsb]. rewrite Ern.
    change (isRef r' (Elem e (ch ++ [x]))) with (isRef r' (Elem e ch)). rewrite Hself.
    rewrite flat_map_app, find_app_split, (find_none_existsb _ _ _ Hch).
    cbn [flat_map]. rewrite app_nil_r. subst x. cbn [selfAndDescendants find].
    rewrite Hx. reflexivity.
  - cbn [selfAndDescendants find existsb]. rewrite Ern.
    change (isRef r' (Elem e (map (updateNode rn (appendChild x)) ch)))
      with (isRef r' (Elem e ch)). rewrite Hself. cbn [orb].
    rewrite Forall_forall in IH. clear Hself Ern.
    induction ch as [|c ch IHch]; [reflexivity|].
    cbn [map flat_map existsb] in *. rewrite existsb_app in Hch.
    apply orb_false_iff in Hch. destruct Hch as [Hc Hrest].
    rewrite find_app_split, existsb_app.
    rewrite (IH c (or_introl eq_refl) Hc Hx).
    destruct (existsb (isRef rn) (selfAndDescendants c)); [reflexivity|]. cbn [orb].
    apply IHch; [|exact Hrest]. intros y Hy. apply IH. right. exact Hy.
Qed.

Lemma getElem_append_child : forall r' rn x d,
  existsb (isRef r') (elementsOf d) = false ->
  isRef r' x = true ->
  getElem r' (update rn (appendChild x) d)
  = if existsb (isRef rn) (elementsOf d) then Some x else None.
Proof.
  intros r' rn x d. unfold getElem, update, elementsOf.
  induction d as [|n d IH]; intros Habs Hx; [reflexivity|].
  cbn [map flat_map] in *. rewrite existsb_app in Habs.
  apply orb_false_iff in Habs. destruct Habs as [Hn Hd].
  rewrite find_app_split, existsb_app, (find_append_child r' rn x n Hn Hx).
  destruct (existsb (isRef rn) (selfAndDescendants n)); [reflexivity|]. cbn [orb].
  apply IH; assumption.
Qed.

Lemma not_own_extension : forall (A : Type) (l : list A) (x : A), l = l ++ [x] -> False.
Proof.
  intros A l x H. apply (f_equal (@List.length A)) in H. rewrite length_app in H.
  cbn [List.length] in H. lia.
Qed.

(** X7.  When [initSearch] installs a listener, the empty-state element
    the listener holds is a new element: no element of the page had its
    handle, so it is none of the nav items and sections the listener
    holds, which all are elements of the document; and in the page
    [initSearch] leaves, the handle denotes the element as it was created,
    with the class [hidden]. *)
Theorem initSearch_empty_state_is_new :
  forall (searchInputId : string) (containerSelector : selector) (st : state)
         (ri : nat) (inst : instance),
    inputListeners (initSearch searchInputId containerSelector st)
    = inputListeners st ++ [(ri, inst)] ->
    let p := pageOf st in
    existsb (isRef (emptyState inst)) (elementsOf (doc p ++ detached p)) = false
    /\ (forall r, In r (navItems inst ++ sections inst) ->
                  existsb (isRef r) (elementsOf (doc p)) = true)
    /\ existsb (Nat.eqb (emptyState inst)) (navItems inst ++ sections inst) = false
    /\ lookup (emptyState inst) (pageOf (initSearch searchInputId containerSelector st))
       = Some (emptyStateNode (emptyState inst)).
Proof.
  intros id sel st ri inst Hl p. unfold initSearch in *. fold p in Hl |- *.
  destruct (getElementById id (doc p)) as [searchInput|];
    [|exfalso; eapply not_own_extension; exact Hl].
  destruct (docQuerySelector sel (doc p)) as [container|] eqn:Ec;
    [|exfalso; eapply not_own_extension; exact Hl].
  destruct (refOf searchInput) as [ri'|];
    [|exfalso; cbn [inputListeners] in Hl; eapply not_own_extension; exact Hl].
  cbn [inputListeners pageOf] in Hl |- *. apply app_inv_head in Hl.
  inversion Hl; subst ri inst. cbn [navItems sections emptyState].
  assert (Hcin : In container (elementsOf (doc p))).
  { unfold docQuerySelector in Ec. apply find_some in Ec. tauto. }
  assert (Hfresh : existsb (isRef (freshRef p)) (elementsOf (doc p ++ detached p)) = false)
    by apply freshRef_not_present.
  assert (Hpres : forall r,
            In r (refsOf (querySelectorAll navItemSel container)
                  ++ refsOf (querySelectorAll sectionSel container)) ->
            existsb (isRef r) (elementsOf (doc p)) = true).
  { intros r Hr. apply in_app_or in Hr.
    destruct Hr as [Hr | Hr]; eapply queried_refs_present; eauto. }
  assert (Hfd : existsb (isRef (freshRef p)) (elementsOf (doc p)) = false).
  { rewrite elementsOf_app, existsb_app in Hfresh. apply orb_false_iff in Hfresh. tauto. }
  assert (Hft : existsb (isRef (freshRef p)) (elementsOf (detached p)) = false).
  { rewrite elementsOf_app, existsb_app in Hfresh. apply orb_false_iff in Hfresh. tauto. }
  split; [exact Hfresh|]. split; [exact Hpres|]. split.
  - destruct (existsb (Nat.eqb (freshRef p)) _) eqn:E; [|reflexivity].
    apply existsb_exists in E. destruct E as [r [Hr Heq]]. apply Nat.eqb_eq in Heq. subst r.
    rewrite (Hpres _ Hr) in Hfd. discriminate.
  - assert (Hdet : lookup (freshRef p)
                     (mkPage (doc p) (detached p ++ [emptyStateNode (freshRef p)]))
                   = Some (emptyStateNode (freshRef p))).
    { unfold lookup, getElem. cbn [doc detached].
      rewrite !elementsOf_app, !find_app_split.
      rewrite (find_none_existsb _ _ _ Hfd), (find_none_existsb _ _ _ Hft).
      unfold emptyStateNode, elementsOf. cbn [flat_map selfAndDescendants app find].
      unfold isRef at 1. cbn [refOf ref]. rewrite Nat.eqb_refl. reflexivity. }
    destruct (querySelector sidebarNavSel container) as [navEl|] eqn:En; [|exact Hdet].
    destruct (refOf navEl) as [rn|] eqn:Ern; [|exact Hdet].
    unfold lookup, getElem. cbn [doc detached].
    rewrite elementsOf_app, find_app_split.
    pose proof (getElem_append_child (freshRef p) rn (emptyStateNode (freshRef p)) (doc p) Hfd)
      as Ha.
    unfold getElem in Ha. rewrite Ha.
    2:{ unfold emptyStateNode, isRef. cbn [refOf ref]. apply Nat.eqb_refl. }
    assert (Hnav : existsb (isRef rn) (elementsOf (doc p)) = true).
    { apply existsb_exists. exists navEl. split; [|apply isRef_true; exact Ern].
      unfold querySelector in En. apply find_some in En.
      eapply elementsOf_descendants; [exact Hcin | tauto]. }
    rewrite Hnav. reflexivity.
Qed.

Lemma initSearch_empty_state_witness :
  existsb (Nat.eqb (emptyState Examples.searchInstance))
    (navItems Examples.searchInstance ++ sections Examples.searchInstance) = false
  /\ lookup (emptyState Examples.searchInstance) Examples.searchPage
     = Some (emptyStateNode (emptyState Examples.searchInstance)).
Proof.
  destruct (initSearch_empty_state_is_new "sidebar-search-desktop" (SelId "left-sidebar")
              Examples.searchStart 3 Examples.searchInstance) as [_ [_ [H3 H4]]].
  - vm_compute. reflexivity.
  - split; [exact H3 | exact H4].
Defined.

(** ** From [initSearch] to the listener *)

Lemma appendChild_sources : forall rn x n y,
  In y (selfAndDescendants (updateNode rn (appendChild x) n)) ->
  In y (selfAndDescendants x)
  \/ exists y0, In y0 (selfAndDescendants n) /\ elementOf y = elementOf y0.
Proof.
  intros rn x n. induction n as [t | e ch IH] using node_tree_ind; intros y Hy;
    [contradiction|].
  cbn [updateNode] in Hy. destruct (isRef rn (Elem e ch)).
  - cbn [appendChild selfAndDescendants] in Hy. destruct Hy as [Hy | Hy].
    + right. exists (Elem e ch). split; [left; reflexivity | subst y; reflexivity].
    + rewrite flat_map_app in Hy. apply in_app_or in Hy. destruct Hy as [Hy | Hy].
      * right. exists y. split; [right; exact Hy | reflexivity].
      * left. cbn [flat_map] in Hy. rewrite app_nil_r in Hy. exact Hy.
  - cbn [selfAndDescendants] in Hy. destruct Hy as [Hy | Hy].
    + right. exists (Elem e ch). split; [left; reflexivity | subst y; reflexivity].
    + rewrite flat_map_of_map in Hy. apply in_flat_map in Hy. destruct Hy as [c [Hc Hy]].
      rewrite Forall_forall in IH. destruct (IH c Hc y Hy) as [Hl | [y0 [Hy0 He]]];
        [left; exact Hl|].
      right. exists y0. split; [|exact He]. right. apply in_flat_map. eauto.
Qed.

Lemma update_appendChild_sources : forall rn x d y,
  In y (elementsOf (update rn (appendChild x) d)) ->
  In y (selfAndDescendants x)
  \/ exists y0, In y0 (elementsOf d) /\ elementOf y = elementOf y0.
Proof.
  intros rn x d y Hy. unfold update, elementsOf in Hy. rewrite flat_map_of_map in Hy.
  apply in_flat_map in Hy. destruct Hy as [n [Hn Hy]].
  destruct (appendChild_sources rn x n y Hy) as [Hl | [y0 [Hy0 He]]]; [left; exact Hl|].
  right. exists y0. split; [|exact He]. apply in_flat_map. eauto.
Qed.

Lemma normalList_snoc_element : forall l e ch,
  normalList (l ++ [Elem e ch]) = normalList l.
Proof.
  intros l e ch. induction l as [|[t | e' ch'] l IH]; [reflexivity| |].
  - cbn [app normalList]. rewrite IH. destruct l as [|[u | e'' ch''] rest]; reflexivity.
  - cbn [app normalList]. exact IH.
Qed.

Lemma normalList_map_elements : forall (f : node -> node) l,
  (forall t, f (Text t) = Text t) ->
  (forall e ch, exists e' ch', f (Elem e ch) = Elem e' ch') ->
  normalList (map f l) = normalList l.
Proof.
  intros f l Ht He. induction l as [|[t | e ch] l IH]; [reflexivity| |].
  - cbn [map]. rewrite Ht. cbn [normalList]. rewrite IH.
    destruct l as [|[u | e' ch'] rest]; [reflexivity| |].
    + cbn [map]. rewrite Ht. reflexivity.
    + cbn [map]. destruct (He e' ch') as [e2 [ch2 E]]. rewrite E. reflexivity.
  - cbn [map]. destruct (He e ch) as [e2 [ch2 E]]. rewrite E. cbn [normalList]. exact IH.
Qed.

Lemma updateNode_appendChild_element : forall rn x e ch,
  exists e' ch', updateNode rn (appendChild x) (Elem e ch) = Elem e' ch'.
Proof.
  intros rn x e ch. cbn [updateNode]. destruct (isRef rn (Elem e ch)); cbn; eauto.
Qed.

Lemma normalNode_append_child : forall rn ex chx n,
  normalNode (Elem ex chx) = true -> normalNode n = true ->
  normalNode (updateNode rn (appendChild (Elem ex chx)) n) = true.
Proof.
  intros rn ex chx n Hx. induction n as [t | e ch IH] using node_tree_ind; intro Hn;
    [reflexivity|].
  cbn [normalNode] in Hn. apply andb_true_iff in Hn. destruct Hn as [Hl Hc].
  cbn [updateNode]. destruct (isRef rn (Elem e ch)).
  - cbn [appendChild normalNode]. rewrite normalList_snoc_element, Hl, forallb_app, Hc.
    cbn [forallb]. rewrite Hx. reflexivity.
  - cbn [normalNode].
    rewrite (normalList_map_elements _ ch (fun t => eq_refl)
               (updateNode_appendChild_element rn (Elem ex chx))), Hl.
    cbn [andb]. rewrite forallb_forall in Hc. apply forallb_forall. intros y Hy.
    apply in_map_iff in Hy. destruct Hy as [c [Hcy Hin]]. subst y.
    rewrite Forall_forall in IH. apply IH; [exact Hin | apply Hc; exact Hin].
Qed.

Lemma normalForest_append_child : forall rn ex chx d,
  normalNode (Elem ex chx) = true -> normalForest d = true ->
  normalForest (update rn (appendChild (Elem ex chx)) d) = true.
Proof.
  intros rn ex chx d Hx Hd. unfold normalForest in *. apply andb_true_iff in Hd.
  destruct Hd as [Hl Hc]. unfold update.
  rewrite (normalList_map_elements _ d (fun t => eq_refl)
             (updateNode_appendChild_element rn (Elem ex chx))), Hl.
  cbn [andb]. rewrite forallb_forall in Hc. apply forallb_forall. intros y Hy.
  apply in_map_iff in Hy. destruct Hy as [c [Hcy Hin]]. subst y.
  apply normalNode_append_child; [exact Hx | apply Hc; exact Hin].
Qed.

(** The page [initSearch] leaves: the old one with the empty state added,
    detached or as the last child of the navigation. *)
Definition withEmptyState (p p1 : page) : Prop :=
  p1 = mkPage (doc p) (detached p ++ [emptyStateNode (freshRef p)])
  \/ exists rn, p1 = mkPage (update rn (appendChild (emptyStateNode (freshRef p))) (doc p))
                       (detached p).

Lemma initSearch_parts : forall searchInputId containerSelector st ri inst,
  inputListeners (initSearch searchInputId containerSelector st)
  = inputListeners st ++ [(ri, inst)] ->
  exists container,
    In container (elementsOf (doc (pageOf st)))
    /\ navItems inst = refsOf (querySelectorAll navItemSel container)
    /\ sections inst = refsOf (querySelectorAll sectionSel container)
    /\ emptyState inst = freshRef (pageOf st)
    /\ withEmptyState (pageOf st) (pageOf (initSearch searchInputId containerSelector st)).
Proof.
  intros id sel st ri inst Hl. unfold initSearch in *.
  destruct (getElementById id (doc (pageOf st))) as [searchInput|];
    [|exfalso; eapply not_own_extension; exact Hl].
  destruct (docQuerySelector sel (doc (pageOf st))) as [container|] eqn:Ec;
    [|exfalso; eapply not_own_extension; exact Hl].
  destruct (refOf searchInput) as [ri'|];
    [|exfalso; cbn [inputListeners] in Hl; eapply not_own_extension; exact Hl].
  cbn [inputListeners pageOf] in Hl |- *. apply app_inv_head in Hl.
  inversion Hl; subst ri inst. cbn [navItems sections emptyState].
  exists container. split.
  { unfold docQuerySelector in Ec. apply find_some in Ec. tauto. }
  repeat split. unfold withEmptyState.
  destruct (querySelector sidebarNavSel container) as [navEl|]; [|left; reflexivity].
  destruct (refOf navEl) as [rn|]; [right; exists rn; reflexivity | left; reflexivity].
Qed.

Lemma emptyState_elements : forall r y,
  In y (selfAndDescendants (emptyStateNode r)) ->
  isHighlight y = false /\ matches navItemSel y = false
  /\ (refOf y = Some r \/ refOf y = None).
Proof.
  intros r y Hy. unfold emptyStateNode in Hy. cbn [selfAndDescendants flat_map app] in Hy.
  destruct Hy as [Hy | [Hy | []]]; subst y; cbn; auto.
Qed.

Lemma matches_elementOf : forall sel y y0,
  elementOf y = elementOf y0 -> matches sel y = matches sel y0.
Proof.
  intros sel [t | e ch] [t0 | e0 ch0] H; try discriminate; [reflexivity|].
  cbn [elementOf] in H. inversion H; subst. reflexivity.
Qed.

Lemma refOf_elementOf : forall y y0, elementOf y = elementOf y0 -> refOf y = refOf y0.
Proof.
  intros [t | e ch] [t0 | e0 ch0] H; try discriminate; [reflexivity|].
  cbn [elementOf] in H. inversion H; subst. reflexivity.
Qed.

(** No element with the class [nav-section] is a nav item. *)
Definition sectionsAreNotItems (p : page) : bool :=
  forallb (fun x => negb (matches sectionSel x && matches navItemSel x))
          (elementsOf (doc p ++ detached p)).

Lemma NoDup_app_apart : forall (l1 l2 : list nat) r,
  NoDup (l1 ++ l2) -> In r l1 -> ~ In r l2.
Proof.
  intros l1 l2 r H H1 H2. induction l1 as [|a l1 IH]; [contradiction|].
  cbn [app] in H. inversion H as [|? ? Hn Hd]; subst.
  destruct H1 as [H1 | H1].
  - subst a. apply Hn. apply in_or_app. right. exact H2.
  - apply IH; assumption.
Qed.

Lemma queried_element : forall sel container d r,
  In container (elementsOf d) ->
  In r (refsOf (querySelectorAll sel container)) ->
  exists x, In x (elementsOf d) /\ refOf x = Some r /\ matches sel x = true.
Proof.
  intros sel container d r Hc Hr. apply in_refsOf in Hr. destruct Hr as [x [Hx Hrx]].
  apply filter_In in Hx. destruct Hx as [Hx Hm].
  exists x. repeat split; try assumption. eapply elementsOf_descendants; eauto.
Qed.

(** What the listener needs of the page holds of the page [initSearch]
    leaves. *)
Lemma initSearch_establishes : forall searchInputId containerSelector st ri inst,
  inputListeners (initSearch searchInputId containerSelector st)
  = inputListeners st ++ [(ri, inst)] ->
  let p := pageOf st in
  let p1 := pageOf (initSearch searchInputId containerSelector st) in
  noHighlights (doc p) = true -> normalForest (doc p) = true ->
  uniqueRefs (doc p ++ detached p) ->
  sectionsAreNotItems p = true ->
  settled p1 = true
  /\ noItemsAt (sections inst ++ [emptyState inst]) p1
  /\ attached (navItems inst) p1 = true.
Proof.
  intros id sel st ri inst Hl p p1 H0 Hn Hu Hmark.
  destruct (initSearch_parts id sel st ri inst Hl)
    as [container [Hcin [Hitems [Hsects [Hes Hp1]]]]].
  fold p in Hcin, Hes, Hp1. fold p1 in Hp1.
  assert (Hold : forall y, In y (elementsOf (doc p)) -> isHighlight y = false).
  { intros y Hy. unfold noHighlights in H0. apply negb_true_iff in H0.
    destruct (isHighlight y) eqn:E; [|reflexivity].
    assert (Hex : existsb isHighlight (elementsOf (doc p)) = true)
      by (apply existsb_exists; eauto).
    congruence. }
  split; [|split].
  - apply settled_start.
    + destruct Hp1 as [E | [rn E]]; rewrite E; cbn [doc]; [exact H0|].
      unfold noHighlights. apply negb_true_iff. apply existsb_find_none.
      apply find_none_all. intros y Hy.
      destruct (update_appendChild_sources _ _ _ _ Hy) as [Hx | [y0 [Hy0 He]]].
      * apply (emptyState_elements _ _ Hx).
      * unfold isHighlight. rewrite (matches_elementOf highlightSel y y0 He).
        apply Hold. exact Hy0.
    + destruct Hp1 as [E | [rn E]]; rewrite E; cbn [doc]; [exact Hn|].
      apply normalForest_append_child; [reflexivity | exact Hn].
  - intros e ch r Hin Hr Hrs.
    assert (Hsrc : In (Elem e ch) (selfAndDescendants (emptyStateNode (freshRef p)))
                   \/ exists y0, In y0 (elementsOf (doc p ++ detached p))
                                 /\ elementOf (Elem e ch) = elementOf y0).
    { destruct Hp1 as [E | [rn E]]; rewrite E in Hin; cbn [doc detached] in Hin.
      - rewrite app_assoc, elementsOf_app in Hin. apply in_app_or in Hin.
        destruct Hin as [Hin | Hin]; [right; exists (Elem e ch); auto|].
        left. unfold elementsOf in Hin. cbn [flat_map] in Hin. rewrite app_nil_r in Hin.
        exact Hin.
      - rewrite elementsOf_app in Hin. apply in_app_or in Hin. destruct Hin as [Hin | Hin].
        + destruct (update_appendChild_sources _ _ _ _ Hin) as [Hx | [y0 [Hy0 He]]];
            [left; exact Hx|].
          right. exists y0. split; [|exact He]. rewrite elementsOf_app.
          apply in_or_app. left. exact Hy0.
        + right. exists (Elem e ch). split; [|reflexivity]. rewrite elementsOf_app.
          apply in_or_app. right. exact Hin. }
    destruct Hsrc as [Hx | [y0 [Hy0 He]]].
    + destruct (emptyState_elements _ _ Hx) as [_ [Hnav _]]. exact Hnav.
    + change (matches navItemSel (Elem e ch) = false).
      rewrite (matches_elementOf navItemSel _ y0 He).
      assert (Hry0 : refOf y0 = Some r).
      { rewrite <- (refOf_elementOf _ _ He). exact Hr. }
      apply in_app_or in Hrs. destruct Hrs as [Hrs | [Hrs | []]].
      * rewrite Hsects in Hrs.
        destruct (queried_element sectionSel container (doc p) r Hcin Hrs)
          as [x [Hx [Hrx Hmx]]].
        assert (Hxin : In x (elementsOf (doc p ++ detached p))).
        { rewrite elementsOf_app. apply in_or_app. left. exact Hx. }
        assert (Heq : y0 = x) by (eapply refsOf_unique; eauto).
        subst y0. unfold sectionsAreNotItems in Hmark. rewrite forallb_forall in Hmark.
        specialize (Hmark x Hxin). rewrite Hmx in Hmark. cbn [andb] in Hmark.
        apply negb_true_iff in Hmark. exact Hmark.
      * exfalso. subst r. rewrite Hes in Hry0. eapply freshRef_absent; eauto.
  - unfold attached. apply forallb_forall. intros r Hr. apply negb_true_iff.
    rewrite Hitems in Hr.
    destruct (queried_element navItemSel container (doc p) r Hcin Hr) as [x [Hx [Hrx _]]].
    assert (Hdet : existsb (isRef r) (elementsOf (detached p)) = false).
    { destruct (existsb (isRef r) (elementsOf (detached p))) eqn:E; [|reflexivity].
      apply existsb_exists in E. destruct E as [y [Hy Hry]]. apply isRef_true in Hry.
      exfalso. unfold uniqueRefs in Hu. rewrite elementsOf_app, refsOf_app in Hu.
      apply (NoDup_app_apart _ _ r Hu).
      - apply in_refsOf. eauto.
      - apply in_refsOf. eauto. }
    destruct Hp1 as [E | [rn E]]; rewrite E; cbn [detached]; [|exact Hdet].
    rewrite elementsOf_app, existsb_app, Hdet. cbn [orb].
    destruct (existsb (isRef r) (elementsOf [emptyStateNode (freshRef p)])) eqn:E2;
      [|reflexivity].
    apply existsb_exists in E2. destruct E2 as [y [Hy Hry]]. apply isRef_true in Hry.
    unfold elementsOf in Hy. cbn [flat_map] in Hy. rewrite app_nil_r in Hy.
    destruct (emptyState_elements _ _ Hy) as [_ [_ [Hr1 | Hr1]]]; rewrite Hr1 in Hry;
      [|discriminate].
    inversion Hry; subst r. exfalso.
    apply (freshRef_absent p x); [|exact Hrx].
    rewrite elementsOf_app. apply in_or_app. left. exact Hx.
Qed.

(** X8.  Take a page without highlights, with its text nodes in normal
    form, where handles are unique and no element with the class
    [nav-section] is a nav item.  For a listener that [initSearch]
    installs on it, and after any sequence of input events of any
    instances, an input event with a value that trims to a non-empty query
    gives the same page when it is run a second time. *)
Theorem listener_idempotent_after_initSearch :
  forall (searchInputId : string) (containerSelector : selector) (st : state)
         (ri : nat) (inst : instance) (events : list (instance * string)) (value : string),
    inputListeners (initSearch searchInputId containerSelector st)
    = inputListeners st ++ [(ri, inst)] ->
    noHighlights (doc (pageOf st)) = true ->
    normalForest (doc (pageOf st)) = true ->
    uniqueRefsb (doc (pageOf st) ++ detached (pageOf st)) = true ->
    sectionsAreNotItems (pageOf st) = true ->
    isEmpty (trim (toLowerCase value)) = false ->
    let p := runInputs events (pageOf (initSearch searchInputId containerSelector st)) in
    onInput inst value (onInput inst value p) = onInput inst value p.
Proof.
  intros id sel st ri inst events value Hl H0 Hn Hu Hmark Hq p.
  destruct (initSearch_establishes id sel st ri inst Hl H0 Hn (uniqueRefsb_true _ Hu) Hmark)
    as [Hs [Hno Hat]].
  apply onInput_twice_after_run; assumption.
Qed.

Lemma listener_idempotent_witness :
  let p := runInputs [(Examples.searchInstance, "Intro")] Examples.searchPage in
  onInput Examples.searchInstance " Setup" (onInput Examples.searchInstance " Setup" p)
  = onInput Examples.searchInstance " Setup" p.
Proof.
  apply (listener_idempotent_after_initSearch "sidebar-search-desktop" (SelId "left-sidebar")
           Examples.searchStart 3 Examples.searchInstance
           [(Examples.searchInstance, "Intro")] " Setup");
    vm_compute; reflexivity.
Defined.

End SearchProperties.


(* ================================================================== *)
(** * The resizable sidebar: persistence, frames and the end of a drag *)
(* ================================================================== *)

Module ResizableProperties.
Import JsString Dom Resizable ResizableFacts.
Local Open Scope Z_scope.

(** ** Numbers written as strings and read back *)

Definition digits (d : Decimal.uint) : string := DecimalString.NilEmpty.string_of_uint d.

Lemma digitsValue_digit : forall c v a s,
  digitValue c = Some v -> digitsValue a (String c s) = digitsValue (10 * a + v) s.
Proof. intros c v a s H. cbn [digitsValue]. rewrite H. reflexivity. Qed.

Lemma digitsValue_stop : forall a t, startsWithDigit t = false -> digitsValue a t = a.
Proof.
  intros a [|c t] H; [reflexivity|]. cbn [startsWithDigit] in H. cbn [digitsValue].
  destruct (digitValue c); [discriminate | reflexivity].
Qed.

Ltac digit_step :=
  match goal with
  | |- digitsValue ?a (String ?c ?s) = _ =>
      let v := eval cbv in (digitValue c) in
      match v with
      | Some ?k => rewrite (digitsValue_digit c k a s eq_refl)
      end
  end.

Lemma digitsValue_pos : forall d p t,
  startsWithDigit t = false ->
  digitsValue (Zpos p) (digits d ++ t) = Zpos (Pos.of_uint_acc d p).
Proof.
  intros d. induction d; intros p t Ht;
    cbn [digits DecimalString.NilEmpty.string_of_uint String.append Pos.of_uint_acc];
    [apply digitsValue_stop; exact Ht | ..];
    digit_step;
    match goal with
    | |- digitsValue ?a _ = Z.pos (Pos.of_uint_acc _ ?q) =>
        replace a with (Z.pos q) by lia
    end; apply IHd; exact Ht.
Qed.

Lemma digitsValue_zero : forall d t,
  startsWithDigit t = false ->
  digitsValue 0 (digits d ++ t) = Z.of_N (Pos.of_uint d).
Proof.
  intros d. induction d; intros t Ht;
    cbn [digits DecimalString.NilEmpty.string_of_uint String.append Pos.of_uint];
    [apply digitsValue_stop; exact Ht | ..];
    digit_step;
    [apply IHd; exact Ht | ..];
    cbn [Z.of_N]; apply (digitsValue_pos d _ t Ht).
Qed.

Lemma digits_start : forall d t, d <> Decimal.Nil -> startsWithDigit (digits d ++ t) = true.
Proof. intros d t H. destruct d; [contradiction | ..]; reflexivity. Qed.

Lemma digits_trimStart : forall d t,
  d <> Decimal.Nil -> trimStart (digits d ++ t) = (digits d ++ t)%string.
Proof. intros d t H. destruct d; [contradiction | ..]; reflexivity. Qed.

Lemma parseInt_digits : forall d t,
  d <> Decimal.Nil -> startsWithDigit t = false ->
  parseInt (digits d ++ t) = Some (Z.of_N (Pos.of_uint d)).
Proof.
  intros d t Hd Ht. unfold parseInt. rewrite (digits_trimStart d t Hd).
  rewrite <- (digitsValue_zero d t Ht).
  pose proof (digits_start d t Hd) as Hs.
  destruct d; [contradiction | ..];
    cbn [digits DecimalString.NilEmpty.string_of_uint String.append] in *;
    rewrite Hs; reflexivity.
Qed.

Lemma nilZero_digits : forall d,
  d <> Decimal.Nil -> DecimalString.NilZero.string_of_uint d = digits d.
Proof. intros d H. destruct d; [contradiction | ..]; reflexivity. Qed.

Lemma parseInt_minus_digits : forall d t,
  d <> Decimal.Nil -> startsWithDigit t = false ->
  parseInt (String "-" (digits d ++ t)) = Some (- Z.of_N (Pos.of_uint d)).
Proof.
  intros d t Hd Ht. unfold parseInt.
  change (trimStart (String "-" (digits d ++ t))) with (String "-" (digits d ++ t)).
  cbv beta iota zeta.
  rewrite (digits_start d t Hd), (digitsValue_zero d t Ht). reflexivity.
Qed.

Lemma parseInt_numberToString_suffix : forall n t,
  startsWithDigit t = false ->
  parseInt (numberToString n ++ t) = Some n.
Proof.
  intros n t Ht. unfold numberToString, DecimalString.NilZero.string_of_int.
  destruct n as [|p|p]; cbn [Z.to_int].
  - apply (parseInt_digits (Decimal.D0 Decimal.Nil) t); [discriminate | exact Ht].
  - pose proof (DecimalPos.Unsigned.to_uint_nonnil p) as Hnn.
    rewrite (nilZero_digits _ Hnn), (parseInt_digits _ t Hnn Ht),
      DecimalPos.Unsigned.of_to. reflexivity.
  - pose proof (DecimalPos.Unsigned.to_uint_nonnil p) as Hnn.
    rewrite (nilZero_digits _ Hnn). cbn [String.append].
    rewrite (parseInt_minus_digits _ t Hnn Ht), DecimalPos.Unsigned.of_to. reflexivity.
Qed.

Lemma parseInt_numberToString : forall n, parseInt (numberToString n) = Some n.
Proof.
  intros n. rewrite <- (parseInt_numberToString_suffix n EmptyString eq_refl).
  f_equal. induction (numberToString n) as [|c s IH]; cbn; [reflexivity | rewrite <- IH; reflexivity].
Qed.

Lemma parseInt_px : forall n, parseInt (px n) = Some n.
Proof. intros n. apply parseInt_numberToString_suffix. reflexivity. Qed.

Lemma numberToString_nonempty : forall n, isEmpty (numberToString n) = false.
Proof.
  intros n. unfold numberToString, DecimalString.NilZero.string_of_int.
  destruct n as [|p|p]; cbn [Z.to_int]; [reflexivity | | reflexivity].
  pose proof (DecimalPos.Unsigned.to_uint_nonnil p) as Hnn.
  destruct (Pos.to_uint p); [contradiction | ..]; reflexivity.
Qed.

(** ** What a style write leaves alone *)

Lemma getStyle_setStyle_cleared : forall t prop st, getStyle t prop (setStyle t prop "" st) = "".
Proof.
  intros t prop st. unfold getStyle, setStyle. cbn [isEmpty inlineStyle withStyle].
  rewrite find_filter_negb. reflexivity.
Qed.

Lemma getStyle_updateGridColumns_other : forall g w t prop st,
  prop <> "grid-template-columns" ->
  getStyle t prop (updateGridColumns g w st) = getStyle t prop st.
Proof.
  intros g w t prop st H. unfold updateGridColumns.
  destruct (innerWidth st <? 1024); apply getStyle_setStyle_other; right; exact H.
Qed.

Lemma updateGridColumns_desktop : forall g w st,
  1024 <= innerWidth st ->
  getStyle (OfElement g) "grid-template-columns" (updateGridColumns g w st)
  = (numberToString w ++ "px 1fr " ++ trim (getPropertyValue "--toc-width" st))%string.
Proof.
  intros g w st H. unfold updateGridColumns.
  destruct (innerWidth st <? 1024) eqn:E; [apply Z.ltb_lt in E; lia|].
  apply getStyle_setStyle_same. apply append_nonempty_r. reflexivity.
Qed.

(** The parts of the state a call of [initResizable] that goes through
    works on: the page after the two transitions are switched off and a
    narrow window has lost its grid columns, and after the stored width is
    put back. *)
Definition prepared (s g : nat) (st : state) : state :=
  let st2 := setStyle (OfElement g) "transition" "none"
               (setStyle (OfElement s) "transition" "none" st) in
  if innerWidth st2 <? 1024
  then setStyle (OfElement g) "grid-template-columns" "" st2
  else st2.

Definition restored (k : string) (s g : nat) (st : state) : state :=
  let st3 := prepared s g st in
  match getItem k st3 with
  | Some storedWidth =>
      if negb (isEmpty storedWidth) && (1024 <=? innerWidth st3) then
        let width := parseInt storedWidth in
        let minWidth := parseInt (getPropertyValue "--sidebar-width-min" st3) in
        let maxWidth := parseInt (getPropertyValue "--sidebar-width-max" st3) in
        if geNum width minWidth && leNum width maxWidth then
          match width with
          | Some w => updateGridColumns g w (setStyle (OfElement s) "width" (px w) st3)
          | None => st3
          end
        else st3
      else st3
  | None => st3
  end.

Definition installed (k : string) (h s g : nat) (st : state) : state :=
  let st4 := restored k s g st in
  mkState (doc st4) true (innerWidth st4) (rootStyle st4) (localStorage st4)
    (inlineStyle st4) (frameRequests st4 ++ [(s, g, false)])
    (panels st4 ++ [mkPanel h s g false 0 0]).

(** The fields a style write does not touch. *)
Definition sameButStyle (a b : state) : Prop :=
  doc a = doc b /\ isInitialized a = isInitialized b /\ innerWidth a = innerWidth b /\
  rootStyle a = rootStyle b /\ localStorage a = localStorage b /\
  frameRequests a = frameRequests b /\ panels a = panels b.

Lemma sameButStyle_refl : forall a, sameButStyle a a.
Proof. intros a. repeat split. Qed.

Lemma sameButStyle_trans : forall a b c, sameButStyle a b -> sameButStyle b c -> sameButStyle a c.
Proof.
  intros a b c (H1 & H2 & H3 & H4 & H5 & H6 & H7) (K1 & K2 & K3 & K4 & K5 & K6 & K7).
  repeat split; congruence.
Qed.

Lemma sameButStyle_setStyle : forall t prop v st, sameButStyle (setStyle t prop v st) st.
Proof. intros. repeat split. Qed.

Lemma sameButStyle_updateGridColumns : forall g w st, sameButStyle (updateGridColumns g w st) st.
Proof.
  intros g w st. unfold updateGridColumns.
  destruct (innerWidth st <? 1024); apply sameButStyle_setStyle.
Qed.

Lemma sameButStyle_prepared : forall s g st, sameButStyle (prepared s g st) st.
Proof.
  intros s g st. unfold prepared.
  match goal with |- context [if ?c then _ else _] => destruct c end;
    repeat split.
Qed.

Lemma sameButStyle_restored : forall k s g st, sameButStyle (restored k s g st) st.
Proof.
  intros k s g st. unfold restored. cbv zeta.
  pose proof (sameButStyle_prepared s g st) as Hp.
  destruct (getItem k (prepared s g st)) as [sw|]; [|exact Hp].
  destruct (negb (isEmpty sw) && (1024 <=? innerWidth (prepared s g st))); [|exact Hp].
  destruct (geNum _ _ && leNum _ _); [|exact Hp].
  destruct (parseInt sw) as [w|]; [|exact Hp].
  eapply sameButStyle_trans; [apply sameButStyle_updateGridColumns|].
  eapply sameButStyle_trans; [apply sameButStyle_setStyle | exact Hp].
Qed.

Lemma getItem_same : forall k a b, localStorage a = localStorage b -> getItem k a = getItem k b.
Proof. intros k a b H. unfold getItem. rewrite H. reflexivity. Qed.

Lemma getPropertyValue_same : forall n a b,
  rootStyle a = rootStyle b -> getPropertyValue n a = getPropertyValue n b.
Proof. intros n a b H. unfold getPropertyValue. rewrite H. reflexivity. Qed.

(** [initResizable] either gives back the state it was called on, or it
    found its four elements and installs its listeners. *)
Lemma initResizable_cases : forall k st,
  initResizable k st = st \/
  exists h s g,
    initResizable k st = installed k h s g st /\
    getElementById "left-sidebar-container" (doc st) <> None.
Proof.
  intros k st. unfold initResizable. cbv zeta.
  destruct (isInitialized st && _); [left; reflexivity|].
  destruct (getElementById "left-sidebar-container" (doc st)) as [c|] eqn:Ec;
    [|left; reflexivity].
  destruct (optRef (Some c)); [|left; reflexivity].
  destruct (optRef _) as [h|]; [|left; reflexivity].
  destruct (optRef (getElementById "left-sidebar" (doc st))) as [s|]; [|left; reflexivity].
  destruct (optRef (docQuerySelector (SelClass "app-body") (doc st))) as [g|];
    [|left; reflexivity].
  right. exists h, s, g. split; [reflexivity | discriminate].
Qed.

Lemma initResizable_installs : forall k st pn,
  panels (initResizable k st) = panels st ++ [pn] ->
  exists h, initResizable k st = installed k h (sidebar pn) (gridContainer pn) st /\
            pn = mkPanel h (sidebar pn) (gridContainer pn) false 0 0.
Proof.
  intros k st pn H. destruct (initResizable_cases k st) as [E | (h & s & g & E & _)].
  - rewrite E in H. exfalso. eapply SearchProperties.not_own_extension. exact H.
  - rewrite E in H. unfold installed in H. cbn [panels] in H.
    destruct (sameButStyle_restored k s g st) as (_ & _ & _ & _ & _ & _ & Hp).
    rewrite Hp in H. apply app_inv_head in H. inversion H; subst pn.
    cbn [sidebar gridContainer]. exists h. split; [exact E | reflexivity].
Qed.

Lemma getStyle_installed : forall k h s g t prop st,
  getStyle t prop (installed k h s g st) = getStyle t prop (restored k s g st).
Proof. reflexivity. Qed.

Lemma getStyle_prepared_width : forall s g t st,
  getStyle t "width" (prepared s g st) = getStyle t "width" st.
Proof.
  intros s g t st. unfold prepared. cbv zeta.
  match goal with |- context [if ?c then _ else _] => destruct c end;
    repeat (rewrite getStyle_setStyle_other by (right; discriminate)); reflexivity.
Qed.

(** ** An example page *)

Definition page : forest :=
  [ Examples.el 1 "div" ["app-body"] []
      [ Examples.el 2 "div" [] [("id", "left-sidebar-container")]
          [ Examples.el 3 "aside" [] [("id", "left-sidebar")] [Text "Lessons"];
            Examples.el 4 "div" ["resize-handle"] [] [] ];
        Examples.el 5 "main" [] [] [Text "Hola"] ] ].

Definition custom : list (string * string) :=
  [ ("--sidebar-width-min", "200px"); ("--sidebar-width-max", "480px");
    ("--toc-width", " 240px ") ].

(** A first load on a desktop window with a width kept from before. *)
Definition loaded : state :=
  mkState page false 1280 custom [("sidebar-width", "320")] [] [] [].

(** The same on a phone. *)
Definition narrow : state :=
  mkState page false 600 custom [("sidebar-width", "320")]
    [(OfElement 1, "grid-template-columns", "320px 1fr 240px")] [] [].

Definition ready : state := initResizable "sidebar-width" loaded.

Definition thePanel : panel := mkPanel 4 3 1 false 0 0.

(** The layout gives a sidebar 350 pixels. *)
Definition laidOut (r : nat) : Z := 350.

(** ** Properties *)

(** X9.  Calling [initResizable] a second time changes nothing: the first
    call either did nothing, or it set the module flag and the container is
    still in the document, so the second call returns at once and adds no
    listener. *)
Theorem initResizable_twice : forall k st,
  initResizable k (initResizable k st) = initResizable k st.
Proof.
  intros k st. destruct (initResizable_cases k st) as [E | (h & s & g & E & Hc)].
  - rewrite E. exact E.
  - rewrite E. unfold initResizable at 1. cbv zeta.
    destruct (sameButStyle_restored k s g st) as (Hd & _).
    cbn [installed doc isInitialized]. rewrite Hd.
    destruct (getElementById "left-sidebar-container" (doc st)); [reflexivity | congruence].
Qed.

(** X10.  When [initResizable] installs its listeners, the sidebar's inline
    width is either what it was, or it is the stored width: then the window
    is at least 1024 wide, the stored string and both bounds parse, the
    width lies between the bounds, and the grid columns are set from it.
    On a window narrower than 1024 the inline grid columns are cleared and
    the inline width is what it was. *)
Theorem initResizable_restores_within_bounds : forall k st pn,
  panels (initResizable k st) = panels st ++ [pn] ->
  let st' := initResizable k st in
  let sb := OfElement (sidebar pn) in
  let grid := OfElement (gridContainer pn) in
  (getStyle sb "width" st' = getStyle sb "width" st \/
   exists storedWidth w lo hi,
     getItem k st = Some storedWidth /\ parseInt storedWidth = Some w /\
     1024 <= innerWidth st /\
     parseInt (getPropertyValue "--sidebar-width-min" st) = Some lo /\
     parseInt (getPropertyValue "--sidebar-width-max" st) = Some hi /\
     lo <= w <= hi /\
     getStyle sb "width" st' = px w /\
     getStyle grid "grid-template-columns" st'
     = (numberToString w ++ "px 1fr " ++ trim (getPropertyValue "--toc-width" st))%string)
  /\ (innerWidth st < 1024 ->
      getStyle grid "grid-template-columns" st' = "" /\
      getStyle sb "width" st' = getStyle sb "width" st).
Proof.
  intros k st pn H st' sb grid. subst st' sb grid.
  destruct (initResizable_installs k st pn H) as (h & E & _). rewrite E. clear E H.
  set (s := sidebar pn). set (g := gridContainer pn).
  rewrite !getStyle_installed.
  destruct (sameButStyle_prepared s g st) as (_ & _ & Hw & Hr & Hs & _).
  pose proof (getStyle_prepared_width s g (OfElement s) st) as Hpw.
  assert (Hnarrow : innerWidth st < 1024 ->
            getStyle (OfElement g) "grid-template-columns" (prepared s g st) = "").
  { intros Hn. unfold prepared. cbv zeta.
    change (innerWidth (setStyle (OfElement g) "transition" "none"
                          (setStyle (OfElement s) "transition" "none" st)))
      with (innerWidth st).
    destruct (innerWidth st <? 1024) eqn:En; [|apply Z.ltb_ge in En; lia].
    apply getStyle_setStyle_cleared. }
  unfold restored. cbv zeta.
  rewrite (getItem_same k _ _ Hs),
    (getPropertyValue_same "--sidebar-width-min" _ _ Hr),
    (getPropertyValue_same "--sidebar-width-max" _ _ Hr), Hw.
  destruct (getItem k st) as [sw|]; [|split; [left; exact Hpw | intros Hn; split; auto]].
  destruct (1024 <=? innerWidth st) eqn:Ed; cycle 1.
  { rewrite andb_false_r. split; [left; exact Hpw | intros Hn; split; auto]. }
  apply Z.leb_le in Ed.
  split; [|intros Hn; lia].
  destruct (negb (isEmpty sw)); cbn [andb]; [|left; exact Hpw].
  destruct (parseInt sw) as [w|] eqn:Ew; cycle 1.
  { destruct (geNum None _ && leNum None _); left; exact Hpw. }
  destruct (geNum (Some w) _) eqn:Hge; cbn [andb]; [|left; exact Hpw].
  destruct (leNum (Some w) _) eqn:Hle; [|left; exact Hpw].
  destruct (geNum_some _ _ Hge) as [lo [Hlo Hlo']].
  destruct (leNum_some _ _ Hle) as [hi [Hhi Hhi']].
  right. exists sw, w, lo, hi.
  repeat (split; [first [reflexivity | assumption | lia]|]).
  split.
  - rewrite getStyle_updateGridColumns_width. apply getStyle_setStyle_same, px_nonempty.
  - rewrite updateGridColumns_desktop by (cbn [innerWidth setStyle withStyle]; lia).
    rewrite (getPropertyValue_same "--toc-width" _ st); [reflexivity|].
    cbn [setStyle withStyle rootStyle]. exact Hr.
Qed.

Lemma initResizable_restores_witness :
  panels ready = panels loaded ++ [thePanel] /\
  getStyle (OfElement 3) "width" ready = "320px" /\
  getStyle (OfElement 1) "grid-template-columns" ready = "320px 1fr 240px" /\
  getStyle (OfElement 1) "grid-template-columns" (initResizable "sidebar-width" narrow) = "".
Proof.
  assert (H1 : panels ready = panels loaded ++ [thePanel]) by (vm_compute; reflexivity).
  assert (H2 : panels (initResizable "sidebar-width" narrow) = panels narrow ++ [thePanel])
    by (vm_compute; reflexivity).
  pose proof (initResizable_restores_within_bounds "sidebar-width" loaded thePanel H1) as Ha.
  pose proof (initResizable_restores_within_bounds "sidebar-width" narrow thePanel H2) as Hb.
  split; [exact H1|].
  destruct (proj1 Ha) as [Hsame | (sw & w & lo & hi & Hsw & Hw & _ & _ & _ & _ & Hpx & Hg)].
  - exfalso. vm_compute in Hsame. discriminate Hsame.
  - assert (Ew : w = 320).
    { vm_compute in Hsw. inversion Hsw; subst sw. vm_compute in Hw. congruence. }
    subst w. split; [exact Hpx|]. split; [exact Hg|].
    apply (proj2 Hb). vm_compute. reflexivity.
Defined.

Lemma restored_applies : forall k s g st w lo hi,
  getItem k st = Some (numberToString w) ->
  1024 <= innerWidth st ->
  parseInt (getPropertyValue "--sidebar-width-min" st) = Some lo ->
  parseInt (getPropertyValue "--sidebar-width-max" st) = Some hi ->
  lo <= w <= hi ->
  getStyle (OfElement s) "width" (restored k s g st) = px w /\
  getStyle (OfElement g) "grid-template-columns" (restored k s g st)
  = (numberToString w ++ "px 1fr " ++ trim (getPropertyValue "--toc-width" st))%string.
Proof.
  intros k s g st w lo hi Hk Hd Hlo Hhi Hb.
  destruct (sameButStyle_prepared s g st) as (_ & _ & Hw & Hr & Hs & _).
  unfold restored. cbv zeta.
  rewrite (getItem_same k _ _ Hs),
    (getPropertyValue_same "--sidebar-width-min" _ _ Hr),
    (getPropertyValue_same "--sidebar-width-max" _ _ Hr), Hw, Hk, Hlo, Hhi.
  rewrite numberToString_nonempty, parseInt_numberToString. cbn [negb andb geNum leNum].
  destruct (Z.leb_spec 1024 (innerWidth st)); [|lia].
  destruct (Z.leb_spec lo w); [|lia]. destruct (Z.leb_spec w hi); [|lia]. cbn [andb].
  split.
  - rewrite getStyle_updateGridColumns_width. apply getStyle_setStyle_same, px_nonempty.
  - rewrite updateGridColumns_desktop by (cbn [innerWidth setStyle withStyle]; lia).
    rewrite (getPropertyValue_same "--toc-width" _ st); [reflexivity|].
    cbn [setStyle withStyle rootStyle]. exact Hr.
Qed.

(** ** The end of a drag *)

(** What one [mouseup] listener does, and what becomes of its flag. *)
Definition released (p : panel) : panel :=
  mkPanel (handle p) (sidebar p) (gridContainer p) false (startX p) (startWidth p).

Definition upStep (k : string) (ow : nat -> Z) (s : state) (p : panel) : state :=
  if isResizing p then
    setItem k (numberToString (ow (sidebar p)))
      (setStyle (OfElement (gridContainer p)) "transition" ""
         (setStyle OfBody "user-select" "" (setStyle OfBody "cursor" "" s)))
  else s.

Lemma mouseUp_fold : forall k ow st,
  mouseUp k ow st = fold_left (upStep k ow) (panels st) (withPanels (map released (panels st)) st).
Proof. reflexivity. Qed.

Lemma panels_upStep : forall k ow s p, panels (upStep k ow s p) = panels s.
Proof. intros k ow s p. unfold upStep. destruct (isResizing p); reflexivity. Qed.

Lemma panels_fold_upStep : forall k ow l s, panels (fold_left (upStep k ow) l s) = panels s.
Proof.
  intros k ow l. induction l as [|p l IH]; intros s; cbn [fold_left]; [reflexivity|].
  rewrite IH. apply panels_upStep.
Qed.

Lemma panels_mouseUp : forall k ow st, panels (mouseUp k ow st) = map released (panels st).
Proof. intros k ow st. rewrite mouseUp_fold, panels_fold_upStep. reflexivity. Qed.

Lemma fold_panelMouseMove_idle : forall x l s,
  forallb (fun p => negb (isResizing p)) l = true ->
  fold_left (fun s p => panelMouseMove p x s) l s = s.
Proof.
  intros x l. induction l as [|p l IH]; intros s H; cbn [fold_left]; [reflexivity|].
  cbn [forallb] in H. apply andb_true_iff in H. destruct H as [Hp Hl].
  unfold panelMouseMove at 2. rewrite Hp. apply IH. exact Hl.
Qed.

Lemma released_idle : forall l, forallb (fun p => negb (isResizing p)) (map released l) = true.
Proof. intros l. induction l as [|p l IH]; [reflexivity | exact IH]. Qed.

Lemma released_same : forall l,
  existsb isResizing l = false -> map released l = l.
Proof.
  intros l. induction l as [|p l IH]; intros H; [reflexivity|].
  cbn [existsb] in H. apply orb_false_iff in H. destruct H as [Hp Hl].
  cbn [map]. rewrite (IH Hl). f_equal. destruct p. cbn in Hp. subst. reflexivity.
Qed.

Lemma fold_upStep_idle : forall k ow l s,
  existsb isResizing l = false -> fold_left (upStep k ow) l s = s.
Proof.
  intros k ow l. induction l as [|p l IH]; intros s H; cbn [fold_left]; [reflexivity|].
  cbn [existsb] in H. apply orb_false_iff in H. destruct H as [Hp Hl].
  unfold upStep at 2. rewrite Hp. apply IH. exact Hl.
Qed.

(** X11.  Once the button is released no drag is going on: a pointer move
    after [mouseup] changes nothing, whatever moves came before.  And a
    [mouseup] with no drag going on changes nothing at all: no style and no
    stored width is written. *)
Theorem release_ends_drag : forall k ow x st,
  mouseMove x (mouseUp k ow st) = mouseUp k ow st /\
  (existsb isResizing (panels st) = false -> mouseUp k ow st = st).
Proof.
  intros k ow x st. split.
  - unfold mouseMove. apply fold_panelMouseMove_idle.
    rewrite panels_mouseUp. apply released_idle.
  - intros H. rewrite mouseUp_fold, (fold_upStep_idle _ _ _ _ H), (released_same _ H).
    destruct st; reflexivity.
Qed.

Lemma getItem_setItem_same : forall k v st, getItem k (setItem k v st) = Some v.
Proof.
  intros k v st. unfold getItem, setItem. cbn [localStorage withStorage].
  rewrite find_app_none.
  - cbn [find fst snd]. rewrite String.eqb_refl. reflexivity.
  - apply (find_filter_negb _ (fun kv => String.eqb k (fst kv))).
Qed.

Lemma getStyle_setItem : forall t prop k v st, getStyle t prop (setItem k v st) = getStyle t prop st.
Proof. reflexivity. Qed.

Lemma upStep_resizing : forall k ow s p,
  isResizing p = true ->
  getItem k (upStep k ow s p) = Some (numberToString (ow (sidebar p))) /\
  getStyle OfBody "cursor" (upStep k ow s p) = "" /\
  getStyle OfBody "user-select" (upStep k ow s p) = "" /\
  getStyle (OfElement (gridContainer p)) "transition" (upStep k ow s p) = "".
Proof.
  intros k ow s p H. unfold upStep. rewrite H.
  split; [apply getItem_setItem_same|].
  rewrite !getStyle_setItem.
  split; [|split].
  - rewrite getStyle_setStyle_other by (left; discriminate).
    rewrite getStyle_setStyle_other by (right; discriminate).
    apply getStyle_setStyle_cleared.
  - rewrite getStyle_setStyle_other by (left; discriminate).
    apply getStyle_setStyle_cleared.
  - apply getStyle_setStyle_cleared.
Qed.

Lemma fold_upStep_last : forall k ow l s,
  existsb isResizing l = true ->
  exists p s', In p l /\ isResizing p = true /\ fold_left (upStep k ow) l s = upStep k ow s' p.
Proof.
  intros k ow l. induction l as [|p l IH] using rev_ind; intros s H; [discriminate|].
  rewrite existsb_app in H. cbn [existsb] in H. rewrite orb_false_r in H.
  rewrite fold_left_app. cbn [fold_left].
  destruct (isResizing p) eqn:Ep.
  - exists p, (fold_left (upStep k ow) l s). split; [apply in_or_app; right; left; reflexivity|].
    split; [exact Ep | reflexivity].
  - rewrite orb_false_r in H. destruct (IH s H) as (q & s' & Hq & Hr & E).
    exists q, s'. split; [apply in_or_app; left; exact Hq|]. split; [exact Hr|].
    unfold upStep at 1. rewrite Ep. exact E.
Qed.

(** X12.  A [mouseup] that ends a drag stores the width the layout gives
    for the sidebar of a panel that was being dragged, as a decimal string
    that [parseInt] reads back as that width, and takes the drag cursor and
    the selection lock off the body and the transition off the grid. *)
Theorem release_stores_width : forall k ow st,
  existsb isResizing (panels st) = true ->
  let st' := mouseUp k ow st in
  exists p,
    In p (panels st) /\ isResizing p = true /\
    getItem k st' = Some (numberToString (ow (sidebar p))) /\
    option_map parseInt (getItem k st') = Some (Some (ow (sidebar p))) /\
    getStyle OfBody "cursor" st' = "" /\
    getStyle OfBody "user-select" st' = "" /\
    getStyle (OfElement (gridContainer p)) "transition" st' = "".
Proof.
  intros k ow st H st'. subst st'. rewrite mouseUp_fold.
  destruct (fold_upStep_last k ow (panels st) (withPanels (map released (panels st)) st) H)
    as (p & s' & Hin & Hr & E).
  rewrite E. destruct (upStep_resizing k ow s' p Hr) as (H1 & H2 & H3 & H4).
  exists p. split; [exact Hin|]. split; [exact Hr|]. split; [exact H1|].
  split; [rewrite H1; cbn [option_map]; rewrite parseInt_numberToString; reflexivity|].
  split; [exact H2|]. split; [exact H3 | exact H4].
Qed.

(** The example panel in the middle of a drag that started at 400 with a
    sidebar 320 wide. *)
Definition dragging : state :=
  mouseDown 4 400 (fun _ => 320) ready.

Lemma release_stores_width_witness :
  existsb isResizing (panels dragging) = true /\
  getItem "sidebar-width" (mouseUp "sidebar-width" laidOut dragging) = Some "350" /\
  getStyle OfBody "cursor" (mouseUp "sidebar-width" laidOut dragging) = "".
Proof.
  assert (H : existsb isResizing (panels dragging) = true) by (vm_compute; reflexivity).
  destruct (release_stores_width "sidebar-width" laidOut dragging H)
    as (p & _ & _ & Hs & _ & Hc & _).
  split; [exact H|]. split; [rewrite Hs; reflexivity | exact Hc].
Defined.

(** X13.  The width at the end of a drag is the width of the next load.
    When a drag ends with the sidebar [w] wide, and a page that sees the
    same local storage is then initialised on a window at least 1024 wide
    whose bounds contain [w], the sidebar's inline width is [w] pixels and
    the grid columns are set from [w]. *)
Theorem released_width_restored_on_load : forall k ow st0 w st lo hi pn,
  existsb isResizing (panels st0) = true ->
  (forall p, In p (panels st0) -> isResizing p = true -> ow (sidebar p) = w) ->
  localStorage st = localStorage (mouseUp k ow st0) ->
  1024 <= innerWidth st ->
  parseInt (getPropertyValue "--sidebar-width-min" st) = Some lo ->
  parseInt (getPropertyValue "--sidebar-width-max" st) = Some hi ->
  lo <= w <= hi ->
  panels (initResizable k st) = panels st ++ [pn] ->
  getStyle (OfElement (sidebar pn)) "width" (initResizable k st) = px w /\
  getStyle (OfElement (gridContainer pn)) "grid-template-columns" (initResizable k st)
  = (numberToString w ++ "px 1fr " ++ trim (getPropertyValue "--toc-width" st))%string.
Proof.
  intros k ow st0 w st lo hi pn Hdrag Hw Hs Hd Hlo Hhi Hb Hp.
  assert (Hk : getItem k st = Some (numberToString w)).
  { rewrite (getItem_same k st _ Hs), mouseUp_fold.
    destruct (fold_upStep_last k ow (panels st0) (withPanels (map released (panels st0)) st0)
                Hdrag) as (p & s' & Hin & Hr & E).
    rewrite E, (proj1 (upStep_resizing k ow s' p Hr)), (Hw p Hin Hr). reflexivity. }
  destruct (initResizable_installs k st pn Hp) as (h & E & _). rewrite E.
  rewrite !getStyle_installed.
  apply (restored_applies k _ _ st w lo hi Hk Hd Hlo Hhi Hb).
Qed.

(** The next page: the same storage, nothing else kept. *)
Definition nextLoad (st : state) : state :=
  mkState page false 1280 custom (localStorage st) [] [] [].

Lemma released_width_restored_witness :
  getStyle (OfElement 3) "width"
    (initResizable "sidebar-width" (nextLoad (mouseUp "sidebar-width" laidOut dragging)))
  = "350px".
Proof.
  refine (proj1 (released_width_restored_on_load "sidebar-width" laidOut dragging 350
                   (nextLoad (mouseUp "sidebar-width" laidOut dragging)) 200 480 thePanel
                   _ _ _ _ _ _ _ _)).
  - vm_compute; reflexivity.
  - intros p _ _. reflexivity.
  - reflexivity.
  - vm_compute; discriminate.
  - vm_compute; reflexivity.
  - vm_compute; reflexivity.
  - lia.
  - vm_compute; reflexivity.
Defined.

(** ** Frames *)

Definition frameStep (s : state) (rq : nat * nat * bool) : state :=
  match rq with
  | (sb, g, false) =>
      mkState (doc s) (isInitialized s) (innerWidth s) (rootStyle s) (localStorage s)
        (inlineStyle s) (frameRequests s ++ [(sb, g, true)]) (panels s)
  | (sb, g, true) =>
      setStyle (OfElement g) "transition" "" (setStyle (OfElement sb) "transition" "" s)
  end.

Lemma animationFrame_fold : forall st,
  animationFrame st
  = fold_left frameStep (frameRequests st)
      (mkState (doc st) (isInitialized st) (innerWidth st) (rootStyle st) (localStorage st)
         (inlineStyle st) [] (panels st)).
Proof. reflexivity. Qed.

(** X14.  [initResizable] switches the transitions of the sidebar and of
    the grid off, and two rendered frames later they are given back: after
    the call both inline transitions are [none], they still are after one
    frame, and after the second frame both are empty and no frame request
    is left. *)
Theorem transitions_back_after_two_frames : forall k st pn,
  frameRequests st = [] ->
  panels (initResizable k st) = panels st ++ [pn] ->
  let sb := OfElement (sidebar pn) in
  let grid := OfElement (gridContainer pn) in
  let st1 := initResizable k st in
  let st2 := animationFrame st1 in
  let st3 := animationFrame st2 in
  (getStyle sb "transition" st1 = "none" /\ getStyle grid "transition" st1 = "none") /\
  (getStyle sb "transition" st2 = "none" /\ getStyle grid "transition" st2 = "none") /\
  (getStyle sb "transition" st3 = "" /\ getStyle grid "transition" st3 = "") /\
  frameRequests st3 = [].
Proof.
  intros k st pn Hf Hp sb grid st1 st2 st3. subst sb grid st1 st2 st3.
  destruct (initResizable_installs k st pn Hp) as (h & E & _). rewrite E. clear E Hp.
  set (s := sidebar pn). set (g := gridContainer pn).
  destruct (sameButStyle_restored k s g st) as (_ & _ & _ & _ & _ & Hfr & _).
  assert (Hnone : forall t, t = OfElement s \/ t = OfElement g ->
            getStyle t "transition" (restored k s g st) = "none").
  { intros t Ht.
    assert (Hprep : getStyle t "transition" (prepared s g st) = "none").
    { unfold prepared. cbv zeta.
      assert (H2 : getStyle t "transition"
                     (setStyle (OfElement g) "transition" "none"
                        (setStyle (OfElement s) "transition" "none" st)) = "none").
      { destruct (styledEqb t (OfElement g)) eqn:Eg.
        - apply styledEqb_eq in Eg. subst t. apply getStyle_setStyle_same. reflexivity.
        - destruct Ht as [Ht | Ht]; subst t.
          + rewrite getStyle_setStyle_other.
            * apply getStyle_setStyle_same. reflexivity.
            * left. intros Eq. rewrite Eq in Eg. cbn [styledEqb] in Eg.
              rewrite Nat.eqb_refl in Eg. discriminate.
          + cbn [styledEqb] in Eg. rewrite Nat.eqb_refl in Eg. discriminate. }
      match goal with |- context [if ?c then _ else _] => destruct c end; [|exact H2].
      rewrite getStyle_setStyle_other by (right; discriminate). exact H2. }
    unfold restored. cbv zeta.
    destruct (getItem k (prepared s g st)) as [sw|]; [|exact Hprep].
    destruct (negb (isEmpty sw) && _); [|exact Hprep].
    destruct (geNum _ _ && leNum _ _); [|exact Hprep].
    destruct (parseInt sw) as [w|]; [|exact Hprep].
    rewrite getStyle_updateGridColumns_other by discriminate.
    rewrite getStyle_setStyle_other by (right; discriminate). exact Hprep. }
  rewrite !animationFrame_fold.
  unfold installed. cbv zeta. cbn [frameRequests doc isInitialized innerWidth rootStyle
                                     localStorage inlineStyle panels].
  rewrite Hfr, Hf. cbn [app fold_left frameStep frameRequests doc isInitialized innerWidth
                          rootStyle localStorage inlineStyle panels].
  split; [split; apply Hnone; auto|].
  split; [split; apply Hnone; auto|].
  split; [|reflexivity].
  split.
  - destruct (styledEqb (OfElement s) (OfElement g)) eqn:Eg.
    + apply styledEqb_eq in Eg. rewrite Eg. apply getStyle_setStyle_cleared.
    + rewrite getStyle_setStyle_other.
      * apply getStyle_setStyle_cleared.
      * left. intros Eq. rewrite Eq in Eg. cbn [styledEqb] in Eg.
        rewrite Nat.eqb_refl in Eg. discriminate.
  - apply getStyle_setStyle_cleared.
Qed.

Lemma transitions_back_witness :
  getStyle (OfElement 3) "transition" ready = "none" /\
  getStyle (OfElement 3) "transition" (animationFrame (animationFrame ready)) = "".
Proof.
  assert (Hf : frameRequests loaded = []) by reflexivity.
  assert (Hp : panels (initResizable "sidebar-width" loaded) = panels loaded ++ [thePanel])
    by (vm_compute; reflexivity).
  pose proof (transitions_back_after_two_frames "sidebar-width" loaded thePanel Hf Hp) as H.
  cbv zeta in H. destruct H as ((H1 & _) & _ & (H3 & _) & _).
  split; [exact H1 | exact H3].
Defined.

(** ** A drag from the press to a move *)

Definition pressed (h : nat) (x0 : Z) (ow : nat -> Z) (p : panel) : panel :=
  if Nat.eqb (handle p) h then panelMouseDown x0 (ow (sidebar p)) p else p.

Definition downStep (h : nat) (s : state) (p : panel) : state :=
  if Nat.eqb (handle p) h then
    setStyle (OfElement (gridContainer p)) "transition" "grid-template-columns 0.05s ease-out"
      (setStyle OfBody "user-select" "none" (setStyle OfBody "cursor" "col-resize" s))
  else s.

Lemma mouseDown_fold : forall h x0 ow st,
  mouseDown h x0 ow st
  = fold_left (downStep h) (panels st) (withPanels (map (pressed h x0 ow) (panels st)) st).
Proof. reflexivity. Qed.

Lemma sameButStyle_fold : forall (f : state -> panel -> state),
  (forall s p, sameButStyle (f s p) s) ->
  forall l s, sameButStyle (fold_left f l s) s.
Proof.
  intros f Hf l. induction l as [|p l IH]; intros s; cbn [fold_left].
  - apply sameButStyle_refl.
  - eapply sameButStyle_trans; [apply IH | apply Hf].
Qed.

Lemma sameButStyle_downStep : forall h s p, sameButStyle (downStep h s p) s.
Proof.
  intros h s p. unfold downStep. destruct (Nat.eqb (handle p) h); repeat split.
Qed.

Lemma sameButStyle_panelMouseMove : forall x s p, sameButStyle (panelMouseMove p x s) s.
Proof.
  intros x s p. unfold panelMouseMove. cbv zeta.
  destruct (negb (isResizing p)); [apply sameButStyle_refl|].
  destruct (geNum _ _ && leNum _ _); [|apply sameButStyle_refl].
  match goal with |- context [if ?c then _ else _] => destruct c end.
  - eapply sameButStyle_trans; [apply sameButStyle_updateGridColumns | apply sameButStyle_setStyle].
  - apply sameButStyle_setStyle.
Qed.

Lemma fold_downStep_last : forall h l s,
  existsb (fun p => Nat.eqb (handle p) h) l = true ->
  exists p s', In p l /\ handle p = h /\ fold_left (downStep h) l s = downStep h s' p.
Proof.
  intros h l. induction l as [|p l IH] using rev_ind; intros s H; [discriminate|].
  rewrite existsb_app in H. cbn [existsb] in H. rewrite orb_false_r in H.
  rewrite fold_left_app. cbn [fold_left].
  destruct (Nat.eqb (handle p) h) eqn:Ep.
  - exists p, (fold_left (downStep h) l s). split; [apply in_or_app; right; left; reflexivity|].
    split; [apply Nat.eqb_eq; exact Ep | reflexivity].
  - rewrite orb_false_r in H. destruct (IH s H) as (q & s' & Hq & Hr & E).
    exists q, s'. split; [apply in_or_app; left; exact Hq|]. split; [exact Hr|].
    unfold downStep at 1. rewrite Ep. exact E.
Qed.

(** The width a resizing panel asks for on a move to [x]. *)
Definition wanted (x : Z) (p : panel) : Z := startWidth p + (x - startX p).

Lemma panelMouseMove_applies : forall x p s lo hi,
  isResizing p = true ->
  parseInt (getPropertyValue "--sidebar-width-min" s) = Some lo ->
  parseInt (getPropertyValue "--sidebar-width-max" s) = Some hi ->
  lo <= wanted x p <= hi ->
  getStyle (OfElement (sidebar p)) "width" (panelMouseMove p x s) = px (wanted x p).
Proof.
  intros x p s lo hi Hr Hlo Hhi Hb. unfold panelMouseMove. cbv zeta.
  rewrite Hr, Hlo, Hhi. cbn [negb geNum leNum]. fold (wanted x p).
  destruct (Z.leb_spec lo (wanted x p)); [|lia].
  destruct (Z.leb_spec (wanted x p) hi); [|lia]. cbn [andb].
  match goal with |- context [if ?c then _ else _] => destruct c end.
  - rewrite getStyle_updateGridColumns_width. apply getStyle_setStyle_same, px_nonempty.
  - apply getStyle_setStyle_same, px_nonempty.
Qed.

Lemma panelMouseMove_refuses : forall x p s lo hi,
  parseInt (getPropertyValue "--sidebar-width-min" s) = Some lo ->
  parseInt (getPropertyValue "--sidebar-width-max" s) = Some hi ->
  ~ (lo <= wanted x p <= hi) ->
  panelMouseMove p x s = s.
Proof.
  intros x p s lo hi Hlo Hhi Hb. unfold panelMouseMove. cbv zeta.
  destruct (negb (isResizing p)); [reflexivity|].
  rewrite Hlo, Hhi. cbn [geNum leNum]. fold (wanted x p).
  destruct (Z.leb_spec lo (wanted x p)); [|reflexivity].
  destruct (Z.leb_spec (wanted x p) hi); [lia | reflexivity].
Qed.

Lemma fold_move_applies : forall x sb nw lo hi l s,
  parseInt (getPropertyValue "--sidebar-width-min" s) = Some lo ->
  parseInt (getPropertyValue "--sidebar-width-max" s) = Some hi ->
  lo <= nw <= hi ->
  (forall q, In q l -> isResizing q = true -> sidebar q = sb /\ wanted x q = nw) ->
  existsb isResizing l = true ->
  getStyle (OfElement sb) "width" (fold_left (fun s p => panelMouseMove p x s) l s) = px nw.
Proof.
  intros x sb nw lo hi l. induction l as [|q l IH] using rev_ind;
    intros s Hlo Hhi Hb Hall Hex; [discriminate|].
  rewrite existsb_app in Hex. cbn [existsb] in Hex. rewrite orb_false_r in Hex.
  rewrite fold_left_app. cbn [fold_left].
  set (s' := fold_left (fun s p => panelMouseMove p x s) l s).
  destruct (sameButStyle_fold (fun s p => panelMouseMove p x s)
              (fun s p => sameButStyle_panelMouseMove x s p) l s) as (_ & _ & _ & Hr & _).
  fold s' in Hr.
  destruct (isResizing q) eqn:Eq.
  - assert (Hq : In q (l ++ [q])) by (apply in_or_app; right; left; reflexivity).
    destruct (Hall q Hq Eq) as [Hsb Hw].
    rewrite <- Hsb, <- Hw. apply (panelMouseMove_applies x q s' lo hi Eq).
    + rewrite (getPropertyValue_same _ s' s Hr). exact Hlo.
    + rewrite (getPropertyValue_same _ s' s Hr). exact Hhi.
    + rewrite Hw. exact Hb.
  - rewrite orb_false_r in Hex. unfold panelMouseMove. rewrite Eq. cbn [negb].
    apply (IH s Hlo Hhi Hb); [|exact Hex].
    intros q' Hq'. apply Hall. apply in_or_app. left. exact Hq'.
Qed.

Lemma fold_move_refuses : forall x nw lo hi l s,
  parseInt (getPropertyValue "--sidebar-width-min" s) = Some lo ->
  parseInt (getPropertyValue "--sidebar-width-max" s) = Some hi ->
  ~ (lo <= nw <= hi) ->
  (forall q, In q l -> isResizing q = true -> wanted x q = nw) ->
  fold_left (fun s p => panelMouseMove p x s) l s = s.
Proof.
  intros x nw lo hi l. induction l as [|q l IH]; intros s Hlo Hhi Hb Hall;
    cbn [fold_left]; [reflexivity|].
  assert (Hq : panelMouseMove q x s = s).
  { unfold panelMouseMove. destruct (isResizing q) eqn:Eq; [|reflexivity]. cbn [negb].
    pose proof (Hall q (or_introl eq_refl) Eq) as Hw.
    pose proof (panelMouseMove_refuses x q s lo hi Hlo Hhi) as Hn.
    unfold panelMouseMove in Hn. rewrite Eq in Hn. cbn [negb] in Hn.
    apply Hn. rewrite Hw. exact Hb. }
  rewrite Hq. apply (IH s Hlo Hhi Hb). intros q' Hq'. apply Hall. right. exact Hq'.
Qed.

Lemma pressed_resizing : forall h x0 ow l q,
  existsb isResizing l = false ->
  In q (map (pressed h x0 ow) l) -> isResizing q = true ->
  exists p, In p l /\ handle p = h /\ q = panelMouseDown x0 (ow (sidebar p)) p.
Proof.
  intros h x0 ow l q Hidle Hin Hr. apply in_map_iff in Hin. destruct Hin as (p & Ep & Hp).
  exists p. unfold pressed in Ep. destruct (Nat.eqb (handle p) h) eqn:Eh.
  - split; [exact Hp|]. split; [apply Nat.eqb_eq; exact Eh | symmetry; exact Ep].
  - subst q. exfalso.
    assert (Hc : existsb isResizing l = true) by (apply existsb_exists; exists p; auto).
    congruence.
Qed.

(** X15.  A drag from press to move.  When no drag is going on and the
    handle of a panel is pressed at [x0] with its sidebar [w0] wide, the
    body gets the resize cursor and the selection lock; a move to [x] then
    sets the sidebar's inline width to [w0 + (x - x0)] pixels when that lies
    between the two bounds, and changes nothing when it does not. *)
Theorem press_then_move : forall h x0 x ow st p lo hi,
  existsb isResizing (panels st) = false ->
  In p (panels st) -> handle p = h ->
  (forall q, In q (panels st) -> handle q = h -> sidebar q = sidebar p) ->
  parseInt (getPropertyValue "--sidebar-width-min" st) = Some lo ->
  parseInt (getPropertyValue "--sidebar-width-max" st) = Some hi ->
  let newWidth := ow (sidebar p) + (x - x0) in
  let st1 := mouseDown h x0 ow st in
  (getStyle OfBody "cursor" st1 = "col-resize" /\ getStyle OfBody "user-select" st1 = "none") /\
  (lo <= newWidth <= hi ->
   getStyle (OfElement (sidebar p)) "width" (mouseMove x st1) = px newWidth) /\
  (~ (lo <= newWidth <= hi) -> mouseMove x st1 = st1).
Proof.
  intros h x0 x ow st p lo hi Hidle Hin Hh Hsame Hlo Hhi newWidth st1.
  assert (Hex : existsb (fun q => Nat.eqb (handle q) h) (panels st) = true).
  { apply existsb_exists. exists p. split; [exact Hin | apply Nat.eqb_eq; exact Hh]. }
  pose proof (sameButStyle_fold (downStep h) (sameButStyle_downStep h) (panels st)
                (withPanels (map (pressed h x0 ow) (panels st)) st)) as Hsb.
  rewrite <- mouseDown_fold in Hsb. fold st1 in Hsb.
  destruct Hsb as (_ & _ & _ & Hr & _ & _ & Hp).
  cbn [rootStyle panels withPanels] in Hr, Hp.
  assert (Hlo1 : parseInt (getPropertyValue "--sidebar-width-min" st1) = Some lo)
    by (rewrite (getPropertyValue_same _ st1 st Hr); exact Hlo).
  assert (Hhi1 : parseInt (getPropertyValue "--sidebar-width-max" st1) = Some hi)
    by (rewrite (getPropertyValue_same _ st1 st Hr); exact Hhi).
  assert (Hall : forall q, In q (panels st1) -> isResizing q = true ->
            sidebar q = sidebar p /\ wanted x q = newWidth).
  { intros q Hq Hrq. rewrite Hp in Hq.
    destruct (pressed_resizing h x0 ow (panels st) q Hidle Hq Hrq) as (p' & Hp' & Hh' & Eq).
    subst q. unfold wanted, newWidth. cbn [panelMouseDown sidebar startWidth startX].
    rewrite (Hsame p' Hp' Hh'). split; reflexivity. }
  split; [|split].
  - subst st1. rewrite mouseDown_fold.
    destruct (fold_downStep_last h (panels st)
                (withPanels (map (pressed h x0 ow) (panels st)) st) Hex)
      as (q & s' & _ & Hq & E).
    rewrite E. unfold downStep. rewrite Hq, Nat.eqb_refl. split.
    + rewrite getStyle_setStyle_other by (left; discriminate).
      rewrite getStyle_setStyle_other by (right; discriminate).
      apply getStyle_setStyle_same. reflexivity.
    + rewrite getStyle_setStyle_other by (left; discriminate).
      apply getStyle_setStyle_same. reflexivity.
  - intros Hb. unfold mouseMove.
    apply (fold_move_applies x (sidebar p) newWidth lo hi (panels st1) st1 Hlo1 Hhi1 Hb Hall).
    rewrite Hp. apply existsb_exists. exists (pressed h x0 ow p).
    split; [apply in_map; exact Hin|].
    unfold pressed. rewrite Hh, Nat.eqb_refl. reflexivity.
  - intros Hb. unfold mouseMove.
    apply (fold_move_refuses x newWidth lo hi (panels st1) st1 Hlo1 Hhi1 Hb).
    intros q Hq Hrq. apply (Hall q Hq Hrq).
Qed.

Lemma press_then_move_witness :
  getStyle OfBody "cursor" (mouseDown 4 400 (fun _ => 320) ready) = "col-resize" /\
  getStyle (OfElement 3) "width" (mouseMove 430 (mouseDown 4 400 (fun _ => 320) ready)) = "350px" /\
  mouseMove 900 (mouseDown 4 400 (fun _ => 320) ready) = mouseDown 4 400 (fun _ => 320) ready.
Proof.
  assert (H : forall x,
    (getStyle OfBody "cursor" (mouseDown 4 400 (fun _ => 320) ready) = "col-resize" /\
     getStyle OfBody "user-select" (mouseDown 4 400 (fun _ => 320) ready) = "none") /\
    (200 <= 320 + (x - 400) <= 480 ->
     getStyle (OfElement 3) "width" (mouseMove x (mouseDown 4 400 (fun _ => 320) ready))
     = px (320 + (x - 400))) /\
    (~ (200 <= 320 + (x - 400) <= 480) ->
     mouseMove x (mouseDown 4 400 (fun _ => 320) ready) = mouseDown 4 400 (fun _ => 320) ready)).
  { intros x.
    refine (press_then_move 4 400 x (fun _ => 320) ready thePanel 200 480 _ _ _ _ _ _).
    - vm_compute; reflexivity.
    - vm_compute. left. reflexivity.
    - reflexivity.
    - intros q Hq _. vm_compute in Hq. destruct Hq as [Hq | []]. subst q. reflexivity.
    - vm_compute; reflexivity.
    - vm_compute; reflexivity. }
  split; [exact (proj1 (proj1 (H 430)))|].
  split.
  - apply (proj1 (proj2 (H 430))). lia.
  - apply (proj2 (proj2 (H 900))). lia.
Defined.

(** ** What is never written *)

Lemma localStorage_frameStep : forall s rq, localStorage (frameStep s rq) = localStorage s.
Proof. intros s [[sb g] [|]]; reflexivity. Qed.

Lemma localStorage_fold : forall (A : Type) (f : state -> A -> state),
  (forall s a, localStorage (f s a) = localStorage s) ->
  forall l s, localStorage (fold_left f l s) = localStorage s.
Proof.
  intros A f Hf l. induction l as [|a l IH]; intros s; cbn [fold_left]; [reflexivity|].
  rewrite IH. apply Hf.
Qed.

Lemma sameButStyle_panelResized : forall p ow st, sameButStyle (panelResized p ow st) st.
Proof.
  intros p ow st. unfold panelResized. cbv zeta.
  destruct (innerWidth st <? 1024); [apply sameButStyle_setStyle|].
  destruct (negb _); [|apply sameButStyle_refl].
  match goal with |- context [match ?c with Some _ => _ | None => _ end] => destruct c as [w|] end;
    [|apply sameButStyle_refl].
  destruct (w =? 0); [apply sameButStyle_refl | apply sameButStyle_updateGridColumns].
Qed.

(** X16.  The stored width is written at the end of a drag and nowhere
    else: initialising, pressing the handle, moving the pointer, a rendered
    frame, a window resize and a page swap all leave the local storage as
    it was. *)
Theorem storage_written_only_on_release : forall k h x0 x ow p st,
  localStorage (initResizable k st) = localStorage st /\
  localStorage (mouseDown h x0 ow st) = localStorage st /\
  localStorage (mouseMove x st) = localStorage st /\
  localStorage (animationFrame st) = localStorage st /\
  localStorage (panelResized p ow st) = localStorage st /\
  localStorage (beforeSwap st) = localStorage st.
Proof.
  intros k h x0 x ow p st.
  split; [|split; [|split; [|split; [|split]]]].
  - destruct (initResizable_cases k st) as [E | (h' & s & g & E & _)]; rewrite E; [reflexivity|].
    unfold installed. cbn [localStorage].
    destruct (sameButStyle_restored k s g st) as (_ & _ & _ & _ & Hs & _). exact Hs.
  - rewrite mouseDown_fold.
    destruct (sameButStyle_fold (downStep h) (sameButStyle_downStep h) (panels st)
                (withPanels (map (pressed h x0 ow) (panels st)) st))
      as (_ & _ & _ & _ & Hs & _). exact Hs.
  - unfold mouseMove.
    destruct (sameButStyle_fold (fun s p => panelMouseMove p x s)
                (fun s p => sameButStyle_panelMouseMove x s p) (panels st) st)
      as (_ & _ & _ & _ & Hs & _). exact Hs.
  - rewrite animationFrame_fold.
    rewrite (localStorage_fold _ frameStep localStorage_frameStep). reflexivity.
  - destruct (sameButStyle_panelResized p ow st) as (_ & _ & _ & _ & Hs & _). exact Hs.
  - reflexivity.
Qed.

Definition gridColumns (t : styled) (st : state) : string := getStyle t "grid-template-columns" st.

Lemma gridColumns_panelMouseMove_narrow : forall x p t s,
  innerWidth s < 1024 -> gridColumns t (panelMouseMove p x s) = gridColumns t s.
Proof.
  intros x p t s Hn. unfold panelMouseMove, gridColumns. cbv zeta.
  destruct (negb (isResizing p)); [reflexivity|].
  destruct (geNum _ _ && leNum _ _); [|reflexivity].
  change (innerWidth (setStyle (OfElement (sidebar p)) "width"
                        (px (startWidth p + (x - startX p))) s)) with (innerWidth s).
  destruct (Z.leb_spec 1024 (innerWidth s)); [lia|].
  apply getStyle_setStyle_other. right. discriminate.
Qed.

Lemma gridColumns_fold_move_narrow : forall x t l s,
  innerWidth s < 1024 ->
  gridColumns t (fold_left (fun s p => panelMouseMove p x s) l s) = gridColumns t s.
Proof.
  intros x t l. induction l as [|p l IH]; intros s Hn; cbn [fold_left]; [reflexivity|].
  rewrite IH.
  - apply gridColumns_panelMouseMove_narrow. exact Hn.
  - destruct (sameButStyle_panelMouseMove x s p) as (_ & _ & Hw & _). rewrite Hw. exact Hn.
Qed.

Lemma gridColumns_setStyle_cleared_or_same : forall t g st,
  gridColumns t (setStyle (OfElement g) "grid-template-columns" "" st) = gridColumns t st \/
  gridColumns t (setStyle (OfElement g) "grid-template-columns" "" st) = "".
Proof.
  intros t g st. unfold gridColumns. destruct (styledEqb t (OfElement g)) eqn:E.
  - apply styledEqb_eq in E. subst t. right. apply getStyle_setStyle_cleared.
  - left. apply getStyle_setStyle_other. left. intros Eq. subst t.
    cbn [styledEqb] in E. rewrite Nat.eqb_refl in E. discriminate.
Qed.

(** X17.  On a window narrower than 1024 the scripts never put inline grid
    columns on any element: after [initResizable], a pointer move or a
    window resize, the inline [grid-template-columns] of every element is
    what it was or is empty, and the grid of a panel that was installed or
    resized has none. *)
Theorem narrow_window_gets_no_grid_columns : forall k x ow p t st,
  innerWidth st < 1024 ->
  (gridColumns t (initResizable k st) = gridColumns t st \/
   gridColumns t (initResizable k st) = "") /\
  (forall pn, panels (initResizable k st) = panels st ++ [pn] ->
     gridColumns (OfElement (gridContainer pn)) (initResizable k st) = "") /\
  gridColumns t (mouseMove x st) = gridColumns t st /\
  (gridColumns t (panelResized p ow st) = gridColumns t st \/
   gridColumns t (panelResized p ow st) = "") /\
  gridColumns (OfElement (gridContainer p)) (panelResized p ow st) = "".
Proof.
  intros k x ow p t st Hn.
  assert (Hlt : (innerWidth st <? 1024) = true) by (apply Z.ltb_lt; exact Hn).
  assert (Hle : (1024 <=? innerWidth st) = false) by (apply Z.leb_gt; exact Hn).
  assert (Hinst : forall h s g u,
            gridColumns u (installed k h s g st)
            = gridColumns u (setStyle (OfElement g) "grid-template-columns" ""
                               (setStyle (OfElement g) "transition" "none"
                                  (setStyle (OfElement s) "transition" "none" st)))).
  { intros h s g u. unfold gridColumns. rewrite getStyle_installed.
    unfold restored. cbv zeta.
    assert (Hprep : prepared s g st
                    = setStyle (OfElement g) "grid-template-columns" ""
                        (setStyle (OfElement g) "transition" "none"
                           (setStyle (OfElement s) "transition" "none" st))).
    { unfold prepared. cbv zeta.
      change (innerWidth (setStyle (OfElement g) "transition" "none"
                            (setStyle (OfElement s) "transition" "none" st)))
        with (innerWidth st).
      rewrite Hlt. reflexivity. }
    rewrite Hprep.
    match goal with |- context [getItem k ?s0] => destruct (getItem k s0) as [sw|] end;
      [|reflexivity].
    change (innerWidth (setStyle (OfElement g) "grid-template-columns" ""
                          (setStyle (OfElement g) "transition" "none"
                             (setStyle (OfElement s) "transition" "none" st))))
      with (innerWidth st).
    rewrite Hle, andb_false_r. reflexivity. }
  split; [|split; [|split; [|split]]].
  - destruct (initResizable_cases k st) as [E | (h & s & g & E & _)]; rewrite E;
      [left; reflexivity|].
    rewrite Hinst.
    destruct (gridColumns_setStyle_cleared_or_same t g
                (setStyle (OfElement g) "transition" "none"
                   (setStyle (OfElement s) "transition" "none" st))) as [H | H].
    + left. rewrite H. unfold gridColumns.
      rewrite !getStyle_setStyle_other by (right; discriminate). reflexivity.
    + right. exact H.
  - intros pn Hp. destruct (initResizable_installs k st pn Hp) as (h & E & _).
    rewrite E, Hinst. apply getStyle_setStyle_cleared.
  - unfold mouseMove. apply gridColumns_fold_move_narrow. exact Hn.
  - unfold panelResized. rewrite Hlt. apply gridColumns_setStyle_cleared_or_same.
  - unfold panelResized. rewrite Hlt. apply getStyle_setStyle_cleared.
Qed.

Lemma narrow_window_witness :
  gridColumns (OfElement 1) narrow = "320px 1fr 240px" /\
  gridColumns (OfElement 1) (initResizable "sidebar-width" narrow) = "" /\
  gridColumns (OfElement 1) (panelResized thePanel laidOut narrow) = "".
Proof.
  assert (Hn : innerWidth narrow < 1024) by (vm_compute; reflexivity).
  pose proof (narrow_window_gets_no_grid_columns "sidebar-width" 0 laidOut thePanel
                (OfElement 1) narrow Hn) as (_ & H2 & _ & _ & H5).
  split; [reflexivity|]. split; [|exact H5].
  apply (H2 thePanel). vm_compute. reflexivity.
Defined.

(** X18.  The debounced [resize] listener on a window at least 1024 wide,
    for a sidebar with an inline width of [w] pixels: the grid columns are
    set from the width the layout gives, or from the inline width when the
    layout gives 0; when both are 0 nothing is written. *)
Theorem resize_restores_grid_columns : forall p ow st w,
  1024 <= innerWidth st ->
  getStyle (OfElement (sidebar p)) "width" st = px w ->
  let used := if ow (sidebar p) =? 0 then w else ow (sidebar p) in
  (used <> 0 ->
   gridColumns (OfElement (gridContainer p)) (panelResized p ow st)
   = (numberToString used ++ "px 1fr " ++ trim (getPropertyValue "--toc-width" st))%string) /\
  (used = 0 -> panelResized p ow st = st).
Proof.
  intros p ow st w Hd Hw used.
  assert (Hlt : (innerWidth st <? 1024) = false) by (apply Z.ltb_ge; exact Hd).
  assert (E : panelResized p ow st
              = if used =? 0 then st else updateGridColumns (gridContainer p) used st).
  { unfold panelResized. cbv zeta. rewrite Hlt, Hw, px_nonempty. cbn [negb]. subst used.
    destruct (ow (sidebar p) =? 0); [rewrite parseInt_px|]; reflexivity. }
  rewrite E. split; intros Hu.
  - destruct (Z.eqb_spec used 0); [contradiction|].
    apply updateGridColumns_desktop. exact Hd.
  - rewrite Hu. reflexivity.
Qed.

(** The example page after a move of the drag to 430. *)
Definition moved : state := mouseMove 430 dragging.

Lemma resize_restores_witness :
  gridColumns (OfElement 1) (panelResized (pressed 4 400 (fun _ => 320) thePanel) (fun _ => 0) moved)
  = "350px 1fr 240px".
Proof.
  refine (proj1 (resize_restores_grid_columns (pressed 4 400 (fun _ => 320) thePanel)
                   (fun _ => 0) moved 350 _ _) _).
  - vm_compute; discriminate.
  - vm_compute; reflexivity.
  - vm_compute; discriminate.
Defined.

End ResizableProperties.

(* ================================================================== *)
(** * The keyboard module: what moving the cursor keeps *)
(* ================================================================== *)

Module KeyboardProperties.
Import Nav DomFacts NavFacts Keyboard KeyboardFacts.

(** ** Writes to the two attributes of the cursor *)

Definition cursorAttr (n : string) : bool :=
  String.eqb n "tabindex" || String.eqb n "data-focused".

(** A change of elements that touches nothing but those two attributes. *)
Definition attrOnly (g : element -> element) : Prop :=
  forall e,
    ref (g e) = ref e /\ tagName (g e) = tagName e /\ classList (g e) = classList e /\
    forall n, cursorAttr n = false -> getAttribute n (g e) = getAttribute n e.

(** The selectors that do not look at them. *)
Fixpoint cursorFree (s : selector) : bool :=
  match s with
  | SelTag _ | SelClass _ | SelId _ => true
  | SelAttr n | SelAttrPrefix n _ | SelAttrContains n _ => negb (cursorAttr n)
  | SelNot s' => cursorFree s'
  | SelAnd s1 s2 => cursorFree s1 && cursorFree s2
  end.

Lemma attrOnly_keepsRef : forall g, attrOnly g -> keepsRef g.
Proof. intros g H e. apply (H e). Qed.

Lemma attrOnly_id : attrOnly (fun e => e).
Proof. intros e. repeat split. Qed.

Lemma attrOnly_compose : forall g h, attrOnly g -> attrOnly h -> attrOnly (fun e => g (h e)).
Proof.
  intros g h Hg Hh e. destruct (Hg (h e)) as (G1 & G2 & G3 & G4).
  destruct (Hh e) as (H1 & H2 & H3 & H4).
  repeat split; try congruence. intros n Hn. rewrite G4, H4 by exact Hn. reflexivity.
Qed.

Lemma attrOnly_atRef : forall r g, attrOnly g -> attrOnly (atRef r g).
Proof.
  intros r g Hg e. unfold atRef. destruct (hasRef r e); [apply Hg | repeat split].
Qed.

Lemma cursorAttr_differs : forall n name, cursorAttr n = false -> cursorAttr name = true -> n <> name.
Proof. intros n name Hn Hname E. subst. congruence. Qed.

Lemma attrOnly_setAttribute : forall name v, cursorAttr name = true -> attrOnly (setAttribute name v).
Proof.
  intros name v Hc e. repeat split. intros n Hn.
  apply getAttribute_setAttribute_other.
  intros E. apply (cursorAttr_differs n name Hn Hc). congruence.
Qed.

Lemma attrOnly_removeAttribute : forall name, cursorAttr name = true -> attrOnly (removeAttribute name).
Proof.
  intros name Hc e. repeat split. intros n Hn.
  apply getAttribute_removeAttribute_other.
  intros E. apply (cursorAttr_differs n name Hn Hc). congruence.
Qed.

Lemma matchesElement_attrOnly : forall g s e,
  attrOnly g -> cursorFree s = true -> matchesElement s (g e) = matchesElement s e.
Proof.
  intros g s e Hg. destruct (Hg e) as (_ & Ht & Hc & Ha).
  induction s as [t | c | i | n | n p | n p | s IH | s1 IH1 s2 IH2]; cbn [matchesElement cursorFree];
    intros Hs.
  - rewrite Ht. reflexivity.
  - unfold hasClass. rewrite Hc. reflexivity.
  - rewrite Ha by reflexivity. reflexivity.
  - unfold hasAttribute. rewrite Ha by (apply negb_true_iff; exact Hs). reflexivity.
  - rewrite Ha by (apply negb_true_iff; exact Hs). reflexivity.
  - rewrite Ha by (apply negb_true_iff; exact Hs). reflexivity.
  - rewrite IH by exact Hs. reflexivity.
  - apply andb_true_iff in Hs. destruct Hs as [H1 H2].
    rewrite IH1, IH2 by assumption. reflexivity.
Qed.

Lemma matches_attrOnly : forall g s n,
  attrOnly g -> cursorFree s = true -> matches s (mapElements g n) = matches s n.
Proof.
  intros g s [t | e ch] Hg Hs; [reflexivity|]. apply matchesElement_attrOnly; assumption.
Qed.

(** ** Queries on a document written to in this way *)

Lemma filter_map_inv : forall (A : Type) (f : A -> bool) (h : A -> A) (l : list A),
  (forall a, f (h a) = f a) -> filter f (map h l) = map h (filter f l).
Proof.
  intros A f h l H. induction l as [|a l IH]; cbn [map filter]; [reflexivity|].
  rewrite H, IH. destruct (f a); reflexivity.
Qed.

Lemma querySelectorAll_attrOnly : forall g s n,
  attrOnly g -> cursorFree s = true ->
  querySelectorAll s (mapElements g n) = map (mapElements g) (querySelectorAll s n).
Proof.
  intros g s n Hg Hs. unfold querySelectorAll. rewrite descendants_mapElements.
  apply filter_map_inv. intros a. apply matches_attrOnly; assumption.
Qed.

Lemma querySelector_attrOnly : forall g s n,
  attrOnly g -> cursorFree s = true ->
  querySelector s (mapElements g n) = option_map (mapElements g) (querySelector s n).
Proof.
  intros g s n Hg Hs. unfold querySelector. rewrite descendants_mapElements.
  apply find_map_inv. intros a. apply matches_attrOnly; assumption.
Qed.

Lemma docQuerySelector_attrOnly : forall g s d,
  attrOnly g -> cursorFree s = true ->
  docQuerySelector s (map (mapElements g) d) = option_map (mapElements g) (docQuerySelector s d).
Proof.
  intros g s d Hg Hs. unfold docQuerySelector. rewrite elementsOf_mapElements.
  apply find_map_inv. intros a. apply matches_attrOnly; assumption.
Qed.

Lemma chains_mapElements : forall g n,
  VisibleItemsFacts.chains (mapElements g n)
  = map (map (mapElements g)) (VisibleItemsFacts.chains n).
Proof.
  intros g n. induction n as [s | e ch IH] using node_tree_ind; [reflexivity|].
  cbn [mapElements VisibleItemsFacts.chains map]. f_equal.
  rewrite map_map.
  assert (Hch : flat_map VisibleItemsFacts.chains (map (mapElements g) ch)
                = map (map (mapElements g)) (flat_map VisibleItemsFacts.chains ch)).
  { induction ch as [|c ch IHch]; [reflexivity|].
    inversion IH as [|? ? Hc Hrest]; subst. cbn [map flat_map].
    rewrite map_app, Hc, IHch by exact Hrest. reflexivity. }
  rewrite Hch, map_map. apply map_ext. intros p. rewrite map_app. reflexivity.
Qed.

Lemma chainOf_mapElements : forall g r d,
  keepsRef g ->
  chainOf r (map (mapElements g) d) = option_map (map (mapElements g)) (chainOf r d).
Proof.
  intros g r d Hg. rewrite !VisibleItemsFacts.chainOf_find.
  assert (Hc : VisibleItemsFacts.chainsOf (map (mapElements g) d)
               = map (map (mapElements g)) (VisibleItemsFacts.chainsOf d)).
  { unfold VisibleItemsFacts.chainsOf. induction d as [|n d IH]; [reflexivity|].
    cbn [map flat_map]. rewrite map_app, chains_mapElements, IH. reflexivity. }
  rewrite Hc. apply find_map_inv. intros [|x p]; [reflexivity|].
  cbn [map VisibleItemsFacts.headIs]. apply isRef_mapElements. exact Hg.
Qed.

Lemma closest_attrOnly : forall g s r d,
  attrOnly g -> cursorFree s = true ->
  closest s r (map (mapElements g) d) = option_map (mapElements g) (closest s r d).
Proof.
  intros g s r d Hg Hs. unfold closest.
  rewrite chainOf_mapElements by (apply attrOnly_keepsRef; exact Hg).
  destruct (chainOf r d) as [p|]; [|reflexivity]. cbn [option_map].
  apply find_map_inv. intros a. apply matches_attrOnly; assumption.
Qed.

(** The visible items are the same before and after. *)
Lemma getVisibleNavItems_attrOnly : forall g nav d,
  attrOnly g ->
  getVisibleNavItems (mapElements g nav) (map (mapElements g) d) = getVisibleNavItems nav d.
Proof.
  intros g nav d Hg. unfold getVisibleNavItems.
  rewrite querySelectorAll_attrOnly by (exact Hg || reflexivity).
  rewrite refsOf_map_mapElements by (apply attrOnly_keepsRef; exact Hg).
  apply filter_ext. intros item.
  rewrite closest_attrOnly by (exact Hg || reflexivity).
  destruct (closest (SelClass "nav-section") item d) as [section|]; [|reflexivity].
  cbn [option_map]. apply matches_attrOnly; [exact Hg | reflexivity].
Qed.

(** ** The operations of the module as such writes *)

Definition attrImage (d d' : forest) : Prop :=
  exists g, attrOnly g /\ d' = map (mapElements g) d.

Lemma attrImage_refl : forall d, attrImage d d.
Proof.
  intros d. exists (fun e => e). split; [apply attrOnly_id|].
  rewrite <- (map_id d) at 1. apply map_ext. intros n.
  symmetry. apply SearchFacts.mapElements_id.
Qed.

Lemma attrImage_trans : forall a b c, attrImage a b -> attrImage b c -> attrImage a c.
Proof.
  intros a b c (g & Hg & Eb) (h & Hh & Ec). exists (fun e => h (g e)).
  split; [apply attrOnly_compose; assumption|].
  rewrite Ec, Eb, map_map. apply map_ext. intros n. apply SearchFacts.mapElements_compose.
Qed.

Lemma attrImage_updateElement : forall r g d, attrOnly g -> attrImage d (updateElement r g d).
Proof.
  intros r g d Hg. exists (atRef r g). split; [apply attrOnly_atRef; exact Hg | reflexivity].
Qed.

Lemma attrImage_setAttr : forall r name v st,
  cursorAttr name = true -> attrImage (doc st) (doc (setAttr r name v st)).
Proof. intros. apply attrImage_updateElement, attrOnly_setAttribute. assumption. Qed.

Lemma attrImage_removeAttr : forall r name st,
  cursorAttr name = true -> attrImage (doc st) (doc (removeAttr r name st)).
Proof. intros. apply attrImage_updateElement, attrOnly_removeAttribute. assumption. Qed.

Lemma attrImage_onFocusOut : forall t rt st, attrImage (doc st) (doc (onFocusOut t rt st)).
Proof.
  intros t rt st. unfold onFocusOut.
  destruct (getElem t (doc st)) as [x|]; [|apply attrImage_refl].
  destruct (matches (SelAttr "data-nav-item") x); [|apply attrImage_refl].
  match goal with |- context [if ?b then st else _] => destruct b end;
    [apply attrImage_refl | apply attrImage_removeAttr; reflexivity].
Qed.

Lemma attrImage_focus : forall r st, attrImage (doc st) (doc (focus r st)).
Proof.
  intros r st. unfold focus. destruct (activeElement st) as [old|]; [|apply attrImage_refl].
  destruct (Nat.eqb old r); [apply attrImage_refl|]. apply attrImage_onFocusOut.
Qed.

Lemma attrImage_blur : forall r st, attrImage (doc st) (doc (blur r st)).
Proof.
  intros r st. unfold blur. destruct (activeElement st) as [old|]; [|apply attrImage_refl].
  destruct (Nat.eqb old r); [|apply attrImage_refl]. apply attrImage_onFocusOut.
Qed.

Lemma attrImage_setFocusedItem : forall m st, attrImage (doc st) (doc (setFocusedItem m st)).
Proof.
  intros m st. unfold setFocusedItem. cbv zeta.
  set (st1 := match currentFocusedItem st with
              | Some c => if negb (Nat.eqb c m)
                          then removeAttr c "data-focused" (setAttr c "tabindex" "-1" st)
                          else st
              | None => st
              end).
  assert (H1 : attrImage (doc st) (doc st1)).
  { subst st1. destruct (currentFocusedItem st) as [c|]; [|apply attrImage_refl].
    destruct (negb (Nat.eqb c m)); [|apply attrImage_refl].
    eapply attrImage_trans; [apply (attrImage_setAttr c "tabindex" "-1" st); reflexivity|].
    apply attrImage_removeAttr. reflexivity. }
  change (doc (withCurrent (Some m)
                 (focus m (setAttr m "data-focused" "true" (setAttr m "tabindex" "0" st1)))))
    with (doc (focus m (setAttr m "data-focused" "true" (setAttr m "tabindex" "0" st1)))).
  eapply attrImage_trans; [exact H1|].
  eapply attrImage_trans; [apply (attrImage_setAttr m "tabindex" "0" st1); reflexivity|].
  eapply attrImage_trans; [|apply attrImage_focus].
  apply attrImage_setAttr. reflexivity.
Qed.

Lemma attrImage_fold_tabindex : forall items st,
  attrImage (doc st) (doc (fold_left (fun s item => setAttr item "tabindex" "-1" s) items st)).
Proof.
  intros items. induction items as [|a items IH]; intros st; cbn [fold_left];
    [apply attrImage_refl|].
  eapply attrImage_trans; [|apply IH]. apply attrImage_setAttr. reflexivity.
Qed.

Lemma attrImage_initializeTabindex : forall nav st,
  attrImage (doc st) (doc (initializeTabindex nav st)).
Proof.
  intros nav st. unfold initializeTabindex. cbv zeta.
  pose proof (attrImage_fold_tabindex (getVisibleNavItems nav (doc st)) st) as Hf.
  destruct (optRef (querySelector activeItemSel nav)) as [a|].
  - eapply attrImage_trans; [exact Hf|].
    apply (attrImage_setAttr a "tabindex" "0"). reflexivity.
  - destruct (at_ (getVisibleNavItems nav (doc st)) 0) as [first|]; [|exact Hf].
    eapply attrImage_trans; [exact Hf|].
    apply (attrImage_setAttr first "tabindex" "0"). reflexivity.
Qed.

(** Every element that had a handle still has it, and what is visible
    below it is what was visible before. *)
Definition sameVisibleItems (d d' : forest) : Prop :=
  forall rn nav,
    getElem rn d = Some nav ->
    exists nav',
      getElem rn d' = Some nav' /\
      getVisibleNavItems nav' d' = getVisibleNavItems nav d /\
      textContent nav' = textContent nav.

Lemma attrImage_sameVisibleItems : forall d d', attrImage d d' -> sameVisibleItems d d'.
Proof.
  intros d d' (g & Hg & E) rn nav Hnav. subst d'. exists (mapElements g nav).
  rewrite getElem_mapElements by (apply attrOnly_keepsRef; exact Hg). rewrite Hnav.
  split; [reflexivity|].
  split; [apply getVisibleNavItems_attrOnly; exact Hg | apply SearchFacts.textContent_mapElements].
Qed.

Lemma attrImage_uniqueRefs : forall d d', attrImage d d' -> uniqueRefs d -> uniqueRefs d'.
Proof.
  intros d d' (g & Hg & E) Hu. subst d'. unfold uniqueRefs in *.
  rewrite elementsOf_mapElements, refsOf_map_mapElements; [exact Hu|].
  apply attrOnly_keepsRef; exact Hg.
Qed.

(** X19.  Moving the cursor, moving the focus and initialising the
    tabindexes never change which items are visible: after
    [setFocusedItem], [focus], [blur] and [initializeTabindex] every
    element of the document is still there under its handle, with the same
    text, and [getVisibleNavItems] gives for it the items it gave before. *)
Theorem cursor_moves_keep_visible_items : forall (m r : nat) (nav0 : node) (st : state),
  sameVisibleItems (doc st) (doc (setFocusedItem m st)) /\
  sameVisibleItems (doc st) (doc (focus r st)) /\
  sameVisibleItems (doc st) (doc (blur r st)) /\
  sameVisibleItems (doc st) (doc (initializeTabindex nav0 st)).
Proof.
  intros m r nav0 st.
  split; [apply attrImage_sameVisibleItems, attrImage_setFocusedItem|].
  split; [apply attrImage_sameVisibleItems, attrImage_focus|].
  split; [apply attrImage_sameVisibleItems, attrImage_blur|].
  apply attrImage_sameVisibleItems, attrImage_initializeTabindex.
Qed.

(** ** The roving tabindex under the keys *)

(** The cursor is one of [V]; it has tabindex 0 and the others have -1. *)
Definition tabRoving (V : list nat) (st : state) : Prop :=
  exists c,
    In c V /\ currentFocusedItem st = Some c /\
    forall r, In r V -> tabindexOf r (doc st) = Some (if Nat.eqb r c then "0" else "-1")%string.

Lemma tabindexOf_dropMarker : forall old r d,
  tabindexOf r (updateElement old (removeAttribute "data-focused") d) = tabindexOf r d.
Proof.
  intros old r d. rewrite !tabindexOf_headOf.
  rewrite headOf_updateElement by apply keepsRef_removeAttribute.
  destruct (headOf r d) as [e|]; [|reflexivity]. cbn [option_map].
  destruct (Nat.eqb old r); [|reflexivity]. attr_simpl. reflexivity.
Qed.

Lemma tabindexOf_onFocusOut : forall t rt r st,
  tabindexOf r (doc (onFocusOut t rt st)) = tabindexOf r (doc st).
Proof.
  intros t rt r st. unfold onFocusOut.
  destruct (getElem t (doc st)) as [x|]; [|reflexivity].
  destruct (matches (SelAttr "data-nav-item") x); [|reflexivity].
  match goal with |- context [if ?b then st else _] => destruct b end; [reflexivity|].
  apply tabindexOf_dropMarker.
Qed.

Lemma tabindexOf_focus : forall h r st, tabindexOf r (doc (focus h st)) = tabindexOf r (doc st).
Proof.
  intros h r st. unfold focus. destruct (activeElement st) as [old|]; [|reflexivity].
  destruct (Nat.eqb old h); [reflexivity|]. apply tabindexOf_onFocusOut.
Qed.

Lemma currentFocusedItem_onFocusOut : forall t rt st,
  currentFocusedItem (onFocusOut t rt st) = currentFocusedItem st.
Proof.
  intros t rt st. unfold onFocusOut.
  destruct (getElem t (doc st)) as [x|]; [|reflexivity].
  destruct (matches (SelAttr "data-nav-item") x); [|reflexivity].
  match goal with |- context [if ?b then st else _] => destruct b end; reflexivity.
Qed.

Lemma tabindexOf_blur : forall h r st, tabindexOf r (doc (blur h st)) = tabindexOf r (doc st).
Proof.
  intros h r st. unfold blur. destruct (activeElement st) as [old|]; [|reflexivity].
  destruct (Nat.eqb old h); [|reflexivity]. apply tabindexOf_onFocusOut.
Qed.

Lemma currentFocusedItem_blur : forall h st,
  currentFocusedItem (blur h st) = currentFocusedItem st.
Proof.
  intros h st. unfold blur. destruct (activeElement st) as [old|]; [|reflexivity].
  destruct (Nat.eqb old h); [|reflexivity]. apply currentFocusedItem_onFocusOut.
Qed.

Lemma focus_tabRoving : forall V h st, tabRoving V st -> tabRoving V (focus h st).
Proof.
  intros V h st (c & Hc & Hcur & Htab). exists c. split; [exact Hc|].
  split; [rewrite currentFocusedItem_focus; exact Hcur|].
  intros r Hr. rewrite tabindexOf_focus. apply Htab. exact Hr.
Qed.

Lemma setFocusedItem_tabRoving : forall V m st,
  allNavItems V (doc st) -> tabRoving V st -> In m V -> tabRoving V (setFocusedItem m st).
Proof.
  intros V m st HV (c & Hc & Hcur & Htab) Hm.
  destruct (setFocusedItem_navItem m st (HV m Hm)) as [Hd [Hcur' _]].
  exists m. split; [exact Hm|]. split; [exact Hcur'|].
  intros r Hr. destruct (HV r Hr) as [e [He _]].
  pose proof (Htab r Hr) as Ht. rewrite tabindexOf_headOf, He in Ht.
  rewrite tabindexOf_headOf, Hd, headOf_setCursor. rewrite Hcur. unfold clearPrevious.
  destruct (Nat.eqb r m) eqn:Erm.
  - apply Nat.eqb_eq in Erm. subst r. rewrite Nat.eqb_refl.
    destruct (negb (Nat.eqb c m));
      [rewrite headOf_clearCursor|]; rewrite He; simpl; attr_simpl; reflexivity.
  - rewrite Nat.eqb_sym in Erm. rewrite Erm.
    destruct (Nat.eqb c m) eqn:Ecm; simpl.
    + rewrite He. simpl. rewrite Ht.
      apply Nat.eqb_eq in Ecm. subst c. rewrite Nat.eqb_sym, Erm. reflexivity.
    + rewrite headOf_clearCursor, He. simpl.
      destruct (Nat.eqb c r) eqn:Ecr.
      * attr_simpl. reflexivity.
      * rewrite Ht. rewrite Nat.eqb_sym, Ecr. reflexivity.
Qed.

Section NavItemKeys.

Variable click : nat -> state -> state.
Variable collapseCurrentSection : nat -> state -> state.
Variable expandCurrentSection : nat -> state -> state.

(** What the four keys that move along the items do to the state: nothing,
    a focus on some element, or a move of the cursor to a visible item. *)
Inductive outcome (V : list nat) (st : state) : state -> Prop :=
| Stays : outcome V st st
| Focuses : forall h, outcome V st (focus h st)
| Moves : forall m, In m V -> outcome V st (setFocusedItem m st).

Definition movesAlong (k : string) : Prop :=
  k = "ArrowDown"%string \/ k = "ArrowUp"%string \/ k = "Home"%string \/ k = "End"%string.

Lemma handleNavItemKeydown_outcome : forall e st nav,
  movesAlong (key e) ->
  closest (SelClass "sidebar-nav") (target e) (doc st) = Some nav ->
  let r := handleNavItemKeydown click collapseCurrentSection expandCurrentSection e st in
  snd r = true /\ outcome (getVisibleNavItems nav (doc st)) st (fst r).
Proof.
  intros e st nav Hk Hnav r. subst r. unfold handleNavItemKeydown. rewrite Hnav. cbv zeta.
  set (items := getVisibleNavItems nav (doc st)).
  destruct Hk as [Hk | [Hk | [Hk | Hk]]]; rewrite Hk;
    cbn [String.eqb Ascii.eqb Bool.eqb].
  - destruct ((0 <=? indexOf (target e) items)%Z && _).
    + destruct (at_ items (indexOf (target e) items + 1)) as [next|] eqn:En;
        cbn [fst snd]; split; try reflexivity; [|constructor].
      apply Moves. eapply at_In; exact En.
    + destruct (optRef _) as [h|]; cbn [fst snd]; split; try reflexivity; constructor.
  - destruct (0 <? indexOf (target e) items)%Z.
    + destruct (at_ items (indexOf (target e) items - 1)) as [prev|] eqn:En;
        cbn [fst snd]; split; try reflexivity; [|constructor].
      apply Moves. eapply at_In; exact En.
    + destruct (indexOf (target e) items =? 0)%Z;
        destruct (sectionHeaderOf (target e) st) as [h|]; cbn [fst snd];
        split; try reflexivity; constructor.
  - destruct (at_ items 0) as [first|] eqn:En; cbn [fst snd]; split; try reflexivity;
      [|constructor].
    apply Moves. eapply at_In; exact En.
  - destruct (lastOf items) as [last|] eqn:En; cbn [fst snd]; split; try reflexivity;
      [|constructor].
    apply Moves. unfold lastOf in En. eapply at_In; exact En.
Qed.

(** X20.  ArrowDown, ArrowUp, Home and End on a nav item keep the roving
    tabindex.  When handles are unique and, among the visible items of the
    navigation around the target, the cursor is the one with tabindex 0 and
    all others have -1, then after the key the default is prevented, the
    same holds again for the same items, handles are still unique and the
    visible items of every element are what they were. *)
Theorem navigation_keys_keep_roving_tabindex : forall e st nav,
  movesAlong (key e) ->
  uniqueRefs (doc st) ->
  closest (SelClass "sidebar-nav") (target e) (doc st) = Some nav ->
  tabRoving (getVisibleNavItems nav (doc st)) st ->
  let r := handleNavItemKeydown click collapseCurrentSection expandCurrentSection e st in
  snd r = true /\
  tabRoving (getVisibleNavItems nav (doc st)) (fst r) /\
  uniqueRefs (doc (fst r)) /\
  sameVisibleItems (doc st) (doc (fst r)).
Proof.
  intros e st nav Hk Hu Hnav Hrov r.
  destruct (handleNavItemKeydown_outcome e st nav Hk Hnav) as [Hp Ho]. fold r in Hp, Ho.
  split; [exact Hp|].
  destruct (KeyboardClaims.closest_nav_items _ _ _ Hu Hnav) as [_ HV].
  destruct Ho as [| h | m Hm].
  - split; [exact Hrov|]. split; [exact Hu|].
    apply attrImage_sameVisibleItems, attrImage_refl.
  - split; [apply focus_tabRoving; exact Hrov|].
    split; [eapply attrImage_uniqueRefs; [apply attrImage_focus | exact Hu]|].
    apply attrImage_sameVisibleItems, attrImage_focus.
  - split; [apply setFocusedItem_tabRoving; assumption|].
    split; [eapply attrImage_uniqueRefs; [apply attrImage_setFocusedItem | exact Hu]|].
    apply attrImage_sameVisibleItems, attrImage_setFocusedItem.
Qed.

End NavItemKeys.

(** The example page with the cursor on the second lesson. *)
Definition onSecond : state := setFocusedItem 8 Examples.keyboardReady.

Lemma navigation_keys_witness :
  let r := handleNavItemKeydown KeyboardClaims.noopA KeyboardClaims.noopA KeyboardClaims.noopA
             (mkKeyEvent "End" 8) onSecond in
  snd r = true /\
  tabRoving (getVisibleNavItems (Examples.navOf (doc onSecond)) (doc onSecond)) (fst r).
Proof.
  refine (let H := navigation_keys_keep_roving_tabindex
                     KeyboardClaims.noopA KeyboardClaims.noopA KeyboardClaims.noopA
                     (mkKeyEvent "End" 8) onSecond (Examples.navOf (doc onSecond))
                     _ _ _ _ in
          conj (proj1 H) (proj1 (proj2 H))).
  - right. right. right. reflexivity.
  - apply uniqueRefsb_true. vm_compute. reflexivity.
  - vm_compute. reflexivity.
  - exists 8%nat. split; [vm_compute; right; left; reflexivity|].
    split; [vm_compute; reflexivity|].
    intros r Hr. vm_compute in Hr.
    destruct Hr as [<-|[<-|[<-|[]]]]; vm_compute; reflexivity.
Defined.

(** ** A key pressed outside the navigation *)

Lemma navigationKey_plain : forall k,
  isNavigationKey k = true -> String.eqb k "/" = false /\ String.eqb k "Escape" = false.
Proof.
  intros k H. unfold isNavigationKey in H. cbn [existsb] in H.
  repeat (apply orb_true_iff in H; destruct H as [H | H];
          [apply String.eqb_eq in H; subst k; split; reflexivity|]).
  discriminate.
Qed.

Lemma setFocusedItem_lands : forall m st,
  isNavItemAt m (doc st) ->
  tabindexOf m (doc (setFocusedItem m st)) = Some "0"%string /\
  isFocusedMarked m (doc (setFocusedItem m st)) = true /\
  currentFocusedItem (setFocusedItem m st) = Some m /\
  activeElement (setFocusedItem m st) = Some m.
Proof.
  intros m st Hm. destruct (setFocusedItem_navItem m st Hm) as (Hd & Hc & Ha).
  destruct (isNavItemAt_clearPrevious (currentFocusedItem st) m m (doc st) Hm) as (e & He & _).
  rewrite tabindexOf_headOf, isFocusedMarked_headOf, Hd, headOf_setCursor, He.
  cbn [option_map]. rewrite Nat.eqb_refl. unfold hasAttribute. attr_simpl.
  repeat split; assumption.
Qed.

(** The item the handler picks: the active item, else the stored cursor,
    else the first visible item; and the first visible item when the one
    picked so is not visible. *)
Definition landingItem (active current : option nat) (items : list nat) (first : nat) : nat :=
  match orElse active (orElse current (Some first)) with
  | Some ti => if includesRef ti items then ti else first
  | None => first
  end.

Definition activeNavOf (d : forest) : option node :=
  orElse
    (match docQuerySelector visibleSidebarSel d with
     | Some s => querySelector (SelClass "sidebar-nav") s
     | None => None
     end)
    (docQuerySelector (SelClass "sidebar-nav") d).

Lemma activeNavOf_In : forall d nav, activeNavOf d = Some nav -> In nav (elementsOf d).
Proof.
  intros d nav H. unfold activeNavOf, orElse in H.
  destruct (docQuerySelector visibleSidebarSel d) as [s|] eqn:Es.
  - destruct (querySelector (SelClass "sidebar-nav") s) as [x|] eqn:Ex.
    + inversion H; subst x. unfold docQuerySelector in Es. apply find_some in Es.
      unfold querySelector in Ex. apply find_some in Ex.
      eapply elementsOf_descendants; [exact (proj1 Es) | exact (proj1 Ex)].
    + unfold docQuerySelector in H. apply find_some in H. exact (proj1 H).
  - unfold docQuerySelector in H. apply find_some in H. exact (proj1 H).
Qed.

(** X21.  A navigation key pressed on an element that is no text entry, no
    section header and no nav item moves the focus into the sidebar: when
    the active navigation has visible items, the default is prevented and
    the cursor and the focus land on a visible item, which gets tabindex 0
    and the marker.  That item is the active item, else the stored cursor,
    else the first visible item; when the one picked so is not visible it
    is the first visible item, also when the stored cursor is visible. *)
Theorem key_elsewhere_lands_on_visible_item :
  forall click collapse expand (h : handler) (e : keyEvent) (st : state) (t nav : node),
    isNavigationKey (key e) = true ->
    getElem (target e) (doc st) = Some t ->
    isTextEntry t = false ->
    matches (SelClass "nav-section-header") t = false ->
    matches (SelAttr "data-nav-item") t = false ->
    activeNavOf (doc st) = Some nav ->
    uniqueRefs (doc st) ->
    getVisibleNavItems nav (doc st) <> [] ->
    let items := getVisibleNavItems nav (doc st) in
    let r := keydown click collapse expand h e st in
    exists first ti,
      at_ items 0 = Some first /\
      ti = landingItem (optRef (querySelector activeItemSel nav)) (currentFocusedItem st)
             items first /\
      In ti items /\
      r = (setFocusedItem ti st, true) /\
      activeElement (fst r) = Some ti /\ currentFocusedItem (fst r) = Some ti /\
      tabindexOf ti (doc (fst r)) = Some "0"%string /\ isFocusedMarked ti (doc (fst r)) = true.
Proof.
  intros click collapse expand h e st t nav Hk Ht Hte Hh Hi Hnav Hu Hne items r.
  destruct (navigationKey_plain _ Hk) as [Hslash Hesc].
  destruct (at_zero_In items Hne) as (first & Hfirst & Hfin).
  set (ti := landingItem (optRef (querySelector activeItemSel nav)) (currentFocusedItem st)
               items first).
  assert (Hti : In ti items).
  { subst ti. unfold landingItem.
    destruct (orElse _ _) as [x|]; [|exact Hfin].
    destruct (includesRef x items) eqn:Ex; [|exact Hfin].
    unfold includesRef in Ex. apply existsb_exists in Ex. destruct Ex as (y & Hy & Exy).
    apply Nat.eqb_eq in Exy. subst y. exact Hy. }
  assert (Hr : r = (setFocusedItem ti st, true)).
  { subst r. unfold keydown. rewrite Ht, Hte, Hslash, Hesc, Hk, Hh, Hi. cbn [andb negb].
    fold (activeNavOf (doc st)). rewrite Hnav. cbv zeta. fold items.
    assert (Hlen : (len items =? 0)%Z = false).
    { apply Z.eqb_neq. unfold len. destruct items; [contradiction | cbn [List.length]; lia]. }
    rewrite Hlen, Hfirst. subst ti. unfold landingItem.
    destruct (optRef (querySelector activeItemSel nav)) as [a|]; cbn [orElse].
    - destruct (includesRef a items); reflexivity.
    - destruct (currentFocusedItem st) as [c|]; cbn [orElse].
      + destruct (includesRef c items); reflexivity.
      + rewrite (includesRef_In first items Hfin). reflexivity. }
  assert (Hitem : isNavItemAt ti (doc st)).
  { eapply visible_item_isNavItem; [exact Hu | apply activeNavOf_In; exact Hnav | exact Hti]. }
  destruct (setFocusedItem_lands ti st Hitem) as (H1 & H2 & H3 & H4).
  exists first, ti. rewrite Hr. cbn [fst].
  repeat split; assumption.
Qed.

(** The element a handle denotes on the example page; handle 2 is the
    element that holds the search input and the navigation. *)
Definition elementAt (r : nat) (d : forest) : node :=
  match getElem r d with Some n => n | None => Text "" end.

Lemma key_elsewhere_witness :
  let r := keydown KeyboardClaims.noopA KeyboardClaims.noopA KeyboardClaims.noopA
             (mkHandler 1 (Some 3)) (mkKeyEvent "ArrowDown" 2) onSecond in
  activeElement (fst r) = Some 8%nat /\ tabindexOf 8 (doc (fst r)) = Some "0"%string.
Proof.
  assert (Hne : getVisibleNavItems (Examples.navOf (doc onSecond)) (doc onSecond) <> [])
    by (vm_compute; discriminate).
  assert (Hu : uniqueRefs (doc onSecond)) by (apply uniqueRefsb_true; vm_compute; reflexivity).
  assert (Hk : isNavigationKey (key (mkKeyEvent "ArrowDown" 2)) = true) by reflexivity.
  assert (Ht : getElem (target (mkKeyEvent "ArrowDown" 2)) (doc onSecond)
               = Some (elementAt 2 (doc onSecond))) by (vm_compute; reflexivity).
  assert (Hte : isTextEntry (elementAt 2 (doc onSecond)) = false) by (vm_compute; reflexivity).
  assert (Hh : matches (SelClass "nav-section-header") (elementAt 2 (doc onSecond)) = false)
    by (vm_compute; reflexivity).
  assert (Hi : matches (SelAttr "data-nav-item") (elementAt 2 (doc onSecond)) = false)
    by (vm_compute; reflexivity).
  assert (Hnav : activeNavOf (doc onSecond) = Some (Examples.navOf (doc onSecond)))
    by (vm_compute; reflexivity).
  destruct (key_elsewhere_lands_on_visible_item
              KeyboardClaims.noopA KeyboardClaims.noopA KeyboardClaims.noopA
              (mkHandler 1 (Some 3)) (mkKeyEvent "ArrowDown" 2) onSecond
              (elementAt 2 (doc onSecond)) (Examples.navOf (doc onSecond))
              Hk Ht Hte Hh Hi Hnav Hu Hne)
    as (first & ti & Hf & Hti & _ & _ & Ha & _ & Htab & _).
  assert (E : ti = 8%nat).
  { rewrite Hti. vm_compute in Hf. inversion Hf; subst first. vm_compute. reflexivity. }
  subst ti. split; [exact Ha | exact Htab].
Defined.

(** ** To the search box and back *)

Lemma getElem_attrImage : forall d d' r x,
  attrImage d d' -> getElem r d = Some x ->
  exists x', getElem r d' = Some x' /\ isTextEntry x' = isTextEntry x.
Proof.
  intros d d' r x (g & Hg & E) Hx. subst d'. exists (mapElements g x).
  rewrite getElem_mapElements by (apply attrOnly_keepsRef; exact Hg). rewrite Hx.
  split; [reflexivity|]. unfold isTextEntry.
  rewrite !matches_attrOnly by (exact Hg || reflexivity). reflexivity.
Qed.

(** X22.  From anywhere to the search box and back.  A "/" pressed on an
    element that is no text entry gives the focus to the search input of
    the handler; Escape pressed there is prevented and gives the focus
    back to the stored cursor.  The cursor and every tabindex are what they
    were before the two keys, and so are the visible items. *)
Theorem slash_then_escape_returns_to_cursor :
  forall click collapse expand (h : handler) (from s c : nat) (st : state) (t si : node),
    getElem from (doc st) = Some t ->
    isTextEntry t = false ->
    searchInputOf h = Some s ->
    getElem s (doc st) = Some si ->
    currentFocusedItem st = Some c ->
    let st1 := fst (keydown click collapse expand h (mkKeyEvent "/" from) st) in
    let r := keydown click collapse expand h (mkKeyEvent "Escape" s) st1 in
    activeElement st1 = Some s /\
    snd r = true /\
    activeElement (fst r) = Some c /\
    currentFocusedItem (fst r) = Some c /\
    (forall x, tabindexOf x (doc (fst r)) = tabindexOf x (doc st)) /\
    sameVisibleItems (doc st) (doc (fst r)).
Proof.
  intros click collapse expand h from s c st t si Ht Hte Hs Hsi Hc st1 r.
  assert (E1 : st1 = focus s st).
  { subst st1. unfold keydown. cbn [key target]. rewrite Ht, Hte, Hs. reflexivity. }
  destruct (getElem_attrImage (doc st) (doc st1) s si) as (si' & Hsi' & _);
    [rewrite E1; apply attrImage_focus | exact Hsi |].
  assert (E2 : r = (focus c (blur s st1), true)).
  { subst r. unfold keydown. cbn [key target]. rewrite Hsi', Hs.
    cbn [String.eqb Ascii.eqb Bool.eqb negb]. rewrite andb_false_r, Nat.eqb_refl.
    cbn [andb]. rewrite currentFocusedItem_blur, E1, currentFocusedItem_focus, Hc.
    reflexivity. }
  rewrite E2. cbn [fst snd].
  split; [rewrite E1; apply activeElement_focus|].
  split; [reflexivity|].
  split; [apply activeElement_focus|].
  split; [rewrite currentFocusedItem_focus, currentFocusedItem_blur, E1,
            currentFocusedItem_focus; exact Hc|].
  split.
  - intros x. rewrite tabindexOf_focus, tabindexOf_blur, E1. apply tabindexOf_focus.
  - apply attrImage_sameVisibleItems.
    eapply attrImage_trans; [|apply attrImage_focus].
    eapply attrImage_trans; [|apply attrImage_blur].
    rewrite E1. apply attrImage_focus.
Qed.

Lemma slash_then_escape_witness :
  let st1 := fst (keydown KeyboardClaims.noopA KeyboardClaims.noopA KeyboardClaims.noopA
                    (mkHandler 1 (Some 3)) (mkKeyEvent "/" 8) onSecond) in
  let r := keydown KeyboardClaims.noopA KeyboardClaims.noopA KeyboardClaims.noopA
             (mkHandler 1 (Some 3)) (mkKeyEvent "Escape" 3) st1 in
  activeElement st1 = Some 3%nat /\ activeElement (fst r) = Some 8%nat.
Proof.
  assert (Ht : getElem 8 (doc onSecond) = Some (elementAt 8 (doc onSecond)))
    by (vm_compute; reflexivity).
  assert (Hte : isTextEntry (elementAt 8 (doc onSecond)) = false) by (vm_compute; reflexivity).
  assert (Hsi : getElem 3 (doc onSecond) = Some (elementAt 3 (doc onSecond)))
    by (vm_compute; reflexivity).
  assert (Hc : currentFocusedItem onSecond = Some 8%nat) by (vm_compute; reflexivity).
  destruct (slash_then_escape_returns_to_cursor
              KeyboardClaims.noopA KeyboardClaims.noopA KeyboardClaims.noopA
              (mkHandler 1 (Some 3)) 8%nat 3%nat 8%nat onSecond
              (elementAt 8 (doc onSecond)) (elementAt 3 (doc onSecond))
              Ht Hte eq_refl Hsi Hc) as (H1 & _ & H3 & _).
  split; [exact H1 | exact H3].
Defined.

(** ** One listener on the document *)

Definition oneListener (st : state) : Prop :=
  keydownListeners st
  = match globalKeydownHandler st with Some h => [h] | None => [] end.

Lemma initKeyboardNavigation_oneListener : forall id st,
  oneListener st -> oneListener (initKeyboardNavigation id st).
Proof.
  intros id st H. unfold initKeyboardNavigation. cbv zeta.
  destruct (navOfSearchInput (getElementById id (doc st)) (doc st)) as [nav|]; [|exact H].
  unfold oneListener in *. cbn [keydownListeners globalKeydownHandler].
  rewrite H. destruct (globalKeydownHandler st) as [old|]; [|reflexivity].
  cbn [filter]. rewrite Nat.eqb_refl. reflexivity.
Qed.

(** X23.  However often [initKeyboardNavigation] runs, and with whatever
    ids, the document never has more than one keydown listener of the
    module: starting with the stored handler as the only listener (or none
    of both), the listeners after any number of calls are the stored
    handler alone. *)
Theorem init_keeps_one_keydown_listener : forall (ids : list string) (st : state),
  oneListener st ->
  oneListener (fold_left (fun s id => initKeyboardNavigation id s) ids st).
Proof.
  intros ids. induction ids as [|id ids IH]; intros st H; cbn [fold_left]; [exact H|].
  apply IH. apply initKeyboardNavigation_oneListener. exact H.
Qed.

Lemma init_keeps_one_listener_witness :
  List.length
    (keydownListeners
       (fold_left (fun s id => initKeyboardNavigation id s)
          ["sidebar-search-desktop"; "sidebar-search-mobile"; "sidebar-search-desktop"]
          Examples.keyboardStart)) = 1%nat.
Proof.
  pose proof (init_keeps_one_keydown_listener
                ["sidebar-search-desktop"; "sidebar-search-mobile"; "sidebar-search-desktop"]
                Examples.keyboardStart eq_refl) as H.
  unfold oneListener in H. rewrite H. vm_compute. reflexivity.
Defined.

(** ** Moving the cursor to where it is *)

Lemma setAssoc_same : forall name v l,
  find (fun kv => String.eqb name (fst kv)) l = Some (name, v) -> setAssoc name v l = l.
Proof.
  intros name v l. induction l as [|[k w] l IH]; cbn [find setAssoc fst]; [discriminate|].
  destruct (String.eqb name k) eqn:E.
  - intros H. inversion H; subst. reflexivity.
  - intros H. rewrite (IH H). reflexivity.
Qed.

Lemma find_key : forall name (l : list (string * string)) kv,
  find (fun kv => String.eqb name (fst kv)) l = Some kv -> fst kv = name.
Proof.
  intros name l kv H. apply find_some in H. destruct H as [_ H].
  apply String.eqb_eq in H. congruence.
Qed.

Lemma setAttribute_same : forall name v e,
  getAttribute name e = Some v -> setAttribute name v e = e.
Proof.
  intros name v e H. unfold getAttribute in H. unfold setAttribute, withAttributes.
  destruct (find (fun kv => String.eqb name (fst kv)) (attributes e)) as [[k w]|] eqn:E;
    [|discriminate].
  pose proof (find_key _ _ _ E) as Hk. cbn [fst snd] in *. inversion H; subst.
  rewrite (setAssoc_same _ _ _ E). destruct e; reflexivity.
Qed.

Lemma map_mapElements_fixed : forall g h d,
  (forall e, g (h e) = h e) ->
  map (mapElements g) (map (mapElements h) d) = map (mapElements h) d.
Proof.
  intros g h d H. rewrite map_map. apply map_ext. intros n.
  rewrite SearchFacts.mapElements_compose. apply SearchFacts.mapElements_ext. exact H.
Qed.

Lemma map_mapElements_compose : forall g h d,
  map (mapElements g) (map (mapElements h) d) = map (mapElements (fun e => g (h e))) d.
Proof.
  intros g h d. rewrite map_map. apply map_ext. intros n.
  apply SearchFacts.mapElements_compose.
Qed.

(** The two writes of the cursor on elements, and the marker taken off
    another element. *)
Definition cursorOn (m : nat) (e : element) : element :=
  atRef m (setAttribute "data-focused" "true") (atRef m (setAttribute "tabindex" "0") e).

Lemma atRef_hit : forall r g e, ref e = Some r -> atRef r g e = g e.
Proof. intros r g e H. unfold atRef, hasRef. rewrite H, Nat.eqb_refl. reflexivity. Qed.

Lemma atRef_miss : forall r g e, ref e <> Some r -> atRef r g e = e.
Proof.
  intros r g e H. unfold atRef, hasRef. destruct (ref e) as [r'|]; [|reflexivity].
  destruct (Nat.eqb r r') eqn:E; [|reflexivity].
  apply Nat.eqb_eq in E. subst r'. contradiction.
Qed.

Lemma cursorOn_hit : forall m e,
  ref e = Some m ->
  cursorOn m e = setAttribute "data-focused" "true" (setAttribute "tabindex" "0" e).
Proof.
  intros m e H. unfold cursorOn. rewrite (atRef_hit m _ e H).
  apply atRef_hit. exact H.
Qed.

Lemma cursorOn_miss : forall m e, ref e <> Some m -> cursorOn m e = e.
Proof.
  intros m e H. unfold cursorOn. rewrite (atRef_miss m _ e H). apply atRef_miss. exact H.
Qed.

Lemma cursorOn_fixed : forall m old e,
  old <> m ->
  let e' := atRef old (removeAttribute "data-focused") (cursorOn m e) in
  cursorOn m e' = e'.
Proof.
  intros m old e Hne e'. subst e'.
  assert (Hdec : ref e = Some m \/ ref e <> Some m).
  { destruct (ref e) as [r|]; [|right; discriminate].
    destruct (Nat.eq_dec r m) as [->|Hn]; [left; reflexivity | right; congruence]. }
  destruct Hdec as [Hm | Hm].
  - rewrite (cursorOn_hit m e Hm).
    set (x := setAttribute "data-focused" "true" (setAttribute "tabindex" "0" e)).
    assert (Hx : ref x = Some m) by exact Hm.
    rewrite (atRef_miss old _ x) by (rewrite Hx; congruence).
    rewrite (cursorOn_hit m x Hx).
    assert (Ht : setAttribute "tabindex" "0" x = x).
    { apply setAttribute_same. subst x. attr_simpl. reflexivity. }
    rewrite Ht. apply setAttribute_same. subst x. attr_simpl. reflexivity.
  - rewrite (cursorOn_miss m e Hm). apply cursorOn_miss.
    rewrite (keepsRef_atRef old _ (keepsRef_removeAttribute "data-focused") e). exact Hm.
Qed.

Lemma cursorOn_twice : forall m e, cursorOn m (cursorOn m e) = cursorOn m e.
Proof.
  intros m e.
  assert (Hdec : ref e = Some m \/ ref e <> Some m).
  { destruct (ref e) as [r|]; [|right; discriminate].
    destruct (Nat.eq_dec r m) as [->|Hn]; [left; reflexivity | right; congruence]. }
  destruct Hdec as [Hm | Hm].
  - rewrite (cursorOn_hit m e Hm).
    set (x := setAttribute "data-focused" "true" (setAttribute "tabindex" "0" e)).
    assert (Hx : ref x = Some m) by exact Hm.
    rewrite (cursorOn_hit m x Hx).
    assert (Ht : setAttribute "tabindex" "0" x = x).
    { apply setAttribute_same. subst x. attr_simpl. reflexivity. }
    rewrite Ht. apply setAttribute_same. subst x. attr_simpl. reflexivity.
  - rewrite (cursorOn_miss m e Hm). apply cursorOn_miss. exact Hm.
Qed.

(** X24.  [setFocusedItem] on the item the cursor is on changes nothing:
    a second call with the same item gives the state of the first. *)
Theorem setFocusedItem_twice : forall (m : nat) (st : state),
  setFocusedItem m (setFocusedItem m st) = setFocusedItem m st.
Proof.
  intros m st.
  set (st1 := match currentFocusedItem st with
              | Some c => if negb (Nat.eqb c m)
                          then removeAttr c "data-focused" (setAttr c "tabindex" "-1" st)
                          else st
              | None => st
              end).
  set (st3 := setAttr m "data-focused" "true" (setAttr m "tabindex" "0" st1)).
  assert (E : setFocusedItem m st = withCurrent (Some m) (focus m st3)) by reflexivity.
  rewrite E. clear E.
  assert (Hd3 : doc st3 = map (mapElements (cursorOn m)) (doc st1)).
  { subst st3. cbn [setAttr doc withDoc]. unfold updateElement.
    rewrite map_mapElements_compose. reflexivity. }
  assert (Hfix : map (mapElements (cursorOn m)) (doc (focus m st3)) = doc (focus m st3)).
  { assert (Hbase : map (mapElements (cursorOn m)) (doc st3) = doc st3).
    { rewrite Hd3. apply map_mapElements_fixed. intros e. apply cursorOn_twice. }
    unfold focus. destruct (activeElement st3) as [old|]; [|exact Hbase].
    destruct (Nat.eqb old m) eqn:Eo; [exact Hbase|]. apply Nat.eqb_neq in Eo.
    change (doc (withActive (Some m) (onFocusOut old (Some m) st3)))
      with (doc (onFocusOut old (Some m) st3)).
    unfold onFocusOut. destruct (getElem old (doc st3)) as [x|]; [|exact Hbase].
    destruct (matches (SelAttr "data-nav-item") x); [|exact Hbase].
    match goal with |- context [if ?b then st3 else _] => destruct b end; [exact Hbase|].
    cbn [removeAttr doc withDoc]. unfold updateElement.
    rewrite Hd3.
    rewrite (map_mapElements_compose (atRef old (removeAttribute "data-focused"))
               (cursorOn m) (doc st1)).
    apply map_mapElements_fixed. intros e.
    apply (cursorOn_fixed m old e Eo). }
  unfold setFocusedItem at 1. cbv zeta.
  cbn [currentFocusedItem withCurrent]. rewrite Nat.eqb_refl. cbn [negb].
  set (st' := withCurrent (Some m) (focus m st3)).
  assert (Hd : doc (setAttr m "data-focused" "true" (setAttr m "tabindex" "0" st')) = doc st').
  { cbn [setAttr doc withDoc]. unfold updateElement.
    rewrite map_mapElements_compose. exact Hfix. }
  assert (Ha : activeElement st' = Some m) by apply activeElement_focus.
  unfold focus.
  change (activeElement (setAttr m "data-focused" "true" (setAttr m "tabindex" "0" st')))
    with (activeElement st').
  rewrite Ha, Nat.eqb_refl.
  unfold withCurrent at 1.
  change (globalKeydownHandler (setAttr m "data-focused" "true" (setAttr m "tabindex" "0" st')))
    with (globalKeydownHandler st').
  change (keydownListeners (setAttr m "data-focused" "true" (setAttr m "tabindex" "0" st')))
    with (keydownListeners st').
  change (activeElement (setAttr m "data-focused" "true" (setAttr m "tabindex" "0" st')))
    with (activeElement st').
  rewrite Hd. subst st'. reflexivity.
Qed.

End KeyboardProperties.

(* ================================================================== *)
(** * The module with two listeners: listeners and visible items *)
(* ================================================================== *)

Module KeyboardSplitProperties.
Import Nav DomFacts NavFacts KeyboardSplit KeyboardSplitFacts.
Import KeyboardProperties.

(** The listeners that are installed are the ones the module variables
    say: [handleGlobalKeydown] is on the document exactly when
    [globalKeydownHandler] is set, and [handleNavKeydown] is on
    [currentNav] alone, when both are set. *)
Definition listenersMatch (st : state) : Prop :=
  documentListening st = globalKeydownHandler st /\
  navListening st
  = match navKeydownHandler st, currentNav st with
    | true, Some n => [n]
    | _, _ => []
    end.

Lemma initKeyboardNavigation_listenersMatch : forall id st,
  listenersMatch st -> listenersMatch (initKeyboardNavigation id st).
Proof.
  intros id st [Hd Hn]. unfold initKeyboardNavigation. cbv zeta.
  destruct (navOfSearchInput (getElementById id (doc st)) (doc st)) as [nav|];
    [|split; assumption].
  unfold listenersMatch.
  cbn [documentListening globalKeydownHandler navListening navKeydownHandler currentNav].
  split; [apply orb_true_r|].
  assert (H1 : match navKeydownHandler st, currentNav st with
               | true, Some old => filter (fun r => negb (Nat.eqb r old)) (navListening st)
               | _, _ => navListening st
               end = []).
  { rewrite Hn. destruct (navKeydownHandler st); [|reflexivity].
    destruct (currentNav st) as [old|]; [|reflexivity].
    cbn [filter]. rewrite Nat.eqb_refl. reflexivity. }
  rewrite H1. destruct (refOf nav) as [rn|]; reflexivity.
Qed.

(** X25.  In the module with two listeners, however often
    [initKeyboardNavigation] runs and with whatever ids, listeners are
    never duplicated and none is left behind: [handleGlobalKeydown] is on
    the document once, and [handleNavKeydown] is on the current navigation
    and on no earlier one. *)
Theorem split_init_keeps_listeners_single : forall (ids : list string) (st : state),
  listenersMatch st ->
  listenersMatch (fold_left (fun s id => initKeyboardNavigation id s) ids st).
Proof.
  intros ids. induction ids as [|id ids IH]; intros st H; cbn [fold_left]; [exact H|].
  apply IH. apply initKeyboardNavigation_listenersMatch. exact H.
Qed.

Lemma split_init_listeners_witness :
  navListening
    (fold_left (fun s id => initKeyboardNavigation id s)
       ["sidebar-search-desktop"; "sidebar-search-desktop"] Examples.splitStart)
  = [4%nat].
Proof.
  destruct (split_init_keeps_listeners_single
              ["sidebar-search-desktop"; "sidebar-search-desktop"] Examples.splitStart
              (conj eq_refl eq_refl)) as [_ H].
  rewrite H. vm_compute. reflexivity.
Defined.

Lemma attrImage_split_setAttr : forall r name v st,
  cursorAttr name = true -> attrImage (doc st) (doc (setAttr r name v st)).
Proof. intros. apply attrImage_updateElement, attrOnly_setAttribute. assumption. Qed.

Lemma attrImage_split_removeAttr : forall r name st,
  cursorAttr name = true -> attrImage (doc st) (doc (removeAttr r name st)).
Proof. intros. apply attrImage_updateElement, attrOnly_removeAttribute. assumption. Qed.

Lemma attrImage_split_focus : forall r st, attrImage (doc st) (doc (focus r st)).
Proof.
  intros r st. unfold focus. destruct (activeElement st) as [old|]; [|apply attrImage_refl].
  destruct (Nat.eqb old r); [apply attrImage_refl|].
  change (doc (withActive (Some r) (onFocusOut old st))) with (doc (onFocusOut old st)).
  unfold onFocusOut. destruct (getElem old (doc st)) as [x|]; [|apply attrImage_refl].
  destruct (matches (SelAttr "data-nav-item") x); [|apply attrImage_refl].
  apply attrImage_split_removeAttr. reflexivity.
Qed.

Lemma attrImage_split_setFocusedItem : forall m st,
  attrImage (doc st) (doc (setFocusedItem m st)).
Proof.
  intros m st. unfold setFocusedItem. cbv zeta.
  set (st1 := match currentFocusedItem st with
              | Some c => removeAttr c "data-focused" (setAttr c "tabindex" "-1" st)
              | None => st
              end).
  assert (H1 : attrImage (doc st) (doc st1)).
  { subst st1. destruct (currentFocusedItem st) as [c|]; [|apply attrImage_refl].
    eapply attrImage_trans; [apply (attrImage_split_setAttr c "tabindex" "-1" st); reflexivity|].
    apply attrImage_split_removeAttr. reflexivity. }
  change (doc (withCurrent (Some m)
                 (focus m (setAttr m "data-focused" "true" (setAttr m "tabindex" "0" st1)))))
    with (doc (focus m (setAttr m "data-focused" "true" (setAttr m "tabindex" "0" st1)))).
  eapply attrImage_trans; [exact H1|].
  eapply attrImage_trans; [apply (attrImage_split_setAttr m "tabindex" "0" st1); reflexivity|].
  eapply attrImage_trans; [|apply attrImage_split_focus].
  apply attrImage_split_setAttr. reflexivity.
Qed.

Lemma attrImage_split_fold : forall items st,
  attrImage (doc st) (doc (fold_left (fun s item => setAttr item "tabindex" "-1" s) items st)).
Proof.
  intros items. induction items as [|a items IH]; intros st; cbn [fold_left];
    [apply attrImage_refl|].
  eapply attrImage_trans; [|apply IH]. apply attrImage_split_setAttr. reflexivity.
Qed.

Lemma attrImage_split_init : forall id st,
  attrImage (doc st) (doc (initKeyboardNavigation id st)).
Proof.
  intros id st. unfold initKeyboardNavigation. cbv zeta.
  destruct (navOfSearchInput (getElementById id (doc st)) (doc st)) as [nav|];
    [|apply attrImage_refl].
  cbn [doc].
  pose proof (attrImage_split_fold (getVisibleNavItems nav (doc st)) st) as Hf.
  destruct (optRef (querySelector activeItemSel nav)) as [a|].
  - eapply attrImage_trans; [exact Hf|].
    apply (attrImage_split_setAttr a "tabindex" "0"). reflexivity.
  - destruct (at_ (getVisibleNavItems nav (doc st)) 0) as [first|]; [|exact Hf].
    eapply attrImage_trans; [exact Hf|].
    apply (attrImage_split_setAttr first "tabindex" "0"). reflexivity.
Qed.

(** X26.  In the module with two listeners too, initialising, moving the
    cursor and moving the focus never change which items are visible:
    after [initKeyboardNavigation], [setFocusedItem] and [focus] every
    element is still there under its handle, with the same text and the
    same visible items below it, and handles that were unique still
    are. *)
Theorem split_cursor_moves_keep_visible_items : forall (id : string) (m r : nat) (st : state),
  (sameVisibleItems (doc st) (doc (initKeyboardNavigation id st)) /\
   sameVisibleItems (doc st) (doc (setFocusedItem m st)) /\
   sameVisibleItems (doc st) (doc (focus r st))) /\
  (uniqueRefs (doc st) ->
   uniqueRefs (doc (initKeyboardNavigation id st)) /\
   uniqueRefs (doc (setFocusedItem m st)) /\
   uniqueRefs (doc (focus r st))).
Proof.
  intros id m r st. split.
  - split; [apply attrImage_sameVisibleItems, attrImage_split_init|].
    split; [apply attrImage_sameVisibleItems, attrImage_split_setFocusedItem|].
    apply attrImage_sameVisibleItems, attrImage_split_focus.
  - intros Hu.
    split; [eapply attrImage_uniqueRefs; [apply attrImage_split_init | exact Hu]|].
    split; [eapply attrImage_uniqueRefs; [apply attrImage_split_setFocusedItem | exact Hu]|].
    eapply attrImage_uniqueRefs; [apply attrImage_split_focus | exact Hu].
Qed.

(** ** ArrowDown on an item that is not visible *)

Lemma indexOf_absent : forall x l, ~ In x l -> indexOf x l = (-1)%Z.
Proof.
  intros x l. induction l as [|y l IH]; intros H; [reflexivity|].
  cbn [indexOf]. destruct (Nat.eqb x y) eqn:E.
  - apply Nat.eqb_eq in E. subst y. exfalso. apply H. left. reflexivity.
  - rewrite IH by (intros Hin; apply H; right; exact Hin). reflexivity.
Qed.

(** X27.  ArrowDown on a nav item that is not among the visible items of
    its navigation (it is hidden by the search, or its section is
    collapsed).  The module with two listeners moves the cursor to the
    first visible item when there is one, and does nothing when there is
    none; the module with one global handler gives the focus to the first
    section header of the navigation, if there is one, and leaves the
    cursor where it is.  Both prevent the default. *)
Theorem arrow_down_from_item_not_visible :
  (forall click collapse expand (e : keyEvent) (st : state) (tn nav : node),
     key e = "ArrowDown"%string ->
     getElem (target e) (doc st) = Some tn ->
     matches (SelClass "nav-section-header") tn = false ->
     matches (SelAttr "data-nav-item") tn = true ->
     closest (SelClass "sidebar-nav") (target e) (doc st) = Some nav ->
     ~ In (target e) (getVisibleNavItems nav (doc st)) ->
     handleNavKeydown click collapse expand e st
     = (match at_ (getVisibleNavItems nav (doc st)) 0 with
        | Some first => setFocusedItem first st
        | None => st
        end, true))
  /\
  (forall click collapse expand (e : keyEvent) (st : Keyboard.state) (nav : node),
     key e = "ArrowDown"%string ->
     closest (SelClass "sidebar-nav") (target e) (Keyboard.doc st) = Some nav ->
     ~ In (target e) (getVisibleNavItems nav (Keyboard.doc st)) ->
     let r := Keyboard.handleNavItemKeydown click collapse expand e st in
     r = (match Keyboard.optRef (querySelector (SelClass "nav-section-header") nav) with
          | Some firstHeader => Keyboard.focus firstHeader st
          | None => st
          end, true)
     /\ Keyboard.currentFocusedItem (fst r) = Keyboard.currentFocusedItem st).
Proof.
  split.
  - intros click collapse expand e st tn nav Hk Ht Hh Hi Hnav Hout.
    unfold handleNavKeydown. rewrite Ht, Hh, Hi, Hnav, Hk. cbv zeta.
    cbn [negb String.eqb Ascii.eqb Bool.eqb].
    rewrite (indexOf_absent _ _ Hout).
    destruct (getVisibleNavItems nav (doc st)) as [|first items]; [reflexivity|].
    assert (Hlt : (-1 <? len (first :: items) - 1)%Z = true).
    { apply Z.ltb_lt. unfold len. cbn [List.length]. lia. }
    rewrite Hlt. reflexivity.
  - intros click collapse expand e st nav Hk Hnav Hout r. subst r.
    unfold Keyboard.handleNavItemKeydown. rewrite Hnav, Hk. cbv zeta.
    cbn [String.eqb Ascii.eqb Bool.eqb].
    rewrite (indexOf_absent _ _ Hout). cbn [Z.leb Z.compare andb].
    destruct (Keyboard.optRef (querySelector (SelClass "nav-section-header") nav)) as [h|];
      cbn [fst]; split; try reflexivity.
    apply KeyboardFacts.currentFocusedItem_focus.
Qed.

(** The example page with the second lesson hidden by the search, and the
    cursor still on it. *)
Definition secondHidden : state :=
  withDoc (updateElement 8 (classAdd "hidden") (doc (setFocusedItem 8 Examples.splitReady)))
    (setFocusedItem 8 Examples.splitReady).

Lemma arrow_down_from_item_not_visible_witness :
  fst (handleNavKeydown KeyboardClaims.noopB KeyboardClaims.noopB KeyboardClaims.noopB
         (mkKeyEvent "ArrowDown" 8) secondHidden)
  = setFocusedItem 7 secondHidden.
Proof.
  assert (Ht : getElem 8 (doc secondHidden) = Some (elementAt 8 (doc secondHidden)))
    by (vm_compute; reflexivity).
  assert (Hh : matches (SelClass "nav-section-header") (elementAt 8 (doc secondHidden)) = false)
    by (vm_compute; reflexivity).
  assert (Hi : matches (SelAttr "data-nav-item") (elementAt 8 (doc secondHidden)) = true)
    by (vm_compute; reflexivity).
  assert (Hnav : closest (SelClass "sidebar-nav") 8 (doc secondHidden)
                 = Some (elementAt 4 (doc secondHidden))) by (vm_compute; reflexivity).
  assert (Hout : ~ In 8%nat (getVisibleNavItems (elementAt 4 (doc secondHidden))
                               (doc secondHidden))).
  { vm_compute. intros [H | [H | []]]; discriminate. }
  rewrite (proj1 arrow_down_from_item_not_visible
             KeyboardClaims.noopB KeyboardClaims.noopB KeyboardClaims.noopB
             (mkKeyEvent "ArrowDown" 8) secondHidden
             (elementAt 8 (doc secondHidden)) (elementAt 4 (doc secondHidden))
             eq_refl Ht Hh Hi Hnav Hout).
  vm_compute. reflexivity.
Defined.

End KeyboardSplitProperties.
